(* ===== verification/_CoqProject ===== *)
-Q . S2P
Prelude.v
Text.v
Address.v
Marshall.v
Rpc.v
Protocols.v
Rpcc.v
Rpcs.v
ThrPool.v
Connection.v
Aio.v
PollMgr.v
ConnRef.v
RpccCall.v
EndToEnd.v
Loopback.v
Rpctest.v
RpctestPasses.v
Handle.v
PaxosLog.v
Acceptor.v
Proposer.v
Config.v
Rsm.v
RsmTest.v
Views.v
RsmClient.v
LockServer.v
LockServerCache.v
LockClientCache.v
Extent.v
ExtentService.v
Coherence.v
Handover.v
LockTester.v
YfsClient.v
System.v
Fuse.v
Posix.v
LabTest.v
MemKernel.v
LabPasses.v
