(* ===== verification/Prelude.v ===== *)
(** * A verification of the Frangipani-style file server YFS

    The program is a distributed file system in C++: clients mount a file
    system through FUSE, keep files and directories as extents on an extent
    server, and coordinate through a lock server with client-side caching of
    locks and extents; the lock server is to be replicated with Paxos.  All
    parts talk through an RPC library of the repository's own.

    ** Parts and files

    - [Text]: [std::string] and the stream extractions [>>], [<<], [getline]
      that the sources use to keep numbers and names as text.  The functions
      are written from the language standard; the loops that read a stream
      have the length of the text as fuel, and each extraction is shown to
      consume a character, so that is enough.
    - [Marshall] ([rpc/marshall.h], [rpc/rpc.cc] 724-954): the buffers
      [marshall] and [unmarshall], integers at their width, strings, vectors,
      maps and the headers of blocks.  A read outside the block sets a ghost
      flag ([u_oob]) that the code does not have.
    - [Rpc] ([rpc/rpc.h]): the call stubs and the registered handlers for each
      number of arguments; a handler is a function on the service's state.
    - [Protocols] ([extent_protocol.h], [lock_protocol.h],
      [paxos_protocol.h], [rsm_protocol.h]): the messages, each with an encoder
      and a decoder that obey the class [WireLaws].
    - [Address] ([make_sockaddr] of [rpc/rpc.cc]): the texts that name hosts,
      nodes and lock clients, and the addresses they stand for.
    - [Rpcc] ([rpcc] of [rpc/rpc.cc]): calls in flight, the window of received
      replies, the arithmetic of deadlines.  [RpccCall]: the loop of
      [rpcc::call1] that waits and sends again, a function of what the clock
      and the connection do in each round, and the client's connection with
      the references that its threads hold.
    - [Rpcs] ([rpcs] of [rpc/rpc.cc]): the window of remembered replies, whose
      buffers live on an explicit heap, the dispatch of a request in two
      halves, between which the handler runs, and a pool of workers whose
      events interleave in any order.
    - [ThrPool] ([rpc/thr_pool.cc], [rpc/fifo.h]): the bounded queue and the
      workers, one step for each stretch between two waits.
    - [Connection] ([rpc/connection.cc]): a connection as the two halves of a
      byte stream, each system call with the result that the kernel gives it.
      [ConnRef]: the reference counts of connections on a store, the listener
      with its table.  [Aio] ([rpc/pollmgr.cc]): the select and the epoll
      implementation of [aio_mgr] as instances of one class with its laws.
      [PollMgr]: the loop of the poll manager and [block_remove_fd], proved
      against that class.
    - [EndToEnd]: a call through all of it: stub, header, frames on the
      stream, dispatch, handler, reply, result.  [Loopback]: a call and a
      [bind] that nothing interrupts, as functions on the client and the
      server, for any service.
    - [Rpctest] ([rpc/rpctest.cc]): the handlers, the tests as the calls that
      their threads make, and a network in which the calls of all threads are
      under way at once; [RpctestPasses] has its theorems.
    - [Handle] ([handle.cc]): the table of bound clients.
    - [PaxosLog] ([log.cc]), [Acceptor] and [Proposer] ([paxos.cc]): the log
      file as text, the acceptor's handlers, the proposer's loops as functions
      of what the calls return; the network of all nodes is a step relation in
      which any message may be lost, delayed or duplicated.
    - [Config] ([config.cc]): views as the values of Paxos, the changes of
      membership, the heartbeats.  [Rsm] ([rsm.cc]): recovery, joining and the
      choice of the primary ([client_invoke] and [invoke] have empty bodies in
      the source, as they have in the model).  [RsmClient] ([rsm_client.cc]):
      the calls of several threads over the primary.  [RsmTest]
      ([rsm_tester.cc], [rsmtest_client.cc]): the test server of a node and the
      program that calls it.  [Views]: the instances of Paxos one after the
      other on one network, with [Config] and [Rsm] on top.
    - [LockServer] ([lock_server.cc]), [LockServerCache]
      ([lock_server_cache.cc]) and [LockClientCache]
      ([lock_client_cache.cc]): one step for each stretch of code between two
      points where a thread gives up the mutex; a thread that walks a list
      across such a point keeps its iterator in the state.
    - [Extent] ([extent_server.cc], [extent_client.cc]): the store and the
      write-back cache, every call of which may get lost or lose its reply.
      [ExtentService] ([extent_smain.cc]): the server program, and the calls of
      the client through the RPC library.
    - [Coherence]: any number of clients with both caches, the lock server with
      its threads and the extent server, with the calls between them as steps
      of their own; [dorelease] ([yfs_client.h]) joins the two caches.
      [Handover]: the steps that a lock takes from one client to another.
      [LockTester] ([lock_tester.cc]): the monitor and the five tests, run by
      threads of these clients.
    - [YfsClient] ([yfs_client.cc]): the operations of the file system over
      the class [Store], the extents and the locks, with its laws
      [StoreLaws].  One caching extent client is an instance; [System] is the
      other: a client among all those of [Coherence], whose lock calls move
      locks between the clients.  [Fuse] ([fuse.cc]): the callbacks over it,
      the replies they send and the directory buffer.
    - [Posix]: programs as trees of system calls, what a program relies on and
      what it leaves to the others, and the laws of a kernel as a class.
      [LabTest] ([test-lab-4-b.c], [test-lab-4-c.c]): the test programs, the
      tests that fork as two programs whose calls come in any order.
      [MemKernel]: a kernel that keeps the files in memory, an instance of the
      laws.  [LabPasses]: the programs against the laws.

    ** What the theorems show

    - Wire: every message and call is decoded to what was encoded, whatever
      follows it; arguments of the wrong shape are refused; reading a string
      stays inside the block unless its length wraps the bounds test.
    - RPC: a handler runs at most once for a request, however often and in
      whatever order it arrives; a duplicate gets the first reply; the client
      never acknowledges a call that is pending, and the first reply is the
      one that is delivered; [call1] ends within its timeout and sends again
      only after a connection failed.
    - Transport: the blocks that one side sends are those the other side gets,
      in order, however the stream is cut; a call carried over the stream
      gives what the handler returns, and the extent service reached by calls
      is the extent server; no connection is used after it was
      freed, and each is freed; the two implementations of [aio_mgr] report
      the same descriptors; after [block_remove_fd] no callback of the
      descriptor runs, and it does return.  Jobs are run once each, in order.
    - Handles and views: a handle in use is not freed; a node's view is the
      last value that Paxos decided; joining brings a node to the view of the
      primary; the primary is a member of the view and stays if it can; two
      nodes that have a view with the same number have the same members.
    - Paxos: no two values are chosen in an instance, under the condition that
      the counters of two proposers differ, and without it they can be; an
      acceptor keeps its promises and its decisions, also across a crash; a
      log is transferred faithfully.
    - Locks: one holder at a time at the server and among the threads of a
      client, with the condition each needs stated and runs that violate it;
      waiting clients are served in order.  A client that asks for a lock that
      another client has cached gets it, by the steps of the revoker, the
      releaser and the retryer; the monitor of the lock tester never exits.
    - Extents: the client sees its own updates, and a flush makes the server
      hold exactly what the client saw.
    - Caches together: a thread that holds the lock of an extent reads what was
      put last by any client; one thread of all clients holds a lock.  The runs
      this is shown for are those in which what the protocol relies on holds
      ([coherence.careful]), and for each condition there is a run that breaks
      it and what it leads to.
    - Files: directories read back as the entries that were created, unlink
      takes out exactly the name, reads give what was written, and locks are
      released on every path but one; every extent an operation accesses is
      locked, apart from those of the numbers that are drawn for a new file.
      What one client creates and writes is what every other client looks up
      and reads.
    - Tests: the two-mount tests pass on a kernel that obeys its laws, under
      every interleaving of the processes; the threads of the RPC test get
      their own answers in every order of arrival and come to an end, and its
      failure test sees the server go and come back as it expects; the tester
      of the state machine sets the breakpoints that exist.

    The theorems of concrete runs (their statements have no variables) are
    counterexamples: behaviours the code has that its callers do not expect.

    ** Bounds

    Loops over lists are structural.  Loops that read a stream or a directory
    have the length of the text as fuel, the loops that a peer or the kernel
    drives ([call1], [wait_loop], the senders and readers of a connection) are
    functions of, or relations over, the list of what happens, and a theorem
    says that they end or what stops them.  Integers have their width.

    ** Not modelled

    The set-up of sockets and the lossy mode of connections (a test aid);
    the wrappers of pthread calls ([rpc/method_thread.h], [rpc/slock.h]);
    spurious wake-ups of condition variables, except where a theorem is about
    one; printing ([jsl_log]); [gettime.cc], which replaces a system call on
    another platform; the [main] functions of [fuse.cc] (the mount) and
    [lock_smain.cc] (it only creates the [rsm] object); [lock_client.cc], whose
    functions make one call each, and [lock_demo.cc], which makes one of them;
    of [rpctest.cc] the measurement of memory, the loss of messages and the
    options; the functions of [test-lab-4-c.c] that nothing calls.  Memory is
    modelled where buffers, connections and handles are freed, and nowhere
    else.  Time is a parameter wherever the code reads it, random numbers are
    an argument, and indeterminate values are explicit ([option], or a
    parameter that may be anything). *)

From stdpp Require Import gmap list strings relations.
From Stdlib Require Import ZArith Lia Ascii.

(** ** Notations, hint database and tactics of the development *)

Declare Scope yfs_scope.
Delimit Scope yfs_scope with yfs.

Create HintDb yfs discriminated.

(** Case analysis on every test of the goal, with the equations simplified. *)
Ltac break_match :=
  match goal with
  | |- context [match ?x with _ => _ end] => destruct x eqn:?
  end; simplify_eq/=.

(** The same in hypothesis [H]. *)
Ltac break_match_in H :=
  match type of H with
  | context [match ?x with _ => _ end] => destruct x eqn:?
  end; simplify_eq/=.

(** Turn the boolean tests of the code into the propositions they decide. *)
Ltac to_prop :=
  repeat match goal with
  | H : bool_decide _ = true |- _ => apply bool_decide_eq_true in H
  | H : bool_decide _ = false |- _ => apply bool_decide_eq_false in H
  | H : negb _ = true |- _ => apply negb_true_iff in H
  | H : negb _ = false |- _ => apply negb_false_iff in H
  | H : _ && _ = true |- _ => apply andb_true_iff in H; destruct H
  | H : _ || _ = false |- _ => apply orb_false_iff in H; destruct H
  | H : (_ =? _)%Z = true |- _ => apply Z.eqb_eq in H
  | H : (_ =? _)%Z = false |- _ => apply Z.eqb_neq in H
  | H : (_ <? _)%Z = true |- _ => apply Z.ltb_lt in H
  | H : (_ <? _)%Z = false |- _ => apply Z.ltb_ge in H
  | H : (_ <=? _)%Z = true |- _ => apply Z.leb_le in H
  | H : (_ <=? _)%Z = false |- _ => apply Z.leb_gt in H
  | H : (_ >? _)%Z = true |- _ => rewrite Z.gtb_ltb in H
  | H : (_ >? _)%Z = false |- _ => rewrite Z.gtb_ltb in H
  | H : (_ >=? _)%Z = true |- _ => rewrite Z.geb_leb in H
  | H : (_ >=? _)%Z = false |- _ => rewrite Z.geb_leb in H
  end.

(** ** Fixed-width integers

    The C types of the sources: [unsigned char], [unsigned short],
    [unsigned int], [unsigned long long] (and [size_t]) as the
    non-negative residues, [int] as the two's-complement residue. *)

Section Widths.
Local Open Scope Z_scope.

Definition u8 (z : Z) : Z := z mod 2 ^ 8.
Definition u16 (z : Z) : Z := z mod 2 ^ 16.
Definition u32 (z : Z) : Z := z mod 2 ^ 32.
Definition u64 (z : Z) : Z := z mod 2 ^ 64.
Definition s32 (z : Z) : Z := (z + 2 ^ 31) mod 2 ^ 32 - 2 ^ 31.

Definition is_u8 (z : Z) : Prop := 0 <= z < 2 ^ 8.
Definition is_u16 (z : Z) : Prop := 0 <= z < 2 ^ 16.
Definition is_u32 (z : Z) : Prop := 0 <= z < 2 ^ 32.
Definition is_u64 (z : Z) : Prop := 0 <= z < 2 ^ 64.
Definition is_s32 (z : Z) : Prop := - 2 ^ 31 <= z < 2 ^ 31.

Lemma u8_range z : is_u8 (u8 z).
Proof. unfold is_u8, u8. apply Z.mod_pos_bound. lia. Qed.
Lemma u16_range z : is_u16 (u16 z).
Proof. unfold is_u16, u16. apply Z.mod_pos_bound. lia. Qed.
Lemma u32_range z : is_u32 (u32 z).
Proof. unfold is_u32, u32. apply Z.mod_pos_bound. lia. Qed.
Lemma u64_range z : is_u64 (u64 z).
Proof. unfold is_u64, u64. apply Z.mod_pos_bound. lia. Qed.
Lemma s32_range z : is_s32 (s32 z).
Proof.
  unfold is_s32, s32. pose proof (Z.mod_pos_bound (z + 2 ^ 31) (2 ^ 32)). lia.
Qed.

Lemma u16_small z : is_u16 z -> u16 z = z.
Proof. apply Z.mod_small. Qed.
Lemma u32_small z : is_u32 z -> u32 z = z.
Proof. apply Z.mod_small. Qed.
Lemma u64_small z : is_u64 z -> u64 z = z.
Proof. apply Z.mod_small. Qed.
Lemma s32_small z : is_s32 z -> s32 z = z.
Proof. unfold is_s32, s32. intros. rewrite Z.mod_small; lia. Qed.

Lemma s32_u32 z : s32 (u32 z) = s32 z.
Proof. unfold s32, u32. by rewrite Zplus_mod_idemp_l. Qed.

Lemma u32_s32 z : u32 (s32 z) = u32 z.
Proof.
  unfold s32, u32. rewrite Zminus_mod_idemp_l. f_equal. lia.
Qed.
End Widths.

#[export] Hint Resolve u8_range u16_range u32_range u64_range s32_range : yfs.

(** ** [std::list], [std::find] and friends *)

Section Lists.
Context {A : Type} `{EqDecision A}.

(** [std::find(l.begin(), l.end(), x) != l.end()] *)
Definition std_mem (x : A) (l : list A) : bool := bool_decide (x ∈ l).

(** [l.erase(std::find(l.begin(), l.end(), x))], nothing if absent *)
Fixpoint erase_first (x : A) (l : list A) : list A :=
  match l with
  | [] => []
  | y :: l' => if decide (y = x) then l' else y :: erase_first x l'
  end.

(** [l.remove(x)]: every element equal to [x] *)
Definition list_remove_all (x : A) (l : list A) : list A :=
  filter (fun y => y <> x) l.

(** push to the back unless already present *)
Definition push_unique (x : A) (l : list A) : list A :=
  if std_mem x l then l else l ++ [x].

Lemma std_mem_spec x l : std_mem x l = true <-> x ∈ l.
Proof. apply bool_decide_eq_true. Qed.

Lemma erase_first_subseteq x l : erase_first x l ⊆ l.
Proof.
  induction l as [|y l IH]; simpl; [done|].
  case_decide; set_solver.
Qed.

Lemma erase_first_other x y l : y <> x -> y ∈ erase_first x l <-> y ∈ l.
Proof.
  intros Hne. induction l as [|z l IH]; simpl; [done|].
  case_decide; set_solver.
Qed.

Lemma erase_first_NoDup x l :
  NoDup l -> NoDup (erase_first x l) /\ x ∉ erase_first x l.
Proof.
  induction 1 as [|y l Hy Hl [IH1 IH2]]; simpl; [split; [constructor|set_solver]|].
  case_decide; subst; [done|].
  split; [|set_solver]. constructor; [|done].
  pose proof (erase_first_subseteq x l). set_solver.
Qed.

Lemma list_remove_all_spec x y l : y ∈ list_remove_all x l <-> y ∈ l /\ y <> x.
Proof. unfold list_remove_all. rewrite list_elem_of_filter. tauto. Qed.

Lemma list_remove_all_NoDup x l : NoDup l -> NoDup (list_remove_all x l).
Proof. apply NoDup_filter. Qed.

Lemma push_unique_spec x y l : y ∈ push_unique x l <-> y = x \/ y ∈ l.
Proof.
  unfold push_unique. destruct (std_mem x l) eqn:E.
  - apply std_mem_spec in E. set_solver.
  - set_solver.
Qed.

Lemma push_unique_NoDup x l : NoDup l -> NoDup (push_unique x l).
Proof.
  intros Hl. unfold push_unique, std_mem. case_bool_decide; [done|].
  apply NoDup_app. split_and!; [done|set_solver|apply NoDup_singleton].
Qed.

Lemma push_unique_id x l : x ∈ l -> push_unique x l = l.
Proof. intros H. unfold push_unique, std_mem. by rewrite bool_decide_true. Qed.
End Lists.

#[export] Hint Resolve push_unique_NoDup list_remove_all_NoDup : yfs.

(** ** [std::map] *)

Section Maps.
Context {K V : Type} `{Countable K}.

(** [m[k]]: the value, default-constructed when the key is absent *)
Definition map_get (d : V) (m : gmap K V) (k : K) : V := default d (m !! k).

(** [m.find(k) != m.end()] *)
Definition map_has (m : gmap K V) (k : K) : bool := bool_decide (is_Some (m !! k)).

Lemma map_get_insert_eq d (m : gmap K V) k v : map_get d (<[k := v]> m) k = v.
Proof. unfold map_get. by rewrite lookup_insert_eq. Qed.

Lemma map_get_insert_ne d (m : gmap K V) k k' v :
  k <> k' -> map_get d (<[k := v]> m) k' = map_get d m k'.
Proof. intros. unfold map_get. by rewrite lookup_insert_ne. Qed.

Lemma map_has_true (m : gmap K V) k : map_has m k = true <-> exists v, m !! k = Some v.
Proof. unfold map_has. by rewrite bool_decide_eq_true. Qed.

Lemma map_has_false (m : gmap K V) k : map_has m k = false <-> m !! k = None.
Proof. unfold map_has. by rewrite bool_decide_eq_false, <- eq_None_not_Some. Qed.
End Maps.

(** ** Runs of a step relation *)

(** An invariant of the initial state that every step preserves holds in
    every reachable state. *)
Lemma rtc_invariant {S : Type} (R : relation S) (I : S -> Prop) s0 s :
  rtc R s0 s -> I s0 -> (forall a b, I a -> R a b -> I b) -> I s.
Proof. induction 1; eauto. Qed.

(** An executable machine run over a list of events: [None] when an event
    is not enabled. *)
Fixpoint exec {S E : Type} (step : S -> E -> option S) (s : S) (es : list E)
  : option S :=
  match es with
  | [] => Some s
  | e :: es' => match step s e with
                | Some s' => exec step s' es'
                | None => None
                end
  end.

Lemma exec_app {S E} (step : S -> E -> option S) s es1 es2 :
  exec step s (es1 ++ es2) =
  match exec step s es1 with
  | Some s' => exec step s' es2
  | None => None
  end.
Proof.
  revert s. induction es1 as [|e es1 IH]; intros s; simpl; [done|].
  by destruct (step s e).
Qed.

Lemma exec_invariant {S E} (step : S -> E -> option S) (I : S -> Prop) es s s' :
  (forall a e b, I a -> step a e = Some b -> I b) ->
  I s -> exec step s es = Some s' -> I s'.
Proof.
  intros Hstep. revert s. induction es as [|e es IH]; intros s Hs; simpl.
  - by intros [= ->].
  - destruct (step s e) eqn:E1; [|done]. eauto.
Qed.
