(* ===== verification/Text.v ===== *)
(** * Text streams

    The parts of [std::string], [std::istringstream] and
    [std::ostringstream] the sources use to keep structured data as text:
    directory contents ([yfs_client.cc]), member lists ([config.cc]), node
    numbers ([rsm.cc]) and the Paxos log ([log.cc]).  A [std::string] is its
    list of characters. *)

From stdpp Require Import gmap list strings.
From Stdlib Require Import ZArith Lia Ascii.
From S2P Require Import Prelude.

Abbreviation bytes := (list ascii).

(** String literals as byte strings. *)
Definition str (s : String.string) : bytes := String.list_ascii_of_string s.

(** [unsigned char] value of a character. *)
Definition zchar (c : ascii) : Z := Z.of_N (N_of_ascii c).

(** Narrowing conversion to [unsigned char]. *)
Definition char_of (z : Z) : ascii := ascii_of_N (Z.to_N (u8 z)).

Section Chars.
Local Open Scope Z_scope.

(** [isspace] in the C locale *)
Definition is_space (c : ascii) : bool :=
  (zchar c =? 32) || ((9 <=? zchar c) && (zchar c <=? 13)).

Definition is_digit (c : ascii) : bool :=
  (48 <=? zchar c) && (zchar c <=? 57).

Definition digit_val (c : ascii) : Z := zchar c - 48.

Definition newline : ascii := char_of 10.
Definition space : ascii := char_of 32.

(** ** Comparison of strings *)

(** [a < b] on [std::string]: lexicographic, bytes compared unsigned *)
Fixpoint str_ltb (a b : bytes) : bool :=
  match a, b with
  | _, [] => false
  | [], _ :: _ => true
  | x :: a', y :: b' =>
      if zchar x <? zchar y then true
      else if zchar y <? zchar x then false
      else str_ltb a' b'
  end.

(** ** Extraction of words *)

(** Skipping white space, as the sentry of [operator>>] does. *)
Fixpoint skip_ws (s : bytes) : bytes :=
  match s with
  | c :: s' => if is_space c then skip_ws s' else s
  | [] => []
  end.

(** The longest prefix without white space, and what follows it. *)
Fixpoint span_word (s : bytes) : bytes * bytes :=
  match s with
  | c :: s' => if is_space c then ([], s)
               else let '(w, r) := span_word s' in (c :: w, r)
  | [] => ([], [])
  end.

(** [ist >> word]: [None] when only white space is left. *)
Definition get_word (s : bytes) : option (bytes * bytes) :=
  match skip_ws s with
  | [] => None
  | s' => Some (span_word s')
  end.

(** The digits at the front of [s]. *)
Fixpoint span_digits (s : bytes) : bytes * bytes :=
  match s with
  | c :: s' => if is_digit c
               then let '(w, r) := span_digits s' in (c :: w, r)
               else ([], s)
  | [] => ([], [])
  end.

Definition digits_val (ds : bytes) : Z :=
  fold_left (fun a d => 10 * a + digit_val d) ds 0.

(** Result of [ist >> x] for an unsigned integer of [w] bits.  On failure
    the standard leaves [x] untouched when no character is left (the sentry
    fails), stores 0 when there is no digit, and the largest value when the
    number does not fit. *)
Inductive extracted :=
| Got (v : Z) (rest : bytes)
| Failed (stored : option Z) (rest : bytes).

Definition get_unsigned (w : Z) (s : bytes) : extracted :=
  match skip_ws s with
  | [] => Failed None []
  | c :: s' =>
      let neg := zchar c =? 45 in
      let s1 := if neg || (zchar c =? 43) then s' else c :: s' in
      match span_digits s1 with
      | ([], rest) => Failed (Some 0) rest
      | (ds, rest) =>
          let v := digits_val ds in
          if 2 ^ w <=? v then Failed (Some (2 ^ w - 1)) rest
          else Got (if neg then (- v) mod 2 ^ w else v) rest
      end
  end.

(** ** Insertion of numbers *)

Definition digit_char (d : Z) : ascii := char_of (48 + d).

Fixpoint dec_aux (fuel : nat) (n : Z) (acc : bytes) : bytes :=
  match fuel with
  | O => acc
  | S f => let acc' := digit_char (n mod 10) :: acc in
           if n <? 10 then acc' else dec_aux f (n / 10) acc'
  end.

(** [ost << n] for an unsigned integer: its decimal digits.  [n < 10 ^ k]
    holds for [k] the number of bits of [n], so the fuel is enough. *)
Definition dec (n : Z) : bytes := dec_aux (S (Z.to_nat (Z.log2 n))) n [].

(** ** Lines *)

(** The characters up to the next newline, which is consumed. *)
Fixpoint span_line (s : bytes) : bytes * bytes :=
  match s with
  | c :: s' => if zchar c =? 10 then ([], s')
               else let '(w, r) := span_line s' in (c :: w, r)
  | [] => ([], [])
  end.

(** [getline(from, v)]: [None] when nothing is left. *)
Definition get_line (s : bytes) : option (bytes * bytes) :=
  match s with
  | [] => None
  | _ => Some (span_line s)
  end.

(** ** Well-formedness *)

(** A word survives [operator<<] followed by [operator>>]. *)
Definition is_word (w : bytes) : Prop :=
  w <> [] /\ Forall (fun c => is_space c = false) w.

#[global] Instance is_word_dec w : Decision (is_word w).
Proof. unfold is_word. apply _. Defined.

Definition one_line (v : bytes) : Prop := Forall (fun c => (zchar c =? 10) = false) v.

#[global] Instance one_line_dec v : Decision (one_line v).
Proof. unfold one_line. apply _. Defined.

(** ** Lemmas *)

Lemma zchar_range c : 0 <= zchar c < 256.
Proof.
  unfold zchar. pose proof (N_ascii_bounded c). lia.
Qed.

Lemma zchar_char_of z : zchar (char_of z) = u8 z.
Proof.
  unfold zchar, char_of. pose proof (u8_range z) as Hr. unfold is_u8 in Hr.
  rewrite N_ascii_embedding by (change 256%N with (Z.to_N (2 ^ 8)); lia). lia.
Qed.

Lemma char_of_zchar c : char_of (zchar c) = c.
Proof.
  unfold zchar, char_of. rewrite <- (ascii_N_embedding c) at 2. f_equal.
  pose proof (zchar_range c). unfold zchar in *. unfold u8.
  rewrite Z.mod_small by lia. lia.
Qed.

Lemma zchar_inj a b : zchar a = zchar b -> a = b.
Proof. intros H. by rewrite <- (char_of_zchar a), H, char_of_zchar. Qed.

Lemma zchar_digit_char d : 0 <= d < 10 -> zchar (digit_char d) = 48 + d.
Proof.
  intros. unfold digit_char. rewrite zchar_char_of.
  unfold u8. rewrite Z.mod_small; lia.
Qed.

Lemma is_digit_char d : 0 <= d < 10 -> is_digit (digit_char d) = true.
Proof.
  intros. unfold is_digit. rewrite zchar_digit_char by done.
  apply andb_true_iff. split; lia.
Qed.

Lemma digit_not_space c : is_digit c = true -> is_space c = false.
Proof.
  unfold is_digit, is_space. intros [? ?]%andb_true_iff.
  apply orb_false_iff. split; [lia|]. apply andb_false_iff. lia.
Qed.

Lemma space_not_digit c : is_space c = true -> is_digit c = false.
Proof. intros H. destruct (is_digit c) eqn:E; [|done]. apply digit_not_space in E. congruence. Qed.

Lemma is_space_space : is_space space = true.
Proof. reflexivity. Qed.

Lemma is_space_newline : is_space newline = true.
Proof. reflexivity. Qed.

Lemma is_word_one_line w : is_word w -> one_line w.
Proof.
  intros [_ Hw]. eapply Forall_impl; [exact Hw|]. intros c Hc. cbn in *.
  unfold is_space in Hc. apply orb_false_iff in Hc as [_ Hc].
  destruct (zchar c =? 10) eqn:E; [|done]. apply Z.eqb_eq in E. rewrite E in Hc. done.
Qed.

(** *** Order *)

Lemma str_ltb_irrefl a : str_ltb a a = false.
Proof. induction a as [|x a IH]; simpl; [done|]. by rewrite Z.ltb_irrefl. Qed.

Lemma str_ltb_trans a b c :
  str_ltb a b = true -> str_ltb b c = true -> str_ltb a c = true.
Proof.
  revert b c. induction a as [|x a IH]; intros [|y b] [|z c]; simpl; try done.
  intros H1 H2. repeat case_match; to_prop; try done; try lia. eauto.
Qed.

Lemma str_ltb_total a b : str_ltb a b = false -> str_ltb b a = false -> a = b.
Proof.
  revert b. induction a as [|x a IH]; intros [|y b]; simpl; try done.
  intros H1 H2. repeat case_match; to_prop; try done; try lia.
  f_equal; [apply zchar_inj; lia|eauto].
Qed.

(** *** Words *)

Lemma skip_ws_word w s : is_word w -> skip_ws (w ++ s) = w ++ s.
Proof.
  intros [Hne Hw]. destruct w as [|c w]; [done|]. simpl.
  inversion_clear Hw as [|? ? Hc]. by rewrite Hc.
Qed.

Lemma skip_ws_nil s : skip_ws s = [] <-> Forall (fun c => is_space c = true) s.
Proof.
  induction s as [|c s IH]; simpl; [done|].
  destruct (is_space c) eqn:E.
  - rewrite IH, Forall_cons. tauto.
  - rewrite Forall_cons. split; [done|]. intros [? _]. congruence.
Qed.

Lemma span_word_app w s :
  Forall (fun c => is_space c = false) w ->
  span_word (w ++ s) = let '(w', r) := span_word s in (w ++ w', r).
Proof.
  induction 1 as [|c w Hc Hw IH]; simpl; [by destruct (span_word s)|].
  rewrite Hc, IH. by destruct (span_word s).
Qed.

Lemma get_word_app w c s :
  is_word w -> is_space c = true -> get_word (w ++ c :: s) = Some (w, c :: s).
Proof.
  intros Hw Hc. unfold get_word. rewrite skip_ws_word by done.
  destruct Hw as [_ Hw]. destruct (w ++ c :: s) eqn:E; [by destruct w|].
  rewrite <- E, span_word_app by done. simpl. rewrite Hc. by rewrite app_nil_r.
Qed.

Lemma get_word_end w : is_word w -> get_word w = Some (w, []).
Proof.
  intros Hw. pose proof (skip_ws_word w [] Hw) as Hs. rewrite app_nil_r in Hs.
  unfold get_word. rewrite Hs. destruct Hw as [Hne Hw].
  destruct w as [|d w]; [done|]. f_equal.
  pose proof (span_word_app (d :: w) [] Hw) as E. rewrite app_nil_r in E.
  rewrite E. simpl. by rewrite app_nil_r.
Qed.

Lemma get_word_space c s : is_space c = true -> get_word (c :: s) = get_word s.
Proof. intros Hc. unfold get_word. simpl. by rewrite Hc. Qed.

Lemma span_word_shorter s w r : span_word s = (w, r) -> length s = (length w + length r)%nat.
Proof.
  revert w r. induction s as [|c s IH]; intros w r; simpl; [by intros [= <- <-]|].
  destruct (is_space c); [by intros [= <- <-]|].
  destruct (span_word s) as [w' r'] eqn:E. intros [= <- <-]. simpl.
  by rewrite (IH _ _ eq_refl).
Qed.

Lemma skip_ws_length s : (length (skip_ws s) <= length s)%nat.
Proof. induction s as [|c s IH]; simpl; [done|]. destruct (is_space c); simpl; lia. Qed.

Lemma skip_ws_head s c s' : skip_ws s = c :: s' -> is_space c = false.
Proof.
  induction s as [|d s IH]; simpl; [done|]. destruct (is_space d) eqn:E; [done|].
  by intros [= <- <-].
Qed.

(** An extraction consumes at least one character, so the reading loops
    terminate. *)
Lemma get_word_shorter s w r : get_word s = Some (w, r) -> (length r < length s)%nat.
Proof.
  unfold get_word. destruct (skip_ws s) as [|c s'] eqn:E; [done|].
  intros [= H]. pose proof (skip_ws_length s) as Hl. rewrite E in Hl.
  apply skip_ws_head in E. simpl in H, Hl. rewrite E in H.
  destruct (span_word s') as [w' r'] eqn:E'. injection H as <- <-.
  apply span_word_shorter in E'. lia.
Qed.

(** *** Numbers *)

Lemma span_digits_app ds s :
  Forall (fun c => is_digit c = true) ds ->
  span_digits (ds ++ s) = let '(w, r) := span_digits s in (ds ++ w, r).
Proof.
  induction 1 as [|c w Hc Hw IH]; simpl; [by destruct (span_digits s)|].
  rewrite Hc, IH. by destruct (span_digits s).
Qed.

Lemma digits_val_snoc ds d : digits_val (ds ++ [d]) = 10 * digits_val ds + digit_val d.
Proof. unfold digits_val. by rewrite fold_left_app. Qed.

Lemma dec_aux_app f n acc : dec_aux f n acc = dec_aux f n [] ++ acc.
Proof.
  revert n acc. induction f as [|f IH]; intros n acc; simpl; [done|].
  destruct (n <? 10); [done|].
  rewrite IH, (IH _ [_]), <- app_assoc. done.
Qed.

Lemma dec_aux_spec f n :
  0 <= n < 2 ^ (Z.of_nat f) -> (0 < f)%nat ->
  dec_aux f n [] <> [] /\
  Forall (fun c => is_digit c = true) (dec_aux f n []) /\
  digits_val (dec_aux f n []) = n.
Proof.
  revert n. induction f as [|f IH]; intros n Hn Hf; [lia|].
  simpl. pose proof (Z.mod_pos_bound n 10 ltac:(lia)) as Hm.
  destruct (n <? 10) eqn:E; to_prop.
  - rewrite Z.mod_small in * by lia. split_and!; [done| |].
    + repeat constructor. by apply is_digit_char.
    + unfold digits_val; cbn [fold_left]. unfold digit_val.
      rewrite zchar_digit_char by lia. lia.
  - rewrite Nat2Z.inj_succ, Z.pow_succ_r in Hn by lia.
    destruct f as [|f']; [simpl in Hn; lia|].
    destruct (IH (n / 10)) as (_ & Hd & Hv); [|lia|].
    { split; [apply Z.div_pos; lia|]. apply Z.div_lt_upper_bound; lia. }
    rewrite dec_aux_app. split_and!.
    + by intros []%app_eq_nil.
    + apply Forall_app. split; [done|]. repeat constructor. by apply is_digit_char.
    + rewrite digits_val_snoc, Hv. unfold digit_val.
      rewrite zchar_digit_char by lia. pose proof (Z.div_mod n 10). lia.
Qed.

Lemma dec_spec n :
  0 <= n ->
  dec n <> [] /\ Forall (fun c => is_digit c = true) (dec n) /\ digits_val (dec n) = n.
Proof.
  intros Hn. apply dec_aux_spec; [|lia].
  rewrite Nat2Z.inj_succ, Z2Nat.id by apply Z.log2_nonneg.
  split; [done|]. destruct (decide (n = 0)) as [->|]; [done|].
  apply Z.log2_spec. lia.
Qed.

Lemma dec_is_word n : 0 <= n -> is_word (dec n).
Proof.
  intros Hn. destruct (dec_spec n Hn) as (? & Hd & _). split; [done|].
  eapply Forall_impl; [exact Hd|]. intros c. apply digit_not_space.
Qed.

Lemma dec_inj n m : 0 <= n -> 0 <= m -> dec n = dec m -> n = m.
Proof.
  intros Hn Hm E. destruct (dec_spec n Hn) as (_ & _ & <-).
  destruct (dec_spec m Hm) as (_ & _ & <-). by rewrite E.
Qed.

(** Reading back a printed number. *)
Lemma get_unsigned_dec w n s :
  0 <= n < 2 ^ w -> span_digits s = ([], s) ->
  get_unsigned w (dec n ++ s) = Got n s.
Proof.
  intros Hn Hs. destruct (dec_spec n) as (Hne & Hd & Hv); [lia|].
  unfold get_unsigned. rewrite skip_ws_word by (apply dec_is_word; lia).
  destruct (dec n) as [|c ds] eqn:E; [done|].
  inversion_clear Hd as [|? ? Hc Hds]. cbn [app].
  assert ((zchar c =? 45) = false /\ (zchar c =? 43) = false) as [-> ->].
  { unfold is_digit in Hc. apply andb_true_iff in Hc as [? ?]. lia. }
  cbn [orb]. change (c :: ds ++ s) with ((c :: ds) ++ s).
  rewrite span_digits_app by (by constructor). rewrite Hs, app_nil_r, Hv.
  destruct (2 ^ w <=? n) eqn:E2; [to_prop; lia|done].
Qed.

Lemma span_digits_space c s : is_space c = true -> span_digits (c :: s) = ([], c :: s).
Proof. intros Hc. simpl. by rewrite (space_not_digit _ Hc). Qed.

(** *** Lines *)

Lemma span_line_app v s : one_line v -> span_line (v ++ newline :: s) = (v, s).
Proof. induction 1 as [|c v Hc Hv IH]; simpl; [done|]. by rewrite Hc, IH. Qed.
End Chars.

#[export] Hint Resolve is_space_space is_space_newline dec_is_word is_word_one_line : yfs.
