(* ===== verification/Address.v ===== *)
(** * Addresses

    [make_sockaddr] of [rpc/rpc.cc] turns the text [host:port], or [port] alone, into
    an address, and [sockaddr_in] is ordered.  The nodes of the group name each other
    by such texts, and a caching lock client tells the lock server where it can be
    reached by one ([lock_client_cache.cc]). *)

From stdpp Require Import gmap list strings.
From Stdlib Require Import ZArith Lia Ascii.
From S2P Require Import Prelude Text.

Local Open Scope Z_scope.

(** ** What the C library does *)

(** The text that [c_str] gives to a function that reads up to the first NUL *)
Fixpoint c_str (s : bytes) : bytes :=
  match s with [] => [] | c :: s => if zchar c =? 0 then [] else c :: c_str s end.

(** [index]: the first position of a character *)
Fixpoint index (s : bytes) (c : ascii) : option nat :=
  match s with [] => None | d :: s => if decide (d = c) then Some O else S <$> index s c end.

(** [atoi], as [(int) strtol(s, NULL, 10)] with a long of 64 bits *)
Definition atoi (s : bytes) : Z :=
  match skip_ws s with
  | [] => 0
  | c :: s' =>
      let neg := zchar c =? 45 in
      let s1 := if neg || (zchar c =? 43) then s' else c :: s' in
      let v := digits_val (span_digits s1).1 in
      s32 (Z.max (- 2 ^ 63) (Z.min (2 ^ 63 - 1) (if neg then - v else v)))
  end.

(** [htons] on a host whose integers are little-endian *)
Definition htons (x : Z) : Z := u16 x mod 256 * 256 + u16 x / 256.

Definition AF_INET : Z := 2.
Definition INADDR_NONE : Z := 2 ^ 32 - 1.

(** ** [sockaddr_in] *)

Record sockaddr_in := Sockaddr { sin_family : Z; sin_addr : Z; sin_port : Z }.

(** [operator<] *)
Definition sockaddr_lt (a b : sockaddr_in) : bool :=
  (sin_addr a <? sin_addr b) || ((sin_addr a =? sin_addr b) && (sin_port a <? sin_port b)).

(** What becomes of [make_sockaddr]: an address, [exit(1)], or a write behind the end
    of [host]. *)
Inductive made := Made (a : sockaddr_in) | Unknown_host | Overrun.

Section Resolver.
(** [inet_addr], and the length and the address that [gethostbyname] finds *)
Context (inet_addr : bytes -> Z) (gethostbyname : bytes -> option (Z * Z)).

(** [make_sockaddr(host, port, dst)] *)
Definition make_sockaddr_at (host port : bytes) : made :=
  let a := inet_addr host in
  let made_with := fun a => Made (Sockaddr AF_INET a (htons (atoi port))) in
  if negb (a =? INADDR_NONE) then made_with a
  else match gethostbyname host with
       | None => Unknown_host
       | Some (h_length, h_addr) => if negb (h_length =? 4) then Unknown_host else made_with h_addr
       end.

Definition localhost : bytes := str "127.0.0.1".

(** [make_sockaddr(hostandport, dst)]; [host] has 200 bytes, the last one for the NUL *)
Definition make_sockaddr (hostandport : bytes) : made :=
  match index hostandport ":"%char with
  | None => make_sockaddr_at localhost hostandport
  | Some n => if (200 <=? n)%nat then Overrun
              else make_sockaddr_at (take n hostandport) (drop (S n) hostandport)
  end.
End Resolver.

(** ** The caching lock client *)

(** the constructor's port, from what [rand] returns, and its [id] *)
Definition rlock_port (rand : Z) : Z := Z.lor (Z.rem rand 32000) (Z.shiftl 1 10).
Definition client_id (port : Z) : bytes := localhost ++ str ":" ++ dec port.

(** ** The port of the test server *)

(** [atoi(_me.c_str()) + 1] in the constructor of [rsm], converted to [unsigned int] *)
Definition testsvr_port (me : bytes) : Z := u32 (s32 (atoi (c_str me) + 1)).

(** ** The order *)

Lemma sockaddr_lt_spec a b :
  sockaddr_lt a b = true <-> sin_addr a < sin_addr b \/ (sin_addr a = sin_addr b /\ sin_port a < sin_port b).
Proof. unfold sockaddr_lt. rewrite orb_true_iff, andb_true_iff, !Z.ltb_lt, Z.eqb_eq. done. Qed.

(** [operator<] is a strict order, and two addresses that it does not tell apart have
    the same host and port: it may order the keys of a map. *)
Theorem sockaddr_order a b c :
  sockaddr_lt a a = false /\
  (sockaddr_lt a b = true -> sockaddr_lt b c = true -> sockaddr_lt a c = true) /\
  (sockaddr_lt a b = false -> sockaddr_lt b a = false -> sin_addr a = sin_addr b /\ sin_port a = sin_port b).
Proof.
  rewrite <- !not_true_iff_false, !sockaddr_lt_spec. lia.
Qed.

(** ** Ports *)

Lemma htons_range x : 0 <= htons x < 2 ^ 16.
Proof.
  unfold htons. pose proof (Z.mod_pos_bound x (2 ^ 16) ltac:(lia)). unfold u16.
  pose proof (Z.mod_pos_bound (x mod 2 ^ 16) 256 ltac:(lia)).
  assert (x mod 2 ^ 16 / 256 < 256) by (apply Z.div_lt_upper_bound; lia).
  pose proof (Z.div_pos (x mod 2 ^ 16) 256 ltac:(lia) ltac:(lia)). lia.
Qed.

(** [htons] twice is the number itself. *)
Lemma htons_involutive x : htons (htons x) = u16 x.
Proof.
  assert (u16 (htons x) = htons x) as E by (unfold u16; apply Z.mod_small, htons_range).
  unfold htons at 1. rewrite E. unfold htons.
  pose proof (Z.mod_pos_bound x (2 ^ 16) ltac:(lia)) as Hx. unfold u16. set (y := x mod 2 ^ 16) in *.
  pose proof (Z.mod_pos_bound y 256 ltac:(lia)).
  assert (0 <= y / 256 < 256) by (split; [apply Z.div_pos; lia|apply Z.div_lt_upper_bound; lia]).
  replace (y mod 256 * 256 + y / 256) with (y / 256 + y mod 256 * 256) by lia.
  rewrite Z.mod_add, Z.div_add, (Z.mod_small (y / 256)), (Z.div_small (y / 256)) by lia.
  pose proof (Z.div_mod y 256 ltac:(lia)). lia.
Qed.

Lemma htons_inj p q : 0 <= p < 2 ^ 16 -> 0 <= q < 2 ^ 16 -> htons p = htons q -> p = q.
Proof.
  intros Hp Hq E. apply (f_equal htons) in E. rewrite !htons_involutive in E. unfold u16 in E.
  by rewrite !Z.mod_small in E by lia.
Qed.

Lemma atoi_dec n : 0 <= n < 2 ^ 31 -> atoi (dec n) = n.
Proof.
  intros Hn. destruct (dec_spec n) as (Hne & Hd & Hv); [lia|]. unfold atoi.
  pose proof (skip_ws_word (dec n) [] (dec_is_word n ltac:(lia))) as Hs. rewrite app_nil_r in Hs. rewrite Hs.
  destruct (dec n) as [|c ds] eqn:E; [done|]. pose proof Hd as Hd'. inversion_clear Hd as [|? ? Hc Hds].
  assert ((zchar c =? 45) = false /\ (zchar c =? 43) = false) as [-> ->].
  { unfold is_digit in Hc. apply andb_true_iff in Hc as [? ?]. lia. }
  cbn [orb]. pose proof (span_digits_app (c :: ds) [] Hd') as Hsp. rewrite app_nil_r in Hsp.
  rewrite Hsp. cbn [span_digits fst]. rewrite app_nil_r, Hv. rewrite Z.min_r by lia. rewrite Z.max_r by lia. apply s32_small. unfold is_s32. lia.
Qed.

Lemma rlock_port_range r : 0 <= r -> 1024 <= rlock_port r < 2 ^ 15.
Proof.
  intros Hr. unfold rlock_port. change (Z.shiftl 1 10) with 1024.
  pose proof (Z.rem_bound_pos r 32000 Hr ltac:(lia)) as Hb. set (x := Z.rem r 32000) in *.
  assert (0 <= Z.lor x 1024) as H0 by (apply Z.lor_nonneg; lia).
  assert (1024 <= Z.lor x 1024) as H1.
  { apply (Z.ldiff_le 1024); [done|]. apply Z.bits_inj'. intros n Hn.
    rewrite Z.ldiff_spec, Z.lor_spec, Z.bits_0. by destruct (Z.testbit x n), (Z.testbit 1024 n). }
  split; [done|]. apply Z.log2_lt_pow2; [lia|]. rewrite Z.log2_lor by lia.
  apply Z.max_lub_lt; [|done]. destruct (decide (x = 0)) as [->|]; [done|]. apply Z.log2_lt_pow2; lia.
Qed.

(** ** Texts and addresses *)

Lemma index_app_colon h s : Forall (fun c => c <> ":"%char) h -> index (h ++ ":"%char :: s) ":"%char = Some (length h).
Proof.
  induction 1 as [|c h Hc _ IH]; cbn; [by rewrite decide_True|]. by rewrite decide_False, IH.
Qed.

Lemma index_None s c : index s c = None <-> Forall (fun d => d <> c) s.
Proof.
  induction s as [|d s IH]; cbn; [done|]. rewrite Forall_cons. destruct (decide (d = c)) as [->|Hne]; [naive_solver|].
  rewrite fmap_None, IH. naive_solver.
Qed.

Lemma dec_no_colon n : 0 <= n -> Forall (fun c => c <> ":"%char) (dec n).
Proof.
  intros Hn. destruct (dec_spec n Hn) as (_ & Hd & _). eapply Forall_impl; [exact Hd|].
  intros c Hc ->. by vm_compute in Hc.
Qed.

Section Made.
Context (inet_addr : bytes -> Z) (gethostbyname : bytes -> option (Z * Z)).
Local Abbreviation make_sockaddr := (make_sockaddr inet_addr gethostbyname).

(** The host that is meant, and the port in the byte order of the network. *)
Lemma make_host_port host p :
  Forall (fun c => c <> ":"%char) host -> (length host < 200)%nat -> inet_addr host <> INADDR_NONE -> 0 <= p < 2 ^ 31 ->
  make_sockaddr (host ++ str ":" ++ dec p) = Made (Sockaddr AF_INET (inet_addr host) (htons p)).
Proof.
  intros Hh Hl Ha Hp. unfold Address.make_sockaddr. change (str ":" ++ dec p) with (":"%char :: dec p).
  rewrite index_app_colon by done. rewrite (proj2 (Nat.leb_gt _ _) Hl), take_app_length.
  replace (drop (S (length host)) (host ++ ":"%char :: dec p)) with (dec p)
    by (rewrite <- Nat.add_1_r, <- drop_drop, drop_app_length; done).
  unfold make_sockaddr_at. by rewrite (proj2 (Z.eqb_neq _ _) Ha), atoi_dec.
Qed.

(** A port alone is a port of this host. *)
Lemma make_port p :
  inet_addr localhost <> INADDR_NONE -> 0 <= p < 2 ^ 31 ->
  make_sockaddr (dec p) = Made (Sockaddr AF_INET (inet_addr localhost) (htons p)).
Proof.
  intros Ha Hp. unfold Address.make_sockaddr. rewrite (proj2 (index_None _ _)) by (apply dec_no_colon; lia).
  unfold make_sockaddr_at. by rewrite (proj2 (Z.eqb_neq _ _) Ha), atoi_dec.
Qed.

(** The lock server reaches a caching client by its [id]: the address that
    [make_sockaddr] makes of it is this host with the port that the client listens
    on, a port that is not a privileged one, and two clients with different ports
    have different addresses. *)
Theorem client_id_is_its_address r r' :
  inet_addr localhost <> INADDR_NONE -> 0 <= r -> 0 <= r' ->
  1024 <= rlock_port r < 2 ^ 15 /\
  make_sockaddr (client_id (rlock_port r)) = Made (Sockaddr AF_INET (inet_addr localhost) (htons (rlock_port r))) /\
  (make_sockaddr (client_id (rlock_port r)) = make_sockaddr (client_id (rlock_port r')) <-> rlock_port r = rlock_port r') /\
  (client_id (rlock_port r) = client_id (rlock_port r') <-> rlock_port r = rlock_port r').
Proof.
  intros Ha Hr Hr'. pose proof (rlock_port_range r Hr). pose proof (rlock_port_range r' Hr').
  assert (forall p, 1024 <= p < 2 ^ 15 -> make_sockaddr (client_id p) = Made (Sockaddr AF_INET (inet_addr localhost) (htons p))) as Hm.
  { intros p Hp. apply make_host_port; [|cbn; lia|done|lia]. repeat constructor; by intros [=]. }
  split; [done|]. split; [by apply Hm|]. rewrite !Hm by done. split; (split; [|by intros ->]).
  - intros [= E]. by apply htons_inj; [lia|lia|].
  - intros E. unfold client_id in E. apply app_inv_head in E. apply dec_inj; [lia|lia|]. by injection E.
Qed.

(** The buffer for the host is overrun exactly when the colon comes late. *)
Theorem make_sockaddr_overruns s :
  make_sockaddr s = Overrun <-> exists n, index s ":"%char = Some n /\ (200 <= n)%nat.
Proof.
  unfold Address.make_sockaddr, make_sockaddr_at. split.
  - intros H. destruct (index s ":"%char) as [n|]; [|by repeat case_match].
    destruct (200 <=? n)%nat eqn:E; [apply Nat.leb_le in E; eauto|by repeat case_match].
  - intros (n & -> & Hn). by rewrite (proj2 (Nat.leb_le _ _) Hn).
Qed.
End Made.

Lemma client_id_is_its_address_witness :
  make_sockaddr (fun _ => 16777343) (fun _ => None) (client_id (rlock_port 5)) =
    Made (Sockaddr AF_INET 16777343 (htons 1029)).
Proof.
  destruct (client_id_is_its_address (fun _ => 16777343) (fun _ => None) 5 5) as (_ & H & _); [by vm_compute|lia|lia|].
  exact H.
Defined.

(** A node that is named by its port has its test server at the next port; one that
    is named by host and port has it at the number that the host begins with. *)
Theorem test_server_port p :
  0 <= p < 2 ^ 31 - 1 ->
  testsvr_port (dec p) = p + 1 /\ testsvr_port (localhost ++ str ":" ++ dec p) = 128.
Proof.
  intros Hp. split.
  - unfold testsvr_port. assert (c_str (dec p) = dec p) as ->.
    { destruct (dec_spec p) as (_ & Hd & _); [lia|]. induction Hd as [|c s Hc _ IH]; [done|]. cbn.
      assert ((zchar c =? 0) = false) as -> by (unfold is_digit in Hc; apply andb_true_iff in Hc as [? ?]; lia).
      by rewrite IH. }
    rewrite atoi_dec, s32_small, u32_small by (unfold is_s32, is_u32; lia). done.
  - reflexivity.
Qed.
