(* ===== verification/Marshall.v ===== *)
(** * Marshalling

    [marshall] and [unmarshall] of [rpc/marshall.h] with the operators of
    [rpc/rpc.cc]: a growing write buffer and a bounds-checked read cursor.
    The interface [WireLaws] is what the RPC layer asks of a C++ type that
    has [operator<<] and [operator>>]; the instances discharge it. *)

From stdpp Require Import gmap list strings sorting.
From Stdlib Require Import ZArith Lia Ascii.
From S2P Require Import Prelude Text.

Local Open Scope Z_scope.

(** ** Headers *)

Record req_header := ReqHeader {
  rq_xid : Z;
  rq_proc : Z;
  rq_clt_nonce : Z;
  rq_srv_nonce : Z;
  rq_xid_rep : Z
}.

Record reply_header := ReplyHeader { rp_xid : Z; rp_ret : Z }.

Definition DEFAULT_RPC_SZ : nat := 1024.

(** [max(sizeof(req_header), sizeof(reply_header)) + sizeof(rpc_sz_t)];
    no file of the build defines [RPC_CHECKSUMMING]. *)
Definition RPC_HEADER_SZ : nat := Nat.max (5 * 4) (2 * 4) + 4.

(** ** The write side

    [m_buf] is the heap block: a byte that was never written is [None]. *)
Record marshall := Marshall {
  m_buf : list (option ascii);
  m_capa : nat;
  m_ind : nat
}.

Definition marshall_new : marshall :=
  Marshall (replicate DEFAULT_RPC_SZ None) DEFAULT_RPC_SZ RPC_HEADER_SZ.

(** [realloc] to [n] bytes: the new tail is indeterminate. *)
Definition m_realloc (n : nat) (m : marshall) : marshall :=
  Marshall (m_buf m ++ replicate (n - length (m_buf m)) None) n (m_ind m).

(** [memcpy(b + i, p, |p|)] *)
Definition memcpy_at (i : nat) (p : bytes) (b : list (option ascii)) :=
  take i b ++ (Some <$> p) ++ drop (i + length p) b.

Definition m_rawbyte (x : Z) (m : marshall) : marshall :=
  let m := if (m_capa m <=? m_ind m)%nat then m_realloc (m_capa m * 2) m else m in
  Marshall (<[m_ind m := Some (char_of x)]> (m_buf m)) (m_capa m) (S (m_ind m)).

Definition m_rawbytes (p : bytes) (m : marshall) : marshall :=
  let n := length p in
  let m := if (m_capa m <? m_ind m + n)%nat
           then m_realloc (if (n <? m_capa m)%nat then 2 * m_capa m
                           else m_capa m + n) m
           else m in
  Marshall (memcpy_at (m_ind m) p (m_buf m)) (m_capa m) (m_ind m + n).

(** [(x >> k) & 0xff] *)
Definition octet (x k : Z) : Z := Z.land (Z.shiftr x k) 255.

Definition put_u8 (x : Z) (m : marshall) : marshall := m_rawbyte x m.

Definition put_char (x : Z) (m : marshall) : marshall := put_u8 (u8 x) m.

Definition put_u16 (x : Z) (m : marshall) : marshall :=
  m_rawbyte (octet x 0) (m_rawbyte (octet x 8) m).

Definition put_s16 (x : Z) (m : marshall) : marshall := put_u16 (u16 x) m.

Definition put_u32 (x : Z) (m : marshall) : marshall :=
  m_rawbyte (octet x 0) (m_rawbyte (octet x 8)
    (m_rawbyte (octet x 16) (m_rawbyte (octet x 24) m))).

Definition put_s32 (x : Z) (m : marshall) : marshall := put_u32 (u32 x) m.

Definition put_u64 (x : Z) (m : marshall) : marshall :=
  put_u32 (u32 x) (put_u32 (u32 (Z.shiftr x 32)) m).

(** [unsigned long] is 64 bits wide on the platforms of the makefile. *)
Definition put_ulong (x : Z) (m : marshall) : marshall := put_u64 x m.

Definition put_string (s : bytes) (m : marshall) : marshall :=
  m_rawbytes s (put_u32 (u32 (Z.of_nat (length s))) m).

(** [marshall::pack(int)] *)
Definition m_pack (x : Z) (m : marshall) : marshall :=
  m_rawbyte (octet x 0) (m_rawbyte (octet x 8)
    (m_rawbyte (octet x 16) (m_rawbyte (octet x 24) m))).

Definition m_set_ind (i : nat) (m : marshall) : marshall :=
  Marshall (m_buf m) (m_capa m) i.

Definition pack_req_header (h : req_header) (m : marshall) : marshall :=
  let saved_sz := m_ind m in
  let m := m_set_ind 4 m in
  let m := m_pack (rq_xid h) m in
  let m := m_pack (rq_proc h) m in
  let m := m_pack (s32 (rq_clt_nonce h)) m in
  let m := m_pack (s32 (rq_srv_nonce h)) m in
  let m := m_pack (rq_xid_rep h) m in
  m_set_ind saved_sz m.

Definition pack_reply_header (h : reply_header) (m : marshall) : marshall :=
  let saved_sz := m_ind m in
  let m := m_set_ind 4 m in
  let m := m_pack (rp_xid h) m in
  let m := m_pack (rp_ret h) m in
  m_set_ind saved_sz m.

(** What [take_buf] (or [cstr], [size]) hands to the connection. *)
Definition m_pdu (m : marshall) : list (option ascii) := take (m_ind m) (m_buf m).

(** [get_content]: the bytes after the header. *)
Definition m_content (m : marshall) : list (option ascii) :=
  drop RPC_HEADER_SZ (m_pdu m).

(** ** The read side

    [u_oob] is set when memory past the end of the block is read. *)
Record unmarshall := Unmarshall {
  u_buf : bytes;
  u_sz : nat;
  u_ind : nat;
  u_ok : bool;
  u_oob : bool
}.

(** [unmarshall(char *b, int sz)] *)
Definition unmarshall_of (b : bytes) (sz : nat) : unmarshall :=
  Unmarshall b sz 0 true false.

(** [unmarshall()] *)
Definition unmarshall_empty : unmarshall := Unmarshall [] 0 0 false false.

Definition u_fail (u : unmarshall) : unmarshall :=
  Unmarshall (u_buf u) (u_sz u) (u_ind u) false (u_oob u).

Definition u_set_ind (i : nat) (u : unmarshall) : unmarshall :=
  Unmarshall (u_buf u) (u_sz u) i (u_ok u) (u_oob u).

(** [okdone] *)
Definition u_okdone (u : unmarshall) : bool := u_ok u && (u_ind u =? u_sz u)%nat.

(** a [char] of the block, sign-extended ([char] is signed on x86) *)
Definition schar (c : ascii) : Z := if zchar c <? 128 then zchar c else zchar c - 256.

(** [unsigned int unmarshall::rawbyte()] *)
Definition u_rawbyte (u : unmarshall) : Z * unmarshall :=
  if (u_sz u <=? u_ind u)%nat then (0, u_fail u)
  else (u32 (schar (default Ascii.zero (u_buf u !! u_ind u))),
        u_set_ind (S (u_ind u)) u).

(** [unmarshall::rawbytes(std::string &, unsigned int n)]: the bounds test
    adds an [int] and an [unsigned int], so it is made modulo 2^32. *)
Definition u_rawbytes (ss : bytes) (n : Z) (u : unmarshall) : bytes * unmarshall :=
  if Z.of_nat (u_sz u) <? u32 (Z.of_nat (u_ind u) + n) then (ss, u_fail u)
  else if Z.of_nat (length (u_buf u)) <? Z.of_nat (u_ind u) + n
       then (ss, Unmarshall (u_buf u) (u_sz u) (u_ind u) false true)
       else (take (Z.to_nat n) (drop (u_ind u) (u_buf u)),
             u_set_ind (u_ind u + Z.to_nat n) u).

(** [(u.rawbyte() & 0xff) << k] *)
Definition u_octet (k : Z) (u : unmarshall) : Z * unmarshall :=
  let '(b, u) := u_rawbyte u in (Z.shiftl (Z.land b 255) k, u).

Definition get_u8 (u : unmarshall) : Z * unmarshall :=
  let '(b, u) := u_rawbyte u in (u8 b, u).

(** [char]: the value in -128..127 *)
Definition get_char (u : unmarshall) : Z * unmarshall :=
  let '(b, u) := u_rawbyte u in (schar (char_of b), u).

Definition get_u16 (u : unmarshall) : Z * unmarshall :=
  let '(b1, u) := u_octet 8 u in
  let '(b0, u) := u_octet 0 u in
  (Z.lor b1 b0, u).

Definition s16 (z : Z) : Z := (z + 2 ^ 15) mod 2 ^ 16 - 2 ^ 15.

Definition get_s16 (u : unmarshall) : Z * unmarshall :=
  let '(x, u) := get_u16 u in (s16 x, u).

Definition get_u32 (u : unmarshall) : Z * unmarshall :=
  let '(b3, u) := u_octet 24 u in
  let '(b2, u) := u_octet 16 u in
  let '(b1, u) := u_octet 8 u in
  let '(b0, u) := u_octet 0 u in
  (Z.lor (Z.lor (Z.lor b3 b2) b1) b0, u).

Definition get_s32 (u : unmarshall) : Z * unmarshall :=
  let '(x, u) := get_u32 u in (s32 x, u).

Definition get_u64 (u : unmarshall) : Z * unmarshall :=
  let '(h, u) := get_u32 u in
  let '(l, u) := get_u32 u in
  (Z.lor l (Z.shiftl h 32), u).

Definition get_ulong (u : unmarshall) : Z * unmarshall := get_u64 u.

(** [u >> s]: [s] keeps its old value when the stream is not ok. *)
Definition get_string (s : bytes) (u : unmarshall) : bytes * unmarshall :=
  let '(sz, u) := get_u32 u in
  if u_ok u then u_rawbytes s sz u else (s, u).

(** [unmarshall::unpack], into an [int] *)
Definition u_unpack (u : unmarshall) : Z * unmarshall :=
  let '(x, u) := get_u32 u in (s32 x, u).

Definition unpack_req_header (u : unmarshall) : req_header * unmarshall :=
  let u := u_set_ind 4 u in
  let '(xid, u) := u_unpack u in
  let '(proc, u) := u_unpack u in
  let '(clt_nonce, u) := u_unpack u in
  let '(srv_nonce, u) := u_unpack u in
  let '(xid_rep, u) := u_unpack u in
  (ReqHeader xid proc (u32 clt_nonce) (u32 srv_nonce) xid_rep,
   u_set_ind RPC_HEADER_SZ u).

Definition unpack_reply_header (u : unmarshall) : reply_header * unmarshall :=
  let u := u_set_ind 4 u in
  let '(xid, u) := u_unpack u in
  let '(ret, u) := u_unpack u in
  (ReplyHeader xid ret, u_set_ind RPC_HEADER_SZ u).

(** [take_in(another)]: the block moves, the cursor goes after the header. *)
Definition u_take_in (another : unmarshall) : unmarshall :=
  Unmarshall (u_buf another) (u_sz another) RPC_HEADER_SZ
    (RPC_HEADER_SZ <=? u_sz another)%nat (u_oob another).

(** ** The interface *)

(** What a type with [operator<<] and [operator>>] gives the RPC layer: the
    two operators, with the bytes they exchange.  [w_into old x] is the value
    of a variable that held [old] after [x] was extracted into it, [w_ok] the
    values whose encoding is exact. *)
Record wire (A : Type) := Wire {
  w_put : A -> marshall -> marshall;
  w_get : A -> unmarshall -> A * unmarshall;
  w_enc : A -> bytes;
  w_into : A -> A -> A;
  w_ok : A -> Prop
}.
Arguments Wire {A}.
Arguments w_put {A}.
Arguments w_get {A}.
Arguments w_enc {A}.
Arguments w_into {A}.
Arguments w_ok {A}.

(** The buffer invariant of [marshall]. *)
Definition m_wf (m : marshall) : Prop :=
  length (m_buf m) = m_capa m /\ (m_ind m <= m_capa m)%nat /\ (0 < m_capa m)%nat.

(** [m'] is [m] with [bs] written at its end. *)
Definition appended (m : marshall) (bs : bytes) (m' : marshall) : Prop :=
  m_wf m' /\ m_pdu m' = m_pdu m ++ (Some <$> bs).

(** The stream is good and the bytes still to be read are [bs]. *)
Definition cursor (u : unmarshall) (bs : bytes) : Prop :=
  u_ok u = true /\ u_oob u = false /\ length (u_buf u) = u_sz u /\
  Z.of_nat (u_sz u) < 2 ^ 31 /\ (u_ind u <= u_sz u)%nat /\
  drop (u_ind u) (u_buf u) = bs.

Definition advance (n : nat) (u : unmarshall) : unmarshall := u_set_ind (u_ind u + n) u.

(** The contract between a type's operators and the RPC layer. *)
Class WireLaws {A : Type} (w : wire A) := {
  w_put_appends (x : A) m :
    w_ok w x -> m_wf m -> appended m (w_enc w x) (w_put w x m);
  w_get_reads (old x : A) u r :
    w_ok w x -> cursor u (w_enc w x ++ r) ->
    w_get w old u = (w_into w old x, advance (length (w_enc w x)) u)
}.

(** ** The write side appends *)

Lemma m_realloc_wf n m : m_wf m -> (m_capa m <= n)%nat -> m_wf (m_realloc n m).
Proof.
  intros (Hl & Hi & Hp) Hn. unfold m_wf, m_realloc; simpl.
  rewrite length_app, length_replicate. lia.
Qed.

Lemma m_realloc_pdu n m : m_wf m -> m_pdu (m_realloc n m) = m_pdu m.
Proof.
  intros (Hl & Hi & Hp). unfold m_pdu, m_realloc; simpl.
  rewrite take_app_le by lia. done.
Qed.

Lemma appended_trans m1 bs1 m2 bs2 m3 :
  appended m1 bs1 m2 -> appended m2 bs2 m3 -> appended m1 (bs1 ++ bs2) m3.
Proof.
  intros [? E1] [? E2]. split; [done|]. by rewrite E2, E1, fmap_app, app_assoc.
Qed.

Lemma take_insert_snoc {A} (l : list A) i x :
  (i < length l)%nat -> take (S i) (<[i := x]> l) = take i l ++ [x].
Proof.
  intros Hi. erewrite take_S_r; [|by apply list_lookup_insert_eq].
  by rewrite take_insert_ge by lia.
Qed.

Lemma m_rawbyte_room x m :
  m_wf m -> (m_ind m < m_capa m)%nat ->
  appended m [char_of x]
    (Marshall (<[m_ind m := Some (char_of x)]> (m_buf m)) (m_capa m) (S (m_ind m))).
Proof.
  intros (Hl & Hi & Hp) Hlt. split.
  - unfold m_wf; simpl. rewrite length_insert. lia.
  - unfold m_pdu; simpl. apply take_insert_snoc. lia.
Qed.

Lemma m_rawbyte_appended x m : m_wf m -> appended m [char_of x] (m_rawbyte x m).
Proof.
  intros Hm. pose proof Hm as (Hl & Hi & Hp). unfold m_rawbyte.
  destruct (m_capa m <=? m_ind m)%nat eqn:E.
  - apply Nat.leb_le in E.
    destruct (m_rawbyte_room x (m_realloc (m_capa m * 2) m)) as [Hw Hd].
    + apply m_realloc_wf; [done|lia].
    + simpl. lia.
    + split; [exact Hw|]. by rewrite Hd, m_realloc_pdu.
  - apply Nat.leb_gt in E. by apply m_rawbyte_room.
Qed.

Lemma m_rawbytes_room p m :
  m_wf m -> (m_ind m + length p <= m_capa m)%nat ->
  appended m p (Marshall (memcpy_at (m_ind m) p (m_buf m)) (m_capa m) (m_ind m + length p)).
Proof.
  intros (Hl & Hi & Hp) Hle. unfold appended, m_wf, m_pdu, memcpy_at; simpl. split.
  - rewrite !length_app, length_take, length_fmap, length_drop. lia.
  - rewrite app_assoc, take_app_le
      by (rewrite length_app, length_take, length_fmap; lia).
    rewrite take_ge; [done|]. rewrite length_app, length_take, length_fmap. lia.
Qed.

(** The growth rule of [rawbytes] always makes enough room. *)
Lemma m_rawbytes_appended p m : m_wf m -> appended m p (m_rawbytes p m).
Proof.
  intros Hm. pose proof Hm as (Hl & Hi & Hp). unfold m_rawbytes.
  destruct (m_capa m <? m_ind m + length p)%nat eqn:E.
  - apply Nat.ltb_lt in E.
    set (c := if (length p <? m_capa m)%nat then (2 * m_capa m)%nat
              else (m_capa m + length p)%nat).
    assert (m_capa m <= c /\ m_ind m + length p <= c)%nat as [Hc1 Hc2].
    { unfold c. destruct (length p <? m_capa m)%nat eqn:E2;
        [apply Nat.ltb_lt in E2|apply Nat.ltb_ge in E2]; lia. }
    destruct (m_rawbytes_room p (m_realloc c m)) as [Hw Hd].
    + by apply m_realloc_wf.
    + simpl. lia.
    + split; [exact Hw|]. by rewrite Hd, m_realloc_pdu.
  - apply Nat.ltb_ge in E. by apply m_rawbytes_room.
Qed.

Lemma m_rawbyte_app m bs m' x :
  appended m bs m' -> appended m (bs ++ [char_of x]) (m_rawbyte x m').
Proof.
  intros H. eapply appended_trans; [exact H|].
  apply m_rawbyte_appended, H.
Qed.

Definition enc_u16 (x : Z) : bytes := [char_of (octet x 8); char_of (octet x 0)].
Definition enc_u32 (x : Z) : bytes :=
  [char_of (octet x 24); char_of (octet x 16); char_of (octet x 8); char_of (octet x 0)].
Definition enc_u64 (x : Z) : bytes := enc_u32 (u32 (Z.shiftr x 32)) ++ enc_u32 (u32 x).
Definition enc_string (s : bytes) : bytes := enc_u32 (u32 (Z.of_nat (length s))) ++ s.

Lemma put_u16_appended x m : m_wf m -> appended m (enc_u16 x) (put_u16 x m).
Proof.
  intros Hm. unfold put_u16.
  apply (m_rawbyte_app m [char_of (octet x 8)]). by apply m_rawbyte_appended.
Qed.

Lemma put_u32_appended x m : m_wf m -> appended m (enc_u32 x) (put_u32 x m).
Proof.
  intros Hm. unfold put_u32.
  apply (m_rawbyte_app m [char_of (octet x 24); char_of (octet x 16); char_of (octet x 8)]).
  apply (m_rawbyte_app m [char_of (octet x 24); char_of (octet x 16)]).
  apply (m_rawbyte_app m [char_of (octet x 24)]).
  by apply m_rawbyte_appended.
Qed.

Lemma put_u64_appended x m : m_wf m -> appended m (enc_u64 x) (put_u64 x m).
Proof.
  intros Hm. unfold put_u64, enc_u64.
  pose proof (put_u32_appended (u32 (Z.shiftr x 32)) m Hm) as H1.
  eapply appended_trans; [exact H1|]. apply put_u32_appended, H1.
Qed.

Lemma put_string_appended s m : m_wf m -> appended m (enc_string s) (put_string s m).
Proof.
  intros Hm. unfold put_string, enc_string.
  pose proof (put_u32_appended (u32 (Z.of_nat (length s))) m Hm) as H1.
  eapply appended_trans; [exact H1|]. apply m_rawbytes_appended, H1.
Qed.

Lemma marshall_new_wf : m_wf marshall_new.
Proof.
  unfold m_wf, marshall_new, RPC_HEADER_SZ, DEFAULT_RPC_SZ; cbn [m_buf m_capa m_ind].
  rewrite length_replicate. lia.
Qed.

(** ** The read side consumes *)

Lemma cursor_advance n u bs :
  cursor u bs -> (n <= length bs)%nat -> cursor (advance n u) (drop n bs).
Proof.
  intros (Hok & Hoob & Hl & Hsz & Hi & <-) Hn. rewrite length_drop in Hn.
  unfold cursor, advance; simpl. rewrite drop_drop. split_and!; try done. lia.
Qed.

Lemma advance_advance n k u : advance n (advance k u) = advance (k + n) u.
Proof. unfold advance, u_set_ind; simpl. f_equal. lia. Qed.

Lemma cursor_app u bs r : cursor u (bs ++ r) -> cursor (advance (length bs) u) r.
Proof.
  intros H. eapply cursor_advance with (n := length bs) in H.
  - by rewrite drop_app_length in H.
  - rewrite length_app. lia.
Qed.

Lemma land_schar c : Z.land (u32 (schar c)) 255 = zchar c.
Proof.
  change 255 with (Z.ones 8). rewrite Z.land_ones by lia.
  unfold u32, schar. pose proof (zchar_range c) as Hr.
  rewrite Z.mod_mod_divide by (exists (2 ^ 24); lia).
  destruct (zchar c <? 128) eqn:E; to_prop.
  - rewrite Z.mod_small; lia.
  - replace (zchar c - 256) with (zchar c + (-1) * 2 ^ 8) by lia.
    rewrite Z.mod_add by lia. rewrite Z.mod_small; lia.
Qed.

Lemma u_rawbyte_cursor u c r :
  cursor u (c :: r) -> u_rawbyte u = (u32 (schar c), advance 1 u).
Proof.
  intros (Hok & Hoob & Hl & Hsz & Hi & Hd). unfold u_rawbyte.
  assert (u_buf u !! u_ind u = Some c) as Hc.
  { rewrite <- (Nat.add_0_r (u_ind u)), <- lookup_drop, Hd. done. }
  pose proof (lookup_lt_Some _ _ _ Hc) as Hlt.
  destruct (u_sz u <=? u_ind u)%nat eqn:E; [apply Nat.leb_le in E; lia|].
  rewrite Hc. unfold advance. repeat f_equal. lia.
Qed.

Lemma u_octet_cursor k u c r :
  cursor u (c :: r) -> u_octet k u = (Z.shiftl (zchar c) k, advance 1 u).
Proof.
  intros H. unfold u_octet. by rewrite (u_rawbyte_cursor _ _ _ H), land_schar.
Qed.

Lemma octet_mod x k : 0 <= k -> octet x k = (x / 2 ^ k) mod 256.
Proof.
  intros. unfold octet. change 255 with (Z.ones 8).
  by rewrite Z.land_ones, Z.shiftr_div_pow2.
Qed.

Lemma zchar_octet x k : 0 <= k -> zchar (char_of (octet x k)) = (x / 2 ^ k) mod 256.
Proof.
  intros. rewrite zchar_char_of, octet_mod by done. unfold u8.
  change (2 ^ 8) with 256. by rewrite Z.mod_mod.
Qed.

Lemma lor_shift_add a b k : 0 <= k -> 0 <= b < 2 ^ k -> Z.lor (Z.shiftl a k) b = a * 2 ^ k + b.
Proof.
  intros Hk Hb. rewrite <- Z.shiftl_mul_pow2 by done.
  symmetry. rewrite <- Z.lxor_lor; [apply Z.add_nocarry_lxor|];
  apply Z.bits_inj'; intros n Hn; rewrite Z.land_spec, Z.bits_0;
  (destruct (Z.lt_ge_cases n k);
    [by rewrite Z.shiftl_spec_low|
     rewrite <- (Z.mod_small b (2 ^ k)) by done;
     rewrite Z.mod_pow2_bits_high by lia; apply andb_false_r]).
Qed.

Lemma lor_octets a b c d :
  0 <= b < 256 -> 0 <= c < 256 -> 0 <= d < 256 ->
  Z.lor (Z.lor (Z.lor (Z.shiftl a 24) (Z.shiftl b 16)) (Z.shiftl c 8)) (Z.shiftl d 0)
  = a * 2 ^ 24 + b * 2 ^ 16 + c * 2 ^ 8 + d.
Proof.
  intros Hb Hc Hd. rewrite Z.shiftl_0_r.
  replace (Z.shiftl a 24) with (Z.shiftl (Z.shiftl a 8) 16) by (by rewrite Z.shiftl_shiftl).
  rewrite <- Z.shiftl_lor, (lor_shift_add a b 8) by lia.
  replace (Z.shiftl (a * 2 ^ 8 + b) 16) with (Z.shiftl (Z.shiftl (a * 2 ^ 8 + b) 8) 8)
    by (by rewrite Z.shiftl_shiftl).
  rewrite <- Z.shiftl_lor, (lor_shift_add _ c 8) by lia.
  rewrite lor_shift_add by lia. lia.
Qed.

Lemma octets_u32 x :
  (x / 2 ^ 24) mod 256 * 2 ^ 24 + (x / 2 ^ 16) mod 256 * 2 ^ 16
  + (x / 2 ^ 8) mod 256 * 2 ^ 8 + (x / 2 ^ 0) mod 256 = u32 x.
Proof.
  unfold u32. change (2 ^ 24) with (256 * 256 * 256). change (2 ^ 16) with (256 * 256).
  change (2 ^ 32) with (256 * (256 * (256 * 256))). change (2 ^ 8) with 256.
  change (2 ^ 0) with 1. rewrite Z.div_1_r, <- !Z.div_div by lia.
  rewrite !Z.rem_mul_r by lia. lia.
Qed.

Lemma get_u32_cursor x u r :
  cursor u (enc_u32 x ++ r) -> get_u32 u = (u32 x, advance 4 u).
Proof.
  intros H. unfold get_u32. cbn [enc_u32 app] in H.
  rewrite (u_octet_cursor _ _ _ _ H). apply (cursor_advance 1) in H; [|simpl; lia].
  cbn [drop] in H. rewrite (u_octet_cursor _ _ _ _ H).
  apply (cursor_advance 1) in H; [|simpl; lia].
  cbn [drop] in H. rewrite (u_octet_cursor _ _ _ _ H).
  apply (cursor_advance 1) in H; [|simpl; lia].
  cbn [drop] in H. rewrite (u_octet_cursor _ _ _ _ H).
  rewrite !advance_advance, lor_octets by apply zchar_range.
  rewrite !zchar_octet by lia. by rewrite octets_u32.
Qed.

Lemma get_u16_cursor x u r :
  cursor u (enc_u16 x ++ r) -> get_u16 u = (u16 x, advance 2 u).
Proof.
  intros H. unfold get_u16. cbn [enc_u16 app] in H.
  rewrite (u_octet_cursor _ _ _ _ H). apply (cursor_advance 1) in H; [|simpl; lia].
  cbn [drop] in H. rewrite (u_octet_cursor _ _ _ _ H), advance_advance.
  rewrite Z.shiftl_0_r, (lor_shift_add _ _ 8) by (try lia; apply zchar_range).
  rewrite !zchar_octet by lia. f_equal. unfold u16.
  change (2 ^ 16) with (256 * 256). change (2 ^ 8) with 256. change (2 ^ 0) with 1.
  rewrite Z.div_1_r, Z.rem_mul_r by lia. lia.
Qed.

Lemma get_s32_cursor x u r :
  is_s32 x -> cursor u (enc_u32 (u32 x) ++ r) -> get_s32 u = (x, advance 4 u).
Proof.
  intros Hx H. unfold get_s32. rewrite (get_u32_cursor _ _ _ H).
  by rewrite !s32_u32, s32_small.
Qed.

Lemma get_u64_cursor x u r :
  is_u64 x -> cursor u (enc_u64 x ++ r) -> get_u64 u = (x, advance 8 u).
Proof.
  intros Hx H. unfold get_u64, enc_u64 in *. rewrite <- app_assoc in H.
  rewrite (get_u32_cursor _ _ _ H). apply cursor_app in H.
  change (length (enc_u32 _)) with 4%nat in H.
  rewrite (get_u32_cursor _ _ _ H), advance_advance.
  f_equal. unfold is_u64 in Hx. rewrite Z.shiftr_div_pow2 by lia.
  rewrite !(u32_small (x / 2 ^ 32)), (u32_small (u32 x)).
  - rewrite Z.lor_comm, (lor_shift_add _ _ 32) by (try lia; apply u32_range).
    unfold u32. pose proof (Z.div_mod x (2 ^ 32) ltac:(lia)). lia.
  - apply u32_range.
  - split; [apply Z.div_pos; lia|apply Z.div_lt_upper_bound; lia].
  - split; [apply Z.div_pos; lia|apply Z.div_lt_upper_bound; lia].
Qed.

Lemma u_rawbytes_cursor ss s u r :
  cursor u (s ++ r) ->
  u_rawbytes ss (Z.of_nat (length s)) u = (s, advance (length s) u).
Proof.
  intros (Hok & Hoob & Hl & Hsz & Hi & Hd). unfold u_rawbytes.
  assert (u_ind u + length s <= u_sz u)%nat.
  { apply (f_equal length) in Hd. rewrite length_drop, length_app in Hd. lia. }
  rewrite u32_small by (unfold is_u32; lia).
  do 2 (destruct (_ <? _) eqn:E; [to_prop; lia|clear E]).
  rewrite Nat2Z.id, Hd, take_app_length. done.
Qed.

Lemma get_string_cursor old s u r :
  Z.of_nat (length s) < 2 ^ 31 -> cursor u (enc_string s ++ r) ->
  get_string old u = (s, advance (4 + length s) u).
Proof.
  intros Hs H. unfold get_string, enc_string in *. rewrite <- app_assoc in H.
  rewrite (get_u32_cursor _ _ _ H).
  apply cursor_app in H. pose proof H as [Hok _].
  change (length (enc_u32 _)) with 4%nat in H, Hok. rewrite Hok.
  rewrite !u32_small by (unfold is_u32; rewrite ?u32_small by (unfold is_u32; lia); lia).
  rewrite (u_rawbytes_cursor old s _ r H), advance_advance. done.
Qed.

(** ** Instances *)

Definition overwrite {A} (old x : A) : A := x.

Definition w_u16 : wire Z := Wire put_u16 (fun _ => get_u16) enc_u16 overwrite is_u16.
Definition w_u32 : wire Z := Wire put_u32 (fun _ => get_u32) enc_u32 overwrite is_u32.
Definition w_s32 : wire Z :=
  Wire put_s32 (fun _ => get_s32) (fun x => enc_u32 (u32 x)) overwrite is_s32.
Definition w_u64 : wire Z := Wire put_u64 (fun _ => get_u64) enc_u64 overwrite is_u64.
Definition w_string : wire bytes :=
  Wire put_string get_string enc_string overwrite
    (fun s => Z.of_nat (length s) < 2 ^ 31).

Ltac wire_intro w :=
  split; intros; unfold w in *; cbn [w_put w_get w_enc w_into w_ok] in *.

#[export] Instance w_u16_laws : WireLaws w_u16.
Proof.
  wire_intro w_u16.
  - by apply put_u16_appended.
  - erewrite get_u16_cursor by eassumption. by rewrite u16_small.
Qed.
#[export] Instance w_u32_laws : WireLaws w_u32.
Proof.
  wire_intro w_u32.
  - by apply put_u32_appended.
  - erewrite get_u32_cursor by eassumption. by rewrite u32_small.
Qed.
#[export] Instance w_s32_laws : WireLaws w_s32.
Proof.
  wire_intro w_s32.
  - by apply put_u32_appended.
  - by erewrite get_s32_cursor by eassumption.
Qed.
#[export] Instance w_u64_laws : WireLaws w_u64.
Proof.
  wire_intro w_u64.
  - by apply put_u64_appended.
  - by erewrite get_u64_cursor by eassumption.
Qed.
#[export] Instance w_string_laws : WireLaws w_string.
Proof.
  wire_intro w_string.
  - by apply put_string_appended.
  - erewrite get_string_cursor by eassumption. unfold enc_string. by rewrite length_app.
Qed.

(** Two values one after the other: [m << a; m << b] and [u >> a; u >> b]. *)
Definition w_pair {A B} (wa : wire A) (wb : wire B) : wire (A * B) :=
  Wire (fun x m => w_put wb x.2 (w_put wa x.1 m))
       (fun old u => let '(a, u) := w_get wa old.1 u in
                     let '(b, u) := w_get wb old.2 u in ((a, b), u))
       (fun x => w_enc wa x.1 ++ w_enc wb x.2)
       (fun old x => (w_into wa old.1 x.1, w_into wb old.2 x.2))
       (fun x => w_ok wa x.1 /\ w_ok wb x.2).

#[export] Instance w_pair_laws {A B} (wa : wire A) (wb : wire B) :
  WireLaws wa -> WireLaws wb -> WireLaws (w_pair wa wb).
Proof.
  intros Ha Hb. split; simpl.
  - intros [a b] m [Hoa Hob] Hm. pose proof (w_put_appends a m Hoa Hm) as H1.
    eapply appended_trans; [exact H1|]. apply w_put_appends; [done|apply H1].
  - intros [oa ob] [a b] u r [Hoa Hob] H. simpl in *. rewrite <- app_assoc in H.
    rewrite (w_get_reads oa a u _ Hoa H). apply cursor_app in H.
    rewrite (w_get_reads ob b _ _ Hob H), advance_advance, length_app. done.
Qed.

(** A struct marshalled field by field through a bijection with a tuple. *)
Definition w_iso {A B} (f : B -> A) (g : A -> B) (w : wire A) : wire B :=
  Wire (fun x => w_put w (f x))
       (fun old u => let '(a, u) := w_get w (f old) u in (g a, u))
       (fun x => w_enc w (f x))
       (fun old x => g (w_into w (f old) (f x)))
       (fun x => w_ok w (f x)).

#[export] Instance w_iso_laws {A B} (f : B -> A) (g : A -> B) (w : wire A) :
  WireLaws w -> WireLaws (w_iso f g w).
Proof.
  intros Hw. split; simpl.
  - intros x m Hx Hm. by apply w_put_appends.
  - intros old x u r Hx H. by rewrite (w_get_reads (f old) (f x) u r Hx H).
Qed.

(** ** Vectors and maps *)

Fixpoint put_all {A} (w : wire A) (v : list A) (m : marshall) : marshall :=
  match v with
  | [] => m
  | x :: v' => put_all w v' (w_put w x m)
  end.

(** [n] extractions, each into a default-constructed [z], pushed on [v] *)
Fixpoint get_all {A} (w : wire A) (z : A) (n : nat) (v : list A) (u : unmarshall)
  : list A * unmarshall :=
  match n with
  | O => (v, u)
  | S n' => let '(x, u) := w_get w z u in get_all w z n' (v ++ [x]) u
  end.

Definition put_vector {A} (w : wire A) (v : list A) (m : marshall) : marshall :=
  put_all w v (put_u32 (u32 (Z.of_nat (length v))) m).

(** [operator>>] on a vector does not clear it first. *)
Definition get_vector {A} (w : wire A) (z : A) (v : list A) (u : unmarshall)
  : list A * unmarshall :=
  let '(n, u) := get_u32 u in get_all w z (Z.to_nat n) v u.

Definition w_vector {A} (w : wire A) (z : A) : wire (list A) :=
  Wire (put_vector w) (get_vector w z)
       (fun v => enc_u32 (u32 (Z.of_nat (length v))) ++ concat (w_enc w <$> v))
       (fun old v => old ++ (w_into w z <$> v))
       (fun v => Z.of_nat (length v) < 2 ^ 32 /\ Forall (w_ok w) v).

(** [std::map] is marshalled as its entries in key order; extraction clears
    the map and inserts the entries one by one. *)
Definition map_entries {K V} `{Countable K} (le : relation K) `{!RelDecision le}
  (d : gmap K V) : list (K * V) :=
  merge_sort (fun x y => le x.1 y.1) (H := fun x y => decide (le x.1 y.1)) (map_to_list d).

Definition put_map {K V} `{Countable K} (le : relation K) `{!RelDecision le}
  (wk : wire K) (wv : wire V) (d : gmap K V) (m : marshall) : marshall :=
  put_all (w_pair wk wv) (map_entries le d) (put_u32 (u32 (Z.of_nat (size d))) m).

Definition get_map {K V} `{Countable K} (wk : wire K) (wv : wire V) (zk : K) (zv : V)
  (d : gmap K V) (u : unmarshall) : gmap K V * unmarshall :=
  let '(n, u) := get_u32 u in
  let '(es, u) := get_all (w_pair wk wv) (zk, zv) (Z.to_nat n) [] u in
  (foldl (fun d e => <[e.1 := e.2]> d) ∅ es, u).

Lemma put_all_appended {A} (w : wire A) `{!WireLaws w} v m :
  Forall (w_ok w) v -> m_wf m -> appended m (concat (w_enc w <$> v)) (put_all w v m).
Proof.
  intros Hv. revert m. induction Hv as [|x v Hx Hv IH]; intros m Hm; simpl.
  - split; [done|]. by rewrite app_nil_r.
  - pose proof (w_put_appends x m Hx Hm) as H1.
    eapply appended_trans; [exact H1|]. apply IH, H1.
Qed.

Lemma get_all_cursor {A} (w : wire A) `{!WireLaws w} z v acc u r :
  Forall (w_ok w) v -> cursor u (concat (w_enc w <$> v) ++ r) ->
  get_all w z (length v) acc u =
    (acc ++ (w_into w z <$> v), advance (length (concat (w_enc w <$> v))) u).
Proof.
  intros Hv. revert acc u. induction Hv as [|x v Hx Hv IH]; intros acc u H; simpl.
  - rewrite app_nil_r. unfold advance, u_set_ind. rewrite Nat.add_0_r. by destruct u.
  - simpl in H. rewrite <- app_assoc in H.
    rewrite (w_get_reads z x u _ Hx H). apply cursor_app in H.
    rewrite (IH _ _ H), advance_advance, length_app, <- app_assoc. done.
Qed.

#[export] Instance w_vector_laws {A} (w : wire A) z : WireLaws w -> WireLaws (w_vector w z).
Proof.
  intros Hw. split; unfold w_vector; cbn [w_put w_get w_enc w_into w_ok].
  - intros x m [Hlen Hv] Hm. unfold put_vector.
    pose proof (put_u32_appended (u32 (Z.of_nat (length x))) m Hm) as H1.
    eapply appended_trans; [exact H1|]. apply put_all_appended; [done..|apply H1].
  - intros old x u r [Hlen Hv] H0. unfold get_vector. rewrite <- app_assoc in H0.
    rewrite (get_u32_cursor _ _ _ H0). apply cursor_app in H0.
    change (length (enc_u32 _)) with 4%nat in H0.
    assert (is_u32 (Z.of_nat (length x))) by (unfold is_u32; lia).
    rewrite !u32_small, Nat2Z.id by (rewrite ?u32_small; done).
    rewrite (get_all_cursor w z x old _ _ Hv H0), advance_advance, length_app. done.
Qed.

(** ** Headers *)

Lemma insert_memcpy i c (b : list (option ascii)) :
  (i < length b)%nat -> <[i := Some c]> b = memcpy_at i [c] b.
Proof. intros Hi. unfold memcpy_at. rewrite insert_take_drop by done. simpl. by rewrite Nat.add_1_r. Qed.

Lemma length_memcpy i p b :
  (i + length p <= length b)%nat -> length (memcpy_at i p b) = length b.
Proof.
  intros. unfold memcpy_at. rewrite !length_app, length_take, length_fmap, length_drop. lia.
Qed.

Lemma memcpy_memcpy i p q b :
  (i + length p + length q <= length b)%nat ->
  memcpy_at (i + length p) q (memcpy_at i p b) = memcpy_at i (p ++ q) b.
Proof.
  intros Hl. unfold memcpy_at.
  rewrite (app_assoc (take i b) (Some <$> p)).
  assert (length (take i b ++ (Some <$> p)) = (i + length p)%nat) as Hlen.
  { rewrite length_app, length_take, length_fmap. lia. }
  rewrite (take_app_length' (_ ++ _)) by done.
  rewrite (drop_app_ge (_ ++ _)), drop_drop, Hlen by lia.
  rewrite fmap_app, length_app, <- !app_assoc. do 3 f_equal.
  apply (f_equal (fun n => drop n b)). lia.
Qed.

(** Writing [p] in place at the cursor. *)
Definition m_overwrite (p : bytes) (m : marshall) : marshall :=
  Marshall (memcpy_at (m_ind m) p (m_buf m)) (m_capa m) (m_ind m + length p).

Lemma m_overwrite_app p q m :
  length (m_buf m) = m_capa m -> (m_ind m + length p + length q <= m_capa m)%nat ->
  m_overwrite q (m_overwrite p m) = m_overwrite (p ++ q) m.
Proof.
  intros Hl Hr. unfold m_overwrite; simpl. rewrite memcpy_memcpy by lia.
  rewrite length_app, Nat.add_assoc. done.
Qed.

Lemma m_rawbyte_overwrite x m :
  length (m_buf m) = m_capa m -> (m_ind m < m_capa m)%nat ->
  m_rawbyte x m = m_overwrite [char_of x] m.
Proof.
  intros Hl Hr. unfold m_rawbyte, m_overwrite.
  destruct (m_capa m <=? m_ind m)%nat eqn:E; [apply Nat.leb_le in E; lia|].
  rewrite insert_memcpy by lia. simpl. by rewrite Nat.add_1_r.
Qed.

Lemma m_pack_overwrite x m :
  length (m_buf m) = m_capa m -> (m_ind m + 4 <= m_capa m)%nat ->
  m_pack x m = m_overwrite (enc_u32 x) m.
Proof.
  intros Hl Hr. unfold m_pack.
  rewrite (m_rawbyte_overwrite _ m) by lia.
  do 3 (rewrite (m_rawbyte_overwrite _ (m_overwrite _ m))
          by (simpl; rewrite ?length_memcpy; simpl; lia);
        rewrite m_overwrite_app by (simpl; lia)).
  done.
Qed.

Definition enc_req_header (h : req_header) : bytes :=
  enc_u32 (rq_xid h) ++ enc_u32 (rq_proc h) ++ enc_u32 (s32 (rq_clt_nonce h))
  ++ enc_u32 (s32 (rq_srv_nonce h)) ++ enc_u32 (rq_xid_rep h).

Definition enc_reply_header (h : reply_header) : bytes :=
  enc_u32 (rp_xid h) ++ enc_u32 (rp_ret h).

Definition wf_req_header (h : req_header) : Prop :=
  is_s32 (rq_xid h) /\ is_s32 (rq_proc h) /\ is_u32 (rq_clt_nonce h) /\
  is_u32 (rq_srv_nonce h) /\ is_s32 (rq_xid_rep h).

Definition wf_reply_header (h : reply_header) : Prop :=
  is_s32 (rp_xid h) /\ is_s32 (rp_ret h).

(** The bytes [b] arrived for the block [pdu]: bytes that were never written
    may arrive as anything. *)
Definition delivered (pdu : list (option ascii)) (b : bytes) : Prop :=
  Forall2 (fun o c => forall x, o = Some x -> c = x) pdu b.

(** A block with a header area and the arguments [bs] after it. *)
Definition carries (m : marshall) (bs : bytes) : Prop :=
  m_wf m /\ m_content m = Some <$> bs /\ (RPC_HEADER_SZ <= m_ind m)%nat.

Lemma pack_req_header_eq h m :
  m_wf m -> (RPC_HEADER_SZ <= m_capa m)%nat ->
  pack_req_header h m = Marshall (memcpy_at 4 (enc_req_header h) (m_buf m)) (m_capa m) (m_ind m).
Proof.
  intros (Hl & Hi & Hp) Hc. unfold RPC_HEADER_SZ in Hc. simpl in Hc.
  unfold pack_req_header. rewrite (m_pack_overwrite (rq_xid h)) by (simpl; lia).
  do 4 (rewrite (m_pack_overwrite _ (m_overwrite _ (m_set_ind 4 m)))
          by (simpl; rewrite ?length_memcpy; simpl; lia);
        rewrite m_overwrite_app by (simpl; lia)).
  unfold m_set_ind, m_overwrite, enc_req_header; simpl. done.
Qed.

Lemma pack_reply_header_eq h m :
  m_wf m -> (RPC_HEADER_SZ <= m_capa m)%nat ->
  pack_reply_header h m =
    Marshall (memcpy_at 4 (enc_reply_header h) (m_buf m)) (m_capa m) (m_ind m).
Proof.
  intros (Hl & Hi & Hp) Hc. unfold RPC_HEADER_SZ in Hc. simpl in Hc.
  unfold pack_reply_header. rewrite (m_pack_overwrite (rp_xid h)) by (simpl; lia).
  rewrite (m_pack_overwrite _ (m_overwrite _ (m_set_ind 4 m)))
    by (simpl; rewrite ?length_memcpy; simpl; lia).
  rewrite m_overwrite_app by (simpl; lia).
  unfold m_set_ind, m_overwrite, enc_reply_header; simpl. done.
Qed.

Lemma delivered_Some p b : delivered (Some <$> p) b -> b = p.
Proof.
  revert b. induction p as [|c p IH]; intros b H; inversion_clear H; [done|].
  f_equal; eauto.
Qed.

Lemma take_memcpy n i p b :
  (i + length p <= n)%nat -> (n <= length b)%nat ->
  take n (memcpy_at i p b) =
    take i b ++ (Some <$> p) ++ drop (i + length p) (take n b).
Proof.
  intros H1 H2. unfold memcpy_at. rewrite app_assoc, take_app_ge
    by (rewrite length_app, length_take, length_fmap; lia).
  rewrite <- app_assoc, take_drop_commute. repeat f_equal.
  rewrite length_app, length_take, length_fmap. lia.
Qed.

(** A header written in place leaves the arguments where they were. *)
Lemma delivered_header m hdr bs b :
  carries m bs -> (4 + length hdr <= RPC_HEADER_SZ)%nat ->
  delivered (m_pdu (Marshall (memcpy_at 4 hdr (m_buf m)) (m_capa m) (m_ind m))) b ->
  length b = m_ind m /\
  (exists r, drop 4 b = hdr ++ r) /\ drop RPC_HEADER_SZ b = bs.
Proof.
  intros ((Hl & Hi & Hp) & Hc & Hh) Hhdr Hd.
  unfold m_content, m_pdu in *; cbn [m_ind m_buf] in *.
  rewrite take_memcpy in Hd by lia.
  pose proof (Forall2_length _ _ _ Hd) as Hlen.
  rewrite !length_app, length_fmap, length_drop, !length_take in Hlen.
  apply Forall2_app_inv_l in Hd as (b1 & b2 & H1 & Hd & ->).
  apply Forall2_app_inv_l in Hd as (b3 & b4 & H3%delivered_Some & H4 & ->). subst b3.
  pose proof (Forall2_length _ _ _ H1) as Hl1. rewrite length_take in Hl1.
  split; [lia|]. split.
  - exists b4. apply drop_app_length'. lia.
  - apply delivered_Some. rewrite <- Hc.
    rewrite drop_app_ge, drop_app_ge by lia.
    replace RPC_HEADER_SZ with (4 + length hdr + (RPC_HEADER_SZ - length b1 - length hdr))%nat
      at 1 by lia.
    rewrite <- drop_drop. by apply Forall2_drop.
Qed.

Lemma u_unpack_cursor x u r :
  cursor u (enc_u32 x ++ r) -> u_unpack u = (s32 x, advance 4 u).
Proof. intros H. unfold u_unpack. by rewrite (get_u32_cursor _ _ _ H), s32_u32. Qed.

Lemma cursor_start b bs :
  Z.of_nat (length b) < 2 ^ 31 -> (4 <= length b)%nat -> drop 4 b = bs ->
  cursor (u_set_ind 4 (unmarshall_of b (length b))) bs.
Proof. intros H1 H2 H3. unfold cursor; simpl. split_and!; done || lia. Qed.

Lemma cursor_after_header b bs u :
  u_buf u = b -> u_sz u = length b -> u_ok u = true -> u_oob u = false ->
  Z.of_nat (length b) < 2 ^ 31 -> (RPC_HEADER_SZ <= length b)%nat ->
  drop RPC_HEADER_SZ b = bs -> cursor (u_set_ind RPC_HEADER_SZ u) bs.
Proof. intros <- Hsz ? ? ? ? <-. unfold cursor; simpl. rewrite Hsz. split_and!; done. Qed.

(** A request header packed in front of any marshalled
    arguments is unpacked unchanged on the other side, and the cursor is left
    at exactly those arguments. *)
Lemma req_header_roundtrip h m args b :
  wf_req_header h -> carries m args ->
  delivered (m_pdu (pack_req_header h m)) b -> Z.of_nat (length b) < 2 ^ 31 ->
  exists u, unpack_req_header (unmarshall_of b (length b)) = (h, u) /\ cursor u args.
Proof.
  intros (Hx & Hp & Hc & Hs & Hr) Hm Hd Hsz. pose proof Hm as ((? & ? & ?) & _ & ?).
  rewrite pack_req_header_eq in Hd by (try apply Hm; lia).
  apply (delivered_header m _ args) in Hd as (Hlen & [r Hr4] & Hargs);
    [|done|unfold RPC_HEADER_SZ; simpl; lia].
  assert (4 <= length b)%nat by (unfold RPC_HEADER_SZ in *; lia).
  pose proof (cursor_start b _ Hsz ltac:(done) Hr4) as Hcur.
  unfold unpack_req_header, enc_req_header in *. rewrite <- !app_assoc in Hcur.
  do 5 (rewrite (u_unpack_cursor _ _ _ Hcur); apply cursor_app in Hcur;
        change (length (enc_u32 _)) with 4%nat in Hcur).
  eexists. split.
  - rewrite !u32_s32, !s32_small, !u32_small by done. by destruct h.
  - apply (cursor_after_header b); simpl; done || lia.
Qed.

(** The same for the reply header. *)
Lemma reply_header_roundtrip h m args b :
  wf_reply_header h -> carries m args ->
  delivered (m_pdu (pack_reply_header h m)) b -> Z.of_nat (length b) < 2 ^ 31 ->
  exists u, unpack_reply_header (unmarshall_of b (length b)) = (h, u) /\ cursor u args.
Proof.
  intros (Hx & Hp) Hm Hd Hsz. pose proof Hm as ((? & ? & ?) & _ & ?).
  rewrite pack_reply_header_eq in Hd by (try apply Hm; lia).
  apply (delivered_header m _ args) in Hd as (Hlen & [r Hr4] & Hargs);
    [|done|unfold RPC_HEADER_SZ; simpl; lia].
  assert (4 <= length b)%nat by (unfold RPC_HEADER_SZ in *; lia).
  pose proof (cursor_start b _ Hsz ltac:(done) Hr4) as Hcur.
  unfold unpack_reply_header, enc_reply_header in *. rewrite <- !app_assoc in Hcur.
  do 2 (rewrite (u_unpack_cursor _ _ _ Hcur); apply cursor_app in Hcur;
        change (length (enc_u32 _)) with 4%nat in Hcur).
  eexists. split.
  - rewrite !s32_small by done. by destruct h.
  - apply (cursor_after_header b); simpl; done || lia.
Qed.

(** The cursor is inside its block and nothing outside was read. *)
Definition u_safe (u : unmarshall) : Prop :=
  length (u_buf u) = u_sz u /\ Z.of_nat (u_sz u) < 2 ^ 31 /\
  (u_ind u <= u_sz u)%nat /\ u_oob u = false.

(** [u'] is what [u] became by extractions: the block is the same, the cursor
    did not go back, and a failed stream stays failed. *)
Definition u_later (u u' : unmarshall) : Prop :=
  u_buf u' = u_buf u /\ u_sz u' = u_sz u /\ (u_ind u <= u_ind u')%nat /\
  (u_ok u = false -> u_ok u' = false).

#[export] Instance u_later_preorder : PreOrder u_later.
Proof.
  split.
  - intros u. unfold u_later. split_and!; done || lia.
  - intros u1 u2 u3 (H1 & H2 & H3 & H4) (H5 & H6 & H7 & H8).
    unfold u_later. split_and!; try congruence || lia. eauto.
Qed.

Lemma u_octet_safe k u :
  u_safe u -> u_safe (u_octet k u).2 /\ u_later u (u_octet k u).2.
Proof.
  intros (Hl & Hsz & Hi & Ho). unfold u_octet, u_rawbyte.
  destruct (u_sz u <=? u_ind u)%nat eqn:E; simpl; unfold u_safe, u_later; simpl.
  - split_and!; done || lia.
  - apply Nat.leb_gt in E. split_and!; done || lia.
Qed.

Lemma get_u32_safe u : u_safe u -> u_safe (get_u32 u).2 /\ u_later u (get_u32 u).2.
Proof.
  intros H0. unfold get_u32.
  destruct (u_octet_safe 24 u H0) as [H1 L1]. destruct (u_octet 24 u) as [b3 u1]; simpl in *.
  destruct (u_octet_safe 16 u1 H1) as [H2 L2]. destruct (u_octet 16 u1) as [b2 u2]; simpl in *.
  destruct (u_octet_safe 8 u2 H2) as [H3 L3]. destruct (u_octet 8 u2) as [b1 u3]; simpl in *.
  destruct (u_octet_safe 0 u3 H3) as [H4 L4]. destruct (u_octet 0 u3) as [b0 u4]; simpl in *.
  split; [done|]. by repeat (etrans; [eassumption|]).
Qed.

(** C40: extracting a string from any block, truncated or
    corrupt, never reads outside the block and never moves the cursor back or
    revives a failed stream, as long as the length prefix found there does not
    make the 32-bit bounds test wrap. *)
Theorem get_string_in_bounds old u :
  u_safe u -> Z.of_nat (u_sz u) + (get_u32 u).1 < 2 ^ 32 -> 0 <= (get_u32 u).1 ->
  u_safe (get_string old u).2 /\ u_later u (get_string old u).2.
Proof.
  intros Hu Hn Hpos. destruct (get_u32_safe u Hu) as [H1 L1]. unfold get_string.
  destruct (get_u32 u) as [n u1]; cbn [fst snd] in *.
  destruct (u_ok u1) eqn:Eok; [|done].
  destruct H1 as (Hl & Hsz & Hi & Ho). destruct L1 as (Eb & Es & Li & Lo).
  unfold u_rawbytes. rewrite u32_small by (unfold is_u32; lia).
  destruct (Z.of_nat (u_sz u1) <? Z.of_nat (u_ind u1) + n) eqn:E1; to_prop.
  - unfold u_safe, u_later; simpl. split_and!; done || lia.
  - destruct (_ <? _) eqn:E2; to_prop; [lia|].
    unfold u_safe, u_later; simpl. split_and!; done || lia.
Qed.

(** Without that condition the test can be passed by a length that wraps:
    a 28-byte block whose string length field is 2^32 - 1. *)
Definition wrapping_block : bytes := replicate 24 Ascii.zero ++ enc_u32 (2 ^ 32 - 1).

(** A string length field of 2^32 - 1 passes the bounds test
    of [unmarshall::rawbytes] (the sum with the cursor wraps to a small
    number), so 2^32 - 1 bytes are read from a 28-byte block. *)
Theorem get_string_length_wrap :
  u_oob (get_string [] (u_set_ind RPC_HEADER_SZ
           (unmarshall_of wrapping_block (length wrapping_block)))).2 = true.
Proof. vm_compute. reflexivity. Qed.

Lemma get_string_in_bounds_witness :
  let u := unmarshall_of (replicate 24 Ascii.zero ++ enc_u32 100) 28 in
  u_safe (u_set_ind RPC_HEADER_SZ u) /\ u_safe (get_string [] (u_set_ind RPC_HEADER_SZ u)).2.
Proof.
  assert (u_safe (u_set_ind RPC_HEADER_SZ (unmarshall_of (replicate 24 Ascii.zero ++ enc_u32 100) 28))) as H.
  { vm_compute. repeat split; lia. }
  split; [exact H|]. apply get_string_in_bounds; [exact H|vm_compute; reflexivity|vm_compute; congruence].
Defined.
