(* ===== verification/Rpc.v ===== *)
(** * Typed RPC calls and handlers

    The templates of [rpc/rpc.h]: [rpcc::call] marshals its arguments and
    unmarshals the reply, [rpcs::reg] wraps a method of a server object into a
    [handler] that does the converse.  [S] is the state of the server object
    the method runs on; a method takes the reply variable it is given by
    reference and returns its status, the reply and the new state. *)

From stdpp Require Import gmap list strings.
From Stdlib Require Import ZArith Lia Ascii.
From S2P Require Import Prelude Text Marshall.

Local Open Scope Z_scope.

Module rpc_const.
Definition bind : Z := 1.
Definition timeout_failure : Z := -1.
Definition unmarshal_args_failure : Z := -2.
Definition unmarshal_reply_failure : Z := -3.
Definition atmostonce_failure : Z := -4.
Definition oldsrv_failure : Z := -5.
Definition bind_failure : Z := -6.
Definition cancel_failure : Z := -7.
End rpc_const.

(** ** The client templates *)

Section Client.
Context {A1 A2 A3 A4 A5 A6 A7 : Type}.
Context (w1 : wire A1) (w2 : wire A2) (w3 : wire A3) (w4 : wire A4)
        (w5 : wire A5) (w6 : wire A6) (w7 : wire A7).

Definition call_args0 : marshall := marshall_new.
Definition call_args1 (a1 : A1) : marshall :=
  let m := marshall_new in w_put w1 a1 m.
Definition call_args2 (a1 : A1) (a2 : A2) : marshall :=
  let m := marshall_new in
  let m := w_put w1 a1 m in w_put w2 a2 m.
Definition call_args3 (a1 : A1) (a2 : A2) (a3 : A3) : marshall :=
  let m := marshall_new in
  let m := w_put w1 a1 m in let m := w_put w2 a2 m in w_put w3 a3 m.
Definition call_args4 (a1 : A1) (a2 : A2) (a3 : A3) (a4 : A4) : marshall :=
  let m := marshall_new in
  let m := w_put w1 a1 m in let m := w_put w2 a2 m in
  let m := w_put w3 a3 m in w_put w4 a4 m.
Definition call_args5 (a1 : A1) (a2 : A2) (a3 : A3) (a4 : A4) (a5 : A5) : marshall :=
  let m := marshall_new in
  let m := w_put w1 a1 m in let m := w_put w2 a2 m in
  let m := w_put w3 a3 m in let m := w_put w4 a4 m in w_put w5 a5 m.
Definition call_args6 (a1 : A1) (a2 : A2) (a3 : A3) (a4 : A4) (a5 : A5) (a6 : A6)
  : marshall :=
  let m := marshall_new in
  let m := w_put w1 a1 m in let m := w_put w2 a2 m in
  let m := w_put w3 a3 m in let m := w_put w4 a4 m in
  let m := w_put w5 a5 m in w_put w6 a6 m.
Definition call_args7 (a1 : A1) (a2 : A2) (a3 : A3) (a4 : A4) (a5 : A5) (a6 : A6)
  (a7 : A7) : marshall :=
  let m := marshall_new in
  let m := w_put w1 a1 m in let m := w_put w2 a2 m in
  let m := w_put w3 a3 m in let m := w_put w4 a4 m in
  let m := w_put w5 a5 m in let m := w_put w6 a6 m in w_put w7 a7 m.
End Client.

(** [call_m]: [call1] has put the status in [intret] and the reply in [u]. *)
Definition call_m {R} (wr : wire R) (call1 : marshall -> Z * unmarshall)
  (req : marshall) (r : R) : Z * R :=
  let '(intret, u) := call1 req in
  if intret <? 0 then (intret, r)
  else let '(r, u) := w_get wr r u in
       if u_okdone u then (intret, r)
       else (rpc_const.unmarshal_reply_failure, r).

(** ** The server templates *)

(** [handler::fn], run on the server object's state [S] *)
Definition handler_fn (S : Type) : Type := unmarshall -> marshall -> S -> Z * marshall * S.

(** The common shape of the wrappers: all arguments are extracted into
    default-constructed variables [z] before the check. *)
Definition wrap {S A R} (wa : wire A) (wr : wire R) (z : A) (zr : R)
  (meth : A -> R -> S -> Z * R * S) : handler_fn S :=
  fun args ret s =>
    let '(a, args) := w_get wa z args in
    if u_okdone args then
      let '(b, r, s) := meth a zr s in (b, w_put wr r ret, s)
    else (rpc_const.unmarshal_args_failure, ret, s).

Section Server.
Context {S R : Type} (wr : wire R) (zr : R).
Context {A1 A2 A3 A4 A5 A6 A7 : Type}.
Context (w1 : wire A1) (w2 : wire A2) (w3 : wire A3) (w4 : wire A4)
        (w5 : wire A5) (w6 : wire A6) (w7 : wire A7).
Context (z1 : A1) (z2 : A2) (z3 : A3) (z4 : A4) (z5 : A5) (z6 : A6) (z7 : A7).

Definition reg_fn1 (meth : A1 -> R -> S -> Z * R * S) : handler_fn S :=
  fun args ret s =>
    let '(a1, args) := w_get w1 z1 args in
    if negb (u_okdone args) then (rpc_const.unmarshal_args_failure, ret, s)
    else let '(b, r, s) := meth a1 zr s in (b, w_put wr r ret, s).

Definition reg_fn2 (meth : A1 -> A2 -> R -> S -> Z * R * S) : handler_fn S :=
  fun args ret s =>
    let '(a1, args) := w_get w1 z1 args in
    let '(a2, args) := w_get w2 z2 args in
    if negb (u_okdone args) then (rpc_const.unmarshal_args_failure, ret, s)
    else let '(b, r, s) := meth a1 a2 zr s in (b, w_put wr r ret, s).

Definition reg_fn3 (meth : A1 -> A2 -> A3 -> R -> S -> Z * R * S) : handler_fn S :=
  fun args ret s =>
    let '(a1, args) := w_get w1 z1 args in
    let '(a2, args) := w_get w2 z2 args in
    let '(a3, args) := w_get w3 z3 args in
    if negb (u_okdone args) then (rpc_const.unmarshal_args_failure, ret, s)
    else let '(b, r, s) := meth a1 a2 a3 zr s in (b, w_put wr r ret, s).

Definition reg_fn4 (meth : A1 -> A2 -> A3 -> A4 -> R -> S -> Z * R * S)
  : handler_fn S :=
  fun args ret s =>
    let '(a1, args) := w_get w1 z1 args in
    let '(a2, args) := w_get w2 z2 args in
    let '(a3, args) := w_get w3 z3 args in
    let '(a4, args) := w_get w4 z4 args in
    if negb (u_okdone args) then (rpc_const.unmarshal_args_failure, ret, s)
    else let '(b, r, s) := meth a1 a2 a3 a4 zr s in (b, w_put wr r ret, s).

Definition reg_fn5 (meth : A1 -> A2 -> A3 -> A4 -> A5 -> R -> S -> Z * R * S)
  : handler_fn S :=
  fun args ret s =>
    let '(a1, args) := w_get w1 z1 args in
    let '(a2, args) := w_get w2 z2 args in
    let '(a3, args) := w_get w3 z3 args in
    let '(a4, args) := w_get w4 z4 args in
    let '(a5, args) := w_get w5 z5 args in
    if negb (u_okdone args) then (rpc_const.unmarshal_args_failure, ret, s)
    else let '(b, r, s) := meth a1 a2 a3 a4 a5 zr s in (b, w_put wr r ret, s).

Definition reg_fn6 (meth : A1 -> A2 -> A3 -> A4 -> A5 -> A6 -> R -> S -> Z * R * S)
  : handler_fn S :=
  fun args ret s =>
    let '(a1, args) := w_get w1 z1 args in
    let '(a2, args) := w_get w2 z2 args in
    let '(a3, args) := w_get w3 z3 args in
    let '(a4, args) := w_get w4 z4 args in
    let '(a5, args) := w_get w5 z5 args in
    let '(a6, args) := w_get w6 z6 args in
    if negb (u_okdone args) then (rpc_const.unmarshal_args_failure, ret, s)
    else let '(b, r, s) := meth a1 a2 a3 a4 a5 a6 zr s in (b, w_put wr r ret, s).

Definition reg_fn7 (meth : A1 -> A2 -> A3 -> A4 -> A5 -> A6 -> A7 -> R -> S -> Z * R * S)
  : handler_fn S :=
  fun args ret s =>
    let '(a1, args) := w_get w1 z1 args in
    let '(a2, args) := w_get w2 z2 args in
    let '(a3, args) := w_get w3 z3 args in
    let '(a4, args) := w_get w4 z4 args in
    let '(a5, args) := w_get w5 z5 args in
    let '(a6, args) := w_get w6 z6 args in
    let '(a7, args) := w_get w7 z7 args in
    if negb (u_okdone args) then (rpc_const.unmarshal_args_failure, ret, s)
    else let '(b, r, s) := meth a1 a2 a3 a4 a5 a6 a7 zr s in (b, w_put wr r ret, s).
End Server.

(** The templates of every arity are the common shape at a tuple. *)
Ltac arity :=
  intros; unfold wrap, reg_fn1, reg_fn2, reg_fn3, reg_fn4, reg_fn5, reg_fn6, reg_fn7;
  simpl; repeat (case_match; simplify_eq/=; try done).

Section Arities.
Context {S R : Type} (wr : wire R) (zr : R).
Context {A1 A2 A3 A4 A5 A6 A7 : Type}.
Context (w1 : wire A1) (w2 : wire A2) (w3 : wire A3) (w4 : wire A4)
        (w5 : wire A5) (w6 : wire A6) (w7 : wire A7).
Context (z1 : A1) (z2 : A2) (z3 : A3) (z4 : A4) (z5 : A5) (z6 : A6) (z7 : A7).

Lemma reg_fn1_wrap meth (args : unmarshall) ret (s : S) :
  reg_fn1 wr zr w1 z1 meth args ret s = wrap w1 wr z1 zr meth args ret s.
Proof. arity. Qed.

Lemma reg_fn2_wrap meth (args : unmarshall) ret (s : S) :
  reg_fn2 wr zr w1 w2 z1 z2 meth args ret s =
  wrap (w_pair w1 w2) wr (z1, z2) zr (fun '(a1, a2) => meth a1 a2) args ret s.
Proof. arity. Qed.

Lemma reg_fn3_wrap meth (args : unmarshall) ret (s : S) :
  reg_fn3 wr zr w1 w2 w3 z1 z2 z3 meth args ret s =
  wrap (w_pair (w_pair w1 w2) w3) wr (z1, z2, z3) zr
    (fun '(a1, a2, a3) => meth a1 a2 a3) args ret s.
Proof. arity. Qed.

Lemma reg_fn4_wrap meth (args : unmarshall) ret (s : S) :
  reg_fn4 wr zr w1 w2 w3 w4 z1 z2 z3 z4 meth args ret s =
  wrap (w_pair (w_pair (w_pair w1 w2) w3) w4) wr (z1, z2, z3, z4) zr
    (fun '(a1, a2, a3, a4) => meth a1 a2 a3 a4) args ret s.
Proof. arity. Qed.

Lemma reg_fn5_wrap meth (args : unmarshall) ret (s : S) :
  reg_fn5 wr zr w1 w2 w3 w4 w5 z1 z2 z3 z4 z5 meth args ret s =
  wrap (w_pair (w_pair (w_pair (w_pair w1 w2) w3) w4) w5) wr (z1, z2, z3, z4, z5) zr
    (fun '(a1, a2, a3, a4, a5) => meth a1 a2 a3 a4 a5) args ret s.
Proof. arity. Qed.

Lemma reg_fn6_wrap meth (args : unmarshall) ret (s : S) :
  reg_fn6 wr zr w1 w2 w3 w4 w5 w6 z1 z2 z3 z4 z5 z6 meth args ret s =
  wrap (w_pair (w_pair (w_pair (w_pair (w_pair w1 w2) w3) w4) w5) w6) wr
    (z1, z2, z3, z4, z5, z6) zr
    (fun '(a1, a2, a3, a4, a5, a6) => meth a1 a2 a3 a4 a5 a6) args ret s.
Proof. arity. Qed.

Lemma reg_fn7_wrap meth (args : unmarshall) ret (s : S) :
  reg_fn7 wr zr w1 w2 w3 w4 w5 w6 w7 z1 z2 z3 z4 z5 z6 z7 meth args ret s =
  wrap (w_pair (w_pair (w_pair (w_pair (w_pair (w_pair w1 w2) w3) w4) w5) w6) w7) wr
    (z1, z2, z3, z4, z5, z6, z7) zr
    (fun '(a1, a2, a3, a4, a5, a6, a7) => meth a1 a2 a3 a4 a5 a6 a7) args ret s.
Proof. arity. Qed.
End Arities.

(** ** Round trips *)

Lemma new_pdu : m_pdu marshall_new = replicate RPC_HEADER_SZ None.
Proof. reflexivity. Qed.

Lemma appended_carries bs m : appended marshall_new bs m -> carries m bs.
Proof.
  intros [Hwf Hp]. split; [done|]. unfold m_content. rewrite Hp, new_pdu.
  rewrite drop_app_length' by (by rewrite length_replicate).
  split; [done|]. destruct Hwf as (Hl & Hi & _).
  apply (f_equal length) in Hp. revert Hp. rewrite new_pdu.
  unfold m_pdu. rewrite length_take, length_app, length_replicate. lia.
Qed.

Lemma cursor_done u : cursor u [] -> u_okdone u = true.
Proof.
  intros (Hok & _ & Hl & _ & Hi & Hd). unfold u_okdone. rewrite Hok; simpl.
  apply (f_equal length) in Hd. rewrite length_drop in Hd. simpl in Hd.
  apply Nat.eqb_eq. lia.
Qed.

Lemma cursor_not_done u c r : cursor u (c :: r) -> u_okdone u = false.
Proof.
  intros (Hok & _ & Hl & _ & Hi & Hd). unfold u_okdone. rewrite Hok; simpl.
  apply (f_equal length) in Hd. rewrite length_drop in Hd. simpl in Hd.
  apply Nat.eqb_neq. lia.
Qed.

Section RoundTrip.
Context {S A R : Type} (wa : wire A) (wr : wire R) `{!WireLaws wa, !WireLaws wr}.

Lemma wrap_reads z zr (meth : A -> R -> S -> Z * R * S) a u ret s b r s' :
  w_ok wa a -> cursor u (w_enc wa a) -> meth (w_into wa z a) zr s = (b, r, s') ->
  wrap wa wr z zr meth u ret s = (b, w_put wr r ret, s').
Proof.
  intros Ha H Hm. unfold wrap. rewrite <- (app_nil_r (w_enc wa a)) in H.
  rewrite (w_get_reads z a u _ Ha H). apply cursor_app, cursor_done in H.
  by rewrite H, Hm.
Qed.

Lemma wrap_rejects z zr (meth : A -> R -> S -> Z * R * S) a u c rest ret s :
  w_ok wa a -> cursor u (w_enc wa a ++ c :: rest) ->
  wrap wa wr z zr meth u ret s = (rpc_const.unmarshal_args_failure, ret, s).
Proof.
  intros Ha H. unfold wrap. rewrite (w_get_reads z a u _ Ha H).
  apply cursor_app, cursor_not_done in H. by rewrite H.
Qed.

(** The client decodes the reply that was packed for it. *)
Lemma call_m_reads (call1 : marshall -> Z * unmarshall) req (r0 r : R) b u :
  w_ok wr r -> 0 <= b -> call1 req = (b, u) -> cursor u (w_enc wr r) ->
  call_m wr call1 req r0 = (b, w_into wr r0 r).
Proof.
  intros Hr Hb Hc H. unfold call_m. rewrite Hc.
  destruct (b <? 0) eqn:E; [to_prop; lia|].
  rewrite <- (app_nil_r (w_enc wr r)) in H.
  rewrite (w_get_reads r0 r u _ Hr H). apply cursor_app, cursor_done in H. by rewrite H.
Qed.
End RoundTrip.

(** What [rpcc::got_pdu] leaves for the caller: the block after the header. *)
Lemma take_in_cursor b h u r :
  unpack_reply_header (unmarshall_of b (length b)) = (h, u) -> cursor u r ->
  cursor (u_take_in u) r.
Proof.
  unfold unpack_reply_header. repeat case_match. intros [= <- <-].
  intros (Hok & Hoob & Hl & Hsz & Hi & Hd).
  unfold cursor, u_take_in; cbn [u_buf u_sz u_ind u_ok u_oob u_set_ind] in *.
  split_and!; try done. by apply Nat.leb_le.
Qed.

Lemma rpc_roundtrip {S A1 A2 A3 R : Type} (w1 : wire A1) (w2 : wire A2) (w3 : wire A3)
    (wr : wire R) (z1 : A1) (z2 : A2) (z3 : A3) (zr r0 : R)
    (L1 : WireLaws w1) (L2 : WireLaws w2) (L3 : WireLaws w3) (Lr : WireLaws wr)
    (meth : A1 -> A2 -> A3 -> R -> S -> Z * R * S) a1 a2 a3 s ret r s' h b :
  w_ok w1 a1 -> w_ok w2 a2 -> w_ok w3 a3 -> wf_req_header h ->
  meth (w_into w1 z1 a1) (w_into w2 z2 a2) (w_into w3 z3 a3) zr s = (ret, r, s') ->
  w_ok wr r -> 0 <= ret < 2 ^ 31 ->
  delivered (m_pdu (pack_req_header h (call_args3 w1 w2 w3 a1 a2 a3))) b ->
  Z.of_nat (length b) < 2 ^ 31 ->
  exists u rep,
    unpack_req_header (unmarshall_of b (length b)) = (h, u) /\ u_ok u = true /\
    appended marshall_new (w_enc wr r) rep /\
    reg_fn3 wr zr w1 w2 w3 z1 z2 z3 meth u marshall_new s = (ret, rep, s') /\
    forall b', delivered (m_pdu (pack_reply_header (ReplyHeader (rq_xid h) ret) rep)) b' ->
      Z.of_nat (length b') < 2 ^ 31 ->
      exists u', unpack_reply_header (unmarshall_of b' (length b')) =
                   (ReplyHeader (rq_xid h) ret, u') /\ u_ok u' = true /\
        forall req, call_m wr (fun _ => (ret, u_take_in u')) req r0 = (ret, w_into wr r0 r).
Proof.
  intros H1 H2 H3 Hh Hm Hr Hret Hd Hb.
  set (wa := w_pair (w_pair w1 w2) w3).
  assert (w_ok wa (a1, a2, a3)) as Ha by done.
  assert (carries (call_args3 w1 w2 w3 a1 a2 a3) (w_enc wa (a1, a2, a3))) as Hc.
  { apply appended_carries, (w_put_appends (w := wa)), marshall_new_wf. done. }
  destruct (req_header_roundtrip h _ _ b Hh Hc Hd Hb) as (u & Hu & Hcur).
  exists u, (w_put wr r marshall_new). split; [done|]. split; [apply Hcur|].
  split; [apply w_put_appends; [done|apply marshall_new_wf]|]. split.
  - rewrite reg_fn3_wrap. eapply (wrap_reads wa wr); [exact Ha|exact Hcur|exact Hm].
  - intros b' Hd' Hb'.
    assert (carries (w_put wr r marshall_new) (w_enc wr r)) as Hc'.
    { apply appended_carries, w_put_appends, marshall_new_wf. done. }
    assert (wf_reply_header (ReplyHeader (rq_xid h) ret)) as Hwf.
    { split; simpl; [apply Hh|unfold is_s32; lia]. }
    destruct (reply_header_roundtrip _ _ _ b' Hwf Hc' Hd' Hb') as (u' & Hu' & Hcur').
    exists u'. split; [done|]. split; [apply Hcur'|]. intros req.
    eapply (call_m_reads wr _ _ _ _ _ (u_take_in u')); [done|apply Hret|done|].
    by eapply take_in_cursor.
Qed.

(** A call with three arguments, delivered over any connection,
    reaches the method with exactly those arguments, and the status and reply
    of the method are exactly what the caller gets. *)
Theorem rpc_loopback {S A1 A2 A3 R : Type} (w1 : wire A1) (w2 : wire A2) (w3 : wire A3)
    (wr : wire R) (z1 : A1) (z2 : A2) (z3 : A3) (zr r0 : R)
    (L1 : WireLaws w1) (L2 : WireLaws w2) (L3 : WireLaws w3) (Lr : WireLaws wr)
    (meth : A1 -> A2 -> A3 -> R -> S -> Z * R * S) a1 a2 a3 s ret r s' h b :
  w_ok w1 a1 -> w_ok w2 a2 -> w_ok w3 a3 -> wf_req_header h ->
  meth (w_into w1 z1 a1) (w_into w2 z2 a2) (w_into w3 z3 a3) zr s = (ret, r, s') ->
  w_ok wr r -> 0 <= ret < 2 ^ 31 ->
  delivered (m_pdu (pack_req_header h (call_args3 w1 w2 w3 a1 a2 a3))) b ->
  Z.of_nat (length b) < 2 ^ 31 ->
  exists u rep,
    unpack_req_header (unmarshall_of b (length b)) = (h, u) /\
    reg_fn3 wr zr w1 w2 w3 z1 z2 z3 meth u marshall_new s = (ret, rep, s') /\
    forall b', delivered (m_pdu (pack_reply_header (ReplyHeader (rq_xid h) ret) rep)) b' ->
      Z.of_nat (length b') < 2 ^ 31 ->
      exists u', unpack_reply_header (unmarshall_of b' (length b')) =
                   (ReplyHeader (rq_xid h) ret, u') /\
        forall req, call_m wr (fun _ => (ret, u_take_in u')) req r0 = (ret, w_into wr r0 r).
Proof.
  intros H1 H2 H3 Hh Hm Hr Hret Hd Hb.
  destruct (rpc_roundtrip w1 w2 w3 wr z1 z2 z3 zr r0 L1 L2 L3 Lr meth a1 a2 a3 s ret r s' h b H1 H2 H3 Hh Hm Hr Hret Hd Hb)
    as (u & rep & Hu & _ & _ & Hf & Hback).
  exists u, rep. split; [done|]. split; [done|]. intros b' Hd' Hb'.
  destruct (Hback b' Hd' Hb') as (u' & Hu' & _ & Hc). by exists u'.
Qed.

(** A request whose arguments are followed by extra bytes is
    answered with [unmarshal_args_failure]; the method is not run, so the
    server state is untouched. *)
Theorem rpc_trailing_bytes_rejected {S A1 A2 A3 R : Type} (w1 : wire A1) (w2 : wire A2)
    (w3 : wire A3) (wr : wire R) (z1 : A1) (z2 : A2) (z3 : A3) (zr : R)
    (L1 : WireLaws w1) (L2 : WireLaws w2) (L3 : WireLaws w3)
    (meth : A1 -> A2 -> A3 -> R -> S -> Z * R * S) a1 a2 a3 c rest u m s :
  w_ok w1 a1 -> w_ok w2 a2 -> w_ok w3 a3 ->
  cursor u (((w_enc w1 a1 ++ w_enc w2 a2) ++ w_enc w3 a3) ++ c :: rest) ->
  reg_fn3 wr zr w1 w2 w3 z1 z2 z3 meth u m s = (rpc_const.unmarshal_args_failure, m, s).
Proof.
  intros H1 H2 H3 Hu. rewrite reg_fn3_wrap.
  by eapply (wrap_rejects (w_pair (w_pair w1 w2) w3) wr _ _ _ (a1, a2, a3)).
Qed.

(** A block delivered as it was sent, indeterminate bytes as zeros. *)
Definition as_sent (p : list (option ascii)) : bytes := default Ascii.zero <$> p.

Lemma as_sent_delivered p : delivered p (as_sent p).
Proof.
  induction p as [|o p IH]; simpl; constructor; [|exact IH].
  by intros x ->.
Qed.

(** A method that adds its first and last arguments to the server's counter. *)
Definition demo_meth (a : Z) (b : bytes) (c : Z) (r : Z) (s : Z) : Z * Z * Z :=
  (0, u32 (Z.of_nat (length b)), s + a + c).

Definition demo_header : req_header := ReqHeader 4 24577 77 99 3.

Definition demo_block : bytes :=
  as_sent (m_pdu (pack_req_header demo_header
                    (call_args3 w_u64 w_string w_u32 5 (str "abc") 7))).

Lemma rpc_loopback_witness :
  exists u rep,
    unpack_req_header (unmarshall_of demo_block (length demo_block)) = (demo_header, u) /\
    reg_fn3 w_u32 0 w_u64 w_string w_u32 0 [] 0 demo_meth u marshall_new 100 = (0, rep, 112).
Proof.
  destruct (rpc_loopback w_u64 w_string w_u32 w_u32 0 [] 0 0 0 _ _ _ _ demo_meth
              5 (str "abc") 7 100 0 3 112 demo_header demo_block)
    as (u & rep & H1 & H2 & _).
  1, 2, 3, 6 : vm_compute; intuition congruence.
  - unfold wf_req_header, is_s32, is_u32; simpl; lia.
  - reflexivity.
  - lia.
  - apply as_sent_delivered.
  - vm_compute. reflexivity.
  - exists u, rep. split; [exact H1|exact H2].
Defined.

Lemma rpc_trailing_bytes_rejected_witness :
  reg_fn3 w_u32 0 w_u32 w_u32 w_u32 0 0 0 (fun a b c r s => (0, r, s + a)) 
    (unmarshall_of (enc_u32 1 ++ enc_u32 2 ++ enc_u32 3 ++ str "x") 13)
    marshall_new 100 = (rpc_const.unmarshal_args_failure, marshall_new, 100).
Proof.
  apply (rpc_trailing_bytes_rejected w_u32 w_u32 w_u32 w_u32 0 0 0 0 _ _ _
           (fun a b c r s => (0, r, s + a)) 1 2 3 "x"%char []).
  1, 2, 3 : unfold w_ok, w_u32, is_u32; lia.
  unfold cursor, unmarshall_of; cbn [u_buf u_sz u_ind u_ok u_oob].
  split_and!; try reflexivity; lia.
Defined.
