(* ===== verification/Protocols.v ===== *)
(** * Protocols

    The status codes and message structs of [lock_protocol.h],
    [extent_protocol.h], [paxos_protocol.h] and [rsm_protocol.h], with their
    [operator<<] and [operator>>], and the orders on proposal numbers
    ([paxos.cc]) and view stamps. *)

From stdpp Require Import gmap list strings.
From Stdlib Require Import ZArith Lia Ascii.
From S2P Require Import Prelude Text Marshall.

Local Open Scope Z_scope.

(** ** Status codes *)

Module lock_protocol.
Definition OK : Z := 0.
Definition RETRY : Z := 1.
Definition RPCERR : Z := 2.
Definition NOENT : Z := 3.
Definition IOERR : Z := 4.
Definition acquire : Z := 0x7001.
Definition release : Z := 0x7002.
Definition subscribe : Z := 0x7003.
Definition stat : Z := 0x7004.
End lock_protocol.

Module rlock_protocol.
Definition OK : Z := 0.
Definition RPCERR : Z := 1.
Definition revoke : Z := 0x8001.
Definition retry : Z := 0x8002.
End rlock_protocol.

Module extent_protocol.
Definition OK : Z := 0.
Definition RPCERR : Z := 1.
Definition NOENT : Z := 2.
Definition IOERR : Z := 3.
Definition FBIG : Z := 4.
Definition put : Z := 0x6001.
Definition get : Z := 0x6002.
Definition getattr : Z := 0x6003.
Definition remove : Z := 0x6004.
Definition maxextent : Z := 8192 * 1000.
End extent_protocol.

Module paxos_protocol.
Definition OK : Z := 0.
Definition ERR : Z := 1.
Definition preparereq : Z := 0x11001.
Definition acceptreq : Z := 0x11002.
Definition decidereq : Z := 0x11003.
Definition heartbeat : Z := 0x11004.
End paxos_protocol.

Module rsm_client_protocol.
Definition OK : Z := 0.
Definition ERR : Z := 1.
Definition NOTPRIMARY : Z := 2.
Definition BUSY : Z := 3.
Definition invoke : Z := 0x9001.
Definition members : Z := 0x9002.
End rsm_client_protocol.

Module rsm_protocol.
Definition OK : Z := 0.
Definition ERR : Z := 1.
Definition BUSY : Z := 2.
Definition invoke : Z := 0x10001.
Definition transferreq : Z := 0x10002.
Definition transferdonereq : Z := 0x10003.
Definition joinreq : Z := 0x10004.
End rsm_protocol.

Module rsm_test_protocol.
Definition OK : Z := 0.
Definition ERR : Z := 1.
Definition net_repair : Z := 0x12001.
Definition breakpoint : Z := 0x12002.
End rsm_test_protocol.

(** ** Message structs *)

(** [extent_protocol::attr] *)
Record attr := Attr { atime : Z; mtime : Z; ctime : Z; asize : Z }.

#[global] Instance attr_eq_dec : EqDecision attr.
Proof. solve_decision. Defined.

Definition put_attr (a : attr) (m : marshall) : marshall :=
  let m := put_u32 (atime a) m in
  let m := put_u32 (mtime a) m in
  let m := put_u32 (ctime a) m in
  put_u32 (asize a) m.

Definition get_attr (old : attr) (u : unmarshall) : attr * unmarshall :=
  let '(at', u) := get_u32 u in
  let '(mt, u) := get_u32 u in
  let '(ct, u) := get_u32 u in
  let '(sz, u) := get_u32 u in
  (Attr at' mt ct sz, u).

(** A proposal number of Paxos: a counter and the proposer's name. *)
Record prop_t := Prop_t { pn : Z; pm : bytes }.

#[global] Instance prop_t_eq_dec : EqDecision prop_t.
Proof. solve_decision. Defined.

Definition put_prop (a : prop_t) (m : marshall) : marshall :=
  let m := put_u32 (pn a) m in put_string (pm a) m.

Definition get_prop (old : prop_t) (u : unmarshall) : prop_t * unmarshall :=
  let '(n, u) := get_u32 u in
  let '(m, u) := get_string (pm old) u in
  (Prop_t n m, u).

Record preparearg := PrepareArg { pa_instance : Z; pa_n : prop_t; pa_v : bytes }.
Record prepareres := PrepareRes {
  pr_oldinstance : Z; pr_accept : Z; pr_n_a : prop_t; pr_v_a : bytes
}.
Record acceptarg := AcceptArg { aa_instance : Z; aa_n : prop_t; aa_v : bytes }.
Record decidearg := DecideArg { da_instance : Z; da_v : bytes }.

Definition put_preparearg (a : preparearg) (m : marshall) : marshall :=
  let m := put_u32 (pa_instance a) m in
  let m := put_prop (pa_n a) m in put_string (pa_v a) m.

Definition get_preparearg (old : preparearg) (u : unmarshall) : preparearg * unmarshall :=
  let '(i, u) := get_u32 u in
  let '(n, u) := get_prop (pa_n old) u in
  let '(v, u) := get_string (pa_v old) u in
  (PrepareArg i n v, u).

Definition put_prepareres (r : prepareres) (m : marshall) : marshall :=
  let m := put_s32 (pr_oldinstance r) m in
  let m := put_s32 (pr_accept r) m in
  let m := put_prop (pr_n_a r) m in put_string (pr_v_a r) m.

Definition get_prepareres (old : prepareres) (u : unmarshall) : prepareres * unmarshall :=
  let '(o, u) := get_s32 u in
  let '(a, u) := get_s32 u in
  let '(n, u) := get_prop (pr_n_a old) u in
  let '(v, u) := get_string (pr_v_a old) u in
  (PrepareRes o a n v, u).

Definition put_acceptarg (a : acceptarg) (m : marshall) : marshall :=
  let m := put_u32 (aa_instance a) m in
  let m := put_prop (aa_n a) m in put_string (aa_v a) m.

Definition get_acceptarg (old : acceptarg) (u : unmarshall) : acceptarg * unmarshall :=
  let '(i, u) := get_u32 u in
  let '(n, u) := get_prop (aa_n old) u in
  let '(v, u) := get_string (aa_v old) u in
  (AcceptArg i n v, u).

Definition put_decidearg (a : decidearg) (m : marshall) : marshall :=
  let m := put_u32 (da_instance a) m in put_string (da_v a) m.

Definition get_decidearg (old : decidearg) (u : unmarshall) : decidearg * unmarshall :=
  let '(i, u) := get_u32 u in
  let '(v, u) := get_string (da_v old) u in
  (DecideArg i v, u).

Record viewstamp := Viewstamp { vs_vid : Z; vs_seqno : Z }.
Record transferres := TransferRes { tr_state : bytes; tr_last : viewstamp }.
Record joinres := JoinRes { jr_log : bytes }.

Definition put_viewstamp (v : viewstamp) (m : marshall) : marshall :=
  let m := put_u32 (vs_vid v) m in put_u32 (vs_seqno v) m.

Definition get_viewstamp (old : viewstamp) (u : unmarshall) : viewstamp * unmarshall :=
  let '(v, u) := get_u32 u in
  let '(s, u) := get_u32 u in (Viewstamp v s, u).

Definition put_transferres (r : transferres) (m : marshall) : marshall :=
  let m := put_string (tr_state r) m in put_viewstamp (tr_last r) m.

Definition get_transferres (old : transferres) (u : unmarshall) : transferres * unmarshall :=
  let '(s, u) := get_string (tr_state old) u in
  let '(l, u) := get_viewstamp (tr_last old) u in (TransferRes s l, u).

Definition put_joinres (r : joinres) (m : marshall) : marshall := put_string (jr_log r) m.

Definition get_joinres (old : joinres) (u : unmarshall) : joinres * unmarshall :=
  let '(l, u) := get_string (jr_log old) u in (JoinRes l, u).

(** ** Orders *)

(** [operator>(prop_t, prop_t)] *)
Definition prop_gt (a b : prop_t) : bool :=
  (pn b <? pn a) || ((pn a =? pn b) && str_ltb (pm b) (pm a)).

(** [operator>=(prop_t, prop_t)] *)
Definition prop_ge (a b : prop_t) : bool :=
  (pn b <? pn a) || ((pn a =? pn b) && negb (str_ltb (pm a) (pm b))).

Definition vs_eq (a b : viewstamp) : bool :=
  (vs_vid a =? vs_vid b) && (vs_seqno a =? vs_seqno b).

Definition vs_gt (a b : viewstamp) : bool :=
  (vs_vid b <? vs_vid a) || ((vs_vid a =? vs_vid b) && (vs_seqno b <? vs_seqno a)).

Definition vs_ne (a b : viewstamp) : bool :=
  negb (vs_vid a =? vs_vid b) || negb (vs_seqno a =? vs_seqno b).

(** ** The operators obey the wire contract *)

(** A pair of operators that agrees with a lawful one is lawful. *)
Lemma wire_laws_by {A B} (f : B -> A) (g : A -> B) (w : wire A) put get :
  WireLaws w ->
  (forall x m, put x m = w_put (w_iso f g w) x m) ->
  (forall old u, get old u = w_get (w_iso f g w) old u) ->
  WireLaws (Wire put get (w_enc (w_iso f g w)) (w_into (w_iso f g w)) (w_ok (w_iso f g w))).
Proof.
  intros Hw Hp Hg. pose proof (w_iso_laws f g w Hw) as [L1 L2]. split.
  - intros x m Hx Hm. change (w_put (Wire put get _ _ _)) with put. rewrite Hp. by apply L1.
  - intros old x u r Hx Hu. change (w_get (Wire put get _ _ _)) with get. rewrite Hg. by eapply L2.
Qed.

Definition wire_as {A B} (f : B -> A) (g : A -> B) (w : wire A) put get : wire B :=
  Wire put get (w_enc (w_iso f g w)) (w_into (w_iso f g w)) (w_ok (w_iso f g w)).

(** [sub] is the operator pair of a struct nested in it, if any. *)
Ltac wire_struct get sub :=
  apply wire_laws_by; [apply _|intros []; reflexivity|
    intros old u; unfold get, sub, w_iso, w_pair, w_u32, w_s32, w_string, wire_as;
    cbn [w_get fst snd]; repeat case_match; by simplify_eq/=].

Definition w_attr : wire attr :=
  wire_as (fun a => (atime a, mtime a, ctime a, asize a))
    (fun '(a, m, c, s) => Attr a m c s)
    (w_pair (w_pair (w_pair w_u32 w_u32) w_u32) w_u32) put_attr get_attr.
#[export] Instance w_attr_laws : WireLaws w_attr.
Proof. wire_struct get_attr w_u32. Qed.

Definition w_prop : wire prop_t :=
  wire_as (fun a => (pn a, pm a)) (fun '(n, m) => Prop_t n m)
    (w_pair w_u32 w_string) put_prop get_prop.
#[export] Instance w_prop_laws : WireLaws w_prop.
Proof. wire_struct get_prop w_u32. Qed.

Definition w_preparearg : wire preparearg :=
  wire_as (fun a => (pa_instance a, pa_n a, pa_v a)) (fun '(i, n, v) => PrepareArg i n v)
    (w_pair (w_pair w_u32 w_prop) w_string) put_preparearg get_preparearg.
#[export] Instance w_preparearg_laws : WireLaws w_preparearg.
Proof. wire_struct get_preparearg w_prop. Qed.

Definition w_prepareres : wire prepareres :=
  wire_as (fun r => (pr_oldinstance r, pr_accept r, pr_n_a r, pr_v_a r))
    (fun '(o, a, n, v) => PrepareRes o a n v)
    (w_pair (w_pair (w_pair w_s32 w_s32) w_prop) w_string) put_prepareres get_prepareres.
#[export] Instance w_prepareres_laws : WireLaws w_prepareres.
Proof. wire_struct get_prepareres w_prop. Qed.

Definition w_acceptarg : wire acceptarg :=
  wire_as (fun a => (aa_instance a, aa_n a, aa_v a)) (fun '(i, n, v) => AcceptArg i n v)
    (w_pair (w_pair w_u32 w_prop) w_string) put_acceptarg get_acceptarg.
#[export] Instance w_acceptarg_laws : WireLaws w_acceptarg.
Proof. wire_struct get_acceptarg w_prop. Qed.

Definition w_decidearg : wire decidearg :=
  wire_as (fun a => (da_instance a, da_v a)) (fun '(i, v) => DecideArg i v)
    (w_pair w_u32 w_string) put_decidearg get_decidearg.
#[export] Instance w_decidearg_laws : WireLaws w_decidearg.
Proof. wire_struct get_decidearg w_u32. Qed.

Definition w_viewstamp : wire viewstamp :=
  wire_as (fun v => (vs_vid v, vs_seqno v)) (fun '(v, s) => Viewstamp v s)
    (w_pair w_u32 w_u32) put_viewstamp get_viewstamp.
#[export] Instance w_viewstamp_laws : WireLaws w_viewstamp.
Proof. wire_struct get_viewstamp w_u32. Qed.

Definition w_transferres : wire transferres :=
  wire_as (fun r => (tr_state r, tr_last r)) (fun '(s, l) => TransferRes s l)
    (w_pair w_string w_viewstamp) put_transferres get_transferres.
#[export] Instance w_transferres_laws : WireLaws w_transferres.
Proof. wire_struct get_transferres w_viewstamp. Qed.

Definition w_joinres : wire joinres :=
  wire_as jr_log JoinRes w_string put_joinres get_joinres.
#[export] Instance w_joinres_laws : WireLaws w_joinres.
Proof. wire_struct get_joinres w_string. Qed.

(** [put] writes bytes that [get] reads back as the same value, whatever the
    variable held before and whatever follows in the message. *)
Definition roundtrips {A} (put : A -> marshall -> marshall)
  (get : A -> unmarshall -> A * unmarshall) (ok : A -> Prop) : Prop :=
  forall x m, ok x -> m_wf m ->
    exists bs, appended m bs (put x m) /\
      forall old u rest, cursor u (bs ++ rest) -> get old u = (x, advance (length bs) u).

Lemma wire_roundtrips {A} (w : wire A) `{!WireLaws w} :
  (forall old x, w_into w old x = x) -> roundtrips (w_put w) (w_get w) (w_ok w).
Proof.
  intros Hinto x m Hx Hm. exists (w_enc w x). split; [by apply w_put_appends|].
  intros old u rest Hu. by rewrite (w_get_reads old x u rest Hx Hu), Hinto.
Qed.


(** ** Proposal numbers are totally ordered *)

Lemma prop_gt_irrefl a : prop_gt a a = false.
Proof. unfold prop_gt. rewrite Z.ltb_irrefl, Z.eqb_refl, str_ltb_irrefl. done. Qed.

Lemma prop_gt_trans a b c : prop_gt a b = true -> prop_gt b c = true -> prop_gt a c = true.
Proof.
  unfold prop_gt. rewrite !orb_true_iff, !andb_true_iff, !Z.ltb_lt, !Z.eqb_eq.
  intros [H1|[H1 H1']] [H2|[H2 H2']]; try (left; lia).
  right. split; [lia|]. by eapply str_ltb_trans.
Qed.

Lemma prop_ge_negb a b : prop_ge a b = negb (prop_gt b a).
Proof.
  unfold prop_ge, prop_gt. rewrite negb_orb, negb_andb.
  destruct (pn b <? pn a) eqn:E1, (pn a <? pn b) eqn:E2, (pn a =? pn b) eqn:E3,
    (pn b =? pn a) eqn:E4; to_prop; try lia; by destruct (str_ltb (pm a) (pm b)).
Qed.

Lemma prop_ge_cases a b : prop_ge a b = true <-> prop_gt a b = true \/ a = b.
Proof.
  rewrite prop_ge_negb. destruct (prop_gt b a) eqn:E; simpl.
  - split; [done|]. intros [H| ->].
    + pose proof (prop_gt_trans _ _ _ H E) as Hc. by rewrite prop_gt_irrefl in Hc.
    + by rewrite prop_gt_irrefl in E.
  - split; [|done]. intros _. destruct (prop_gt a b) eqn:E2; [by left|right].
    destruct a as [an am], b as [bn bm]. unfold prop_gt in *; simpl in *. to_prop.
    assert (an = bn) as -> by lia. rewrite Z.eqb_refl in *; simpl in *.
    f_equal. by apply str_ltb_total.
Qed.

Lemma prop_ge_refl a : prop_ge a a = true.
Proof. apply prop_ge_cases. by right. Qed.

Lemma prop_gt_ge_trans a b c : prop_gt a b = true -> prop_ge b c = true -> prop_gt a c = true.
Proof. intros H [H2| ->]%prop_ge_cases; [by eapply prop_gt_trans|done]. Qed.

Lemma prop_ge_gt_trans a b c : prop_ge a b = true -> prop_gt b c = true -> prop_gt a c = true.
Proof. intros [H2| ->]%prop_ge_cases ?; [by eapply prop_gt_trans|done]. Qed.

Lemma prop_ge_trans a b c : prop_ge a b = true -> prop_ge b c = true -> prop_ge a c = true.
Proof.
  intros [H2| ->]%prop_ge_cases ?; [|done].
  apply prop_ge_cases. left. by eapply prop_gt_ge_trans.
Qed.

#[export] Hint Resolve prop_ge_refl : yfs.
