(* ===== verification/Rpcc.v ===== *)
(** * The RPC client endpoint

    [rpcc] of [rpc/rpc.cc]: the table of outstanding calls, the window of
    received replies that is piggy-backed on every request
    ([xid_rep_window_]), the beginning and end of [call1], [got_pdu],
    [bind] and [cancel], and the deadline arithmetic on [timespec]. *)

From stdpp Require Import gmap list strings relations sorting.
From Stdlib Require Import ZArith Lia Ascii.
From S2P Require Import Prelude Text Marshall Rpc.

Local Open Scope Z_scope.

(** ** The window of received replies *)

(** the loop that inserts [xid] before the first larger element *)
Fixpoint insert_xid (xid : Z) (w : list Z) : list Z :=
  match w with
  | [] => [xid]
  | y :: w' => if xid <? y then xid :: w else y :: insert_xid xid w'
  end.

(** [while (front() + 1 == *it) pop_front();] where [pre] is the list up to
    the iterator and [x] its element. *)
Fixpoint pop_while (pre : list Z) (x : Z) : list Z :=
  match pre with
  | [] => []
  | f :: pre' => if u32 (f + 1) =? x then pop_while pre' x else pre
  end.

(** the [compress] loop: [rest] starts at the iterator *)
Fixpoint compress (pre rest : list Z) : list Z :=
  match rest with
  | [] => pre
  | x :: rest' => compress (pop_while pre x ++ [x]) rest'
  end.

(** [update_xid_rep]; the window is never empty *)
Definition update_xid_rep (xid : Z) (w : list Z) : list Z :=
  match w with
  | [] => []
  | f :: _ =>
      if xid <=? f then w
      else match insert_xid xid w with
           | [] => []
           | f' :: w' => compress [f'] w'
           end
  end.

(** ** The endpoint *)

(** [rpcc::caller]: [intret] and the reply are there once [done] *)
Record caller := Caller {
  ca_done : bool;
  ca_intret : Z;
  ca_un : unmarshall
}.

Record rpcc := Rpcc {
  clt_nonce : Z;
  srv_nonce : Z;
  bind_done : bool;
  xid_ : Z;
  calls : gmap Z caller;
  xid_rep_window : list Z;
  destroy_wait : bool
}.

(** the constructor; [nonce] is [random()], or 0 without retransmission *)
Definition rpcc_new (retrans : bool) (nonce : Z) : rpcc :=
  Rpcc (if retrans then nonce else 0) 0 false 1 ∅ [0] false.

Definition set_calls (c : gmap Z caller) (s : rpcc) : rpcc :=
  Rpcc (clt_nonce s) (srv_nonce s) (bind_done s) (xid_ s) c (xid_rep_window s)
    (destroy_wait s).

Definition set_window (w : list Z) (s : rpcc) : rpcc :=
  Rpcc (clt_nonce s) (srv_nonce s) (bind_done s) (xid_ s) (calls s) w (destroy_wait s).

(** [xid_rep_window_.front()] *)
Definition window_front (s : rpcc) : Z := default 0 (head (xid_rep_window s)).

(** [call1] up to the first transmission: the error it returns, or the
    header of the request. *)
Definition call1_begin (proc : Z) (s : rpcc) : Z + (req_header * rpcc) :=
  if (negb (proc =? rpc_const.bind) && negb (bind_done s))
     || ((proc =? rpc_const.bind) && bind_done s)
  then inl rpc_const.bind_failure
  else if destroy_wait s then inl rpc_const.cancel_failure
  else let xid := xid_ s in
       inr (ReqHeader (s32 xid) (s32 proc) (clt_nonce s) (srv_nonce s)
              (s32 (window_front s)),
            Rpcc (clt_nonce s) (srv_nonce s) (bind_done s) (u32 (xid + 1))
              (<[s32 xid := Caller false 0 unmarshall_empty]> (calls s))
              (xid_rep_window s) (destroy_wait s)).

(** [call1] after the waiting loop: the caller leaves the table; what it
    returns is [ca.done ? ca.intret : timeout_failure]. *)
Definition call1_end (xid : Z) (s : rpcc) : Z * rpcc :=
  let ret := match calls s !! s32 xid with
             | Some ca => if ca_done ca then ca_intret ca else rpc_const.timeout_failure
             | None => rpc_const.timeout_failure
             end in
  (ret, set_window (update_xid_rep xid (xid_rep_window s))
          (set_calls (delete (s32 xid) (calls s)) s)).

(** [got_pdu]; a block too short for the header is dropped. *)
Definition got_pdu (b : bytes) (s : rpcc) : rpcc :=
  let '(h, rep) := unpack_reply_header (unmarshall_of b (length b)) in
  if negb (u_ok rep) then s
  else let s := set_window (update_xid_rep (u32 (rp_xid h)) (xid_rep_window s)) s in
       match calls s !! rp_xid h with
       | None => s
       | Some ca =>
           if ca_done ca then s
           else set_calls (<[rp_xid h := Caller true (rp_ret h) (u_take_in rep)]> (calls s)) s
       end.

(** [cancel]: every outstanding caller is made to fail, and no call may
    start until they have left. *)
Definition cancel (s : rpcc) : rpcc :=
  let c := (fun ca => Caller true rpc_const.cancel_failure (ca_un ca)) <$> calls s in
  Rpcc (clt_nonce s) (srv_nonce s) (bind_done s) (xid_ s) c (xid_rep_window s)
    (destroy_wait s || negb (size c =? 0)%nat).

(** [bind], given what its call returned *)
Definition bind (ret r : Z) (s : rpcc) : Z * rpcc :=
  if ret =? 0 then
    (ret, Rpcc (clt_nonce s) (u32 r) true (xid_ s) (calls s) (xid_rep_window s)
            (destroy_wait s))
  else (ret, s).

(** ** Deadlines *)

Record timespec := Timespec { tv_sec : Z; tv_nsec : Z }.

Definition cmp_timespec (a b : timespec) : Z :=
  if tv_sec b <? tv_sec a then 1
  else if tv_sec a <? tv_sec b then -1
  else if tv_nsec b <? tv_nsec a then 1
  else if tv_nsec a <? tv_nsec b then -1 else 0.

Fixpoint carry_nsec (fuel : nat) (t : timespec) : timespec :=
  match fuel with
  | O => t
  | S f => if 1000000000 <? tv_nsec t
           then carry_nsec f (Timespec (tv_sec t + 1) (tv_nsec t - 1000000000))
           else t
  end.

(** [add_timespec(a, b, result)] for a timeout of [b >= 0] milliseconds; the
    sum of the nanoseconds is below 2 * 10^9, so one round of the loop is
    enough. *)
Definition add_timespec (a : timespec) (b : Z) : timespec :=
  carry_nsec 2 (Timespec (tv_sec a + Z.quot b 1000)
                  (tv_nsec a + Z.rem b 1000 * 1000000)).

(** [diff_timespec(end, start)], in milliseconds; [None] when its assertion
    fails *)
Definition diff_timespec (e s : timespec) : option Z :=
  let diff := if tv_sec s <? tv_sec e then (tv_sec e - tv_sec s) * 1000 else 0 in
  if negb (diff =? 0) || (tv_sec e =? tv_sec s) then
    Some (if tv_nsec s <? tv_nsec e
          then diff + Z.quot (tv_nsec e - tv_nsec s) 1000000
          else diff - Z.quot (tv_nsec s - tv_nsec e) 1000000)
  else None.

(** ** The window is a cumulative acknowledgement *)

Lemma insert_xid_mem x y w : y ∈ insert_xid x w <-> y = x \/ y ∈ w.
Proof.
  induction w as [|z w IH]; simpl; [set_solver|].
  destruct (x <? z); set_solver.
Qed.

Lemma insert_xid_sorted x w :
  StronglySorted Z.le w -> StronglySorted Z.le (insert_xid x w).
Proof.
  induction 1 as [|z w Hw IH Hz]; simpl; [repeat constructor|].
  destruct (x <? z) eqn:E; to_prop.
  - constructor; [by constructor|]. constructor; [lia|].
    eapply Forall_impl; [exact Hz|]. simpl. lia.
  - constructor; [done|]. apply Forall_forall. intros y [-> | Hy]%insert_xid_mem; [lia|].
    by apply (proj1 (Forall_forall _ _) Hz).
Qed.

(** When the iterator's element follows the front, everything before it is a
    copy of the front and is popped. *)
Lemma pop_while_all pre f x :
  (forall y, y ∈ pre -> y = f) -> u32 (f + 1) = x -> pop_while pre x = [].
Proof.
  intros H <-. induction pre as [|g pre IH]; simpl; [done|].
  rewrite (H g) by set_solver. rewrite Z.eqb_refl. apply IH. set_solver.
Qed.

Lemma StronglySorted_app_le (l1 l2 : list Z) x y :
  StronglySorted Z.le (l1 ++ l2) -> x ∈ l1 -> y ∈ l2 -> x <= y.
Proof.
  intros Hs Hx Hy. induction l1 as [|z l1 IH]; [set_solver|].
  simpl in Hs. apply StronglySorted_inv in Hs as [Hs Hz].
  apply elem_of_cons in Hx as [-> | Hx]; [|eauto].
  apply (proj1 (Forall_forall _ _) Hz). set_solver.
Qed.

Lemma StronglySorted_app_r (l1 l2 : list Z) :
  StronglySorted Z.le (l1 ++ l2) -> StronglySorted Z.le l2.
Proof. induction l1; simpl; [done|]. intros [? ?]%StronglySorted_inv. eauto. Qed.

Lemma compress_spec rest pre f :
  head pre = Some f -> StronglySorted Z.le (pre ++ rest) -> ~ (f + 1)%Z ∈ pre ->
  (forall y, y ∈ pre ++ rest -> 0 <= y < 2 ^ 32 - 1) ->
  exists f' t,
    compress pre rest = f' :: t /\ StronglySorted Z.le (f' :: t) /\ ~ (f' + 1)%Z ∈ t /\
    f <= f' /\ (forall y, f <= y <= f' -> y ∈ pre ++ rest) /\
    (forall y, y ∈ t -> y ∈ pre ++ rest) /\
    (forall y, y ∈ pre ++ rest -> y <= f' \/ y ∈ t).
Proof.
  revert pre f. induction rest as [|x rest IH]; intros pre f Hh Hs Hnf Hb.
  - destruct pre as [|g pre]; simplify_eq/=. rewrite app_nil_r in *.
    exists f, pre. split_and!; try done; try set_solver; try lia.
    intros y Hy. assert (y = f) as -> by lia. set_solver.
  - destruct pre as [|g pre]; simplify_eq/=.
    assert (f <= x) as Hfx
      by (apply (StronglySorted_app_le (f :: pre) (x :: rest)); [done|set_solver..]).
    assert (0 <= f < 2 ^ 32 - 1) as Hf by (apply Hb; set_solver).
    destruct (decide (f + 1 = x)) as [<-|Hne].
    + rewrite u32_small, Z.eqb_refl by (unfold is_u32; lia).
      assert (forall y, y ∈ f :: pre -> y = f) as Hall.
      { intros y Hy.
        assert (f <= y) by (apply elem_of_cons in Hy as [-> | Hy]; [lia|];
          apply StronglySorted_inv in Hs as [_ Hs];
          apply (proj1 (Forall_forall _ _) Hs); set_solver).
        assert (y <= f + 1) by (apply (StronglySorted_app_le (f :: pre) (f + 1 :: rest));
          [done|set_solver..]).
        assert (y <> f + 1) by (intros ->; done). lia. }
      rewrite (pop_while_all pre f); [|set_solver|apply u32_small; unfold is_u32; lia].
      destruct (IH [f + 1] (f + 1)) as (f' & t & E & H1 & H2 & H3 & H4 & H5 & H6);
        [done| |set_solver by lia|set_solver|].
      { change (f :: pre ++ f + 1 :: rest) with ((f :: pre) ++ f + 1 :: rest) in Hs.
        by apply StronglySorted_app_r in Hs. }
      exists f', t. split_and!; [done..|lia| | |].
      * intros y Hy. destruct (decide (y = f)) as [->|]; [set_solver|].
        specialize (H4 y ltac:(lia)). clear -H4. set_solver.
      * intros y Hy%H5. clear -Hy. set_solver.
      * intros y Hy. change (y ∈ (f :: pre) ++ f + 1 :: rest) in Hy.
        apply elem_of_app in Hy as [Hy|Hy]; [left; rewrite (Hall y Hy); lia|].
        by apply H6.
    + rewrite u32_small by (unfold is_u32; lia).
      destruct (f + 1 =? x) eqn:E; [to_prop; lia|].
      destruct (IH (f :: pre ++ [x]) f) as (f' & t & E' & H1 & H2 & H3 & H4 & H5 & H6).
      * done.
      * simpl. by rewrite <- app_assoc.
      * clear -Hnf Hne. set_solver.
      * intros y Hy. apply Hb. clear -Hy. set_solver.
      * exists f', t. split_and!; [done..| | |].
        -- intros y Hy%H4. clear -Hy. set_solver.
        -- intros y Hy%H5. clear -Hy. set_solver.
        -- intros y Hy. apply H6. clear -Hy. set_solver.
Qed.

(** What the window knows after the replies [xs] were reported to it. *)
Definition window_inv (xs : list Z) (w : list Z) : Prop :=
  exists f t, w = f :: t /\ StronglySorted Z.le w /\ ~ (f + 1)%Z ∈ t /\
    (forall y, y ∈ w -> 0 <= y < 2 ^ 32 - 1) /\
    (forall y, 1 <= y <= f -> y ∈ xs) /\ (forall y, y ∈ t -> y ∈ xs \/ y <= f) /\
    (forall y, y ∈ xs -> y <= f \/ y ∈ t).

Lemma window_inv_nil : window_inv [] [0].
Proof.
  exists 0, []. split_and!; try done; try set_solver by lia.
  repeat constructor.
Qed.

Lemma update_xid_rep_inv x xs w :
  0 <= x < 2 ^ 32 - 1 -> window_inv xs w -> window_inv (xs ++ [x]) (update_xid_rep x w).
Proof.
  intros Hx (f & t & -> & Hs & Hnf & Hb & H1 & H2 & H3). unfold update_xid_rep.
  destruct (x <=? f) eqn:E; to_prop.
  { exists f, t. split_and!; try done.
    - intros y Hy. specialize (H1 y Hy). set_solver.
    - intros y Hy. specialize (H2 y Hy). set_solver.
    - intros y [Hy|Hy]%elem_of_app; [by apply H3|].
      apply list_elem_of_singleton in Hy. left. lia. }
  simpl. destruct (x <? f) eqn:E2; to_prop; [lia|].
  pose proof (insert_xid_sorted x _ Hs) as Hs'. simpl in Hs'.
  destruct (x <? f) eqn:E3; to_prop; [lia|].
  destruct (compress_spec (insert_xid x t) [f] f)
    as (f' & t' & Ec & C1 & C2 & C3 & C4 & C5 & C6); [done..|set_solver by lia| |].
  { intros y [Hy|[-> | Hy]%insert_xid_mem]%elem_of_app; [apply Hb; set_solver|done|].
    apply Hb. set_solver. }
  rewrite Ec. exists f', t'. split_and!; try done.
  - intros y [-> | Hy]%elem_of_cons.
    + specialize (C4 f' ltac:(lia)).
      apply elem_of_app in C4 as [Hy|[-> | Hy]%insert_xid_mem]; [apply Hb; set_solver|done|].
      apply Hb. set_solver.
    + apply C5, elem_of_app in Hy as [Hy|[-> | Hy]%insert_xid_mem];
        [apply Hb; set_solver|done|apply Hb; set_solver].
  - intros y Hy. destruct (decide (y <= f)); [specialize (H1 y ltac:(lia)); set_solver|].
    specialize (C4 y ltac:(lia)).
    apply elem_of_app in C4 as [Hf|[-> | Ht]%insert_xid_mem]; [set_solver by lia|set_solver|].
    specialize (H2 y Ht). set_solver by lia.
  - intros y Hy. apply C5, elem_of_app in Hy as [Hf|[-> | Ht]%insert_xid_mem];
      [right; set_solver by lia|set_solver|]. destruct (H2 y Ht); [set_solver|right; lia].
  - intros y [Hy|Hy]%elem_of_app.
    + destruct (H3 y Hy) as [Hl|Ht]; [left; lia|]. apply C6. apply elem_of_app. right.
      apply insert_xid_mem. by right.
    + apply list_elem_of_singleton in Hy as ->. apply C6, elem_of_app. right.
      apply insert_xid_mem. by left.
Qed.

Lemma updates_inv xs xs0 w :
  Forall (fun x => 0 <= x < 2 ^ 32 - 1) xs -> window_inv xs0 w ->
  window_inv (xs0 ++ xs) (foldl (fun w x => update_xid_rep x w) w xs).
Proof.
  intros Hxs. revert xs0 w. induction Hxs as [|x xs Hx Hxs IH]; intros xs0 w Hw; simpl.
  - by rewrite app_nil_r.
  - change (x :: xs) with ([x] ++ xs). rewrite app_assoc. apply IH.
    by apply update_xid_rep_inv.
Qed.

(** Whatever replies arrive, in whatever order and however
    often, the front of the window is the largest number up to which every
    call has been answered: all of them were reported, and the next one was
    not. *)
Theorem xid_window_cumulative xs :
  Forall (fun x => 0 <= x < 2 ^ 32 - 1) xs ->
  exists f, head (foldl (fun w x => update_xid_rep x w) [0] xs) = Some f /\
    (forall y, 1 <= y <= f -> y ∈ xs) /\ ~ (f + 1)%Z ∈ xs.
Proof.
  intros Hxs. destruct (updates_inv xs [] [0] Hxs window_inv_nil)
    as (f & t & E & _ & Hnf & _ & H1 & _ & H3). rewrite E.
  exists f. split_and!; [done|done|]. intros Hin. destruct (H3 _ Hin); [lia|done].
Qed.

Lemma xid_window_cumulative_witness :
  Forall (fun x => 0 <= x < 2 ^ 32 - 1) [2; 4; 1; 2; 6; 3] /\
  exists f, head (foldl (fun w x => update_xid_rep x w) [0] [2; 4; 1; 2; 6; 3]) = Some f /\
    (forall y, 1 <= y <= f -> y ∈ [2; 4; 1; 2; 6; 3]) /\ ~ (f + 1)%Z ∈ [2; 4; 1; 2; 6; 3].
Proof.
  assert (Forall (fun x => 0 <= x < 2 ^ 32 - 1) [2; 4; 1; 2; 6; 3]) as H
    by (repeat constructor; lia).
  split; [exact H|]. exact (xid_window_cumulative _ H).
Defined.

(** ** Runs of the endpoint *)

(** The endpoint makes fewer than 2^31 - 1 calls, and the servers answer only
    calls that were made. *)
Inductive rpcc_step : rpcc -> rpcc -> Prop :=
| step_call proc s h s' :
    call1_begin proc s = inr (h, s') -> xid_ s < 2 ^ 31 - 1 -> rpcc_step s s'
| step_reply b s :
    1 <= rp_xid (unpack_reply_header (unmarshall_of b (length b))).1 < xid_ s ->
    rpcc_step s (got_pdu b s)
| step_end x s :
    is_Some (calls s !! x) -> rpcc_step s (call1_end x s).2
| step_cancel s : rpcc_step s (cancel s)
| step_bind ret r s : rpcc_step s (bind ret r s).2.

(** [xs] are the calls reported to the window. *)
Definition rpcc_inv (s : rpcc) : Prop :=
  1 <= xid_ s <= 2 ^ 31 - 1 /\
  exists xs, window_inv xs (xid_rep_window s) /\
    (forall x, x ∈ xs -> 1 <= x < xid_ s) /\
    (forall x ca, calls s !! x = Some ca ->
       1 <= x < xid_ s /\ (ca_done ca = false -> x ∉ xs)).

Lemma rpcc_new_inv r n : rpcc_inv (rpcc_new r n).
Proof.
  split; [simpl; lia|]. exists []. split; [apply window_inv_nil|].
  split; [set_solver|]. simpl. intros x ca. by rewrite lookup_empty.
Qed.

Lemma rpcc_report_inv x xs s c' :
  rpcc_inv s -> window_inv xs (xid_rep_window s) ->
  (forall y, y ∈ xs -> 1 <= y < xid_ s) ->
  (forall y ca, c' !! y = Some ca ->
     1 <= y < xid_ s /\ (ca_done ca = false -> (y ∉ xs) /\ y <> x)) ->
  1 <= x < xid_ s ->
  rpcc_inv (set_calls c' (set_window (update_xid_rep x (xid_rep_window s)) s)).
Proof.
  intros [Hb _] Hw Hxs Hc Hx. split; [done|]. exists (xs ++ [x]). split_and!.
  - simpl. apply update_xid_rep_inv; [lia|done].
  - intros y [Hy|Hy]%elem_of_app; [by apply Hxs|].
    apply list_elem_of_singleton in Hy as ->. done.
  - intros y ca Hy. destruct (Hc y ca Hy) as [? Hd]. split; [done|].
    intros Hf. destruct (Hd Hf). set_solver.
Qed.

Lemma rpcc_step_inv s s' : rpcc_inv s -> rpcc_step s s' -> rpcc_inv s'.
Proof.
  intros HI Hst. pose proof HI as (Hb & xs & Hw & Hxs & Hc). destruct Hst.
  - unfold call1_begin in H. repeat case_match; simplify_eq. split.
    + cbn [xid_]. rewrite u32_small by (unfold is_u32; lia). lia.
    + cbn [xid_ calls xid_rep_window]. rewrite u32_small by (unfold is_u32; lia).
      exists xs. split_and!; [done| |].
      * intros x Hx%Hxs. lia.
      * intros x ca. rewrite s32_small by (unfold is_s32; lia).
        intros [[<- <-]|[Hne Hx]]%lookup_insert_Some.
        -- split; [lia|]. intros _ Hin%Hxs. lia.
        -- destruct (Hc x ca Hx). split; [lia|done].
  - unfold got_pdu. destruct (unpack_reply_header _) as [h rep]; cbn [fst] in H.
    destruct (negb (u_ok rep)); [done|].
    rewrite u32_small by (unfold is_u32; lia).
    set (s1 := set_window _ s).
    assert (forall y ca, calls s !! y = Some ca -> y <> rp_xid h \/ ca_done ca = true ->
              1 <= y < xid_ s /\ (ca_done ca = false -> (y ∉ xs) /\ y <> rp_xid h)) as Hc'.
    { intros y ca Hy Hor. destruct (Hc y ca Hy). split; [done|]. intros Hd.
      destruct Hor as [Hor|Hor]; [auto|congruence]. }
    destruct (calls s1 !! rp_xid h) as [ca|] eqn:Eca; [destruct (ca_done ca) eqn:Ed|];
      try (apply (rpcc_report_inv (rp_xid h) xs s (calls s)); try done;
           intros y ca' Hy; apply Hc'; [done|];
           destruct (decide (y = rp_xid h)) as [->|]; [right; simpl in Eca; congruence|by left]).
    apply (rpcc_report_inv (rp_xid h) xs s); try done.
    intros y ca'. intros [[<- <-]|[Hne Hy]]%lookup_insert_Some; [|by eauto].
    split; [lia|]. by intros [=].
  - destruct H as [ca Hx]. destruct (Hc x ca Hx) as [Hx1 _]. unfold call1_end; cbn [snd].
    rewrite s32_small by (unfold is_s32; lia).
    apply (rpcc_report_inv x xs s (delete x (calls s))); try done.
    intros y ca' [Hne Hy]%lookup_delete_Some. destruct (Hc y ca' Hy). split; [done|]. auto.
  - split; [done|]. exists xs. split_and!; try done. unfold cancel; cbn [calls xid_].
    intros x ca. rewrite lookup_fmap. destruct (calls s !! x) as [ca'|] eqn:E; simpl; [|done].
    intros [= <-]. destruct (Hc x ca' E). split; [done|]. by intros [=].
  - unfold bind. destruct (ret =? 0); [|done]. split; [done|]. by exists xs.
Qed.


(** A reply block for call 1, and the endpoint after the call was made. *)
Definition demo_reply (xid : Z) : bytes :=
  as_sent (m_pdu (pack_reply_header (ReplyHeader xid 0) marshall_new)).

Definition demo_calls : rpcc :=
  match call1_begin rpc_const.bind (rpcc_new true 5) with
  | inr (_, s) => (bind 0 9 (call1_end 1 (got_pdu (demo_reply 1) s)).2).2
  | inl _ => rpcc_new true 5
  end.

Definition demo_pending : rpcc :=
  match call1_begin 7 demo_calls with inr (_, s) => s | inl _ => demo_calls end.


Lemma u_rep_header_ok b h rep :
  unpack_reply_header (unmarshall_of b (length b)) = (h, rep) -> u_ok rep = true ->
  got_pdu b = fun s =>
    let s := set_window (update_xid_rep (u32 (rp_xid h)) (xid_rep_window s)) s in
    match calls s !! rp_xid h with
    | None => s
    | Some ca => if ca_done ca then s
                 else set_calls (<[rp_xid h := Caller true (rp_ret h) (u_take_in rep)]>
                                   (calls s)) s
    end.
Proof. intros E Hok. unfold got_pdu. by rewrite E, Hok. Qed.

(** The first reply that arrives for an outstanding call is the
    one its [call1] returns: replies for other calls, and further replies for
    the same call, change neither its status nor its data. *)
Theorem first_reply_wins b h rep s x ca bs :
  unpack_reply_header (unmarshall_of b (length b)) = (h, rep) -> u_ok rep = true ->
  rp_xid h = x -> is_s32 x -> calls s !! x = Some ca -> ca_done ca = false ->
  let s' := foldl (fun s b => got_pdu b s) (got_pdu b s) bs in
  calls s' !! x = Some (Caller true (rp_ret h) (u_take_in rep)) /\
  (call1_end x s').1 = rp_ret h.
Proof.
  intros E Hok Hx Hr Hca Hd s'.
  assert (calls s' !! x = Some (Caller true (rp_ret h) (u_take_in rep))) as Hs'.
  { subst s'. assert (calls (got_pdu b s) !! x = Some (Caller true (rp_ret h) (u_take_in rep)))
      as H0.
    { rewrite (u_rep_header_ok _ _ _ E Hok). cbn. rewrite Hx, Hca, Hd. cbn.
      apply lookup_insert_eq. }
    revert H0. generalize (got_pdu b s). induction bs as [|b' bs IH]; intros s0 H0; simpl; [done|].
    apply IH. unfold got_pdu. clear E.
    destruct (unpack_reply_header _) as [h' rep'].
    destruct (negb (u_ok rep')); [done|]. cbn.
    destruct (calls s0 !! rp_xid h') as [ca'|] eqn:Ec; [|done].
    destruct (ca_done ca') eqn:Ed; [done|]. cbn.
    rewrite lookup_insert_ne; [done|]. intros Heq. rewrite Heq, H0 in Ec.
    injection Ec as <-. simpl in Ed. discriminate. }
  split; [done|]. unfold call1_end. cbn. rewrite s32_small by done. by rewrite Hs'.
Qed.

Lemma first_reply_wins_witness :
  let s' := foldl (fun s b => got_pdu b s) (got_pdu (demo_reply 2) demo_pending)
              [demo_reply 1; demo_reply 2] in
  (call1_end 2 s').1 = 0.
Proof.
  eapply (first_reply_wins (demo_reply 2) (ReplyHeader 2 0) _ demo_pending 2 _
            [demo_reply 1; demo_reply 2]).
  - vm_compute. reflexivity.
  - reflexivity.
  - reflexivity.
  - unfold is_s32. lia.
  - vm_compute. reflexivity.
  - reflexivity.
Defined.

(** ** Deadlines *)

Definition timespec_ns (t : timespec) : Z := tv_sec t * 1000000000 + tv_nsec t.

Lemma add_timespec_sum a b :
  0 <= tv_nsec a < 1000000000 -> 0 <= b ->
  timespec_ns (add_timespec a b) = timespec_ns a + b * 1000000 /\
  0 <= tv_nsec (add_timespec a b) <= 1000000000.
Proof.
  intros Ha Hb. unfold add_timespec, timespec_ns.
  pose proof (Z.quot_rem b 1000 ltac:(lia)) as E.
  pose proof (Z.rem_bound_pos b 1000 ltac:(lia) ltac:(lia)) as Hr.
  cbn [carry_nsec tv_sec tv_nsec].
  repeat (destruct (_ <? _) eqn:?; to_prop; cbn [tv_sec tv_nsec]); lia.
Qed.

Lemma add_timespec_later a b : 0 <= b -> tv_sec a <= tv_sec (add_timespec a b).
Proof.
  intros Hb. unfold add_timespec. pose proof (Z.quot_pos b 1000 Hb ltac:(lia)).
  cbn [carry_nsec tv_sec tv_nsec]. repeat (destruct (_ <? _); cbn [tv_sec tv_nsec]); lia.
Qed.

(** Adding a timeout to a clock reading gives exactly the
    deadline, with the nanoseconds between 0 and 10^9. *)
Theorem add_timespec_exact a b :
  0 <= tv_nsec a < 1000000000 -> 0 <= b ->
  timespec_ns (add_timespec a b) = timespec_ns a + b * 1000000 /\
  0 <= tv_nsec (add_timespec a b) <= 1000000000.
Proof. apply add_timespec_sum. Qed.

Lemma add_timespec_exact_witness :
  timespec_ns (add_timespec (Timespec 5 999000000) 1002) = 7001000000.
Proof.
  destruct (add_timespec_exact (Timespec 5 999000000) 1002) as [H _]; simpl; [lia|lia|].
  rewrite H. reflexivity.
Defined.

(** The upper bound is reached: half a second after
    t + 0.5 s the result has 10^9 nanoseconds, which is not a valid
    [timespec] for [pthread_cond_timedwait]. *)
Theorem add_timespec_not_normal :
  tv_nsec (add_timespec (Timespec 1 500000000) 500) = 1000000000.
Proof. reflexivity. Qed.
