(* ===== verification/Rpcs.v ===== *)
(** * The RPC server endpoint

    [rpcs] of [rpc/rpc.cc] and [rpc/rpc.h]: the table of procedures, the
    window of remembered replies per client, [checkduplicate_and_update],
    [add_reply] and [dispatch].  Reply buffers are C heap blocks: the window
    holds pointers, and [free] is explicit, so that the life time of a
    remembered reply is part of the model.  [dispatch] is split where it runs
    the handler without holding a mutex; the threads of the pool interleave
    there. *)

From stdpp Require Import gmap list strings relations.
From Stdlib Require Import ZArith Lia Ascii.
From S2P Require Import Prelude Text Marshall Rpc.

Local Open Scope Z_scope.

(** ** The C heap, as far as reply buffers use it *)

Abbreviation pdu := (list (option ascii)).

Record heap := Heap {
  live : gmap Z pdu;
  next_ptr : Z;
  bad_free : bool     (** a block was freed that was not allocated *)
}.

Definition heap_alloc (b : pdu) (h : heap) : Z * heap :=
  (next_ptr h, Heap (<[next_ptr h := b]> (live h)) (next_ptr h + 1) (bad_free h)).

(** [free(p)]; freeing [NULL] is allowed *)
Definition heap_free (p : Z) (h : heap) : heap :=
  if p =? 0 then h
  else match live h !! p with
       | Some _ => Heap (delete p (live h)) (next_ptr h) (bad_free h)
       | None => Heap (live h) (next_ptr h) true
       end.

(** ** The window of replies *)

Record reply_t := Reply {
  xid : Z;
  cb_present : bool;
  buf : Z;
  sz : Z
}.

Definition reply_new (x : Z) : reply_t := Reply x false 0 0.

Inductive rpcstate_t := NEW | INPROGRESS | DONE | FORGOTTEN.

(** the first loop of [checkduplicate_and_update] *)
Fixpoint trim (xid_rep : Z) (l : list reply_t) (h : heap) : list reply_t * heap :=
  match l with
  | [] => ([], h)
  | e :: l' =>
      if xid e <=? xid_rep
      then let '(l'', h) := trim xid_rep l' (heap_free (buf e) h) in
           (Reply (xid e) false 0 0 :: l'', h)
      else let '(l'', h) := trim xid_rep l' h in (e :: l'', h)
  end.

(** the search loops *)
Fixpoint find_xid (x : Z) (l : list reply_t) : option reply_t :=
  match l with
  | [] => None
  | e :: l' => if xid e =? x then Some e else find_xid x l'
  end.

(** the loop of [add_reply]; [None] is the failed assertion *)
Fixpoint record_reply (x b n : Z) (l : list reply_t) : option (list reply_t) :=
  match l with
  | [] => Some []
  | e :: l' =>
      if xid e =? x
      then if negb (cb_present e) && (buf e =? 0) then Some (Reply (xid e) true b n :: l')
           else None
      else match record_reply x b n l' with
           | Some l'' => Some (e :: l'')
           | None => None
           end
  end.

(** ** The endpoint *)

Section Endpoint.
Context {S : Type}.

Record rpcs := Rpcs {
  nonce : Z;
  procs : gmap Z (handler_fn S);
  reply_window : gmap Z (list reply_t);
  conns : gmap Z Z;           (** latest connection of a client *)
  refs : gmap Z Z;            (** reference counts of the connections *)
  counting : Z;
  curr_counts : Z;
  counts : gmap Z Z;
  mem : heap
}.

Definition set_reply_window w h (s : rpcs) : rpcs :=
  Rpcs (nonce s) (procs s) w (conns s) (refs s) (counting s) (curr_counts s) (counts s) h.

Definition set_conns m r (s : rpcs) : rpcs :=
  Rpcs (nonce s) (procs s) (reply_window s) m r (counting s) (curr_counts s) (counts s)
    (mem s).

(** [connection::incref], [connection::decref] *)
Definition incref (c : Z) (r : gmap Z Z) : gmap Z Z := <[c := map_get 0 r c + 1]> r.
Definition decref (c : Z) (r : gmap Z Z) : gmap Z Z := <[c := map_get 0 r c - 1]> r.

Definition release_conn (c : Z) (s : rpcs) : rpcs := set_conns (conns s) (decref c (refs s)) s.

(** [reg1]; [None] is the failed assertion *)
Definition reg1 (proc : Z) (f : handler_fn S) (s : rpcs) : option rpcs :=
  if map_has (procs s) proc then None
  else Some (Rpcs (nonce s) (<[proc := f]> (procs s)) (reply_window s) (conns s) (refs s)
               (counting s) (curr_counts s) (counts s) (mem s)).

(** the constructor registers [bind] *)
Definition rpcs_new (n count : Z) (rpcbind : handler_fn S) : rpcs :=
  Rpcs n {[ rpc_const.bind := rpcbind ]} ∅ ∅ ∅ count count ∅ (Heap ∅ 1 false).

Definition updatestat (proc : Z) (s : rpcs) : rpcs :=
  let curr := curr_counts s - 1 in
  Rpcs (nonce s) (procs s) (reply_window s) (conns s) (refs s) (counting s)
    (if curr =? 0 then counting s else curr)
    (<[proc := map_get 0 (counts s) proc + 1]> (counts s)) (mem s).

(** [checkduplicate_and_update]: the window is copied, trimmed in the copy,
    and written back only when the request is new. *)
Definition checkduplicate_and_update (clt x xid_rep : Z) (s : rpcs)
  : rpcstate_t * Z * rpcs :=
  let '(rep_list, h) := trim xid_rep (map_get [] (reply_window s) clt) (mem s) in
  let keep := set_reply_window (reply_window s) h s in
  match find_xid x rep_list with
  | None => (NEW, 0,
             set_reply_window (<[clt := rep_list ++ [reply_new x]]> (reply_window s)) h s)
  | Some e =>
      if cb_present e then (DONE, buf e, keep)
      else if xid_rep <? x then (INPROGRESS, 0, keep)
      else (FORGOTTEN, 0, keep)
  end.

(** [add_reply]; [None] is the failed assertion *)
Definition add_reply (clt x b n : Z) (s : rpcs) : option rpcs :=
  match record_reply x b n (map_get [] (reply_window s) clt) with
  | Some l => Some (set_reply_window (<[clt := l]> (reply_window s)) (mem s) s)
  | None => None
  end.

Definition free_reply_window (s : rpcs) : rpcs :=
  set_reply_window ∅
    (foldl (fun h e => heap_free (buf e) h) (mem s)
       (concat ((map_to_list (reply_window s)).*2))) s.

(** "save the latest good connection to the client" *)
Definition save_conn (clt c : Z) (s : rpcs) : rpcs :=
  match conns s !! clt with
  | None => set_conns (<[clt := c]> (conns s)) (incref c (refs s)) s
  | Some c' =>
      if c' =? c then s
      else set_conns (<[clt := c]> (conns s)) (incref c (decref c' (refs s))) s
  end.

(** What a thread that entered [dispatch] has to do next. *)
Inductive disposition :=
  | Dropped                                       (** nothing is sent *)
  | Answered (c : Z) (p : pdu)                    (** [p] is sent on [c] *)
  | UseAfterFree                                  (** a freed reply is sent *)
  | Run (h : req_header) (c : Z) (f : handler_fn S) (req : unmarshall).

(** [rep.pack_reply_header(rh)] on an empty reply *)
Definition header_only (h : req_header) (ret : Z) : pdu :=
  m_pdu (pack_reply_header (ReplyHeader (rq_xid h) ret) marshall_new).

(** the [switch] of [dispatch], up to the handler of a new request *)
Definition dispatch_stat (h : req_header) (c : Z) (f : handler_fn S) (req : unmarshall)
    (stat : rpcstate_t) (b1 : Z) (s : rpcs) : disposition * rpcs :=
  match stat with
  | NEW => (Run h c f req,
            if counting s =? 0 then s else updatestat (rq_proc h) s)
  | INPROGRESS => (Dropped, release_conn c s)
  | DONE => (match live (mem s) !! b1 with
             | Some p => Answered c p
             | None => UseAfterFree
             end, release_conn c s)
  | FORGOTTEN => (Answered c (header_only h rpc_const.atmostonce_failure), release_conn c s)
  end.

(** [dispatch] up to the call of the handler. *)
Definition dispatch_begin (c : Z) (b : bytes) (s : rpcs) : disposition * rpcs :=
  let '(h, req) := unpack_req_header (unmarshall_of b (length b)) in
  if negb (u_ok req) then (Dropped, release_conn c s)
  else if negb (rq_srv_nonce h =? 0) && negb (rq_srv_nonce h =? nonce s)
  then (Answered c (header_only h rpc_const.oldsrv_failure), s)
  else match procs s !! rq_proc h with
  | None => (Dropped, release_conn c s)
  | Some f =>
      if rq_clt_nonce h =? 0 then dispatch_stat h c f req NEW 0 s
      else
        let s := set_reply_window
                   (if map_has (reply_window s) (rq_clt_nonce h) then reply_window s
                    else <[rq_clt_nonce h := []]> (reply_window s)) (mem s) s in
        let s := save_conn (rq_clt_nonce h) c s in
        let '(stat, b1, s) :=
          checkduplicate_and_update (rq_clt_nonce h) (u32 (rq_xid h)) (u32 (rq_xid_rep h)) s in
        dispatch_stat h c f req stat b1 s
  end.

(** What became of a handled request. *)
Inductive outcome :=
  | Sent (c : Z) (p : pdu)
  | AssertFailed
  | NullConnection.      (** [c = conns_[h.clt_nonce]] is [NULL] *)

(** "get the latest connection to the client": [dead] is [c->isdead()] *)
Definition latest_conn (clt c : Z) (dead : bool) (s : rpcs) : option Z * rpcs :=
  if dead then
    match conns s !! clt with
    | Some c' => if c' =? c then (Some c, s)
                 else (Some c', set_conns (conns s) (incref c' (decref c (refs s))) s)
    | None => (None, s)
    end
  else (Some c, s).

(** [dispatch] from the return of the handler, which left status [ret] and
    reply [rep]. *)
Definition dispatch_end (h : req_header) (c : Z) (dead : bool) (ret : Z) (rep : marshall)
    (s : rpcs) : outcome * rpcs :=
  if negb ((0 <=? ret) || (ret =? rpc_const.unmarshal_args_failure)) then (AssertFailed, s)
  else
    let p := m_pdu (pack_reply_header (ReplyHeader (rq_xid h) ret) rep) in
    let '(b1, hp) := heap_alloc p (mem s) in
    let s := set_reply_window (reply_window s) hp s in
    let recorded := if rq_clt_nonce h =? 0 then Some s
                    else add_reply (rq_clt_nonce h) (u32 (rq_xid h)) b1
                           (Z.of_nat (length p)) s in
    match recorded with
    | None => (AssertFailed, s)
    | Some s =>
        match latest_conn (rq_clt_nonce h) c dead s with
        | (None, s) => (NullConnection, s)
        | (Some c, s) =>
            let s := if rq_clt_nonce h =? 0
                     then set_reply_window (reply_window s) (heap_free b1 (mem s)) s else s in
            (Sent c p, release_conn c s)
        end
    end.

(** One thread that is not interrupted: [f->fn(req, rep)] in the middle. *)
Definition dispatch (c : Z) (b : bytes) (dead : bool) (s : rpcs) (svc : S)
  : (disposition + outcome) * rpcs * S :=
  match dispatch_begin c b s with
  | (Run h c f req, s) =>
      let '(ret, rep, svc) := f req marshall_new svc in
      let '(o, s) := dispatch_end h c dead ret rep s in (inr o, s, svc)
  | (d, s) => (inl d, s, svc)
  end.

(** ** The threads of the pool *)

(** A handler that has been started and has not returned. *)
Record job := Job { j_h : req_header; j_c : Z; j_f : handler_fn S; j_req : unmarshall }.

Record pool := Pool {
  srv : rpcs;
  svc : S;
  jobs : list job;
  runs : list (Z * Z);      (** every handler execution so far: client and xid *)
  answers : gmap (Z * Z) pdu    (** the reply each of them was first answered with *)
}.

Inductive event :=
  | Request (c : Z) (b : bytes)          (** a block arrives on [c] *)
  | Finish (i : nat) (dead : bool).      (** the handler of the [i]-th job returns *)

Definition request_id (h : req_header) : Z * Z := (rq_clt_nonce h, u32 (rq_xid h)).

(** Undefined behaviour and a failed assertion end the run. *)
Definition pool_step (p : pool) (e : event) : option pool :=
  match e with
  | Request c b =>
      match dispatch_begin c b (srv p) with
      | (Run h c f req, s) =>
          Some (Pool s (svc p) (jobs p ++ [Job h c f req]) (runs p ++ [request_id h])
                  (answers p))
      | (UseAfterFree, _) => None
      | (_, s) => Some (Pool s (svc p) (jobs p) (runs p) (answers p))
      end
  | Finish i dead =>
      match jobs p !! i with
      | Some j =>
          let '(ret, rep, v) := j_f j (j_req j) marshall_new (svc p) in
          match dispatch_end (j_h j) (j_c j) dead ret rep (srv p) with
          | (Sent _ pd, s) =>
              Some (Pool s v (delete i (jobs p)) (runs p)
                      (<[request_id (j_h j) := pd]> (answers p)))
          | _ => None
          end
      | None => None
      end
  end.

Definition pool_start (s : rpcs) (v : S) : pool := Pool s v [] [] ∅.

(** [rpcs::got_pdu]: [reachable] is read twice, [accepted] is what the
    thread pool answered.  The result: what is returned to the connection,
    and whether a job stays queued whose [djob_t] is alive. *)
Definition got_pdu (reachable reachable' accepted : bool) (c : Z) (s : rpcs)
  : bool * bool * rpcs :=
  if negb reachable then (true, false, s)
  else let s1 := set_conns (conns s) (incref c (refs s)) s in
       if negb accepted || negb reachable' then (accepted, false, release_conn c s1)
       else (accepted, true, s1).
End Endpoint.
Arguments rpcs : clear implicits.
Arguments job : clear implicits.
Arguments pool : clear implicits.
Arguments disposition : clear implicits.

(** [rpcbind]: the handler every server registers *)
Definition rpcbind {S} (n : Z) (_ : Z) (_ : Z) (s : S) : Z * Z * S := (0, n, s).

(** ** Lemmas on the window *)

Section Window.
Implicit Types (l : list reply_t) (h : heap).

Lemma trim_xids r l h : xid <$> (trim r l h).1 = xid <$> l.
Proof.
  revert h. induction l as [|e l IH]; intros h; simpl; [done|].
  destruct (xid e <=? r); simpl.
  - destruct (trim r l (heap_free (buf e) h)) as [l' h'] eqn:E. simpl.
    specialize (IH (heap_free (buf e) h)). rewrite E in IH. simpl in IH. by f_equal.
  - destruct (trim r l h) as [l' h'] eqn:E. simpl.
    specialize (IH h). rewrite E in IH. simpl in IH. by f_equal.
Qed.

Definition blank (e : reply_t) : Prop := cb_present e = false /\ buf e = 0.

Lemma trim_elem r l h e :
  e ∈ (trim r l h).1 -> (e ∈ l /\ r < xid e) \/ (blank e /\ xid e <= r).
Proof.
  revert h. induction l as [|e' l IH]; intros h; simpl; [set_solver|].
  destruct (xid e' <=? r) eqn:Ex; to_prop; simpl.
  - destruct (trim r l (heap_free (buf e') h)) as [l' h'] eqn:E. simpl.
    intros [->|H]%elem_of_cons; [right; done|].
    specialize (IH (heap_free (buf e') h)). rewrite E in IH. destruct (IH H); set_solver.
  - destruct (trim r l h) as [l' h'] eqn:E. simpl.
    intros [->|H]%elem_of_cons; [left; set_solver|].
    specialize (IH h). rewrite E in IH. destruct (IH H); set_solver.
Qed.

Lemma find_xid_None x l : find_xid x l = None <-> ~ x ∈ xid <$> l.
Proof.
  induction l as [|e l IH]; simpl; [set_solver|].
  rewrite elem_of_cons. destruct (xid e =? x) eqn:E; to_prop; [naive_solver|].
  rewrite IH. naive_solver.
Qed.

Lemma find_xid_Some x l e : find_xid x l = Some e -> e ∈ l /\ xid e = x.
Proof.
  induction l as [|e' l IH]; simpl; [done|].
  destruct (xid e' =? x) eqn:E; to_prop.
  - intros [= ->]. set_solver.
  - intros H. destruct (IH H). set_solver.
Qed.

Lemma find_xid_unique x l e :
  NoDup (xid <$> l) -> e ∈ l -> xid e = x -> find_xid x l = Some e.
Proof.
  induction l as [|e' l IH]; simpl; [set_solver|].
  intros [Hn Hd]%NoDup_cons [->|Hin]%elem_of_cons Hx.
  - by rewrite Hx, Z.eqb_refl.
  - destruct (xid e' =? x) eqn:E; to_prop; [|auto].
    exfalso. apply Hn. rewrite E, <- Hx. by apply list_elem_of_fmap_2.
Qed.

Lemma record_reply_ok x b n l :
  (forall e, e ∈ l -> xid e = x -> blank e) ->
  exists l', record_reply x b n l = Some l' /\ xid <$> l' = xid <$> l /\
    forall e, e ∈ l' -> (e ∈ l) \/ e = Reply x true b n.
Proof.
  induction l as [|e l IH]; intros H; simpl; [eexists; split_and!; set_solver|].
  destruct (xid e =? x) eqn:E; to_prop.
  - destruct (H e ltac:(set_solver) E) as [-> ->]. simpl. eexists. split; [done|]. split; [done|].
    intros e'. rewrite E. set_solver.
  - destruct IH as (l' & -> & Hx & Hl'); [set_solver|].
    eexists. split; [done|]. simpl. split; [by f_equal|]. set_solver.
Qed.

Lemma record_reply_in x b n l l' e :
  record_reply x b n l = Some l' -> NoDup (xid <$> l) -> e ∈ l' ->
  (e ∈ l /\ xid e <> x) \/ e = Reply x true b n.
Proof.
  revert l'. induction l as [|e' l IH]; intros l'; simpl; [intros [= <-]; set_solver|].
  intros H [Hn Hd]%NoDup_cons. revert H.
  destruct (xid e' =? x) eqn:E; to_prop.
  - destruct (_ && _); [|done]. intros [= <-]. intros [->|Hin]%elem_of_cons; [by rewrite E; right|].
    left. split; [set_solver|]. intros Hx. apply Hn. rewrite E, <- Hx.
    by apply list_elem_of_fmap_2.
  - destruct (record_reply x b n l) as [l''|] eqn:Er; [|done]. intros [= <-].
    intros [->|Hin]%elem_of_cons; [left; set_solver|].
    destruct (IH l'' eq_refl Hd Hin); set_solver.
Qed.
End Window.

Section AtMostOnce.
Context {S : Type}.
Implicit Types (s : rpcs S) (p : pool S).

(** The replies remembered for client [c]. *)
Definition win s (c : Z) : list reply_t := map_get [] (reply_window s) c.

Lemma win_save_conn s clt c c' : win (save_conn clt c s) c' = win s c'.
Proof. unfold save_conn. repeat case_match; done. Qed.

Lemma mem_save_conn s clt c : mem (save_conn clt c s) = mem s.
Proof. unfold save_conn. repeat case_match; done. Qed.

Lemma map_get_touch (m : gmap Z (list reply_t)) k c :
  map_get [] (if map_has m k then m else <[k := []]> m) c = map_get [] m c.
Proof.
  destruct (map_has m k) eqn:E; [done|]. apply map_has_false in E.
  destruct (decide (k = c)) as [->|]; [|by rewrite map_get_insert_ne].
  rewrite map_get_insert_eq. unfold map_get. by rewrite E.
Qed.

(** What the window and the heap are after a request has been looked up:
    what a new request changes, and what a request that starts no handler
    leaves alone. *)
Definition starts s s' (h : req_header) : Prop :=
  if rq_clt_nonce h =? 0
  then mem s' = mem s /\ forall c, win s' c = win s c
  else let l := win s (rq_clt_nonce h) in
       let t := trim (u32 (rq_xid_rep h)) l (mem s) in
       ~ u32 (rq_xid h) ∈ xid <$> l /\
       win s' (rq_clt_nonce h) = t.1 ++ [reply_new (u32 (rq_xid h))] /\
       mem s' = t.2 /\
       forall c, c <> rq_clt_nonce h -> win s' c = win s c.

Definition starts_nothing s s' (h : req_header) : Prop :=
  (forall c, win s' c = win s c) /\
  (mem s' = mem s \/
   mem s' = (trim (u32 (rq_xid_rep h)) (win s (rq_clt_nonce h)) (mem s)).2 /\
   rq_clt_nonce h <> 0 /\ u32 (rq_xid h) ∈ xid <$> win s (rq_clt_nonce h)).

Lemma dispatch_stat_cases h c f req stat b1 s d s' :
  dispatch_stat h c f req stat b1 s = (d, s') ->
  mem s' = mem s /\ (forall c, win s' c = win s c) /\
  match d with
  | Run h' c' f' req' => stat = NEW /\ h' = h /\ c' = c /\ f' = f /\ req' = req
  | _ => stat <> NEW
  end.
Proof.
  unfold dispatch_stat, updatestat. intros H.
  destruct stat; repeat case_match; simplify_eq/=; done.
Qed.

Definition header_of (b : bytes) : req_header :=
  (unpack_req_header (unmarshall_of b (length b))).1.

Lemma dispatch_begin_cases c b s d s' :
  dispatch_begin c b s = (d, s') ->
  match d with
  | Run h _ _ _ => h = header_of b /\ starts s s' h
  | _ => starts_nothing s s' (header_of b)
  end.
Proof.
  unfold dispatch_begin, header_of.
  destruct (unpack_req_header _) as [h req]; cbn [fst].
  destruct (negb (u_ok req)); [intros [= <- <-]; split; [done|by left]|].
  destruct (_ && _); [intros [= <- <-]; split; [done|by left]|].
  destruct (procs s !! rq_proc h) as [f|]; [|intros [= <- <-]; split; [done|by left]].
  destruct (rq_clt_nonce h =? 0) eqn:E0.
  { intros H. apply dispatch_stat_cases in H as (Hm & Hw & Hd). destruct d; try done.
    destruct Hd as (_ & -> & _). unfold starts. by rewrite E0. }
  set (s1 := set_reply_window _ (mem s) s).
  set (s2 := save_conn (rq_clt_nonce h) c s1).
  assert (forall c, win s2 c = win s c) as Hw2.
  { intros c'. unfold s2. rewrite win_save_conn. apply map_get_touch. }
  assert (mem s2 = mem s) as Hm2 by (unfold s2; by rewrite mem_save_conn).
  unfold checkduplicate_and_update. rewrite Hm2. fold (win s2 (rq_clt_nonce h)). rewrite Hw2.
  pose proof (trim_xids (u32 (rq_xid_rep h)) (win s (rq_clt_nonce h)) (mem s)) as Hx.
  destruct (trim _ _ (mem s)) as [l hp] eqn:Et. cbn [fst] in Hx.
  destruct (find_xid (u32 (rq_xid h)) l) as [e|] eqn:Ef.
  - assert (u32 (rq_xid h) ∈ xid <$> win s (rq_clt_nonce h)) as Hin.
    { rewrite <- Hx. apply find_xid_Some in Ef as [? <-]. by apply list_elem_of_fmap_2. }
    intros H. assert (starts_nothing s s' h).
    { repeat case_match; simplify_eq; apply dispatch_stat_cases in H as (Hm & Hw & _);
        cbn in Hm;
        (split; [intros c'; rewrite Hw; apply Hw2|right; rewrite Et; to_prop; done]). }
    destruct d; [done..|].
    repeat case_match; simplify_eq; apply dispatch_stat_cases in H as (_ & _ & ? & _); done.
  - intros H. apply dispatch_stat_cases in H as (Hm & Hw & Hd).
    destruct d; try done. destruct Hd as (_ & -> & _). split; [done|].
    unfold starts. rewrite E0, Et. apply find_xid_None in Ef. rewrite Hx in Ef.
    split; [done|]. split; [|split; [done|]].
    + rewrite Hw. unfold win. cbn. by rewrite map_get_insert_eq.
    + intros c' Hc. rewrite Hw. unfold win; cbn. rewrite map_get_insert_ne by done. apply Hw2.
Qed.

Lemma conns_save_conn s clt c : is_Some (conns (save_conn clt c s) !! clt).
Proof.
  unfold save_conn. destruct (conns s !! clt) as [c'|] eqn:E; cbn.
  - destruct (c' =? c); cbn; [by rewrite E|by rewrite lookup_insert_eq].
  - by rewrite lookup_insert_eq.
Qed.

Lemma conns_save_conn_mono s clt c k :
  is_Some (conns s !! k) -> is_Some (conns (save_conn clt c s) !! k).
Proof.
  unfold save_conn. intros [v Hv].
  repeat case_match; cbn; rewrite ?Hv; try done; apply lookup_insert_is_Some';
    rewrite Hv; eauto.
Qed.

(** A connection is remembered for every client with a request in hand. *)
Lemma dispatch_begin_conns c b s d s' :
  dispatch_begin c b s = (d, s') ->
  (forall k, is_Some (conns s !! k) -> is_Some (conns s' !! k)) /\
  match d with
  | Run h _ _ _ => rq_clt_nonce h <> 0 -> is_Some (conns s' !! rq_clt_nonce h)
  | _ => True
  end.
Proof.
  unfold dispatch_begin. destruct (unpack_req_header _) as [h req].
  assert (forall h c f req stat b1 s d s', dispatch_stat h c f req stat b1 s = (d, s') ->
            conns s' = conns s /\ match d with Run h' _ _ _ => h' = h | _ => True end) as Hst.
  { unfold dispatch_stat, updatestat. intros. repeat case_match; simplify_eq/=; done. }
  intros H. repeat (case_match; simplify_eq; try done; []); repeat case_match; simplify_eq;
    try (by split);
    match goal with H : dispatch_stat _ _ _ _ _ _ _ = _ |- _ => apply Hst in H as [Hc Hd] end;
    rewrite Hc; subst; to_prop; try (split; [done|congruence]);
    match goal with H : checkduplicate_and_update _ _ _ _ = _ |- _ =>
      unfold checkduplicate_and_update in H; repeat case_match; simplify_eq end; cbn;
    (split; [intros k Hk; apply conns_save_conn_mono, Hk|]); try done;
    intros _; apply conns_save_conn.
Qed.

Definition reply_pdu (h : req_header) (ret : Z) (rep : marshall) : pdu :=
  m_pdu (pack_reply_header (ReplyHeader (rq_xid h) ret) rep).

(** What is left of a request when its reply has been sent. *)
Definition finishes s s' (h : req_header) (pd : pdu) : Prop :=
  conns s' = conns s /\
  if rq_clt_nonce h =? 0
  then mem s' = heap_free (next_ptr (mem s)) (heap_alloc pd (mem s)).2 /\
       forall c, win s' c = win s c
  else exists l', record_reply (u32 (rq_xid h)) (next_ptr (mem s)) (Z.of_nat (length pd))
                    (win s (rq_clt_nonce h)) = Some l' /\
       win s' (rq_clt_nonce h) = l' /\
       mem s' = (heap_alloc pd (mem s)).2 /\
       forall c, c <> rq_clt_nonce h -> win s' c = win s c.

Lemma latest_conn_state clt c dead s o s' :
  latest_conn clt c dead s = (o, s') ->
  mem s' = mem s /\ conns s' = conns s /\ reply_window s' = reply_window s.
Proof. unfold latest_conn. intros. repeat case_match; simplify_eq/=; done. Qed.

Lemma dispatch_end_cases h c dead ret rep s c' pd s' :
  dispatch_end h c dead ret rep s = (Sent c' pd, s') ->
  pd = reply_pdu h ret rep /\ finishes s s' h pd.
Proof.
  unfold dispatch_end. fold (reply_pdu h ret rep). generalize (reply_pdu h ret rep) as pd0.
  intros pd0. destruct (negb _); [done|]. unfold heap_alloc at 1. unfold finishes.
  destruct (rq_clt_nonce h =? 0) eqn:E0.
  - destruct (latest_conn _ _ _ _) as [[c1|] s1] eqn:El; [|done]. intros [= <- <- <-].
    apply latest_conn_state in El as (Hm & Hc & Hw). cbn. rewrite Hm, Hc. cbn.
    split; [done|]. split; [done|]. split; [done|]. intros k. unfold win. cbn. by rewrite Hw.
  - unfold add_reply. cbn [set_reply_window reply_window mem].
    fold (win s (rq_clt_nonce h)).
    destruct (record_reply _ _ _ _) as [l'|] eqn:Er; [|done].
    destruct (latest_conn _ _ _ _) as [[c1|] s1] eqn:El; [|done]. intros [= <- <- <-].
    apply latest_conn_state in El as (Hm & Hc & Hw). cbn. rewrite Hm, Hc. cbn.
    split; [done|]. split; [done|]. exists l'. split; [done|]. unfold win; cbn. rewrite Hw. cbn.
    split; [by rewrite map_get_insert_eq|]. split; [done|].
    intros k Hk. by rewrite map_get_insert_ne.
Qed.

(** ** The invariant of the window *)

(** The identity of a request of a client that asked for at-most-once. *)
Definition tracked (r : Z * Z) : Prop := r.1 <> 0.
#[global] Instance tracked_dec r : Decision (tracked r) := ltac:(unfold tracked; apply _).

Definition job_id (j : job S) : Z * Z := request_id (j_h j).

Record pool_inv p : Prop := {
  pi_nodup : forall c, c <> 0 -> NoDup (xid <$> win (srv p) c);
  pi_runs : forall c x, c <> 0 -> (c, x) ∈ runs p <-> x ∈ xid <$> win (srv p) c;
  pi_once : NoDup (filter tracked (runs p));
  pi_jobs : NoDup (filter tracked (job_id <$> jobs p));
  pi_started : forall j, j ∈ jobs p -> job_id j ∈ runs p;
  pi_blank : forall j e, j ∈ jobs p -> tracked (job_id j) ->
    e ∈ win (srv p) (job_id j).1 -> xid e = (job_id j).2 -> blank e;
  pi_conn : forall j, j ∈ jobs p -> tracked (job_id j) -> is_Some (conns (srv p) !! (job_id j).1)
}.

Definition fresh_server s : Prop := reply_window s = ∅ /\ mem s = Heap ∅ 1 false.

Lemma pool_start_inv s v : fresh_server s -> pool_inv (pool_start s v).
Proof.
  intros [Hw _].
  assert (forall c, win s c = []) as Hwin.
  { intros c. unfold win, map_get. by rewrite Hw, lookup_empty. }
  split; cbn [srv svc jobs runs answers]; intros; try rewrite Hwin in *; try apply NoDup_nil; set_solver.
Qed.

Lemma NoDup_filter_snoc {A} (P : A -> Prop) `{!forall x, Decision (P x)} (l : list A) x :
  NoDup (filter P l) -> (P x -> ~ x ∈ l) -> NoDup (filter P (l ++ [x])).
Proof.
  intros Hl Hx. rewrite filter_app. apply NoDup_app. split_and!; [done| |].
  - intros y Hy Hy'. rewrite list_elem_of_filter, list_elem_of_singleton in Hy'.
    destruct Hy' as [Hp ->]. apply (Hx Hp). by apply list_elem_of_filter in Hy as [_ ?].
  - apply NoDup_filter, NoDup_singleton.
Qed.

Lemma deleted_job_other (js : list (job S)) i j j' :
  NoDup (filter tracked (job_id <$> js)) -> js !! i = Some j -> tracked (job_id j) ->
  j' ∈ delete i js -> job_id j' <> job_id j.
Proof.
  intros Hd Hi Ht Hin Heq. apply delete_Permutation in Hi as Hp.
  rewrite Hp, fmap_cons in Hd. rewrite filter_cons_True in Hd by done.
  apply NoDup_cons in Hd as [Hn _]. apply Hn. apply list_elem_of_filter. split; [done|].
  rewrite <- Heq. by apply list_elem_of_fmap_2.
Qed.

Lemma starts_nothing_inv p s' h :
  pool_inv p -> starts_nothing (srv p) s' h ->
  (forall k, is_Some (conns (srv p) !! k) -> is_Some (conns s' !! k)) ->
  pool_inv (Pool s' (svc p) (jobs p) (runs p) (answers p)).
Proof.
  intros [] [Hw _] Hc. split; cbn [srv svc jobs runs answers]; intros; rewrite ?Hw in *; eauto.
Qed.

Lemma starts_inv p s' h c f req :
  pool_inv p -> starts (srv p) s' h ->
  (forall k, is_Some (conns (srv p) !! k) -> is_Some (conns s' !! k)) ->
  (rq_clt_nonce h <> 0 -> is_Some (conns s' !! rq_clt_nonce h)) ->
  pool_inv (Pool s' (svc p) (jobs p ++ [Job h c f req]) (runs p ++ [request_id h]) (answers p)).
Proof.
  intros [] Hs Hc Hc'. unfold starts in Hs.
  destruct (rq_clt_nonce h =? 0) eqn:E0; to_prop.
  { destruct Hs as [_ Hw]. assert (~ tracked (request_id h)) by (unfold tracked; simpl; lia).
    split; cbn [srv svc jobs runs answers]; intros; rewrite ?Hw in *; eauto.
    - rewrite <- pi_runs0 by done. unfold request_id. rewrite elem_of_app, list_elem_of_singleton.
      split; [|by left]. intros [Hr|Hr]; [done|]. injection Hr as Hr _. lia.
    - by apply NoDup_filter_snoc.
    - rewrite fmap_app. by apply NoDup_filter_snoc.
    - set_solver.
    - apply elem_of_app in H0 as [| ->%list_elem_of_singleton]; [eauto|done].
    - apply elem_of_app in H0 as [| ->%list_elem_of_singleton]; [eauto|done]. }
  destruct Hs as (Hn & Hw & _ & Hw').
  assert (forall e, e ∈ win s' (rq_clt_nonce h) ->
    e ∈ win (srv p) (rq_clt_nonce h) \/ blank e) as He.
  { intros e. rewrite Hw, elem_of_app, list_elem_of_singleton.
    intros [[[]|[]]%trim_elem| ->]; auto. by right. }
  assert (xid <$> win s' (rq_clt_nonce h) =
          (xid <$> win (srv p) (rq_clt_nonce h)) ++ [u32 (rq_xid h)]) as Hx.
  { by rewrite Hw, fmap_app, trim_xids. }
  split; cbn [srv svc jobs runs answers].
  - intros k Hk. destruct (decide (k = rq_clt_nonce h)) as [->|]; [|rewrite Hw'; auto].
    rewrite Hx. apply NoDup_app. split_and!; [auto|set_solver|apply NoDup_singleton].
  - intros k x Hk. rewrite elem_of_app, list_elem_of_singleton. unfold request_id.
    destruct (decide (k = rq_clt_nonce h)) as [->|].
    + rewrite Hx, elem_of_app, list_elem_of_singleton, pi_runs0 by done. naive_solver.
    + rewrite Hw', pi_runs0 by done. naive_solver.
  - apply NoDup_filter_snoc; [done|]. intros Ht. unfold request_id. by rewrite pi_runs0.
  - rewrite fmap_app. apply NoDup_filter_snoc; [done|]. intros Ht.
    intros (j & Hj & Hin)%list_elem_of_fmap. apply pi_started0 in Hin. rewrite <- Hj in Hin.
    unfold job_id, request_id in Hin; cbn in Hin. by rewrite pi_runs0 in Hin.
  - intros j [| ->%list_elem_of_singleton]%elem_of_app; set_solver.
  - intros j e [Hj| ->%list_elem_of_singleton]%elem_of_app Ht Hin Hex.
    + destruct (decide ((job_id j).1 = rq_clt_nonce h)) as [Heq|].
      * rewrite Heq in Hin. apply He in Hin as [Hin|]; [|done]. rewrite <- Heq in Hin. eauto.
      * rewrite Hw' in Hin by done. eauto.
    + cbn in *. destruct (He e Hin) as [Hin'|]; [|done].
      exfalso. apply Hn. rewrite <- Hex. by apply list_elem_of_fmap_2.
  - intros j [Hj| ->%list_elem_of_singleton]%elem_of_app Ht; [eauto|]. by apply Hc'.
Qed.

Lemma finishes_inv p s' i j pd v :
  pool_inv p -> jobs p !! i = Some j -> finishes (srv p) s' (j_h j) pd ->
  pool_inv (Pool s' v (delete i (jobs p)) (runs p) (<[job_id j := pd]> (answers p))).
Proof.
  intros [] Hi [Hc Hf].
  assert (forall j', j' ∈ delete i (jobs p) -> j' ∈ jobs p) as Hsub.
  { intros j' Hj'. apply delete_Permutation in Hi. rewrite Hi. by apply elem_of_cons; right. }
  assert (NoDup (filter tracked (job_id <$> delete i (jobs p)))) as Hnd.
  { apply delete_Permutation in Hi as Hp. rewrite Hp, fmap_cons in pi_jobs0.
    rewrite filter_cons in pi_jobs0. case_decide; [by apply NoDup_cons in pi_jobs0 as [_ ?]|done]. }
  destruct (rq_clt_nonce (j_h j) =? 0) eqn:E0; to_prop.
  { destruct Hf as [_ Hw]. split; cbn [srv svc jobs runs answers]; intros; rewrite ?Hw, ?Hc in *; eauto. }
  destruct Hf as (l' & Hr & Hl' & _ & Hw').
  assert (tracked (job_id j)) as Ht by done.
  assert (j ∈ jobs p) as Hj by (by eapply list_elem_of_lookup_2).
  destruct (record_reply_ok (u32 (rq_xid (j_h j))) (next_ptr (mem (srv p)))
              (Z.of_nat (length pd)) (win (srv p) (rq_clt_nonce (j_h j)))) as (l1 & Hr1 & Hx & _).
  { intros e He Hex. by apply (pi_blank0 j e). }
  rewrite Hr in Hr1. injection Hr1 as <-.
  assert (forall c, xid <$> win s' c = xid <$> win (srv p) c) as Hxs.
  { intros c. destruct (decide (c = rq_clt_nonce (j_h j))) as [->|]; [by rewrite Hl'|].
    by rewrite Hw'. }
  split; cbn [srv svc jobs runs answers]; intros; rewrite ?Hxs, ?Hc in *; eauto.
  destruct (decide ((job_id j0).1 = (job_id j).1)) as [Heq|].
  - pose proof (deleted_job_other _ _ _ _ pi_jobs0 Hi Ht H) as Hne.
    rewrite Heq in H1. cbn in H1. rewrite Hl' in H1.
    destruct (record_reply_in _ _ _ _ _ _ Hr (pi_nodup0 _ Ht) H1) as [[Hin Hne']| ->].
    + apply (pi_blank0 j0 e); auto. by rewrite Heq.
    + exfalso. apply Hne. destruct (job_id j0) as [a b] eqn:E1. cbn in *. subst. done.
  - rewrite Hw' in H1 by done. eauto.
Qed.

Lemma pool_step_inv p e p' : pool_inv p -> pool_step p e = Some p' -> pool_inv p'.
Proof.
  intros Hinv. destruct e as [c b|i dead]; simpl.
  - destruct (dispatch_begin c b (srv p)) as [d s'] eqn:E.
    pose proof (dispatch_begin_cases _ _ _ _ _ E) as H1.
    destruct (dispatch_begin_conns _ _ _ _ _ E) as [H2 H3].
    destruct d; intros; simplify_eq.
    + by eapply starts_nothing_inv.
    + by eapply starts_nothing_inv.
    + destruct H1 as [_ H1]. by eapply starts_inv.
  - destruct (jobs p !! i) as [j|] eqn:Ej; [|done].
    destruct (j_f j (j_req j) marshall_new (svc p)) as [[ret rep] v].
    destruct (dispatch_end _ _ _ _ _ _) as [[c' pd| |] s'] eqn:E; try done.
    intros [= <-]. apply dispatch_end_cases in E as [_ Hf]. by apply finishes_inv.
Qed.

Lemma pool_reachable_inv s v es p :
  fresh_server s -> exec pool_step (pool_start s v) es = Some p -> pool_inv p.
Proof.
  intros Hs. apply exec_invariant; [apply pool_step_inv|]. by apply pool_start_inv.
Qed.

(** ** The life time of remembered replies *)

Record heap_inv (hp : heap) : Prop := {
  hi_next : 0 < next_ptr hp;
  hi_live : forall q, is_Some (live hp !! q) -> 0 < q < next_ptr hp;
  hi_good : bad_free hp = false
}.

(** [l] owns its buffers: each is a block of [hp], and two entries share none. *)
Definition owns (hp : heap) (l : list reply_t) : Prop :=
  (forall e, e ∈ l -> blank e \/ (cb_present e = true /\ is_Some (live hp !! buf e))) /\
  (forall e e', e ∈ l -> e' ∈ l -> ~ blank e -> buf e = buf e' -> xid e = xid e').

Lemma heap_free_live hp q :
  heap_inv hp -> is_Some (live hp !! q) ->
  heap_inv (heap_free q hp) /\ next_ptr (heap_free q hp) = next_ptr hp /\
  (forall q', q' <> q -> live (heap_free q hp) !! q' = live hp !! q').
Proof.
  intros [Hn Hl Hg] Hq. unfold heap_free. destruct (Hl q Hq).
  destruct (q =? 0) eqn:E; to_prop; [lia|]. destruct Hq as [b Hb]. rewrite Hb.
  split; [split; cbn; auto|split; [done|]].
  - intros q' [b' Hb']. apply lookup_delete_Some in Hb' as [_ Hb']. eauto.
  - intros q' Hq'. cbn. by apply lookup_delete_ne.
Qed.

Lemma owns_tail hp e l :
  NoDup (xid <$> e :: l) -> owns hp (e :: l) ->
  owns hp l /\ (~ blank e -> forall e', e' ∈ l -> buf e' <> buf e).
Proof.
  intros [Hn _]%NoDup_cons [H1 H2]. split; [split; set_solver|].
  intros Hb e' He' Heq. apply Hn.
  rewrite (H2 e e') by (done || set_solver). by apply list_elem_of_fmap_2.
Qed.

Lemma not_blank e : cb_present e = true -> ~ blank e.
Proof. intros H [? _]. congruence. Qed.

(** Trimming an owned window is sound: nothing is freed twice, and the
    blocks of the other entries, of this and of every other window, stay. *)
Lemma trim_sound r l hp :
  heap_inv hp -> NoDup (xid <$> l) -> owns hp l ->
  heap_inv (trim r l hp).2 /\ next_ptr (trim r l hp).2 = next_ptr hp /\
  (forall q, (forall e, e ∈ l -> xid e <= r -> cb_present e = true -> buf e <> q) ->
     live (trim r l hp).2 !! q = live hp !! q).
Proof.
  revert hp. induction l as [|e l IH]; intros hp Hh Hnd Ho; [done|].
  destruct (owns_tail _ _ _ Hnd Ho) as [Ho' Hd]. cbn [trim].
  apply NoDup_cons in Hnd as [_ Hnd'].
  destruct (xid e <=? r) eqn:Ex; to_prop.
  - destruct (proj1 Ho e ltac:(set_solver)) as [[Hc Hb]|[Hc Hb]].
    + assert (heap_free (buf e) hp = hp) as -> by (unfold heap_free; by rewrite Hb).
      destruct (IH hp Hh Hnd' Ho') as (H1 & H2 & H3).
      destruct (trim r l hp) as [l' hp'] eqn:E. cbn in *. split_and!; [done..|].
      intros q Hq. apply H3. set_solver.
    + destruct (heap_free_live _ _ Hh Hb) as (H1 & H2 & H3).
      assert (owns (heap_free (buf e) hp) l) as Ho2.
      { split; [|apply Ho']. intros e' He'. destruct (proj1 Ho' e' He') as [|[? ?]]; [by left|].
        right. split; [done|]. rewrite H3; [done|]. apply Hd; [by apply not_blank|done]. }
      destruct (IH _ H1 Hnd' Ho2) as (H4 & H5 & H6).
      destruct (trim r l (heap_free (buf e) hp)) as [l' hp'] eqn:E. cbn in *.
      split_and!; [done|congruence|].
      intros q Hq. rewrite H6 by set_solver. apply H3. intros ->. by apply (Hq e); [set_solver|..].
  - destruct (IH hp Hh Hnd' Ho') as (H1 & H2 & H3).
    destruct (trim r l hp) as [l' hp'] eqn:E. cbn in *. split_and!; [done..|].
    intros q Hq. apply H3. set_solver.
Qed.

Lemma trim_blank r l hp :
  (forall e, e ∈ l -> xid e <= r -> buf e = 0) -> (trim r l hp).2 = hp.
Proof.
  induction l as [|e l IH]; intros H; [done|]. cbn [trim].
  destruct (xid e <=? r) eqn:Ex; to_prop.
  - assert (heap_free (buf e) hp = hp) as ->.
    { unfold heap_free. by rewrite H by (done || set_solver). }
    rewrite <- IH at 2 by set_solver. by destruct (trim r l hp).
  - rewrite <- IH at 2 by set_solver. by destruct (trim r l hp).
Qed.

(** The windows of all clients share the heap without conflict, and every
    remembered reply is the one its request was answered with. *)
Record reply_inv p : Prop := {
  ri_heap : heap_inv (mem (srv p));
  ri_entry : forall c e, c <> 0 -> e ∈ win (srv p) c ->
    blank e \/ (cb_present e = true /\ exists pd,
      live (mem (srv p)) !! buf e = Some pd /\ answers p !! (c, xid e) = Some pd);
  ri_apart : forall c c' e e', c <> 0 -> c' <> 0 ->
    e ∈ win (srv p) c -> e' ∈ win (srv p) c' -> ~ blank e ->
    buf e = buf e' -> c = c' /\ xid e = xid e'
}.

Lemma reply_inv_owns p c : reply_inv p -> c <> 0 -> owns (mem (srv p)) (win (srv p) c).
Proof.
  intros [] Hc. split.
  - intros e He. destruct (ri_entry0 c e Hc He) as [|(? & ? & ? & ?)]; eauto.
  - intros e e' He He' Hb Heq. by destruct (ri_apart0 c c e e' Hc Hc He He' Hb Heq).
Qed.

(** The request is a duplicate and acknowledges a reply the window holds. *)
Definition acks_held (b : bytes) s : bool :=
  let h := header_of b in
  let l := win s (rq_clt_nonce h) in
  match find_xid (u32 (rq_xid h)) l with
  | Some _ => existsb (fun e => cb_present e && (xid e <=? u32 (rq_xid_rep h))) l
  | None => false
  end.

(** The runs in which this never happens. *)
Definition careful_step p (e : event) : option (pool S) :=
  match e with
  | Request _ b => if acks_held b (srv p) then None else pool_step p e
  | Finish _ _ => pool_step p e
  end.

Lemma acks_held_false b s e :
  acks_held b s = false -> u32 (rq_xid (header_of b)) ∈ xid <$> win s (rq_clt_nonce (header_of b)) ->
  e ∈ win s (rq_clt_nonce (header_of b)) -> xid e <= u32 (rq_xid_rep (header_of b)) ->
  cb_present e = false.
Proof.
  unfold acks_held. intros Ha Hin He Hr.
  destruct (find_xid _ _) eqn:Ef; [|by apply find_xid_None in Ef].
  destruct (cb_present e) eqn:Ec; [|done].
  assert (existsb (fun e => cb_present e && (xid e <=? u32 (rq_xid_rep (header_of b))))
            (win s (rq_clt_nonce (header_of b))) = true) as Ht; [|congruence].
  apply existsb_exists. exists e. split; [by apply list_elem_of_In|].
  rewrite Ec. by apply Z.leb_le.
Qed.

Lemma reply_inv_nothing p s' b :
  reply_inv p -> acks_held b (srv p) = false -> starts_nothing (srv p) s' (header_of b) ->
  reply_inv (Pool s' (svc p) (jobs p) (runs p) (answers p)).
Proof.
  intros Hr Ha [Hw Hm].
  assert (mem s' = mem (srv p)) as Hm'.
  { destruct Hm as [|(-> & Hc & Hin)]; [done|]. apply trim_blank. intros e He Hle.
    pose proof (acks_held_false b _ e Ha Hin He Hle).
    destruct (ri_entry p Hr _ e Hc He) as [[_ ?]|[? _]]; [done|congruence]. }
  destruct Hr. split; cbn [srv answers]; rewrite ?Hm'; intros; rewrite ?Hw in *; eauto.
Qed.

Lemma reply_inv_starts p s' h c f req :
  pool_inv p -> reply_inv p -> starts (srv p) s' h ->
  reply_inv (Pool s' (svc p) (jobs p ++ [Job h c f req]) (runs p ++ [request_id h]) (answers p)).
Proof.
  intros Hi Hr Hs. unfold starts in Hs. destruct (rq_clt_nonce h =? 0) eqn:E0; to_prop.
  { destruct Hs as [Hm Hw]. destruct Hr. split; cbn [srv answers]; rewrite ?Hm;
      intros; rewrite ?Hw in *; eauto. }
  destruct Hs as (Hn & Hw & Hm & Hw').
  destruct (trim_sound (u32 (rq_xid_rep h)) (win (srv p) (rq_clt_nonce h)) (mem (srv p)))
    as (H1 & H2 & H3); [apply Hr|by apply Hi|by apply reply_inv_owns|].
  rewrite <- Hm in H1, H2, H3.
  assert (forall c e, c <> 0 -> e ∈ win s' c -> blank e \/ (e ∈ win (srv p) c /\
            (c = rq_clt_nonce h -> u32 (rq_xid_rep h) < xid e))) as He.
  { intros k e Hk. destruct (decide (k = rq_clt_nonce h)) as [->|]; [|rewrite Hw' by done; tauto].
    rewrite Hw, elem_of_app, list_elem_of_singleton.
    intros [[[]|[]]%trim_elem| ->]; auto. by left. }
  split; cbn [srv answers]; [done| |].
  - intros k e Hk Hin. destruct (He k e Hk Hin) as [|[Hin' Hlt]]; [by left|].
    destruct (ri_entry p Hr k e Hk Hin') as [|(Hcb & pd & Hpd & Ha)]; [by left|].
    right. split; [done|]. exists pd. rewrite H3; [done|].
    intros e' He' Hle Hcb' Heq.
    destruct (ri_apart p Hr _ _ _ _ E0 Hk He' Hin' (not_blank _ Hcb') Heq) as [<- Hx].
    specialize (Hlt eq_refl). lia.
  - intros k k' e e' Hk Hk' Hin Hin' Hb Heq.
    destruct (He k e Hk Hin) as [|[Hin1 _]]; [done|].
    destruct (He k' e' Hk' Hin') as [[Hcb Hz]|[Hin1' _]]; [|by eapply ri_apart].
    destruct (ri_entry p Hr k e Hk Hin1) as [|(_ & pd & Hpd & _)]; [done|].
    apply mk_is_Some, (hi_live _ (ri_heap p Hr)) in Hpd. lia.
Qed.

Lemma heap_alloc_inv hp pd : heap_inv hp -> heap_inv (heap_alloc pd hp).2.
Proof.
  intros [Hn Hl Hg]. split; cbn; [lia| |done].
  intros q [b Hb]. apply lookup_insert_Some in Hb as [[<- _]|[_ Hb]]; [lia|].
  apply mk_is_Some, Hl in Hb. lia.
Qed.

Lemma heap_next_free hp : heap_inv hp -> live hp !! next_ptr hp = None.
Proof.
  intros [_ Hl _]. apply eq_None_not_Some. intros H. apply Hl in H. lia.
Qed.

Lemma heap_alloc_free hp pd :
  heap_inv hp ->
  heap_free (next_ptr hp) (heap_alloc pd hp).2 = Heap (live hp) (next_ptr hp + 1) false.
Proof.
  intros Hi. unfold heap_free, heap_alloc; cbn. pose proof (hi_next _ Hi).
  destruct (next_ptr hp =? 0) eqn:E; to_prop; [lia|]. rewrite lookup_insert_eq.
  f_equal; [|apply Hi]. rewrite delete_insert_id; [done|by apply heap_next_free].
Qed.

Lemma reply_inv_finishes p s' i j pd v :
  pool_inv p -> reply_inv p -> jobs p !! i = Some j -> finishes (srv p) s' (j_h j) pd ->
  reply_inv (Pool s' v (delete i (jobs p)) (runs p) (<[job_id j := pd]> (answers p))).
Proof.
  intros Hi Hr Hj [_ Hf].
  assert (j ∈ jobs p) as Hjin by (by eapply list_elem_of_lookup_2).
  destruct (rq_clt_nonce (j_h j) =? 0) eqn:E0; to_prop.
  { destruct Hf as [Hm Hw]. rewrite heap_alloc_free in Hm by apply Hr.
    destruct Hr as [[] H2 H3]. split; cbn [srv answers]; rewrite ?Hm; cbn [live].
    - split; cbn; [lia| |done]. intros q Hq. apply hi_live0 in Hq. lia.
    - intros c e Hc. rewrite Hw. intros He.
      rewrite lookup_insert_ne; [eauto|]. unfold job_id, request_id. intros [= Heq]. lia.
    - intros c c' e e' Hc Hc'. rewrite !Hw. eauto. }
  destruct Hf as (l' & Hrec & Hl' & Hm & Hw').
  assert (forall c e, c <> 0 -> e ∈ win s' c ->
    (e ∈ win (srv p) c /\ (c, xid e) <> job_id j) \/
    (c = (job_id j).1 /\ xid e = (job_id j).2 /\ cb_present e = true /\
     buf e = next_ptr (mem (srv p)))) as He.
  { intros c e Hc Hin. unfold job_id, request_id.
    destruct (decide (c = rq_clt_nonce (j_h j))) as [->|].
    - rewrite Hl' in Hin.
      destruct (record_reply_in _ _ _ _ _ _ Hrec (pi_nodup p Hi _ E0) Hin) as [[? ?]| ->];
        [left|right; done]. split; [done|]. congruence.
    - rewrite Hw' in Hin by done. left. split; [done|]. congruence. }
  pose proof (heap_next_free _ (ri_heap p Hr)) as Hfree.
  split; cbn [srv answers]; rewrite ?Hm.
  - apply heap_alloc_inv, Hr.
  - intros c e Hc Hin. cbn. destruct (He c e Hc Hin) as [[Hin' Hne]|(Hc1 & Hx & Hcb & Hb)].
    + destruct (ri_entry p Hr c e Hc Hin') as [|(Hcb & pd' & Hpd & Ha)]; [by left|].
      right. split; [done|]. exists pd'. rewrite lookup_insert_ne, lookup_insert_ne; [done|done|].
      intros Heq. congruence.
    + right. split; [done|]. exists pd. rewrite Hb, Hc1, Hx, lookup_insert_eq, <- surjective_pairing.
      by rewrite lookup_insert_eq.
  - intros c c' e e' Hc Hc' Hin Hin' Hb Heq.
    assert (forall c e, c <> 0 -> e ∈ win (srv p) c -> buf e <> next_ptr (mem (srv p))) as Hne.
    { intros k a Hk Ha Hbuf. pose proof (hi_next _ (ri_heap p Hr)).
      destruct (ri_entry p Hr k a Hk Ha) as [[_ ?]|(_ & pd' & Hpd & _)]; [lia|congruence]. }
    destruct (He c e Hc Hin) as [[H1 _]|(Hc1 & Hx & _ & H1)],
      (He c' e' Hc' Hin') as [[H2 _]|(Hc2 & Hx2 & _ & H2)].
    + by eapply ri_apart.
    + exfalso. apply (Hne c e Hc H1). congruence.
    + exfalso. apply (Hne c' e' Hc' H2). congruence.
    + split; congruence.
Qed.

Definition sound_pool p : Prop := pool_inv p /\ reply_inv p.

Lemma careful_step_sound p e p' : sound_pool p -> careful_step p e = Some p' -> sound_pool p'.
Proof.
  intros [Hi Hr] H.
  assert (pool_step p e = Some p') as Hstep.
  { destruct e as [c b|i dead]; cbn in H; [|done]. by destruct (acks_held b (srv p)). }
  split; [by eapply pool_step_inv|].
  destruct e as [c b|i dead]; cbn in H.
  - destruct (acks_held b (srv p)) eqn:Ea; [done|].
    destruct (dispatch_begin c b (srv p)) as [d s'] eqn:E.
    pose proof (dispatch_begin_cases _ _ _ _ _ E) as H1. destruct d; simplify_eq.
    + by eapply reply_inv_nothing.
    + by eapply reply_inv_nothing.
    + destruct H1 as [_ H1]. by apply reply_inv_starts.
  - destruct (jobs p !! i) as [j|] eqn:Ej; [|done].
    destruct (j_f j (j_req j) marshall_new (svc p)) as [[ret rep] v].
    destruct (dispatch_end _ _ _ _ _ _) as [[c' pd| |] s'] eqn:E; try done.
    injection H as <-. apply dispatch_end_cases in E as [_ Hf]. by apply reply_inv_finishes.
Qed.

Lemma careful_sound s v es p :
  fresh_server s -> exec careful_step (pool_start s v) es = Some p -> sound_pool p.
Proof.
  intros Hs. apply exec_invariant; [apply careful_step_sound|].
  split; [by apply pool_start_inv|]. destruct Hs as [Hw Hm].
  assert (forall c, win s c = []) as Hwin.
  { intros c. unfold win, map_get. by rewrite Hw, lookup_empty. }
  split; cbn [srv answers pool_start]; intros; rewrite ?Hwin in *; try set_solver.
  rewrite Hm. split; cbn; [lia| |done]. intros q [? H]. by rewrite lookup_empty in H.
Qed.
End AtMostOnce.

Lemma NoDup_filter_index {A} (P : A -> Prop) `{!forall x, Decision (P x)} (l : list A) i j x :
  NoDup (filter P l) -> P x -> l !! i = Some x -> l !! j = Some x -> i = j.
Proof.
  intros Hd Hx. revert i j. induction l as [|y l IH]; intros i j Hi Hj; [done|].
  assert (NoDup (filter P l)) as Hd'.
  { rewrite filter_cons in Hd. case_decide; [by apply NoDup_cons in Hd as [_ ?]|done]. }
  assert (forall k, y = x -> l !! k = Some x -> False) as Hno.
  { intros k -> Hk. rewrite filter_cons_True in Hd by done. apply NoDup_cons in Hd as [Hn _].
    apply Hn, list_elem_of_filter. split; [done|]. by eapply list_elem_of_lookup_2. }
  destruct i as [|i], j as [|j]; cbn in Hi, Hj; [done| | |f_equal; auto];
    simplify_eq; exfalso; eauto.
Qed.

(** ** Theorems *)

(** C2: whatever blocks arrive, in whatever order, and however the
    handlers of the pool overlap, no request of a client with a nonce is ever
    executed twice. *)
Theorem at_most_once {S} (s : rpcs S) (v : S) es p i j clt x :
  fresh_server s -> exec pool_step (pool_start s v) es = Some p ->
  clt <> 0 -> runs p !! i = Some (clt, x) -> runs p !! j = Some (clt, x) -> i = j.
Proof.
  intros Hs He Hc. apply pool_reachable_inv in He; [|done].
  exact (NoDup_filter_index tracked (runs p) i j (clt, x) (pi_once p He) Hc).
Qed.

(** A handler that returns a legal status always gets its reply
    recorded and sent: the assertion of [add_reply] cannot fail, and the
    connection to fall back on when the original one died exists. *)
Theorem finished_request_is_answered {S} (s : rpcs S) (v : S) es p i j dead ret rep :
  fresh_server s -> exec pool_step (pool_start s v) es = Some p ->
  jobs p !! i = Some j -> rq_clt_nonce (j_h j) <> 0 ->
  0 <= ret \/ ret = rpc_const.unmarshal_args_failure ->
  exists c, (dispatch_end (j_h j) (j_c j) dead ret rep (srv p)).1 =
            Sent c (reply_pdu (j_h j) ret rep).
Proof.
  intros Hs He Hj Hc Hret. apply pool_reachable_inv in He; [|done].
  assert (j ∈ jobs p) as Hin by (by eapply list_elem_of_lookup_2).
  unfold dispatch_end. fold (reply_pdu (j_h j) ret rep).
  generalize (reply_pdu (j_h j) ret rep). intros pd.
  assert (negb ((0 <=? ret) || (ret =? rpc_const.unmarshal_args_failure)) = false) as ->.
  { destruct Hret as [H| ->]; [apply Z.leb_le in H; by rewrite H|done]. }
  unfold heap_alloc. destruct (rq_clt_nonce (j_h j) =? 0) eqn:E0; to_prop; [done|].
  unfold add_reply. cbn [set_reply_window reply_window mem].
  fold (win (srv p) (rq_clt_nonce (j_h j))).
  destruct (record_reply_ok (u32 (rq_xid (j_h j))) (next_ptr (mem (srv p)))
              (Z.of_nat (length pd)) (win (srv p) (rq_clt_nonce (j_h j)))) as (l & Hl & _).
  { intros e He' Hx. by apply (pi_blank p He j e). }
  rewrite Hl. unfold latest_conn.
  destruct (pi_conn p He j Hin Hc) as [k Hk]. cbn in Hk. cbn [conns set_reply_window]. rewrite Hk.
  repeat case_match; simplify_eq; cbn; eauto.
Qed.

(** The request [b] of a client with a nonce reaches the duplicate check. *)
Definition accepted {S} (b : bytes) (s : rpcs S) : Prop :=
  u_ok (unpack_req_header (unmarshall_of b (length b))).2 = true /\
  (rq_srv_nonce (header_of b) = 0 \/ rq_srv_nonce (header_of b) = nonce s) /\
  is_Some (procs s !! rq_proc (header_of b)) /\
  rq_clt_nonce (header_of b) <> 0.

Lemma dispatch_begin_accepted {S} c b (s : rpcs S) :
  accepted b s ->
  let h := header_of b in
  let t := trim (u32 (rq_xid_rep h)) (win s (rq_clt_nonce h)) (mem s) in
  match find_xid (u32 (rq_xid h)) t.1 with
  | None => exists f req, (dispatch_begin c b s).1 = Run h c f req
  | Some e =>
      (dispatch_begin c b s).1 =
      if cb_present e
      then match live t.2 !! buf e with Some pd => Answered c pd | None => UseAfterFree end
      else if u32 (rq_xid_rep h) <? u32 (rq_xid h) then Dropped
      else Answered c (header_only h rpc_const.atmostonce_failure)
  end.
Proof.
  unfold accepted, header_of, dispatch_begin.
  destruct (unpack_req_header _) as [h req]; cbn [fst snd].
  intros (-> & Hn & [f Hf] & Hc).
  assert (negb (rq_srv_nonce h =? 0) && negb (rq_srv_nonce h =? nonce s) = false) as ->.
  { apply andb_false_iff. rewrite !negb_false_iff, !Z.eqb_eq. done. }
  rewrite Hf. destruct (rq_clt_nonce h =? 0) eqn:E0; to_prop; [done|]. cbn [negb].
  unfold checkduplicate_and_update.
  set (s1 := set_reply_window _ (mem s) s).
  set (s2 := save_conn (rq_clt_nonce h) c s1).
  assert (map_get [] (reply_window s2) (rq_clt_nonce h) = win s (rq_clt_nonce h)) as ->.
  { fold (win s2 (rq_clt_nonce h)). unfold s2. rewrite win_save_conn. apply map_get_touch. }
  assert (mem s2 = mem s) as -> by (unfold s2; by rewrite mem_save_conn).
  destruct (trim _ _ (mem s)) as [l hp]. cbn [fst snd].
  destruct (find_xid _ l) as [e|]; [|unfold dispatch_stat; eauto].
  destruct (cb_present e); [done|]. by destruct (_ <? _).
Qed.


(** ** Concrete runs *)

(** A counter: the reply is the number of calls before this one. *)
Definition demo_incr : handler_fn Z := fun _ ret n => (0, put_s32 n ret, n + 1).

Definition demo_server : rpcs Z :=
  match reg1 7 demo_incr (rpcs_new 9 0 (reg_fn1 w_s32 0 w_s32 0 (rpcbind 9))) with
  | Some s => s
  | None => rpcs_new 9 0 demo_incr
  end.

(** call [x] of client 5, acknowledging everything up to [r] *)
Definition demo_request (x r : Z) : bytes :=
  as_sent (m_pdu (pack_req_header (ReqHeader x 7 5 9 r) marshall_new)).

Definition demo_run (es : list event) : option (pool Z) :=
  exec pool_step (pool_start demo_server 0) es.

Lemma demo_fresh : fresh_server demo_server.
Proof. split; reflexivity. Qed.

Definition demo_events : list event :=
  [Request 1 (demo_request 2 1); Request 1 (demo_request 3 1); Finish 1 false;
   Request 1 (demo_request 3 1)].

Lemma demo_careful :
  exists p, exec careful_step (pool_start demo_server 0) demo_events = Some p /\
    demo_run demo_events = Some p.
Proof.
  assert (match exec careful_step (pool_start demo_server 0) demo_events with
          | Some _ => true | None => false end = true) as H by (vm_compute; reflexivity).
  destruct (exec careful_step (pool_start demo_server 0) demo_events) as [p|] eqn:E; [|done].
  exists p. split; [done|]. clear H. unfold demo_run. revert E.
  generalize (pool_start demo_server 0).
  induction demo_events as [|e es IH]; intros p0; simpl; [done|].
  destruct (careful_step p0 e) as [p1|] eqn:Ec; [|done].
  assert (pool_step p0 e = Some p1) as ->; [|apply IH].
  destruct e as [c b|i d]; cbn in Ec; [|done]. by destruct (acks_held b (srv p0)).
Qed.

Lemma demo_run_view p :
  demo_run demo_events = Some p ->
  runs p = [(5, 2); (5, 3)] /\ (fun j => j_h j) <$> jobs p = [ReqHeader 2 7 5 9 1] /\
  acks_held (demo_request 3 1) (srv p) = false /\ nonce (srv p) = 9 /\
  is_Some (procs (srv p) !! 7).
Proof.
  intros E.
  assert ((fun p => (runs p, (fun j => j_h j) <$> jobs p, acks_held (demo_request 3 1) (srv p),
                     nonce (srv p), bool_decide (is_Some (procs (srv p) !! 7))))
            <$> demo_run demo_events =
          Some ([(5, 2); (5, 3)], [ReqHeader 2 7 5 9 1], false, 9, true)) as H
    by (vm_compute; reflexivity).
  rewrite E in H. cbn [fmap option_fmap option_map] in H. injection H as -> -> -> -> H.
  apply bool_decide_eq_true in H. split_and!; [reflexivity..|exact H].
Qed.

Lemma at_most_once_witness :
  exists p, demo_run demo_events = Some p /\ length (runs p) = 2%nat /\
    forall i, runs p !! i = Some (5, 3) -> i = 1%nat.
Proof.
  destruct demo_careful as (p & _ & E). exists p. split; [exact E|].
  destruct (demo_run_view p E) as [Hr _].
  split; [by rewrite Hr|]. intros i Hi.
  apply (at_most_once demo_server 0 demo_events p i 1 5 3 demo_fresh E); [lia|exact Hi|].
  by rewrite Hr.
Defined.

Lemma finished_request_is_answered_witness :
  exists p j, demo_run demo_events = Some p /\ jobs p !! 0%nat = Some j /\
    exists c, (dispatch_end (j_h j) (j_c j) true 0 marshall_new (srv p)).1 =
              Sent c (reply_pdu (j_h j) 0 marshall_new).
Proof.
  destruct demo_careful as (p & _ & E). destruct (demo_run_view p E) as (_ & Hj & _).
  destruct (jobs p !! 0%nat) as [j|] eqn:Ej.
  2:{ destruct (jobs p); discriminate. }
  exists p, j. split; [exact E|]. split; [exact Ej|].
  apply (finished_request_is_answered demo_server 0 demo_events p 0 j true 0 marshall_new
           demo_fresh E Ej); [|by left].
  destruct (jobs p) as [|j0 js]; [discriminate|]. injection Ej as ->.
  injection Hj as Hj _. rewrite Hj. discriminate.
Defined.


(** Outside those runs the window goes wrong.  Call 3 times out
    at the client, which acknowledges it with call 4; the handler of 3 returns
    after that, and 4 is then retransmitted twice.  Each retransmission frees
    the reply of 3 in a copy of the window that is thrown away, so the second
    one frees the same block again; and a late duplicate of 3 is answered from
    the freed block. *)
Theorem retransmission_frees_twice :
  let es := [Request 1 (demo_request 3 2); Request 1 (demo_request 4 3); Finish 0 false;
             Request 1 (demo_request 4 3)] in
  match demo_run es, demo_run (es ++ [Request 1 (demo_request 4 3)]) with
  | Some p, Some p' =>
      bad_free (mem (srv p)) = false /\ bad_free (mem (srv p')) = true /\
      (dispatch_begin 1 (demo_request 3 2) (srv p)).1 = UseAfterFree
  | _, _ => False
  end.
Proof. vm_compute. auto. Qed.

(** A client without a nonce whose connection died while its handler ran:
    there is no connection to fall back on. *)
Lemma untracked_dead_connection {S} h c ret rep (s : rpcs S) :
  rq_clt_nonce h = 0 -> 0 <= ret -> conns s !! 0 = None ->
  (dispatch_end h c true ret rep s).1 = NullConnection.
Proof.
  intros Hn Hr Hc. unfold dispatch_end, heap_alloc, latest_conn. rewrite Hn.
  apply Z.leb_le in Hr. rewrite Hr. cbn [negb orb Z.eqb conns set_reply_window]. by rewrite Hc.
Qed.

(** A request for an old server instance keeps its reference to the
    connection, where every other path gives it back. *)
Lemma old_instance_keeps_reference :
  let req := as_sent (m_pdu (pack_req_header (ReqHeader 2 7 5 8 1) marshall_new)) in
  refs (dispatch_begin 1 req (got_pdu true true true 1 demo_server).2).2 !! 1 = Some 1 /\
  refs (dispatch_begin 1 [] (got_pdu true true true 1 demo_server).2).2 !! 1 = Some 0.
Proof. vm_compute. auto. Qed.
