(* ===== verification/ThrPool.v ===== *)
(** * The job queue and the thread pool

    [fifo] of [rpc/fifo.h] and [ThrPool] of [rpc/thr_pool.cc]: a queue of
    bounded size, and workers that take jobs from it until they get a job
    without a function.  A call that has to wait is not enabled; waking up is
    being enabled again. *)

From stdpp Require Import gmap list.
From Stdlib Require Import ZArith Lia.
From S2P Require Import Prelude.

Local Open Scope Z_scope.

Module fifo.
Section Fifo.
Context {T : Type}.

(** [max_] is unsigned; 0 is no limit *)
Record fifo := Fifo { q : list T; max : Z }.

Definition new (limit : Z) : fifo := Fifo [] (u32 limit).

Inductive enq_result := Enqueued (f : fifo) | Full | Blocked.

Definition enq (e : T) (blocking : bool) (f : fifo) : enq_result :=
  if (max f =? 0) || (Z.of_nat (length (q f)) <? max f)
  then Enqueued (Fifo (q f ++ [e]) (max f))
  else if blocking then Blocked else Full.

(** [deq]: [None] when it waits *)
Definition deq (f : fifo) : option (T * fifo) :=
  match q f with
  | [] => None
  | e :: q' => Some (e, Fifo q' (max f))
  end.

(** [size] returns a [bool] *)
Definition size (f : fifo) : bool := negb (length (q f) =? 0)%nat.
End Fifo.
Arguments fifo : clear implicits.
Arguments enq_result : clear implicits.
End fifo.

Module ThrPool.
Import fifo.
Section Pool.
Context {J : Type}.

(** a job is a function to call, or the poison that ends a worker *)
Record pool := Pool {
  nthreads : Z;
  blockadd : bool;
  jobq : fifo (option J);
  workers : nat;           (** threads that have not exited *)
  taken : list J           (** jobs taken, in order *)
}.

Definition pool_new (sz : Z) (blocking : bool) : pool :=
  Pool sz blocking (new (s32 (100 * sz))) (Z.to_nat sz) [].

Definition set_jobq f p := Pool (nthreads p) (blockadd p) f (workers p) (taken p).

(** [addJob]: the answer, [None] when it waits *)
Definition addJob (j : J) (p : pool) : option (bool * pool) :=
  match enq (Some j) (blockadd p) (jobq p) with
  | Enqueued f => Some (true, set_jobq f p)
  | Full => Some (false, p)
  | Blocked => None
  end.

(** [takeJob] by a worker, which exits on poison; [None] when it waits *)
Definition takeJob (p : pool) : option pool :=
  match workers p, deq (jobq p) with
  | S w, Some (Some j, f) => Some (Pool (nthreads p) (blockadd p) f (S w) (taken p ++ [j]))
  | S w, Some (None, f) => Some (Pool (nthreads p) (blockadd p) f w (taken p))
  | _, _ => None
  end.

(** one round of the loop of the destructor: [jobq_.enq(j)] with no function *)
Definition poison (p : pool) : option pool :=
  match enq None true (jobq p) with
  | Enqueued f => Some (set_jobq f p)
  | _ => None
  end.

Inductive event := Add (j : J) | Take | Poison.

(** [accepted] are the jobs whose [addJob] returned true *)
Record run := Run { pl : pool; accepted : list J; poisons : nat }.

Definition step (r : run) (e : event) : option run :=
  match e with
  | Add j =>
      match addJob j (pl r) with
      | Some (b, p) => Some (Run p (if b then accepted r ++ [j] else accepted r) (poisons r))
      | None => None
      end
  | Take => match takeJob (pl r) with Some p => Some (Run p (accepted r) (poisons r)) | None => None end
  | Poison => match poison (pl r) with Some p => Some (Run p (accepted r) (S (poisons r))) | None => None end
  end.

(** jobs of a queue, without the poison *)
Definition jobs (l : list (option J)) : list J := omap id l.
Fixpoint poison_count (l : list (option J)) : nat :=
  match l with
  | [] => 0
  | None :: l' => S (poison_count l')
  | Some _ :: l' => poison_count l'
  end.

Record inv (n : nat) (r : run) : Prop := {
  iv_order : accepted r = taken (pl r) ++ jobs (q (jobq (pl r)));
  iv_poison : (poisons r + workers (pl r) = n + poison_count (q (jobq (pl r))))%nat;
  iv_bound : max (jobq (pl r)) <> 0 -> Z.of_nat (length (q (jobq (pl r)))) <= max (jobq (pl r))
}.

Lemma jobs_app l l' : jobs (l ++ l') = jobs l ++ jobs l'.
Proof. apply omap_app. Qed.

Lemma poison_count_app l l' : poison_count (l ++ l') = (poison_count l + poison_count l')%nat.
Proof. induction l as [|[j|] l IH]; cbn; [done|exact IH|by rewrite IH]. Qed.

Lemma enq_bound {T} (e : T) b f f' :
  enq e b f = Enqueued f' -> q f' = q f ++ [e] /\ max f' = max f /\
  (max f <> 0 -> Z.of_nat (length (q f')) <= max f).
Proof.
  unfold enq. destruct (_ || _) eqn:E; [|by destruct b]. intros [= <-]. cbn [q max].
  split; [done|]. split; [done|]. intros Hm. apply orb_true_iff in E as [E|E]; to_prop; [done|].
  rewrite length_app. cbn [length]. lia.
Qed.

Lemma worker_step_inv n r e r' : inv n r -> step r e = Some r' -> inv n r'.
Proof.
  intros [H1 H2 H3]. destruct e as [j| |]; cbn [step].
  - unfold addJob. destruct (enq (Some j) _ (jobq (pl r))) as [f| |] eqn:E; intros [= <-]; [|by split].
    apply enq_bound in E as (Eq & Em & Eb). split; cbn [pl accepted poisons set_jobq jobq taken workers].
    + rewrite Eq, jobs_app, app_assoc, <- H1. done.
    + rewrite Eq, poison_count_app. cbn. lia.
    + rewrite Em. exact Eb.
  - unfold takeJob, deq. destruct (workers (pl r)) as [|w] eqn:Ew; [done|].
    destruct (q (jobq (pl r))) as [|[j|] l] eqn:Eq; [done| |]; intros [= <-];
      split; cbn [pl accepted poisons jobq taken workers q max].
    + rewrite H1. cbn. by rewrite <- app_assoc.
    + cbn in H2. lia.
    + intros Hm. specialize (H3 Hm). cbn [length] in H3. lia.
    + rewrite H1. done.
    + cbn in H2. lia.
    + intros Hm. specialize (H3 Hm). cbn [length] in H3. lia.
  - unfold poison. destruct (enq None true (jobq (pl r))) as [f| |] eqn:E; try done. intros [= <-].
    apply enq_bound in E as (Eq & Em & Eb). split; cbn [pl accepted poisons set_jobq jobq taken workers].
    + rewrite Eq, jobs_app, H1. cbn. by rewrite app_nil_r.
    + rewrite Eq, poison_count_app. cbn. lia.
    + rewrite Em. exact Eb.
Qed.

(** The destructor runs when nobody adds jobs any more. *)
Definition orderly_step (r : run) (e : event) : option run :=
  match e with
  | Add _ => if (poisons r =? 0)%nat then step r e else None
  | _ => step r e
  end.

(** In an orderly run the poison is behind all jobs. *)
Definition jobs_first (n : nat) (r : run) : Prop :=
  (workers (pl r) <= n)%nat /\
  exists js k, q (jobq (pl r)) = (Some <$> js) ++ replicate k None /\
    ((workers (pl r) < n)%nat -> js = []) /\ (poisons r = 0%nat -> k = 0%nat /\ workers (pl r) = n).

Lemma orderly_step_jobs_first n r e r' :
  jobs_first n r -> orderly_step r e = Some r' -> jobs_first n r'.
Proof.
  intros (Hn & js & k & Hq & Hw & Hp). destruct e as [j| |]; cbn [orderly_step step].
  - destruct (poisons r =? 0)%nat eqn:E0; [|done]. apply Nat.eqb_eq in E0. destruct (Hp E0) as [-> Hwn].
    unfold addJob. destruct (enq (Some j) _ (jobq (pl r))) as [f| |] eqn:E; intros [= <-].
    + apply enq_bound in E as (Eq & _ & _). split; [done|]. exists (js ++ [j]), 0%nat.
      cbn [pl set_jobq jobq poisons workers]. rewrite Eq, Hq, fmap_app. cbn. rewrite !app_nil_r.
      split; [done|]. split; [lia|done].
    + split; [done|]. by exists js, 0%nat.
  - unfold takeJob, deq. destruct (workers (pl r)) as [|w] eqn:Ew; [done|]. rewrite Hq.
    destruct js as [|j js].
    + destruct k as [|k]; [done|]. cbn [fmap list_fmap app replicate]. intros [= <-].
      split; [cbn; lia|]. exists [], k. cbn. split; [done|]. split; [done|]. intros H0. by destruct (Hp H0).
    + cbn [fmap list_fmap app]. intros [= <-]. split; [done|]. exists js, k. cbn. split; [done|].
      split; [intros Hlt; by specialize (Hw Hlt)|done].
  - unfold poison. destruct (enq None true (jobq (pl r))) as [f| |] eqn:E; try done. intros [= <-].
    apply enq_bound in E as (Eq & _ & _). split; [done|]. exists js, (S k). cbn [pl set_jobq jobq workers poisons].
    split; [|by split]. rewrite Eq, Hq, <- app_assoc. f_equal.
    change [None] with (replicate (A := option J) 1 None). rewrite <- replicate_add. f_equal. lia.
Qed.

(** Jobs are taken in the order in which they were accepted, none lost
    and none taken twice, and the queue never holds more than its limit; and when
    nobody adds jobs to a pool that is being destroyed, every accepted job has been
    taken by the time all workers have exited. *)
Theorem jobs_run_in_order sz b es r :
  0 < sz < 2 ^ 24 -> exec orderly_step (Run (pool_new sz b) [] 0) es = Some r ->
  (exists rest, accepted r = taken (pl r) ++ rest) /\
  Z.of_nat (length (q (jobq (pl r)))) <= 100 * sz /\
  (workers (pl r) = 0%nat -> taken (pl r) = accepted r) /\
  (poisons r + workers (pl r) = Z.to_nat sz + poison_count (q (jobq (pl r))))%nat.
Proof.
  intros Hsz Hx.
  assert (max (new (T := option J) (s32 (100 * sz))) = 100 * sz) as Hmax.
  { cbn. rewrite s32_small by (unfold is_s32; lia). apply u32_small. unfold is_u32. lia. }
  assert (inv (Z.to_nat sz) r /\ jobs_first (Z.to_nat sz) r /\ max (jobq (pl r)) = 100 * sz) as ([I1 I2 I3] & (Hn & js & k & Hq & Hw & _) & Hm).
  { eapply (exec_invariant orderly_step (fun r => inv (Z.to_nat sz) r /\ jobs_first (Z.to_nat sz) r /\ max (jobq (pl r)) = 100 * sz));
      [| |exact Hx].
    - intros a e c (Ha & Hj & Hm) Hs. assert (step a e = Some c) as Hs'.
      { destruct e; cbn [orderly_step] in Hs; [by destruct (poisons a =? 0)%nat|done..]. }
      split; [by eapply worker_step_inv|]. split; [by eapply orderly_step_jobs_first|].
      destruct e; cbn [step] in Hs'.
      + unfold addJob in Hs'. destruct (enq _ _ _) eqn:E; simplify_eq/=; [|done].
        apply enq_bound in E as (_ & E & _). cbn. by rewrite E.
      + unfold takeJob, deq in Hs'. repeat case_match; simplify_eq/=; done.
      + unfold poison in Hs'. destruct (enq _ _ _) eqn:E; simplify_eq/=.
        apply enq_bound in E as (_ & E & _). cbn. by rewrite E.
    - split; [split; [done|cbn; lia|]|].
      { intros _. change (0 <= max (new (T := option J) (s32 (100 * sz)))). lia. }
      split; [|done]. split; [cbn; lia|]. by exists [], 0%nat. }
  split; [by eexists|]. split; [rewrite <- Hm; apply I3; lia|]. split; [|done].
  intros H0. rewrite I1, Hq, (Hw ltac:(lia)). cbn [fmap list_fmap app].
  assert (jobs (replicate k None) = []) as ->. { clear. by induction k. }
  by rewrite app_nil_r.
Qed.

End Pool.

Lemma jobs_run_in_order_witness :
  exists r, exec orderly_step (Run (pool_new (J := nat) 2 true) [] 0)
      [Add 7%nat; Add 8%nat; Take; Poison; Poison; Take; Take; Take] = Some r /\ taken (pl r) = [7%nat; 8%nat] /\
    taken (pl r) = accepted r.
Proof.
  assert (exists r, exec orderly_step (Run (pool_new (J := nat) 2 true) [] 0)
      [Add 7%nat; Add 8%nat; Take; Poison; Poison; Take; Take; Take] = Some r /\ taken (pl r) = [7%nat; 8%nat] /\
      workers (pl r) = 0%nat) as (r & E & Ht & Hw) by (eexists; split_and!; vm_compute; reflexivity).
  exists r. split; [exact E|]. split; [exact Ht|]. apply (jobs_run_in_order 2 true
    [Add 7%nat; Add 8%nat; Take; Poison; Poison; Take; Take; Take] r); [lia|exact E|exact Hw].
Defined.
End ThrPool.
