(* ===== verification/Connection.v ===== *)
(** * Connections

    [connection] of [rpc/connection.cc]: blocks sent over a byte stream, each
    with its size in front.  What the system calls [read] and [write] return is
    an argument of the functions that make them; the stream itself is the list
    of bytes handed to [write].  [errno] is an argument where the code reads it
    without a call having set it. *)

From stdpp Require Import gmap list strings.
From Stdlib Require Import ZArith Lia Ascii.
From S2P Require Import Prelude Text Marshall.

Local Open Scope Z_scope.

Module connection.

Definition MAX_PDU : Z := Z.shiftl 10 20.
Definition EAGAIN : Z := 11.

Record charbuf := Charbuf { cbuf : option bytes; csz : Z; solong : Z }.

Definition charbuf_new : charbuf := Charbuf None 0 0.

(** [wire] are the bytes given to the system so far *)
Record conn := Conn {
  dead : bool;
  wpdu : charbuf;
  rpdu : charbuf;
  waiters : Z;
  refno : Z;
  wire : bytes
}.

Definition conn_new : conn := Conn false charbuf_new charbuf_new 0 1 [].

Definition set_dead d c := Conn d (wpdu c) (rpdu c) (waiters c) (refno c) (wire c).
Definition set_wpdu w c := Conn (dead c) w (rpdu c) (waiters c) (refno c) (wire c).
Definition set_rpdu r c := Conn (dead c) (wpdu c) r (waiters c) (refno c) (wire c).
Definition set_waiters n c := Conn (dead c) (wpdu c) (rpdu c) n (refno c) (wire c).
Definition set_refno n c := Conn (dead c) (wpdu c) (rpdu c) (waiters c) n (wire c).
Definition put_wire bs c := Conn (dead c) (wpdu c) (rpdu c) (waiters c) (refno c) (wire c ++ bs).

(** ** Reference counts *)

Definition incref (c : conn) : conn := set_refno (refno c + 1) c.

(** [decref]: whether the object is deleted; [None] is the failed assertion *)
Definition decref (c : conn) : option (bool * conn) :=
  let n := refno c - 1 in
  if n <? 0 then None else Some ((n =? 0) && dead c, set_refno n c).

Definition isdead (c : conn) : bool := dead c.
Definition ref (c : conn) : Z := refno c.

(** [closeconn] *)
Definition closeconn (c : conn) : conn := if dead c then c else set_dead true c.

(** [ntohl] of four bytes *)
Definition ntohl (bs : bytes) : Z :=
  match bs with
  | [a; b; c; d] => zchar a * 2 ^ 24 + zchar b * 2 ^ 16 + zchar c * 2 ^ 8 + zchar d
  | _ => 0
  end.

(** ** Sending *)

(** what [write] returns for the bytes it is given *)
Inductive wres := Wrote (n : nat) | WAgain | WFail.

(** the size in network order, copied over the first four bytes *)
Definition frame (b : bytes) (sz : Z) : bytes := enc_u32 (u32 sz) ++ drop 4 b.

(** [writepdu]; [None] is the failed assertion *)
Definition writepdu (w : wres) (c : conn) : option (bool * conn) :=
  let p := wpdu c in
  if solong p <? 0 then None
  else if solong p =? csz p then Some (true, c)
  else
    let b := default [] (cbuf p) in
    let b := if solong p =? 0 then frame b (csz p) else b in
    match w with
    | Wrote n =>
        Some (true, set_wpdu (Charbuf (Some b) (csz p) (solong p + Z.of_nat n))
                      (put_wire (take n (drop (Z.to_nat (solong p)) b)) c))
    | WAgain => Some (true, set_wpdu (Charbuf (Some b) (csz p) (solong p)) c)
    | WFail => Some (false, set_wpdu (Charbuf (Some b) 0 (-1)) c)
    end.

(** Where a sender is. *)
Inductive sending :=
| Refused                  (** dead already: [send] returns false *)
| Queued                   (** another block is being sent *)
| Sending                  (** waiting for [send_complete_] *)
| Sent (ret : bool)        (** [send] returned *)
| SAssert.

(** the end of [send] *)
Definition send_end (c : conn) : bool * conn :=
  let p := wpdu c in
  (negb (dead c) && (solong p =? csz p), set_wpdu (Charbuf None 0 0) c).

(** the waiting loop of [send] *)
Definition send_wait (c : conn) : sending * conn :=
  let p := wpdu c in
  if negb (dead c) && (0 <=? solong p) && (solong p <? csz p) then (Sending, c)
  else let '(r, c) := send_end c in (Sent r, c).

(** [send], up to where it waits or returns; [w] is the result of its [write] *)
Definition send (b : bytes) (w : wres) (c : conn) : sending * conn :=
  if dead c then (Refused, c)
  else match cbuf (wpdu c) with
  | Some _ => (Queued, set_waiters (waiters c + 1) c)
  | None =>
      let c := set_wpdu (Charbuf (Some b) (Z.of_nat (length b)) 0) c in
      match writepdu w c with
      | None => (SAssert, c)
      | Some (false, c) => let '(r, c) := send_end (set_dead true c) in (Sent r, c)
      | Some (true, c) => send_wait c
      end
  end.

(** a sender that waited in the queue goes on *)
Definition send_resume (b : bytes) (w : wres) (c : conn) : sending * conn :=
  send b w (set_waiters (waiters c - 1) c).

(** [write_cb]: the connection can be written again; [None] is a failed
    assertion *)
Definition write_cb (w : wres) (c : conn) : option conn :=
  if dead c then None
  else if csz (wpdu c) =? 0 then Some c
  else match writepdu w c with
       | None => None
       | Some (false, c) => Some (set_dead true c)
       | Some (true, c) => if solong (wpdu c) <? 0 then None else Some c
       end.

(** ** Receiving *)

(** what [read] returns *)
Inductive rres := Data (bs : bytes) | Eof | Err (e : Z).

Inductive outcome :=
| Read (succ : bool) (c : conn)
| RAssert                  (** a failed assertion *)
| Overrun.                 (** a block size below 4: the block is too
                               short for its size field, and [read] gets a huge size *)

(** the second half of [readpdu]; [errno] is what the last failed call left *)
Definition read_body (errno : Z) (body : rres) (c : conn) : outcome :=
  let p := rpdu c in
  if csz p <? solong p then Overrun
  else match body with
       | Data bs =>
           Read true (set_rpdu (Charbuf (Some (default [] (cbuf p) ++ bs)) (csz p)
                                  (solong p + Z.of_nat (length bs))) c)
       | Eof => if errno =? EAGAIN then Read true c else Read false (set_rpdu charbuf_new c)
       | Err e => if e =? EAGAIN then Read true c else Read false (set_rpdu charbuf_new c)
       end.

Definition readpdu (errno : Z) (hdr body : rres) (c : conn) : outcome :=
  if csz (rpdu c) =? 0 then
    match hdr with
    | Eof => Read false c
    | Err e => if e =? EAGAIN then RAssert else Read false c
    | Data bs =>
        if negb (length bs =? 4)%nat then Read false c
        else
          let sz := s32 (ntohl bs) in
          if MAX_PDU <? sz then Read false c
          else if bool_decide (is_Some (cbuf (rpdu c))) then RAssert
          else read_body errno body (set_rpdu (Charbuf (Some bs) sz 4) c)
    end
  else read_body errno body c.

(** [read_cb]; [accept] is what [got_pdu] answers.  The result has the block
    that was passed up. *)
Definition read_cb (errno : Z) (hdr body : rres) (accept : bool) (c : conn) : outcome * option bytes :=
  if dead c then (Read true c, None)
  else
    let p := rpdu c in
    let r := if bool_decide (cbuf p = None) || (solong p <? csz p)
             then readpdu errno hdr body c else Read true c in
    match r with
    | Read succ c =>
        let c := if succ then c else set_dead true c in
        match cbuf (rpdu c) with
        | Some b =>
            if csz (rpdu c) =? solong (rpdu c)
            then (Read succ (if accept then set_rpdu charbuf_new c else c),
                  if accept then Some b else None)
            else (Read succ c, None)
        | None => (Read succ c, None)
        end
    | e => (e, None)
    end.

(** ** What a sender puts on the wire *)

Lemma ntohl_enc x : ntohl (enc_u32 x) = u32 x.
Proof. unfold ntohl, enc_u32. rewrite !zchar_octet by lia. apply octets_u32. Qed.

(** The results of the [write] calls, at most the bytes asked for. *)
Definition wres_ok (left : Z) (w : wres) : bool :=
  match w with Wrote n => Z.of_nat n <=? left | _ => true end.

(** A sender from its [send] on: it goes on at each [write_cb] until it
    returns; [None] when a [write] returned more than it was given. *)
Fixpoint send_run (ws : list wres) (r : sending * conn) : option (sending * conn) :=
  match r.1, ws with
  | Sending, w :: ws' =>
      if wres_ok (csz (wpdu r.2) - solong (wpdu r.2)) w then
        match write_cb w r.2 with
        | Some c => send_run ws' (send_wait c)
        | None => Some (SAssert, r.2)
        end
      else None
  | _, _ => Some r
  end.

(** The state of a connection in the middle of block [b], whose frame [f] is
    partly written. *)
Record mid (b : bytes) (w0 : bytes) (c : conn) : Prop := {
  md_sz : csz (wpdu c) = Z.of_nat (length b);
  md_long : 0 <= solong (wpdu c) <= Z.of_nat (length b);
  md_buf : solong (wpdu c) <> 0 -> cbuf (wpdu c) = Some (frame b (Z.of_nat (length b)));
  md_frame : frame (default [] (cbuf (wpdu c))) (Z.of_nat (length b)) = frame b (Z.of_nat (length b));
  md_wire : wire c = w0 ++ take (Z.to_nat (solong (wpdu c))) (frame b (Z.of_nat (length b)))
}.

Lemma frame_length b : (4 <= length b)%nat -> length (frame b (Z.of_nat (length b))) = length b.
Proof. intros H. unfold frame. rewrite length_app, length_drop. cbn [enc_u32 length]. lia. Qed.

Lemma frame_frame b n : frame (frame b n) n = frame b n.
Proof. reflexivity. Qed.

Lemma writepdu_mid b w0 c w :
  (4 <= length b)%nat -> mid b w0 c -> wres_ok (csz (wpdu c) - solong (wpdu c)) w = true ->
  exists r c', writepdu w c = Some (r, c') /\ dead c' = dead c /\
    (if r then mid b w0 c' else
       exists n, wire c' = w0 ++ take n (frame b (Z.of_nat (length b)))).
Proof.
  intros Hb [H1 H2 H3 H4 H5] Hw. unfold writepdu.
  destruct (solong (wpdu c) <? 0) eqn:E0; to_prop; [lia|].
  destruct (solong (wpdu c) =? csz (wpdu c)) eqn:E1; to_prop.
  { exists true, c. split; [done|]. split; [done|]. by split. }
  set (b' := if solong (wpdu c) =? 0 then frame (default [] (cbuf (wpdu c))) (csz (wpdu c)) else default [] (cbuf (wpdu c))).
  assert (b' = frame b (Z.of_nat (length b))) as Eb.
  { unfold b'. rewrite H1. destruct (solong (wpdu c) =? 0) eqn:E; [by rewrite H4|]. to_prop. by rewrite H3. }
  destruct w as [n| |]; do 2 eexists; (split; [done|]); (split; [done|]); rewrite Eb; cbn [wres_ok] in Hw; to_prop.
  - split; cbn [csz solong cbuf wpdu wire set_wpdu put_wire]; [done|lia| |by cbn [default from_option id]; rewrite frame_frame|].
    + done.
    + rewrite H5, <- app_assoc. f_equal. rewrite Z2Nat.inj_add, Nat2Z.id by lia.
      rewrite <- take_take_drop. done.
  - split; cbn [csz solong cbuf wpdu wire set_wpdu put_wire]; [done|lia| |by cbn [default from_option id]; rewrite frame_frame|done].
    done.
  - eexists. exact H5.
Qed.

(** What is true when a sender has stopped at [r]. *)
Definition sent_ok (b w0 : bytes) (r : sending) (c : conn) : Prop :=
  match r with
  | Sending => dead c = false /\ mid b w0 c
  | Sent true => dead c = false /\ wire c = w0 ++ frame b (Z.of_nat (length b))
  | Sent false => dead c = true /\ exists n, wire c = w0 ++ take n (frame b (Z.of_nat (length b)))
  | _ => False
  end.

Lemma send_wait_ok b w0 c :
  (4 <= length b)%nat -> dead c = false -> mid b w0 c ->
  sent_ok b w0 (send_wait c).1 (send_wait c).2.
Proof.
  intros Hb Hd Hm. pose proof Hm as [H1 H2 H3 H4 H5]. unfold send_wait. rewrite Hd.
  assert ((0 <=? solong (wpdu c)) = true) as -> by (apply Z.leb_le; lia). cbn [negb andb].
  destruct (_ <? _) eqn:E; to_prop; [by split|]. unfold send_end. rewrite Hd. cbn [negb andb].
  assert (solong (wpdu c) = csz (wpdu c)) as Es by lia. rewrite (proj2 (Z.eqb_eq _ _) Es).
  split; [done|]. change (wire c = w0 ++ frame b (Z.of_nat (length b))). rewrite H5. f_equal. apply take_ge. rewrite frame_length by done. lia.
Qed.

Lemma send_run_ok b w0 ws r c r' c' :
  (4 <= length b)%nat -> sent_ok b w0 r c -> send_run ws (r, c) = Some (r', c') -> sent_ok b w0 r' c'.
Proof.
  intros Hb. revert r c. induction ws as [|w ws IH]; intros r c Hr.
  - cbn. destruct r; by intros [= <- <-].
  - destruct r; cbn [send_run fst snd]; try (by intros [= <- <-]). destruct Hr as [Hd Hm].
    destruct (wres_ok _ w) eqn:Ew; [|done]. unfold write_cb. rewrite Hd.
    destruct (csz (wpdu c) =? 0) eqn:E0.
    { to_prop. pose proof (md_sz _ _ _ Hm). lia. }
    destruct (writepdu_mid b w0 c w Hb Hm Ew) as (q & c1 & -> & Hd1 & Hq). destruct q.
    + pose proof (md_long _ _ _ Hq). destruct (solong (wpdu c1) <? 0) eqn:E1; to_prop; [lia|].
      pose proof (send_wait_ok b w0 c1 Hb ltac:(congruence) Hq) as Hw.
      destruct (send_wait c1) as [r1 c2]. by apply IH.
    + unfold send_wait, send_end. cbn [dead set_dead negb andb].
      intros Hx. eapply IH; [|exact Hx]. split; [done|]. exact Hq.
Qed.

Lemma send_run_releases ws r c r' c' :
  (forall x, r = Sent x -> cbuf (wpdu c) = None) ->
  send_run ws (r, c) = Some (r', c') -> forall x, r' = Sent x -> cbuf (wpdu c') = None.
Proof.
  revert r c. induction ws as [|w ws IH]; intros r c Hr.
  - cbn. destruct r; intros [= <- <-]; try done; apply Hr.
  - destruct r; cbn [send_run fst snd]; try (by intros [= <- <-]).
    case_match; [|done]. case_match; [|by intros [= <- <-]]. intros Hx.
    destruct (send_wait c0) as [r1 c1] eqn:E. eapply IH; [|exact Hx].
    unfold send_wait in E. case_match; by injection E as <- <-.
Qed.

Lemma send_done b w ws c r c' :
  (4 <= length b)%nat -> dead c = false -> cbuf (wpdu c) = None ->
  wres_ok (Z.of_nat (length b)) w = true ->
  send_run ws (send b w c) = Some (r, c') ->
  match r with
  | Sent true => dead c' = false /\ cbuf (wpdu c') = None /\
                 wire c' = wire c ++ enc_u32 (u32 (Z.of_nat (length b))) ++ drop 4 b
  | Sent false => dead c' = true /\ exists n, wire c' =
                    wire c ++ take n (enc_u32 (u32 (Z.of_nat (length b))) ++ drop 4 b)
  | Sending => dead c' = false
  | _ => False
  end.
Proof.
  intros Hb Hd Hn Hw Hx.
  unfold send in Hx. rewrite Hd, Hn in Hx.
  set (c0 := set_wpdu (Charbuf (Some b) (Z.of_nat (length b)) 0) c) in *.
  assert (mid b (wire c) c0) as Hm.
  { split; cbn; [done|lia|done|done|]. by rewrite app_nil_r. }
  destruct (writepdu_mid b (wire c) c0 w Hb Hm) as (q & c1 & E & Hd1 & Hq).
  { cbn. by rewrite Z.sub_0_r. }
  rewrite E in Hx. assert (exists r1 c2, sent_ok b (wire c) r1 c2 /\ send_run ws (r1, c2) = Some (r, c') /\
    forall x, r1 = Sent x -> cbuf (wpdu c2) = None) as (r1 & c2 & Hs & Hx' & Hc2).
  { destruct q.
    - exists (send_wait c1).1, (send_wait c1).2. split; [apply send_wait_ok; [done|by rewrite Hd1|done]|].
      split; [by destruct (send_wait c1)|]. unfold send_wait. case_match; done.
    - cbn in Hx. eexists _, _. split; [|split; [exact Hx|done]]. by split. }
  pose proof (send_run_ok b (wire c) ws r1 c2 r c' Hb Hs Hx') as Hok.
  destruct r as [| | |[]|]; cbn in Hok; try done; [by destruct Hok|].
  destruct Hok. split; [done|]. split; [by eapply send_run_releases|done].
Qed.

(** A block that is sent on a connection is put on the wire whole, with its
    size in front, and nothing between its bytes, if [send] returns true, however
    the [write] calls split it; if it returns false, a first part of it at most is
    on the wire and the connection is dead. *)
Theorem send_writes_whole_block b w ws c r c' :
  (4 <= length b)%nat -> dead c = false -> cbuf (wpdu c) = None ->
  wres_ok (Z.of_nat (length b)) w = true ->
  send_run ws (send b w c) = Some (r, c') ->
  match r with
  | Sent true => dead c' = false /\ cbuf (wpdu c') = None /\
                 wire c' = wire c ++ enc_u32 (u32 (Z.of_nat (length b))) ++ drop 4 b
  | Sent false => dead c' = true /\ exists n, wire c' =
                    wire c ++ take n (enc_u32 (u32 (Z.of_nat (length b))) ++ drop 4 b)
  | Sending => dead c' = false
  | _ => False
  end.
Proof. apply send_done. Qed.

(** ** What a receiver gets *)

(** A block as [send] puts it on the wire, of a size that is accepted. *)
Definition wire_block (b : bytes) : Prop :=
  4 < Z.of_nat (length b) <= MAX_PDU /\ take 4 b = enc_u32 (u32 (Z.of_nat (length b))).

(** The connection, the bytes still to be read, the blocks passed up. *)
Record receiver := Receiver { rconn : conn; input : bytes; passed : list bytes }.

(** One [read_cb]: its [read] for the rest of a block returns [k] bytes, or
    fails with [EAGAIN] for 0; the four bytes of a size arrive together. *)
Definition recv_step (s : receiver) (e : nat * bool) : option receiver :=
  let c := rconn s in
  let p := rpdu c in
  let reads := bool_decide (cbuf p = None) || (solong p <? csz p) in
  let starts := reads && (csz p =? 0) in
  let rest := if starts then drop 4 (input s) else input s in
  let limit := if starts then s32 (ntohl (take 4 (input s))) - 4 else csz p - solong p in
  let k := if reads then e.1 else 0%nat in
  if (starts && (length (input s) <? 4)%nat) || (limit <? Z.of_nat k) || (length rest <? k)%nat then None
  else
    match read_cb 0 (Data (take 4 (input s))) (if (k =? 0)%nat then Err EAGAIN else Data (take k rest)) e.2 c with
    | (Read _ c, b) =>
        Some (Receiver c (drop k rest) (passed s ++ match b with Some b => [b] | None => [] end))
    | _ => None
    end.

Inductive recv_inv (bs : list bytes) (s : receiver) : Prop :=
| RIdle rest :
    bs = passed s ++ rest -> dead (rconn s) = false -> rpdu (rconn s) = charbuf_new ->
    input s = concat rest -> recv_inv bs s
| RPart b rest n :
    bs = passed s ++ b :: rest -> dead (rconn s) = false -> (4 <= n <= length b)%nat ->
    rpdu (rconn s) = Charbuf (Some (take n b)) (Z.of_nat (length b)) (Z.of_nat n) ->
    input s = drop n b ++ concat rest -> recv_inv bs s.

Lemma wire_block_size b rest :
  wire_block b -> s32 (ntohl (take 4 (b ++ rest))) = Z.of_nat (length b) /\
  (MAX_PDU <? Z.of_nat (length b)) = false /\ take 4 (b ++ rest) = take 4 b /\ length (take 4 b) = 4%nat.
Proof.
  intros [[H1 H2] Ht]. rewrite take_app_le by lia. rewrite Ht, ntohl_enc. change MAX_PDU with 10485760 in *.
  split_and!; [|apply Z.ltb_ge; lia|done|done].
  rewrite (u32_small (u32 _)) by auto with yfs. rewrite u32_small by (unfold is_u32; lia).
  apply s32_small. unfold is_s32. lia.
Qed.

(** A block of which [n] bytes are there gets [k] more. *)
Lemma read_more bs s b rest n k acc :
  bs = passed s ++ b :: rest -> dead (rconn s) = false -> (4 <= n <= length b)%nat ->
  (n + k <= length b)%nat -> (k <= length (drop n b ++ concat rest))%nat ->
  forall c', c' = set_rpdu (Charbuf (Some (take (n + k) b)) (Z.of_nat (length b)) (Z.of_nat (n + k))) (rconn s) ->
  let full := Z.of_nat (length b) =? Z.of_nat (n + k) in
  recv_inv bs (Receiver (if full && acc then set_rpdu charbuf_new c' else c')
                 (drop k (drop n b ++ concat rest))
                 (passed s ++ (if full && acc then [take (n + k) b] else []))).
Proof.
  intros Hbs Hd Hn Hk Hl c' -> full.
  assert (drop k (drop n b ++ concat rest) = drop (n + k) b ++ concat rest) as Hin.
  { rewrite drop_app_le by (rewrite length_drop; lia). by rewrite drop_drop. }
  rewrite Hin. destruct full eqn:Ef; unfold full in Ef; to_prop; [destruct acc|]; cbn [andb].
  - apply (RIdle bs _ rest); cbn; [|done|done|by rewrite drop_ge by lia].
    rewrite take_ge by lia. by rewrite <- app_assoc.
  - rewrite app_nil_r. by apply (RPart bs _ b rest (n + k)); cbn; [|done|lia|done|done].
  - rewrite app_nil_r. by apply (RPart bs _ b rest (n + k)); cbn; [|done|lia|done|done].
Qed.

(** One [read_cb] between two blocks. *)
Lemma recv_step_idle bs s rest e s' :
  Forall wire_block bs -> bs = passed s ++ rest -> dead (rconn s) = false ->
  rpdu (rconn s) = charbuf_new -> input s = concat rest ->
  recv_step s e = Some s' -> recv_inv bs s'.
Proof.
  intros Hb Hbs Hd Hp Hin. destruct e as [k acc]. unfold recv_step, read_cb, readpdu. cbn [fst snd].
  rewrite Hd, Hp. cbn [charbuf_new cbuf csz solong].
  rewrite bool_decide_true by done. cbn [orb Z.eqb andb]. rewrite Hin.
  destruct rest as [|b rest]; [done|].
  assert (wire_block b) as Hw. { rewrite Hbs in Hb. apply Forall_app in Hb as [_ Hb]. by inversion Hb. }
  cbn [concat]. destruct (wire_block_size b (concat rest) Hw) as (Hsz & Hmax & Ht & H4).
  rewrite Hsz, Hmax, Ht, H4. cbn [Nat.eqb negb]. destruct Hw as [[Hlt _] _].
  rewrite bool_decide_false by (by intros []).
  destruct (_ || _ || _) eqn:Eg; [done|]. to_prop.
  assert (drop 4 (b ++ concat rest) = drop 4 b ++ concat rest) as Hdr by (rewrite drop_app_le by lia; done).
  rewrite Hdr in *. unfold read_body. cbn [rpdu set_rpdu csz solong cbuf].
  assert ((Z.of_nat (length b) <? 4) = false) as -> by (apply Z.ltb_ge; lia).
  match goal with H : (length _ <? k)%nat = false |- _ => apply Nat.ltb_ge in H; rename H into Hk end.
  pose proof (read_more bs s b rest 4 k acc Hbs Hd ltac:(lia) ltac:(lia) Hk _ eq_refl) as Hm. cbn zeta in Hm.
  destruct k as [|k']; cbn [Nat.eqb].
  + cbn [Z.eqb EAGAIN Pos.eqb rpdu set_rpdu cbuf csz solong Z.of_nat Nat.add] in *.
    destruct (Z.of_nat (length b) =? _) eqn:E; [to_prop; lia|]. cbn [andb] in Hm. by intros [= <-].
  + cbn [rpdu set_rpdu cbuf csz solong default from_option id] in *.
    rewrite length_take, Nat.min_l by lia.
    assert (take 4 b ++ take (S k') (drop 4 b ++ concat rest) = take (4 + S k') b) as Htk.
    { rewrite take_app_le by (rewrite length_drop; lia). apply take_take_drop. }
    rewrite Htk. replace (4 + Z.of_nat (S k')) with (Z.of_nat (4 + S k')) by lia.
    destruct (Z.of_nat (length b) =? _); [destruct acc|]; cbn [andb] in Hm; by intros [= <-].
Qed.

(** One [read_cb] inside a block. *)
Lemma recv_step_part bs s b rest n e s' :
  bs = passed s ++ b :: rest -> dead (rconn s) = false -> (4 <= n <= length b)%nat ->
  rpdu (rconn s) = Charbuf (Some (take n b)) (Z.of_nat (length b)) (Z.of_nat n) ->
  input s = drop n b ++ concat rest ->
  recv_step s e = Some s' -> recv_inv bs s'.
Proof.
  intros Hbs Hd Hn Hp Hin. destruct e as [k acc]. unfold recv_step, read_cb, readpdu. cbn [fst snd].
  rewrite Hd, Hp. cbn [cbuf csz solong].
  rewrite bool_decide_false by done. cbn [orb].
  assert ((Z.of_nat (length b) =? 0) = false) as -> by (apply Z.eqb_neq; lia). rewrite !andb_false_r.
  cbn [orb]. rewrite Hin. destruct (Z.of_nat n <? Z.of_nat (length b)) eqn:El; to_prop.
  + destruct (_ || _) eqn:Eg; [done|]. to_prop.
    match goal with H : (length _ <? k)%nat = false |- _ => apply Nat.ltb_ge in H; rename H into Hk end.
    pose proof (read_more bs s b rest n k acc Hbs Hd Hn ltac:(lia) Hk _ eq_refl) as Hm. cbn zeta in Hm.
    unfold read_body. rewrite Hp. cbn [csz solong cbuf].
    assert ((Z.of_nat (length b) <? Z.of_nat n) = false) as -> by (apply Z.ltb_ge; lia).
    destruct k as [|k']; cbn [Nat.eqb].
    * cbn [Z.eqb EAGAIN Pos.eqb]. rewrite Hp. cbn [cbuf csz solong]. rewrite Nat.add_0_r in Hm.
      destruct (Z.of_nat (length b) =? _) eqn:E; [to_prop; lia|]. cbn [andb] in Hm. intros [= <-].
      rewrite <- Hp in Hm. by destruct (rconn s).
    * cbn [rpdu set_rpdu cbuf csz solong default from_option id].
      rewrite length_take, Nat.min_l by lia.
      assert (take n b ++ take (S k') (drop n b ++ concat rest) = take (n + S k') b) as Htk.
      { rewrite take_app_le by (rewrite length_drop; lia). apply take_take_drop. }
      rewrite Htk. rewrite <- Nat2Z.inj_add.
      destruct (Z.of_nat (length b) =? _); [destruct acc|]; cbn [andb] in Hm; by intros [= <-].
  + destruct (_ || _) eqn:Eg; [done|].
    pose proof (read_more bs s b rest n 0 acc Hbs Hd Hn ltac:(lia) ltac:(lia) _ eq_refl) as Hm. cbn zeta in Hm.
    rewrite Nat.add_0_r in Hm. rewrite Hp. cbn [cbuf csz solong].
    assert ((Z.of_nat (length b) =? Z.of_nat n) = true) as Ee by (apply Z.eqb_eq; lia). rewrite Ee in *.
    destruct acc; cbn [andb] in Hm; intros [= <-]; rewrite <- Hp in Hm; by destruct (rconn s).
Qed.

Lemma recv_step_inv bs s e s' :
  Forall wire_block bs -> recv_inv bs s -> recv_step s e = Some s' -> recv_inv bs s'.
Proof. intros Hb []; eauto using recv_step_idle, recv_step_part. Qed.

Lemma recv_run_inv bs es s :
  Forall wire_block bs -> exec recv_step (Receiver conn_new (concat bs) []) es = Some s -> recv_inv bs s.
Proof.
  intros Hb Hx. eapply (exec_invariant recv_step (recv_inv bs)); [| |exact Hx].
  - intros a e b. by apply recv_step_inv.
  - by apply (RIdle bs _ bs).
Qed.


(** ** Concrete runs *)

Lemma send_writes_whole_block_witness :
  exists c', send_run [Wrote 2; WAgain; Wrote 3] (send (str "....hello") (Wrote 4) conn_new) = Some (Sent true, c') /\
    wire c' = enc_u32 9 ++ str "hello".
Proof.
  assert (exists c', send_run [Wrote 2; WAgain; Wrote 3] (send (str "....hello") (Wrote 4) conn_new) =
    Some (Sent true, c')) as [c' E] by (eexists; vm_compute; reflexivity).
  exists c'. split; [exact E|].
  pose proof (send_writes_whole_block (str "....hello") (Wrote 4) [Wrote 2; WAgain; Wrote 3] conn_new (Sent true) c'
    ltac:(cbn; lia) eq_refl eq_refl eq_refl E) as (_ & _ & H). exact H.
Defined.

Definition demo_block : bytes := enc_u32 9 ++ str "hello".

Lemma demo_block_ok : wire_block demo_block.
Proof. split; [vm_compute; split; [reflexivity|congruence]|reflexivity]. Qed.


(** Only sizes above the maximum are refused.  A size below 4, or a
    negative one, is taken: the buffer is too small for it, and the next [read] is
    given a huge length.  And the end of the stream inside a block is not noticed
    when an earlier call left [EAGAIN] in [errno]. *)
Theorem bad_size_overruns_buffer :
  (forall sz errno body, 0 <= sz < 4 \/ 2 ^ 31 <= sz < 2 ^ 32 ->
     readpdu errno (Data (enc_u32 sz)) body conn_new = Overrun) /\
  (forall c, csz (rpdu c) <> 0 -> solong (rpdu c) <= csz (rpdu c) ->
     readpdu EAGAIN Eof Eof c = Read true c).
Proof.
  split.
  - intros sz errno body Hs. unfold readpdu. cbn [conn_new rpdu charbuf_new csz Z.eqb].
    change (length (enc_u32 sz) =? 4)%nat with true. cbn [negb]. rewrite ntohl_enc.
    assert (s32 (u32 sz) < 4) as Hlt.
    { rewrite s32_u32. destruct Hs as [Hs|Hs].
      - rewrite s32_small; [lia|]. unfold is_s32. lia.
      - unfold s32. rewrite <- (Z.mod_add (sz + 2 ^ 31) (-1) (2 ^ 32)), Z.mod_small by lia. lia. }
    assert ((MAX_PDU <? s32 (u32 sz)) = false) as ->.
    { apply Z.ltb_ge. change MAX_PDU with 10485760. lia. }
    rewrite bool_decide_false by (by intros []). unfold read_body. cbn [rpdu set_rpdu csz solong].
    by rewrite (proj2 (Z.ltb_lt _ _) Hlt).
  - intros c Hn Hl. unfold readpdu. rewrite (proj2 (Z.eqb_neq _ _) Hn). unfold read_body.
    by rewrite (proj2 (Z.ltb_ge _ _) Hl).
Qed.

End connection.
