(* ===== verification/Aio.v ===== *)
(** * Watching descriptors

    The interface [aio_mgr] of [rpc/pollmgr.h], through which the poll manager
    watches descriptors, and its two implementations in [rpc/pollmgr.cc],
    [SelectAIO] and [EPollAIO]: the class [AioMgr] with its laws [AioLaws] and
    two instances.  The set type of [select] is a finite set; the kernel's side
    of [epoll] is a parameter with the documented effect of [epoll_ctl] as laws.
    What the system reports as ready is an argument of [wait_ready]. *)

From stdpp Require Import gmap list.
From Stdlib Require Import ZArith Lia.
From S2P Require Import Prelude.

Local Open Scope Z_scope.

Module aio.

Definition MAX_POLL_FDS : Z := 128.

Inductive poll_flag := CB_NONE | CB_RDONLY | CB_WRONLY | CB_RDWR | CB_MASK.

#[export] Instance poll_flag_eq_dec : EqDecision poll_flag.
Proof. solve_decision. Defined.

Definition flag_bits (f : poll_flag) : Z :=
  match f with
  | CB_NONE => 0x0
  | CB_RDONLY => 0x1
  | CB_WRONLY => 0x10
  | CB_RDWR => 0x11
  | CB_MASK => Z.lnot 0x11
  end.

(** ** The interface [aio_mgr]

    [W] is what a waiting call remembers, [R] what the system reports.  [None]
    is a failed assertion. *)
Class AioMgr (S W R : Type) := {
  watch_fd : Z -> poll_flag -> S -> option S;
  unwatch_fd : Z -> poll_flag -> S -> option (bool * S);
  is_watched : Z -> poll_flag -> S -> option bool;
  wait_enter : S -> W;
  wait_ready : W -> R -> S -> option (list Z * list Z * S)
}.

(** ** [SelectAIO] *)

(** [pipe_bytes] are the bytes in the pipe that interrupts [select] *)
Record select_aio := SelectAIO {
  rfds : gset Z;
  wfds : gset Z;
  highfds : Z;
  pipefd : Z;
  pipe_bytes : nat
}.

Definition select_new (p : Z) : select_aio := SelectAIO {[p]} ∅ p p 0.

Definition select_watch (fd : Z) (flag : poll_flag) (s : select_aio) : select_aio :=
  let high := if highfds s <=? fd then fd else highfds s in
  let '(r, w) := match flag with
                 | CB_RDONLY => ({[fd]} ∪ rfds s, wfds s)
                 | CB_WRONLY => (rfds s, {[fd]} ∪ wfds s)
                 | _ => ({[fd]} ∪ rfds s, {[fd]} ∪ wfds s)
                 end in
  SelectAIO r w high (pipefd s) (pipe_bytes s + 1).

Definition select_is_watched (fd : Z) (flag : poll_flag) (s : select_aio) : bool :=
  match flag with
  | CB_RDONLY => bool_decide (fd ∈ rfds s)
  | CB_WRONLY => bool_decide (fd ∈ wfds s)
  | _ => bool_decide (fd ∈ rfds s) && bool_decide (fd ∈ wfds s)
  end.

(** the loop that looks for the highest descriptor *)
Definition new_high (r w : gset Z) (p high : Z) : Z :=
  foldl (fun newh i => if bool_decide (i ∈ r) then i
                       else if bool_decide (i ∈ w) then i else newh) p (seqZ 0 (high + 1)).

Definition select_unwatch (fd : Z) (flag : poll_flag) (s : select_aio) : option (bool * select_aio) :=
  match
    match flag with
    | CB_RDONLY => Some (rfds s ∖ {[fd]}, wfds s)
    | CB_WRONLY => Some (rfds s, wfds s ∖ {[fd]})
    | CB_RDWR => Some (rfds s ∖ {[fd]}, wfds s ∖ {[fd]})
    | _ => None
    end
  with
  | None => None
  | Some (r, w) =>
      let gone := negb (bool_decide (fd ∈ r)) && negb (bool_decide (fd ∈ w)) in
      let high := if gone && (fd =? highfds s) then new_high r w (pipefd s) (highfds s) else highfds s in
      let n := if bool_decide (flag = CB_RDWR) then (pipe_bytes s + 1)%nat else pipe_bytes s in
      Some (gone, SelectAIO r w high (pipefd s) n)
  end.

(** the sets and the bound that are copied before the call to [select] *)
Record snapshot := Snapshot { trfds : gset Z; twfds : gset Z; high : Z }.

Definition select_enter (s : select_aio) : snapshot := Snapshot (rfds s) (wfds s) (highfds s).

(** [select] is interrupted, fails, or leaves the ready descriptors in the two
    sets *)
Inductive select_result := Eintr | SelectError | Ready (r w : gset Z).

(** [wait_ready] after the call to [select]; [None] when [select] fails, or when
    the pipe is reported readable and the read of its byte fails *)
Definition select_wait (sn : snapshot) (k : select_result) (s : select_aio)
  : option (list Z * list Z * select_aio) :=
  match k with
  | Eintr => Some ([], [], s)
  | SelectError => None
  | Ready r w =>
      let r := r ∩ trfds sn in
      let w := w ∩ twfds sn in
      let fds := seqZ 0 (high sn + 1) in
      let at_pipe fd := (fd =? pipefd s) && bool_decide (fd ∈ r) in
      let readable := filter (fun fd => negb (at_pipe fd) && bool_decide (fd ∈ r) = true) fds in
      let writable := filter (fun fd => negb (at_pipe fd) && bool_decide (fd ∈ w) = true) fds in
      if existsb at_pipe fds then
        match pipe_bytes s with
        | O => None
        | S n => Some (readable, writable, SelectAIO (rfds s) (wfds s) (highfds s) (pipefd s) n)
        end
      else Some (readable, writable, s)
  end.

#[export] Instance select_mgr : AioMgr select_aio snapshot select_result := {|
  watch_fd fd flag s := Some (select_watch fd flag s);
  unwatch_fd := select_unwatch;
  is_watched fd flag s := Some (select_is_watched fd flag s);
  wait_enter := select_enter;
  wait_ready := select_wait
|}.

(** ** [EPollAIO] *)

Definition EPOLLIN : Z := 0x001.
Definition EPOLLOUT : Z := 0x004.
Definition EPOLLET : Z := Z.shiftl 1 31.

Inductive epoll_op := EPOLL_CTL_ADD | EPOLL_CTL_MOD | EPOLL_CTL_DEL.

#[export] Instance epoll_op_eq_dec : EqDecision epoll_op.
Proof. solve_decision. Defined.

(** the system's side: [epoll_ctl] ([None] is an error), and the descriptors it
    watches with their events *)
Class EPollKernel (K : Type) := {
  epoll_ctl : epoll_op -> Z -> Z -> K -> option K;
  interest : K -> gmap Z Z
}.

(** A descriptor is added once, and changed and deleted only when it is there. *)
Class EPollLaws (K : Type) `{EPollKernel K} := {
  ctl_add fd ev k : interest k !! fd = None ->
    exists k', epoll_ctl EPOLL_CTL_ADD fd ev k = Some k' /\ interest k' = <[fd := ev]> (interest k);
  ctl_add_twice fd ev k : is_Some (interest k !! fd) -> epoll_ctl EPOLL_CTL_ADD fd ev k = None;
  ctl_mod fd ev k : is_Some (interest k !! fd) ->
    exists k', epoll_ctl EPOLL_CTL_MOD fd ev k = Some k' /\ interest k' = <[fd := ev]> (interest k);
  ctl_mod_absent fd ev k : interest k !! fd = None -> epoll_ctl EPOLL_CTL_MOD fd ev k = None;
  ctl_del fd ev k : is_Some (interest k !! fd) ->
    exists k', epoll_ctl EPOLL_CTL_DEL fd ev k = Some k' /\ interest k' = delete fd (interest k);
  ctl_del_absent fd ev k : interest k !! fd = None -> epoll_ctl EPOLL_CTL_DEL fd ev k = None
}.

Section EPoll.
Context {K : Type} `{EPollKernel K}.

Record epoll_aio := EPollAIO { fdstatus : gmap Z Z; pollfd : K }.

Definition status (fd : Z) (s : epoll_aio) : Z := map_get 0 (fdstatus s) fd.

(** [ev.events] for a status *)
Definition ev_events (st : Z) : Z :=
  let ev := EPOLLET in
  let ev := if Z.land st (flag_bits CB_RDONLY) =? 0 then ev else Z.lor ev EPOLLIN in
  if Z.land st (flag_bits CB_WRONLY) =? 0 then ev else Z.lor ev EPOLLOUT.

(** not used by the methods; see [poll_flag_to_event_agrees] *)
Definition poll_flag_to_event (flag : poll_flag) : Z :=
  match flag with
  | CB_RDONLY => EPOLLIN
  | CB_WRONLY => EPOLLOUT
  | _ => Z.lor EPOLLIN EPOLLOUT
  end.

Definition epoll_watch (fd : Z) (flag : poll_flag) (s : epoll_aio) : option epoll_aio :=
  if negb (fd <? MAX_POLL_FDS) then None
  else
    let op := if status fd s =? 0 then EPOLL_CTL_ADD else EPOLL_CTL_MOD in
    let st := Z.lor (status fd s) (flag_bits flag) in
    let ev := ev_events st in
    if bool_decide (flag = CB_RDWR) && negb (ev =? Z.lor (Z.lor EPOLLET EPOLLIN) EPOLLOUT) then None
    else match epoll_ctl op fd ev (pollfd s) with
         | Some k => Some (EPollAIO (<[fd := st]> (fdstatus s)) k)
         | None => None
         end.

Definition epoll_unwatch (fd : Z) (flag : poll_flag) (s : epoll_aio) : option (bool * epoll_aio) :=
  if negb (fd <? MAX_POLL_FDS) then None
  else
    let st := Z.land (status fd s) (Z.lnot (flag_bits flag)) in
    let op := if st =? 0 then EPOLL_CTL_DEL else EPOLL_CTL_MOD in
    if bool_decide (flag = CB_RDWR) && negb (bool_decide (op = EPOLL_CTL_DEL)) then None
    else match epoll_ctl op fd (ev_events st) (pollfd s) with
         | Some k => Some (bool_decide (op = EPOLL_CTL_DEL), EPollAIO (<[fd := st]> (fdstatus s)) k)
         | None => None
         end.

Definition epoll_is_watched (fd : Z) (flag : poll_flag) (s : epoll_aio) : option bool :=
  if negb (fd <? MAX_POLL_FDS) then None
  else Some (Z.land (status fd s) (flag_bits CB_MASK) =? flag_bits flag).

(** [wait_ready]: [evs] is what [epoll_wait] reports, nothing when it is
    interrupted; [None] when it is not about what is watched *)
Definition epoll_wait (_ : unit) (evs : list (Z * Z)) (s : epoll_aio)
  : option (list Z * list Z * epoll_aio) :=
  let legal e := match interest (pollfd s) !! e.1 with
                 | Some ev => negb (negb (Z.land e.2 EPOLLIN =? 0) && (Z.land ev EPOLLIN =? 0)) &&
                              negb (negb (Z.land e.2 EPOLLOUT =? 0) && (Z.land ev EPOLLOUT =? 0))
                 | None => false
                 end in
  if forallb legal evs then
    Some ((filter (fun e => Z.land e.2 EPOLLIN <> 0) evs).*1,
          (filter (fun e => Z.land e.2 EPOLLOUT <> 0) evs).*1, s)
  else None.

#[export] Instance epoll_mgr : AioMgr epoll_aio unit (list (Z * Z)) := {|
  watch_fd := epoll_watch;
  unwatch_fd := epoll_unwatch;
  is_watched := epoll_is_watched;
  wait_enter _ := tt;
  wait_ready := epoll_wait
|}.
End EPoll.
Arguments epoll_aio : clear implicits.

(** ** What an [aio_mgr] promises *)

Inductive dir := Rd | Wr.

Definition covers (flag : poll_flag) (d : dir) : bool :=
  match flag, d with
  | CB_RDONLY, Rd | CB_WRONLY, Wr | CB_RDWR, _ => true
  | _, _ => false
  end.

Definition flag_ok (flag : poll_flag) : bool := covers flag Rd || covers flag Wr.

(** [watched s d fd]: the descriptor is watched for that direction.  A waiting
    call may report what was watched when it began or what is watched now
    ([sees]).  [usable] are the descriptors a client of the manager can have. *)
Class AioLaws (S W R : Type) `{AioMgr S W R} := {
  aio_ok : S -> Prop;
  usable : S -> Z -> bool;
  watched : S -> dir -> Z -> bool;
  sees : W -> S -> Z -> bool;
  watch_defined fd flag s : aio_ok s -> usable s fd = true -> flag_ok flag = true ->
    exists s', watch_fd fd flag s = Some s';
  watch_law fd flag s s' : aio_ok s -> usable s fd = true -> flag_ok flag = true ->
    watch_fd fd flag s = Some s' ->
    aio_ok s' /\ (forall x, usable s' x = usable s x) /\
    (forall d x, watched s' d x = watched s d x || ((x =? fd) && covers flag d)) /\
    forall w x, sees w s' x = true -> sees w s x = true \/ x = fd;
  unwatch_defined fd flag s : aio_ok s -> usable s fd = true -> flag_ok flag = true ->
    watched s Rd fd || watched s Wr fd = true ->
    exists b s', unwatch_fd fd flag s = Some (b, s');
  unwatch_law fd flag s b s' : aio_ok s -> usable s fd = true -> flag_ok flag = true ->
    unwatch_fd fd flag s = Some (b, s') ->
    aio_ok s' /\ (forall x, usable s' x = usable s x) /\
    (forall d x, watched s' d x = watched s d x && negb ((x =? fd) && covers flag d)) /\
    b = negb (watched s' Rd fd || watched s' Wr fd) /\
    forall w x, sees w s' x = true -> sees w s x = true;
  wait_sees s x : aio_ok s -> sees (wait_enter s) s x = true -> watched s Rd x || watched s Wr x = true;
  wait_law w k s r wr s' : aio_ok s -> wait_ready w k s = Some (r, wr, s') ->
    aio_ok s' /\ (forall x, usable s' x = usable s x) /\
    (forall d x, watched s' d x = watched s d x) /\
    forall x, x ∈ r \/ x ∈ wr -> sees w s x = true
}.

(** ** [SelectAIO] keeps the promise *)

(** [highfds_] is the highest watched descriptor, so [select] looks at all. *)
Record select_ok (s : select_aio) : Prop := {
  so_pipe : pipefd s ∈ rfds s;
  so_pipe_w : pipefd s ∉ wfds s;
  so_range x : x ∈ rfds s ∪ wfds s -> 0 <= x <= highfds s;
  so_high : highfds s ∈ rfds s ∪ wfds s
}.

Lemma select_new_ok p : 0 <= p -> select_ok (select_new p).
Proof. intros Hp. split; cbn; set_solver by lia. Qed.

Lemma new_high_upto (r w : gset Z) p n :
  let h := foldl (fun newh i => if bool_decide (i ∈ r) then i
                       else if bool_decide (i ∈ w) then i else newh) p (seqZ 0 (Z.of_nat n)) in
  (forall x, x ∈ r ∪ w -> 0 <= x < Z.of_nat n -> x <= h) /\
  (h = p \/ h ∈ r ∪ w /\ 0 <= h < Z.of_nat n).
Proof.
  induction n as [|n [IH1 IH2]]; cbn zeta in *.
  - cbn. split; [lia|by left].
  - rewrite seqZ_S, foldl_app. cbn [foldl]. set (h := foldl _ p _) in *.
    rewrite Z.add_0_l. repeat case_bool_decide.
    + split; [lia|]. right. split; [set_solver|lia].
    + split; [lia|]. right. split; [set_solver|lia].
    + split; [|destruct IH2 as [->|[? ?]]; [by left|right; split; [done|lia]]].
      intros x Hx Hn. apply IH1; [done|].
      assert (x <> Z.of_nat n) by (intros ->; set_solver). lia.
Qed.

Lemma new_high_max r w p high :
  0 <= high -> p ∈ r ∪ w ->
  let h := new_high r w p high in
  h ∈ r ∪ w /\ forall x, x ∈ r ∪ w -> 0 <= x <= high -> x <= h.
Proof.
  intros Hh Hp. cbn zeta. unfold new_high.
  destruct (new_high_upto r w p (Z.to_nat (high + 1))) as [H1 H2].
  rewrite Z2Nat.id in H1, H2 by lia. split.
  - destruct H2 as [->|[? _]]; done.
  - intros x Hx Hr. apply H1; [done|lia].
Qed.

Lemma select_watch_sets fd flag s :
  let s' := select_watch fd flag s in
  pipefd s' = pipefd s /\ highfds s' = (if highfds s <=? fd then fd else highfds s) /\
  (forall x, x ∈ rfds s' ∪ wfds s' <-> x = fd \/ x ∈ rfds s ∪ wfds s) /\
  (forall x, x <> fd -> (x ∈ rfds s' <-> x ∈ rfds s) /\ (x ∈ wfds s' <-> x ∈ wfds s)).
Proof. destruct flag; cbn; split_and!; try done; set_solver. Qed.

Lemma select_watch_ok fd flag s : 0 <= fd -> fd <> pipefd s -> select_ok s -> select_ok (select_watch fd flag s).
Proof.
  intros Hf Hp [H1 H2 H3 H4]. destruct (select_watch_sets fd flag s) as (Ep & Eh & Eu & Eo).
  set (s' := select_watch fd flag s) in *. clearbody s'. split.
  - rewrite Ep. by apply Eo.
  - rewrite Ep. intros Hx%Eo; done.
  - intros x [->|Hx]%Eu; [|specialize (H3 x Hx)]; rewrite Eh; destruct (_ <=? _) eqn:E; to_prop; lia.
  - apply Eu. rewrite Eh. destruct (_ <=? _); [by left|by right].
Qed.

(** What [unwatch_fd] leaves, apart from the bound. *)
Lemma select_unwatch_sets fd flag s b s' :
  select_unwatch fd flag s = Some (b, s') ->
  pipefd s' = pipefd s /\
  highfds s' = (if b && (fd =? highfds s) then new_high (rfds s') (wfds s') (pipefd s) (highfds s)
                else highfds s) /\
  b = negb (bool_decide (fd ∈ rfds s')) && negb (bool_decide (fd ∈ wfds s')) /\
  (forall x, x ∈ rfds s' <-> x ∈ rfds s /\ ~ (x = fd /\ covers flag Rd = true)) /\
  (forall x, x ∈ wfds s' <-> x ∈ wfds s /\ ~ (x = fd /\ covers flag Wr = true)).
Proof.
  unfold select_unwatch. destruct flag; intros [= <- <-]; cbn [pipefd highfds rfds wfds covers];
    (split; [done|]; split; [done|]; split; [done|]; split; intros x; set_solver).
Qed.

Lemma select_unwatch_ok fd flag s b s' :
  fd <> pipefd s -> select_ok s -> select_unwatch fd flag s = Some (b, s') -> select_ok s'.
Proof.
  intros Hp [H1 H2 H3 H4] Hu. destruct (select_unwatch_sets _ _ _ _ _ Hu) as (Ep & Eh & Eb & Er & Ew).
  clear Hu. assert (pipefd s ∈ rfds s') as Hps by (apply Er; split; [done|]; intros [? _]; congruence).
  assert (forall x, x ∈ rfds s' ∪ wfds s' -> x ∈ rfds s ∪ wfds s) as Hsub.
  { intros x [[Hx _]%Er|[Hx _]%Ew]%elem_of_union; apply elem_of_union; [by left|by right]. }
  assert (0 <= highfds s) as Hh by (apply H3 in H4; lia).
  assert (pipefd s ∈ rfds s' ∪ wfds s') as Hpu by (apply elem_of_union; by left).
  pose proof (new_high_max (rfds s') (wfds s') (pipefd s) (highfds s) Hh Hpu) as [N1 N2].
  split; rewrite ?Ep.
  - done.
  - intros [Hx _]%Ew. done.
  - intros x Hx. specialize (H3 x (Hsub x Hx)). rewrite Eh. destruct (b && _); [|done].
    split; [lia|]. by apply N2.
  - rewrite Eh. destruct (b && _) eqn:Eg; [done|].
    destruct (decide (highfds s = fd)) as [Hfd|Hne].
    + rewrite Hfd, Z.eqb_refl, andb_true_r, Eb in Eg. rewrite Hfd.
      apply andb_false_iff in Eg as [Eg|Eg]; apply negb_false_iff, bool_decide_eq_true in Eg;
        apply elem_of_union; [by left|by right].
    + apply elem_of_union in H4 as [H4|H4]; apply elem_of_union; [left; apply Er|right; apply Ew];
        (split; [done|]; intros [? _]; congruence).
Qed.

Definition select_watched (s : select_aio) (d : dir) (x : Z) : bool :=
  match d with
  | Rd => bool_decide (x ∈ rfds s) && negb (x =? pipefd s)
  | Wr => bool_decide (x ∈ wfds s)
  end.

Definition select_sees (sn : snapshot) (s : select_aio) (x : Z) : bool :=
  bool_decide (x ∈ trfds sn) && negb (x =? pipefd s) || bool_decide (x ∈ twfds sn).

Lemma select_wait_sees sn k s r w s' :
  select_wait sn k s = Some (r, w, s') ->
  rfds s' = rfds s /\ wfds s' = wfds s /\ highfds s' = highfds s /\ pipefd s' = pipefd s /\
  forall x, x ∈ r \/ x ∈ w -> select_sees sn s x = true.
Proof.
  unfold select_wait. destruct k as [| |kr kw]; [intros [= <- <- <-]; set_solver|done|].
  set (at_pipe := fun fd => _).
  assert (forall x, x ∈ filter (fun fd => negb (at_pipe fd) && bool_decide (fd ∈ kr ∩ trfds sn) = true)
                     (seqZ 0 (high sn + 1)) \/
               x ∈ filter (fun fd => negb (at_pipe fd) && bool_decide (fd ∈ kw ∩ twfds sn) = true)
                     (seqZ 0 (high sn + 1)) -> select_sees sn s x = true) as Hs.
  { intros x [[Hx _]%list_elem_of_filter|[Hx _]%list_elem_of_filter]; apply andb_true_iff in Hx as [Hp Hx];
      apply bool_decide_eq_true, elem_of_intersection in Hx as [Hk Ht]; unfold select_sees.
    - unfold at_pipe in Hp. rewrite (bool_decide_true (x ∈ kr ∩ _)) in Hp by set_solver.
      rewrite andb_true_r in Hp. rewrite bool_decide_true by done. by rewrite Hp.
    - rewrite (bool_decide_true (x ∈ twfds sn)) by done. apply orb_true_r. }
  destruct (existsb _ _); [destruct (pipe_bytes s); [done|]|]; intros [= <- <- <-]; by split_and!.
Qed.

Lemma bool_decide_cleared (P : Prop) `{!Decision P} (x fd : Z) (c : bool) :
  bool_decide (P /\ ~ (x = fd /\ c = true)) = bool_decide P && negb ((x =? fd) && c).
Proof.
  rewrite bool_decide_and, bool_decide_not, bool_decide_and. f_equal. f_equal. f_equal; [|by destruct c].
  destruct (Z.eqb_spec x fd); by case_bool_decide.
Qed.

#[refine, export] Instance select_laws : AioLaws select_aio snapshot select_result := {|
  aio_ok := select_ok;
  usable s fd := (0 <=? fd) && negb (fd =? pipefd s);
  watched := select_watched;
  sees := select_sees;
  watch_defined := _; watch_law := _; unwatch_defined := _; unwatch_law := _;
  wait_sees := _; wait_law := _
|}.
Proof.
  - intros fd flag s _ _ _. by eexists.
  - intros fd flag s s' Hok Hu Hf [= <-]. to_prop.
    destruct (select_watch_sets fd flag s) as (Ep & _ & _ & Eo).
    split; [by apply select_watch_ok|]. rewrite Ep. split; [done|]. split.
    + intros d x. destruct (decide (x = fd)) as [->|Hne].
      * rewrite Z.eqb_refl. unfold select_watched. rewrite Ep, (proj2 (Z.eqb_neq _ _)) by done.
        destruct flag, d; try done; cbn; rewrite ?andb_true_r, ?orb_false_r, ?orb_true_r; try done;
          apply bool_decide_eq_true; set_solver.
      * rewrite (proj2 (Z.eqb_neq _ _) Hne), orb_false_r. destruct (Eo x Hne) as [E1 E2].
        unfold select_watched. rewrite Ep. destruct d; [|by apply bool_decide_ext].
        f_equal. by apply bool_decide_ext.
    + intros w x. unfold select_sees. rewrite Ep. by left.
  - intros fd flag s _ _ Hf _. unfold unwatch_fd, select_mgr, select_unwatch.
    destruct flag; try done; by do 2 eexists.
  - intros fd flag s b s' Hok Hu Hf Hs. to_prop.
    destruct (select_unwatch_sets _ _ _ _ _ Hs) as (Ep & _ & Eb & Er & Ew).
    split; [by eapply select_unwatch_ok|]. rewrite Ep. split; [done|]. split; [|split].
    + intros d x. unfold select_watched. rewrite Ep. destruct d.
      * rewrite (bool_decide_ext _ _ (Er x)), bool_decide_cleared.
        by rewrite <- !andb_assoc, (andb_comm (negb (x =? _))).
      * by rewrite (bool_decide_ext _ _ (Ew x)), bool_decide_cleared.
    + rewrite Eb. unfold select_watched. rewrite Ep, (proj2 (Z.eqb_neq _ _)) by done.
      cbn. rewrite andb_true_r. by rewrite negb_orb.
    + intros w x. unfold select_sees. by rewrite Ep.
  - intros s x Hok. unfold select_sees, select_watched. done.
  - intros w k s r wr s' Hok Hw. apply select_wait_sees in Hw as (E1 & E2 & E3 & E4 & Hs).
    split; [destruct Hok; split; rewrite ?E1, ?E2, ?E3, ?E4; done|]. rewrite E4. split; [done|].
    split; [|done]. intros d x. unfold select_watched. by rewrite E1, E2, E4.
Defined.

(** ** [EPollAIO] keeps the promise *)

Section EPollOk.
Context {K : Type} `{EPollLaws K}.

Definition statuses : list Z := [0; 0x1; 0x10; 0x11].

(** The system watches what the status words say. *)
Record epoll_ok (s : epoll_aio K) : Prop := {
  eo_status fd : status fd s ∈ statuses;
  eo_interest fd : interest (pollfd s) !! fd =
    if status fd s =? 0 then None else Some (ev_events (status fd s))
}.

Definition epoll_watched (s : epoll_aio K) (d : dir) (x : Z) : bool :=
  negb (Z.land (status x s) (flag_bits (match d with Rd => CB_RDONLY | Wr => CB_WRONLY end)) =? 0).

Lemma status_insert fd st (s : epoll_aio K) (k : K) x :
  status x (EPollAIO (<[fd := st]> (fdstatus s)) k) = if x =? fd then st else status x s.
Proof.
  unfold status. cbn [fdstatus]. destruct (Z.eqb_spec x fd) as [->|Hne].
  - apply map_get_insert_eq.
  - by apply map_get_insert_ne.
Qed.

(** The helper for the events of a flag agrees with the tests the methods make. *)
Lemma poll_flag_to_event_agrees flag :
  flag_ok flag = true -> ev_events (flag_bits flag) = Z.lor EPOLLET (poll_flag_to_event flag).
Proof. by destruct flag. Qed.

(** Bits of the status words. *)
Lemma status_watch st flag d :
  st ∈ statuses -> flag_ok flag = true ->
  let bit := flag_bits (match d with Rd => CB_RDONLY | Wr => CB_WRONLY end) in
  Z.lor st (flag_bits flag) ∈ statuses /\ (Z.lor st (flag_bits flag) =? 0) = false /\
  negb (Z.land (Z.lor st (flag_bits flag)) bit =? 0) = negb (Z.land st bit =? 0) || covers flag d.
Proof.
  intros Hst Hf. repeat (apply elem_of_cons in Hst as [->|Hst]); [..|by apply elem_of_nil in Hst];
    destruct flag, d; try done; cbn; split_and!; try done; set_solver.
Qed.

Lemma status_unwatch st flag d :
  st ∈ statuses -> flag_ok flag = true ->
  let bit := flag_bits (match d with Rd => CB_RDONLY | Wr => CB_WRONLY end) in
  let st' := Z.land st (Z.lnot (flag_bits flag)) in
  st' ∈ statuses /\ (flag = CB_RDWR -> st' = 0) /\
  negb (Z.land st' bit =? 0) = negb (Z.land st bit =? 0) && negb (covers flag d) /\
  (st' =? 0) = negb (negb (Z.land st' (flag_bits CB_RDONLY) =? 0) || negb (Z.land st' (flag_bits CB_WRONLY) =? 0)).
Proof.
  intros Hst Hf. repeat (apply elem_of_cons in Hst as [->|Hst]); [..|by apply elem_of_nil in Hst];
    destruct flag, d; try done; cbn; split_and!; try done; set_solver.
Qed.

Lemma status_watched s x :
  epoll_ok s -> (status x s =? 0) = negb (epoll_watched s Rd x || epoll_watched s Wr x).
Proof.
  intros [Hst _]. unfold epoll_watched. specialize (Hst x). revert Hst. generalize (status x s). intros st Hst.
  repeat (apply elem_of_cons in Hst as [->|Hst]); [..|by apply elem_of_nil in Hst]; reflexivity.
Qed.

Lemma epoll_set_ok fd st (k : K) s :
  epoll_ok s -> st ∈ statuses ->
  interest k = (if st =? 0 then delete fd (interest (pollfd s))
                else <[fd := ev_events st]> (interest (pollfd s))) ->
  epoll_ok (EPollAIO (<[fd := st]> (fdstatus s)) k).
Proof.
  intros [H1 H2] Hst Hk.
  split; intros x; rewrite status_insert; destruct (Z.eqb_spec x fd) as [->|Hne]; [done|by apply H1|..];
    cbn [pollfd]; rewrite Hk.
  - destruct (st =? 0); [by rewrite lookup_delete_eq|by rewrite lookup_insert_eq].
  - rewrite <- H2. destruct (st =? 0); [by rewrite lookup_delete_ne|by rewrite lookup_insert_ne].
Qed.
Lemma epoll_watched_insert fd st s (k : K) d x :
  epoll_watched (EPollAIO (<[fd := st]> (fdstatus s)) k) d x =
  if x =? fd then negb (Z.land st (flag_bits (match d with Rd => CB_RDONLY | Wr => CB_WRONLY end)) =? 0)
  else epoll_watched s d x.
Proof. unfold epoll_watched. rewrite status_insert. by destruct (x =? fd). Qed.

Lemma epoll_watch_spec fd flag s :
  epoll_ok s -> fd < MAX_POLL_FDS -> flag_ok flag = true ->
  exists s', epoll_watch fd flag s = Some s' /\ epoll_ok s' /\
    (forall d x, epoll_watched s' d x = epoll_watched s d x || ((x =? fd) && covers flag d)) /\
    forall x, (status x s' =? 0) = false -> (status x s =? 0) = false \/ x = fd.
Proof.
  intros Hok Hf Hfl. pose proof Hok as [Hst Hin]. specialize (Hst fd). specialize (Hin fd).
  destruct (status_watch _ flag Rd Hst Hfl) as (S1 & S2 & _). unfold epoll_watch.
  rewrite (proj2 (Z.ltb_lt _ _) Hf). cbn [negb].
  assert (bool_decide (flag = CB_RDWR) && negb (ev_events (Z.lor (status fd s) (flag_bits flag)) =?
            Z.lor (Z.lor EPOLLET EPOLLIN) EPOLLOUT) = false) as ->.
  { revert Hst. generalize (status fd s). intros st Hst. case_bool_decide; [subst flag|done].
    repeat (apply elem_of_cons in Hst as [->|Hst]); [reflexivity..|by apply elem_of_nil in Hst]. }
  set (st := Z.lor (status fd s) (flag_bits flag)) in *.
  assert (exists k', epoll_ctl (if status fd s =? 0 then EPOLL_CTL_ADD else EPOLL_CTL_MOD) fd (ev_events st) (pollfd s) = Some k' /\
    interest k' = <[fd := ev_events st]> (interest (pollfd s))) as (k' & Ek & Ei).
  { destruct (status fd s =? 0); [by apply ctl_add|]. apply ctl_mod. rewrite Hin. by eexists. }
  rewrite Ek. eexists. split; [done|]. split; [|split].
  - apply epoll_set_ok; [done|done|]. by rewrite S2.
  - intros d x. rewrite epoll_watched_insert. destruct (Z.eqb_spec x fd) as [->|]; [|by rewrite orb_false_r].
    destruct (status_watch _ flag d Hst Hfl) as (_ & _ & E). exact E.
  - intros x. rewrite status_insert. destruct (Z.eqb_spec x fd) as [->|]; [by right|by left].
Qed.

Lemma epoll_unwatch_spec fd flag s b s' :
  epoll_ok s -> flag_ok flag = true -> epoll_unwatch fd flag s = Some (b, s') ->
  epoll_ok s' /\
  (forall d x, epoll_watched s' d x = epoll_watched s d x && negb ((x =? fd) && covers flag d)) /\
  b = negb (epoll_watched s' Rd fd || epoll_watched s' Wr fd) /\
  forall x, (status x s' =? 0) = false -> (status x s =? 0) = false.
Proof.
  intros Hok Hfl Hu. pose proof Hok as [Hst Hin]. specialize (Hst fd). specialize (Hin fd).
  destruct (status_unwatch _ flag Rd Hst Hfl) as (S1 & _ & _ & S4). unfold epoll_unwatch in Hu.
  destruct (negb (fd <? _)); [done|]. set (st := Z.land (status fd s) (Z.lnot (flag_bits flag))) in *.
  destruct (_ && _); [done|]. destruct (epoll_ctl _ _ _ _) as [k|] eqn:Ek; [|done].
  injection Hu as <- <-.
  assert (is_Some (interest (pollfd s) !! fd)) as Hsome.
  { apply not_eq_None_Some. intros Hn. destruct (st =? 0); [by rewrite ctl_del_absent in Ek|by rewrite ctl_mod_absent in Ek]. }
  assert (interest k = if st =? 0 then delete fd (interest (pollfd s)) else <[fd := ev_events st]> (interest (pollfd s))) as Ei.
  { destruct (st =? 0); [destruct (ctl_del fd (ev_events st) (pollfd s) Hsome) as (k' & E & Hk)
                        |destruct (ctl_mod fd (ev_events st) (pollfd s) Hsome) as (k' & E & Hk)];
      rewrite E in Ek; by injection Ek as <-. }
  split; [by apply epoll_set_ok|]. split; [|split].
  - intros d x. rewrite epoll_watched_insert. destruct (Z.eqb_spec x fd) as [->|]; [|by rewrite andb_true_r].
    destruct (status_unwatch _ flag d Hst Hfl) as (_ & _ & E & _). exact E.
  - rewrite !epoll_watched_insert, Z.eqb_refl. rewrite <- S4. by destruct (st =? 0).
  - intros x. rewrite status_insert. destruct (Z.eqb_spec x fd) as [->|]; [|done].
    rewrite Hin in Hsome. destruct (status fd s =? 0); [by destruct Hsome|done].
Qed.

#[refine, export] Instance epoll_laws : AioLaws (epoll_aio K) unit (list (Z * Z)) := {|
  aio_ok := epoll_ok;
  usable _ fd := (0 <=? fd) && (fd <? MAX_POLL_FDS);
  watched := epoll_watched;
  sees _ s x := negb (status x s =? 0);
  watch_defined := _; watch_law := _; unwatch_defined := _; unwatch_law := _;
  wait_sees := _; wait_law := _
|}.
Proof.
  - intros fd flag s Hok Hu Hf. to_prop. destruct (epoll_watch_spec fd flag s) as (s' & E & _); [done..|]. by exists s'.
  - intros fd flag s s' Hok Hu Hf E. to_prop. destruct (epoll_watch_spec fd flag s) as (s1 & E1 & A1 & A2 & A3); [done..|].
    cbn in E. rewrite E in E1. injection E1 as <-. split_and!; try done.
    intros _ x Hx%negb_true_iff. destruct (A3 x Hx) as [A4|?]; [left; by apply negb_true_iff|by right].
  - intros fd flag s Hok Hu Hf Hw. to_prop. cbn. pose proof (status_watched s fd Hok) as Hst.
    cbn in Hw. rewrite Hw in Hst. destruct Hok as [A1 A2]. specialize (A1 fd). specialize (A2 fd). rewrite Hst in A2.
    unfold epoll_unwatch. rewrite (proj2 (Z.ltb_lt _ _)) by done. cbn [negb].
    destruct (status_unwatch _ flag Rd A1 Hf) as (_ & S2 & _).
    set (st := Z.land _ _) in *.
    assert (bool_decide (flag = CB_RDWR) && negb (bool_decide ((if st =? 0 then EPOLL_CTL_DEL else EPOLL_CTL_MOD) = EPOLL_CTL_DEL)) = false) as ->.
    { case_bool_decide; [|done]. by rewrite S2 by done. }
    destruct (st =? 0); [destruct (ctl_del fd (ev_events st) (pollfd s)) as (k' & -> & _); [rewrite A2; by eexists|]
                        |destruct (ctl_mod fd (ev_events st) (pollfd s)) as (k' & -> & _); [rewrite A2; by eexists|]]; by do 2 eexists.
  - intros fd flag s b s' Hok Hu Hf E. to_prop. destruct (epoll_unwatch_spec fd flag s b s') as (A1 & A2 & A3 & A4); [done..|].
    split_and!; try done. intros _ x Hx%negb_true_iff. by apply negb_true_iff, A4.
  - intros s x Hok Hx. apply negb_true_iff in Hx. rewrite status_watched in Hx by done. by apply negb_false_iff in Hx.
  - intros w k s r wr s' Hok Hw. cbn in Hw. unfold epoll_wait in Hw. destruct (forallb _ _) eqn:E; [|done].
    injection Hw as <- <- <-. split_and!; try done. intros x Hx.
    assert (exists ev, (x, ev) ∈ k) as [ev Hk].
    { destruct Hx as [Hx|Hx]; apply list_elem_of_fmap in Hx as ([x' ev] & -> & [_ Hx]%list_elem_of_filter); by exists ev. }
    apply list_elem_of_In in Hk. rewrite forallb_forall in E. specialize (E _ Hk). cbn in E.
    rewrite (eo_interest s Hok) in E. by destruct (status x s =? 0).
Defined.
End EPollOk.

(** ** Both managers implement a set of watched descriptors *)

Record watchset := WatchSet { rd : gset Z; wr : gset Z }.

Definition side (d : dir) (v : watchset) : gset Z := match d with Rd => rd v | Wr => wr v end.

Inductive aio_op := Watch (fd : Z) (flag : poll_flag) | Unwatch (fd : Z) (flag : poll_flag).

Definition in_side (d : dir) (fd : Z) (flag : poll_flag) : gset Z :=
  if covers flag d then {[fd]} else ∅.

(** only a watched descriptor may be unwatched *)
Definition spec_step (v : watchset) (o : aio_op) : option (list bool * watchset) :=
  match o with
  | Watch fd flag => Some ([], WatchSet (in_side Rd fd flag ∪ rd v) (in_side Wr fd flag ∪ wr v))
  | Unwatch fd flag =>
      let v' := WatchSet (rd v ∖ in_side Rd fd flag) (wr v ∖ in_side Wr fd flag) in
      if bool_decide (fd ∈ rd v ∪ wr v) then Some ([bool_decide (fd ∉ rd v' ∪ wr v')], v') else None
  end.

Fixpoint outputs {S : Type} (step : S -> aio_op -> option (list bool * S)) (ops : list aio_op) (s : S)
  : option (list bool * S) :=
  match ops with
  | [] => Some ([], s)
  | o :: ops' =>
      match step s o with
      | Some (b, s') => match outputs step ops' s' with
                        | Some (bs, s'') => Some (b ++ bs, s'')
                        | None => None
                        end
      | None => None
      end
  end.

Section Refine.
Context {S W R : Type} `{AioLaws S W R}.

Definition aio_step (s : S) (o : aio_op) : option (list bool * S) :=
  match o with
  | Watch fd flag => match watch_fd fd flag s with Some s' => Some ([], s') | None => None end
  | Unwatch fd flag => match unwatch_fd fd flag s with Some (b, s') => Some ([b], s') | None => None end
  end.

Definition op_usable (s : S) (o : aio_op) : bool :=
  match o with Watch fd flag | Unwatch fd flag => usable s fd && flag_ok flag end.

(** [s] watches the descriptors of [v] *)
Definition implements (s : S) (v : watchset) : Prop :=
  aio_ok s /\ forall d x, watched s d x = bool_decide (x ∈ side d v).

Lemma aio_step_refines s v o out v' :
  implements s v -> op_usable s o = true -> spec_step v o = Some (out, v') ->
  exists s', aio_step s o = Some (out, s') /\ implements s' v' /\ forall x, usable s' x = usable s x.
Proof.
  intros [Hok Hv] Hu Hs. destruct o as [fd flag|fd flag]; cbn in *; to_prop.
  - injection Hs as <- <-. destruct (watch_defined fd flag s) as [s' E]; [done..|].
    destruct (watch_law fd flag s s') as (A1 & A2 & A3 & _); [done..|]. exists s'. rewrite E.
    split; [done|]. split; [|done]. split; [done|]. intros d x. rewrite A3, Hv.
    unfold in_side. destruct d, (Z.eqb_spec x fd); cbn; destruct (covers flag _);
      rewrite ?orb_false_r, ?orb_true_r; cbn; (symmetry; apply bool_decide_eq_true; set_solver) || (apply bool_decide_ext; set_solver).
  - destruct (bool_decide _) eqn:Ew; [|done]. injection Hs as <- <-. apply bool_decide_eq_true in Ew.
    assert (watched s Rd fd || watched s Wr fd = true) as Hw.
    { rewrite !Hv. apply orb_true_iff. rewrite !bool_decide_eq_true. set_solver. }
    destruct (unwatch_defined fd flag s) as (b & s' & E); [done..|].
    destruct (unwatch_law fd flag s b s') as (A1 & A2 & A3 & A4 & _); [done..|]. exists s'. rewrite E.
    assert (implements s' (WatchSet (rd v ∖ in_side Rd fd flag) (wr v ∖ in_side Wr fd flag))) as Hi.
    { split; [done|]. intros d x. rewrite A3, Hv.
      unfold in_side. destruct d, (Z.eqb_spec x fd); cbn; destruct (covers flag _);
        rewrite ?andb_false_r, ?andb_true_r; cbn; (symmetry; apply bool_decide_eq_false; set_solver) || (apply bool_decide_ext; set_solver). }
    split; [|by split]. rewrite A4, !(proj2 Hi). do 3 f_equal. cbn [side].
    rewrite bool_decide_not, <- bool_decide_or. f_equal. apply bool_decide_ext. set_solver.
Qed.
Lemma aio_run_refines ops s v outs v' :
  implements s v -> Forall (fun o => op_usable s o = true) ops ->
  outputs spec_step ops v = Some (outs, v') ->
  exists s', outputs aio_step ops s = Some (outs, s') /\ implements s' v'.
Proof.
  revert s v outs. induction ops as [|o ops IH]; intros s v outs Hi Hu; cbn [outputs].
  - intros [= <- <-]. by exists s.
  - apply Forall_cons in Hu as [Ho Hu]. destruct (spec_step v o) as [[out v1]|] eqn:E; [|done].
    destruct (outputs spec_step ops v1) as [[outs1 v2]|] eqn:E1; [|done]. intros [= <- <-].
    destruct (aio_step_refines s v o out v1 Hi Ho E) as (s1 & -> & Hi1 & Hus).
    destruct (IH s1 v1 outs1 Hi1) as (s2 & -> & Hi2); [|done|by exists s2].
    eapply Forall_impl; [exact Hu|]. intros [fd f|fd f]; cbn; by rewrite Hus.
Qed.
End Refine.

Definition op_fd (o : aio_op) : Z := match o with Watch fd _ | Unwatch fd _ => fd end.
Definition op_flag (o : aio_op) : poll_flag := match o with Watch _ f | Unwatch _ f => f end.

(** C27: the two implementations of [aio_mgr] agree.  Over any watching and
    unwatching of descriptors below the limit, in which only a watched descriptor
    is unwatched, no assertion of either fails, both give the same answers, those
    of a set of watched descriptors, and both watch the descriptors of that set. *)
Theorem aio_managers_agree {K} `{EPollLaws K} (k : K) (p : Z) ops outs v :
  interest k = ∅ -> 0 <= p ->
  Forall (fun o => 0 <= op_fd o < MAX_POLL_FDS /\ op_fd o <> p /\ flag_ok (op_flag o) = true) ops ->
  outputs spec_step ops (WatchSet ∅ ∅) = Some (outs, v) ->
  exists s e, outputs aio_step ops (select_new p) = Some (outs, s) /\
    outputs aio_step ops (EPollAIO ∅ k) = Some (outs, e) /\
    forall d x, watched s d x = bool_decide (x ∈ side d v) /\ watched e d x = bool_decide (x ∈ side d v).
Proof.
  intros Hk Hp Hops Hr.
  destruct (aio_run_refines ops (select_new p) (WatchSet ∅ ∅) outs v) as (s & Es & _ & Hs); [| |done|].
  { split; [by apply select_new_ok|]. intros d x. destruct d; cbn.
    - destruct (Z.eqb_spec x p) as [->|]; [by rewrite andb_false_r|].
      rewrite bool_decide_false by set_solver. by rewrite bool_decide_false by set_solver.
    - by apply bool_decide_ext. }
  { eapply Forall_impl; [exact Hops|]. intros o (A1 & A2 & A3).
    destruct o as [fd f|fd f]; cbn in *; rewrite A3, (proj2 (Z.leb_le 0 fd)), (proj2 (Z.eqb_neq _ _)) by lia; done. }
  destruct (aio_run_refines ops (EPollAIO ∅ k) (WatchSet ∅ ∅) outs v) as (e & Ee & _ & He); [| |done|].
  { split; [|by intros []]. split; intros fd; [set_solver|]. cbn. by rewrite Hk. }
  { eapply Forall_impl; [exact Hops|]. intros o (A1 & A2 & A3).
    destruct o as [fd f|fd f]; cbn in *; rewrite A3, (proj2 (Z.leb_le 0 fd)), (proj2 (Z.ltb_lt _ _)) by lia; done. }
  exists s, e. split; [done|]. split; [done|]. by split.
Qed.

(** A kernel that keeps its interest list and nothing else. *)
Definition list_ctl (op : epoll_op) (fd ev : Z) (k : gmap Z Z) : option (gmap Z Z) :=
  match op, k !! fd with
  | EPOLL_CTL_ADD, None | EPOLL_CTL_MOD, Some _ => Some (<[fd := ev]> k)
  | EPOLL_CTL_DEL, Some _ => Some (delete fd k)
  | _, _ => None
  end.

#[export] Instance list_kernel : EPollKernel (gmap Z Z) := {| epoll_ctl := list_ctl; interest k := k |}.

#[export] Instance list_kernel_laws : EPollLaws (gmap Z Z).
Proof.
  split; intros fd ev k; cbn; unfold list_ctl; intros Hk;
    (rewrite Hk || (destruct Hk as [x Hk]; rewrite Hk)); try done; by eexists.
Qed.

Lemma aio_managers_agree_witness :
  let ops := [Watch 5 CB_RDONLY; Watch 7 CB_RDONLY; Watch 7 CB_WRONLY; Unwatch 7 CB_WRONLY; Unwatch 7 CB_RDWR] in
  exists s e, outputs aio_step ops (select_new 3) = Some ([false; true], s) /\
    outputs aio_step ops (EPollAIO ∅ (∅ : gmap Z Z)) = Some ([false; true], e) /\
    highfds s = 5 /\ watched e Rd 5 = true.
Proof.
  intros ops.
  destruct (aio_managers_agree (∅ : gmap Z Z) 3 ops [false; true] (WatchSet {[5]} ∅)) as (s & e & Es & Ee & H).
  - reflexivity.
  - lia.
  - repeat constructor; cbn; lia.
  - vm_compute. reflexivity.
  - exists s, e. split; [exact Es|]. split; [exact Ee|].
    split; [vm_compute in Es; injection Es as <-; reflexivity|]. destruct (H Rd 5) as [_ ->]. reflexivity.
Defined.

(** [select] is asked about every watched descriptor, and [wait_ready]
    reports exactly those that are ready and watched. *)
Theorem select_reports_ready s r w rl wl s' x :
  select_ok s -> select_wait (select_enter s) (Ready r w) s = Some (rl, wl, s') ->
  (x ∈ rl <-> x ∈ r /\ select_watched s Rd x = true) /\
  (x ∈ wl <-> x ∈ w /\ select_watched s Wr x = true).
Proof.
  intros [H1 H2 H3 H4] Hw. unfold select_wait in Hw. cbn [select_enter trfds twfds high] in Hw.
  set (at_pipe := fun fd => _) in Hw.
  assert (forall y, y ∈ rfds s ∪ wfds s -> y ∈ seqZ 0 (highfds s + 1)) as Hin.
  { intros y Hy%H3. apply elem_of_seqZ. lia. }
  assert (rl = filter (fun fd => negb (at_pipe fd) && bool_decide (fd ∈ r ∩ rfds s) = true) (seqZ 0 (highfds s + 1)) /\
          wl = filter (fun fd => negb (at_pipe fd) && bool_decide (fd ∈ w ∩ wfds s) = true) (seqZ 0 (highfds s + 1))) as [-> ->].
  { destruct (existsb _ _); [destruct (pipe_bytes s); [done|]|]; by injection Hw as <- <- _. }
  clear Hw. rewrite !list_elem_of_filter. unfold at_pipe, select_watched. rewrite !andb_true_iff, !bool_decide_eq_true.
  rewrite !negb_true_iff, andb_false_iff, bool_decide_eq_false, Z.eqb_neq. split.
  - split; [intros [[[Hn|Hn] Hx] _]; set_solver|]. intros (Hr & Hx & Hn).
    split; [split; [by left|set_solver]|]. apply Hin. set_solver.
  - split; [set_solver|]. intros (Hr & Hx). split; [|apply Hin; set_solver]. split; [|set_solver].
    left. intros ->. done.
Qed.

Lemma select_reports_ready_witness :
  exists rl wl s', select_wait (select_enter (select_watch 5 CB_RDWR (select_new 3))) (Ready {[3; 5]} {[7]})
      (select_watch 5 CB_RDWR (select_new 3)) = Some (rl, wl, s') /\ 5 ∈ rl.
Proof.
  do 3 eexists. split; [vm_compute; reflexivity|].
  eapply (select_reports_ready (select_watch 5 CB_RDWR (select_new 3)) {[3; 5]} {[7]} [5] [] _ 5).
  - apply select_watch_ok; [lia|cbn; lia|]. apply select_new_ok. lia.
  - vm_compute. reflexivity.
  - split; [set_solver|reflexivity].
Defined.

(** [CB_MASK] is the complement of the mask it is used as, so [EPollAIO]
    answers [is_watched] with no for every descriptor and every kind of event, also
    right after the descriptor was watched. *)
Theorem epoll_is_watched_always_false {K} `{EPollLaws K} fd flag (s : epoll_aio K) :
  epoll_ok s -> fd < MAX_POLL_FDS -> flag_ok flag = true -> epoll_is_watched fd flag s = Some false.
Proof.
  intros [Hst _] Hf Hfl. specialize (Hst fd). unfold epoll_is_watched.
  rewrite (proj2 (Z.ltb_lt _ _) Hf). cbn [negb]. revert Hst. generalize (status fd s). intros st Hst.
  repeat (apply elem_of_cons in Hst as [->|Hst]); [..|by apply elem_of_nil in Hst]; by destruct flag.
Qed.

End aio.
