(* ===== verification/PollMgr.v ===== *)
(** * The poll manager

    [PollMgr] of [rpc/pollmgr.cc]: the table of callbacks, and the thread that
    waits for a descriptor and calls back, as a step for each stretch of code
    between two points where another thread can come in.  [block_remove_fd] is
    two steps, before and after it waits for the loop.  Everything but the last
    part holds for any [aio_mgr] that keeps the laws. *)

From stdpp Require Import gmap list.
From Stdlib Require Import ZArith Lia.
From S2P Require Import Prelude Text Marshall Connection Aio.

Local Open Scope Z_scope.

Module PollMgr.
Import aio.

Section Manager.
Context {S W R : Type} `{AioLaws S W R} {C : Type} `{EqDecision C}.

Record mgr := Mgr { callbacks : gmap Z C; aio_ : S; pending_change : bool }.

Definition mgr_new (a : S) : mgr := Mgr ∅ a false.

(** [None] is a failed assertion, of the manager or of its [aio_mgr] *)
Definition add_callback (fd : Z) (flag : poll_flag) (ch : C) (m : mgr) : option mgr :=
  if negb (fd <? MAX_POLL_FDS) then None
  else match watch_fd fd flag (aio_ m) with
       | None => None
       | Some a =>
           if match callbacks m !! fd with Some c => bool_decide (c = ch) | None => true end
           then Some (Mgr (<[fd := ch]> (callbacks m)) a (pending_change m))
           else None
       end.

Definition del_callback (fd : Z) (flag : poll_flag) (m : mgr) : option mgr :=
  match unwatch_fd fd flag (aio_ m) with
  | None => None
  | Some (b, a) =>
      Some (Mgr (if b then delete fd (callbacks m) else callbacks m) a (pending_change m))
  end.

Definition has_callback (fd : Z) (flag : poll_flag) (c : C) (m : mgr) : option bool :=
  match callbacks m !! fd with
  | Some c' => if bool_decide (c' = c) then is_watched fd flag (aio_ m) else Some false
  | None => Some false
  end.

(** [block_remove_fd] up to where it waits, and after it *)
Definition block_remove_begin (fd : Z) (m : mgr) : option mgr :=
  match unwatch_fd fd CB_RDWR (aio_ m) with
  | None => None
  | Some (_, a) => Some (Mgr (callbacks m) a true)
  end.

Definition block_remove_end (fd : Z) (m : mgr) : mgr :=
  Mgr (delete fd (callbacks m)) (aio_ m) (pending_change m).

(** Where [wait_loop] is: before the test of [pending_change_], before and
    inside [wait_ready], between two callbacks, inside one. *)
Inductive pc :=
| Top
| Enter
| Waiting (w : W)
| Dispatch (readable writable : list Z)
| Running (d : dir) (fd : Z) (c : C) (readable writable : list Z).

(** [removers]: the threads in [block_remove_fd], with the descriptor and
    whether they have been woken *)
Record world := World { mg : mgr; loop : pc; removers : gmap nat (Z * bool) }.

Definition world_new (a : S) : world := World (mgr_new a) Top ∅.

(** the test of [pending_change_]: the broadcast wakes all that wait *)
Definition loop_top (w : world) : world :=
  if pending_change (mg w)
  then World (Mgr (callbacks (mg w)) (aio_ (mg w)) false) Enter ((fun p => (p.1, true)) <$> removers w)
  else World (mg w) Enter (removers w).

(** the next descriptor of the two lists *)
Definition loop_next (m : mgr) (rs ws : list Z) : pc :=
  match rs, ws with
  | fd :: rs', _ => match callbacks m !! fd with
                    | Some c => Running Rd fd c rs' ws
                    | None => Dispatch rs' ws
                    end
  | [], fd :: ws' => match callbacks m !! fd with
                     | Some c => Running Wr fd c [] ws'
                     | None => Dispatch [] ws'
                     end
  | [], [] => Top
  end.

Inductive event :=
| Add (fd : Z) (flag : poll_flag) (ch : C)
| Del (fd : Z) (flag : poll_flag)
| RemoveBegin (t : nat) (fd : Z)
| RemoveEnd (t : nat)
| LoopTop | LoopEnter | LoopReady (k : R) | LoopNext | LoopReturn.

(** what a client may ask for *)
Definition legal (w : world) (fd : Z) (flag : poll_flag) : bool := usable (aio_ (mg w)) fd && flag_ok flag.

Definition with_mgr (w : world) (m : option mgr) : option world :=
  match m with Some m => Some (World m (loop w) (removers w)) | None => None end.

Definition step (w : world) (e : event) : option world :=
  match e with
  | Add fd flag ch => if legal w fd flag then with_mgr w (add_callback fd flag ch (mg w)) else None
  | Del fd flag => if legal w fd flag then with_mgr w (del_callback fd flag (mg w)) else None
  | RemoveBegin t fd =>
      if legal w fd CB_RDWR && bool_decide (removers w !! t = None) then
        match block_remove_begin fd (mg w) with
        | Some m => Some (World m (loop w) (<[t := (fd, false)]> (removers w)))
        | None => None
        end
      else None
  | RemoveEnd t =>
      match removers w !! t with
      | Some (fd, true) => Some (World (block_remove_end fd (mg w)) (loop w) (delete t (removers w)))
      | _ => None
      end
  | LoopTop => match loop w with Top => Some (loop_top w) | _ => None end
  | LoopEnter =>
      match loop w with
      | Enter => Some (World (mg w) (Waiting (wait_enter (aio_ (mg w)))) (removers w))
      | _ => None
      end
  | LoopReady k =>
      match loop w with
      | Waiting wt =>
          match wait_ready wt k (aio_ (mg w)) with
          | Some (rs, ws, a) =>
              let m := Mgr (callbacks (mg w)) a (pending_change (mg w)) in
              Some (World m (if bool_decide (rs = []) && bool_decide (ws = []) then Top else Dispatch rs ws)
                      (removers w))
          | None => None
          end
      | _ => None
      end
  | LoopNext =>
      match loop w with
      | Dispatch rs ws => Some (World (mg w) (loop_next (mg w) rs ws) (removers w))
      | _ => None
      end
  | LoopReturn =>
      match loop w with
      | Running _ _ _ rs ws => Some (World (mg w) (Dispatch rs ws) (removers w))
      | _ => None
      end
  end.

(** ** After [block_remove_fd] no callback runs *)

(** the descriptor is not watched *)
Definition unwatched (fd : Z) (w : world) : Prop :=
  forall d, watched (aio_ (mg w)) d fd = false.

(** and the loop does not deal with it *)
Definition quiet (fd : Z) (w : world) : Prop :=
  unwatched fd w /\
  match loop w with
  | Top | Enter => True
  | Waiting wt => sees wt (aio_ (mg w)) fd = false
  | Dispatch rs ws => (fd ∉ rs) /\ (fd ∉ ws)
  | Running _ fd' _ rs ws => fd' <> fd /\ (fd ∉ rs) /\ (fd ∉ ws)
  end.

Definition adds (fd : Z) (e : event) : bool :=
  match e with Add fd' _ _ => fd' =? fd | _ => false end.

(** What a step of a client does to the [aio_mgr]. *)
Lemma client_step_keeps fd w m' (f : Z) (flag : poll_flag) :
  aio_ok (aio_ (mg w)) -> legal w f flag = true ->
  (exists b, unwatch_fd f flag (aio_ (mg w)) = Some (b, aio_ m')) \/
  (f <> fd /\ watch_fd f flag (aio_ (mg w)) = Some (aio_ m')) ->
  aio_ok (aio_ m') /\
  forall rm, (unwatched fd w -> unwatched fd (World m' (loop w) rm)) /\
             (quiet fd w -> quiet fd (World m' (loop w) rm)).
Proof.
  intros Hok Hl Hw. unfold legal in Hl. to_prop.
  assert (aio_ok (aio_ m') /\ (forall d, watched (aio_ (mg w)) d fd = false -> watched (aio_ m') d fd = false) /\
          forall wt, sees wt (aio_ (mg w)) fd = false -> sees wt (aio_ m') fd = false) as (A1 & A2 & A3).
  { destruct Hw as [[b E]|[Hne E]].
    - apply unwatch_law in E as (A1 & _ & A2 & _ & A3); [|done..]. split; [done|]. split.
      + intros d Hd. by rewrite A2, Hd.
      + intros wt Hs. destruct (sees wt (aio_ m') fd) eqn:E; [|done]. apply A3 in E. congruence.
    - apply watch_law in E as (A1 & _ & A2 & A3); [|done..]. split; [done|]. split.
      + intros d Hd. rewrite A2, Hd. by rewrite (proj2 (Z.eqb_neq fd f)).
      + intros wt Hs. destruct (sees wt (aio_ m') fd) eqn:E; [|done]. apply A3 in E as [E|E]; congruence. }
  split; [done|]. intros rm. split; [intros Hu d; by apply A2|]. intros [Hu Hq].
  split; [intros d; by apply A2|]. cbn [loop mg]. destruct (loop w); auto.
Qed.

Lemma step_quiet fd w e w' :
  aio_ok (aio_ (mg w)) -> adds fd e = false -> step w e = Some w' ->
  aio_ok (aio_ (mg w')) /\ (unwatched fd w -> unwatched fd w') /\ (quiet fd w -> quiet fd w').
Proof.
  intros Hok Ha Hs. destruct e as [f flag ch|f flag|t f|t| | |k| |]; cbn [step adds] in *.
  - destruct (legal w f flag) eqn:El; [|done]. unfold add_callback in Hs.
    destruct (negb _); [done|]. destruct (watch_fd f flag _) as [a|] eqn:E; [|done].
    destruct (match _ with Some c => _ | None => _ end); [|done]. injection Hs as <-.
    destruct (client_step_keeps fd w (Mgr (<[f := ch]> (callbacks (mg w))) a (pending_change (mg w))) f flag)
      as [A1 A2]; [done..| |split; [done|apply A2]]. right. to_prop. done.
  - destruct (legal w f flag) eqn:El; [|done]. unfold del_callback in Hs.
    destruct (unwatch_fd f flag _) as [[b a]|] eqn:E; [|done]. injection Hs as <-.
    destruct (client_step_keeps fd w (Mgr (if b then delete f (callbacks (mg w)) else callbacks (mg w)) a
      (pending_change (mg w))) f flag) as [A1 A2]; [done..| |split; [done|apply A2]]. left. by exists b.
  - destruct (legal w f CB_RDWR) eqn:El; [|done]. destruct (bool_decide _); [|done]. unfold block_remove_begin in Hs.
    destruct (unwatch_fd f CB_RDWR _) as [[b a]|] eqn:E; [|done]. injection Hs as <-.
    destruct (client_step_keeps fd w (Mgr (callbacks (mg w)) a true) f CB_RDWR) as [A1 A2];
      [done..| |split; [done|apply A2]]. left. by exists b.
  - destruct (removers w !! t) as [[f []]|]; [|done..]. by injection Hs as <-.
  - destruct (loop w) eqn:El; [|done..]. injection Hs as <-. unfold loop_top, quiet, unwatched. rewrite El.
    by destruct (pending_change _).
  - destruct (loop w) eqn:El; [done| |done..]. injection Hs as <-. split; [done|]. split; [done|].
    intros [Hu _]. split; [done|]. cbn [loop mg].
    destruct (sees _ _ fd) eqn:E; [|done]. apply wait_sees in E; [|done].
    rewrite (Hu Rd), (Hu Wr) in E. done.
  - destruct (loop w) as [| |wt| |] eqn:El; [done..| |done|done].
    destruct (wait_ready wt k _) as [[[rs ws] a]|] eqn:E; [|done]. injection Hs as <-.
    apply wait_law in E as (A1 & _ & A2 & A3); [|done]. cbn [mg aio_].
    assert (unwatched fd w -> forall d, watched a d fd = false) as Hu by (intros Hu d; by rewrite A2).
    split; [done|]. split; [exact Hu|]. intros [Hw Hq]. split; [exact (Hu Hw)|]. rewrite El in Hq. cbn [loop].
    destruct (_ && _); [done|]. split; intros Hin; [rewrite A3 in Hq by (by left)|rewrite A3 in Hq by (by right)]; done.
  - destruct (loop w) as [| | |rs ws|] eqn:El; [done..| |done]. injection Hs as <-. split; [done|]. split; [done|].
    intros [Hw Hq]. split; [done|]. rewrite El in Hq. cbn [loop]. unfold loop_next.
    destruct rs as [|f rs]; [destruct ws as [|f ws]; [done|]|]; destruct (callbacks _ !! f); set_solver.
  - destruct (loop w) as [| | | |d f c rs ws] eqn:El; [done..|]. injection Hs as <-. split; [done|]. split; [done|].
    intros [Hw Hq]. split; [done|]. rewrite El in Hq. cbn [loop]. naive_solver.
Qed.
Lemma exec_aio_ok es w w' :
  aio_ok (aio_ (mg w)) -> exec step w es = Some w' -> aio_ok (aio_ (mg w')).
Proof.
  intros Hok. apply (exec_invariant step (fun w => aio_ok (aio_ (mg w)))); [|done].
  intros a e b Ha Hs. destruct e as [f flag ch| | | | | | | |];
    [|by eapply (step_quiet 0 a _ b Ha); [|exact Hs]..].
  apply (step_quiet (f + 1) a _ b Ha) in Hs as [Hb _]; [done|]. cbn. apply Z.eqb_neq. lia.
Qed.

(** A thread in [block_remove_fd]: it waits, or the loop has passed its test
    since and does not deal with the descriptor. *)
Definition removing (t : nat) (fd : Z) (w : world) : Prop :=
  aio_ok (aio_ (mg w)) /\ unwatched fd w /\
  (removers w !! t = Some (fd, false) \/ removers w !! t = Some (fd, true) /\ quiet fd w).

Lemma step_removing t fd w e w' :
  removing t fd w -> adds fd e = false -> e <> RemoveEnd t -> step w e = Some w' -> removing t fd w'.
Proof.
  intros (Hok & Hu & Hr) Ha He Hs.
  destruct (step_quiet fd w e w' Hok Ha Hs) as (Hok' & Hu' & Hq').
  split; [done|]. split; [by apply Hu'|].
  assert (removers w' !! t = removers w !! t \/ e = LoopTop /\ w' = loop_top w) as [Er|[-> ->]].
  { destruct e as [f flag ch|f flag|t' f|t'| | |k| |]; cbn [step] in Hs; unfold with_mgr in Hs;
      repeat case_match; simplify_eq; try (left; reflexivity).
    - left. cbn. rewrite lookup_insert_ne; [done|]. intros ->. to_prop. destruct Hr as [Hr|[Hr _]]; congruence.
    - left. cbn. rewrite lookup_delete_ne; [done|]. congruence.
    - by right. }
  - rewrite Er. destruct Hr as [Hr|[Hr Hq]]; [by left|]. right. auto.
  - unfold loop_top in *. destruct (pending_change (mg w)).
    + right. cbn. rewrite lookup_fmap. destruct Hr as [->|[-> _]]; (split; [done|]; split; [by apply Hu'|done]).
    + destruct Hr as [Hr|[Hr _]]; [by left|]. right. split; [done|]. split; [by apply Hu'|done].
Qed.

Lemma exec_removing t fd es w w' :
  removing t fd w -> Forall (fun e => adds fd e = false /\ e <> RemoveEnd t) es ->
  exec step w es = Some w' -> removing t fd w'.
Proof.
  revert w. induction es as [|e es IH]; intros w Hr Hes; cbn; [by intros [= <-]|].
  apply Forall_cons in Hes as [[H1 H2] Hes]. destruct (step w e) as [w1|] eqn:E; [|done].
  apply IH; [|done]. by eapply step_removing.
Qed.

Lemma remove_begin_removing t fd w w' :
  aio_ok (aio_ (mg w)) -> step w (RemoveBegin t fd) = Some w' -> removing t fd w'.
Proof.
  intros Hok E2. destruct (step_quiet fd w (RemoveBegin t fd) w' Hok eq_refl E2) as (Hok2 & _ & _).
  split; [done|]. cbn [step] in E2.
  destruct (legal w fd CB_RDWR) eqn:El; [|done]. destruct (bool_decide _); [|done]. unfold block_remove_begin in E2.
  destruct (unwatch_fd fd CB_RDWR _) as [[b a']|] eqn:E; [|done]. injection E2 as <-.
  unfold legal in El. to_prop. apply unwatch_law in E as (_ & _ & A2 & _); [|done..].
  split; [|left; cbn; by rewrite lookup_insert_eq].
  intros d. cbn. rewrite A2, Z.eqb_refl. by destruct d, (watched _ _ _).
Qed.

(** The descriptor is gone: not watched, not in the loop, without a callback. *)
Definition gone (fd : Z) (w : world) : Prop :=
  aio_ok (aio_ (mg w)) /\ quiet fd w /\ callbacks (mg w) !! fd = None.

Lemma step_gone fd w e w' : gone fd w -> adds fd e = false -> step w e = Some w' -> gone fd w'.
Proof.
  intros (Hok & Hq & Hc) Ha Hs. destruct (step_quiet fd w e w' Hok Ha Hs) as (Hok' & _ & Hq').
  split; [done|]. split; [by apply Hq'|]. clear Hq Hq' Hok'.
  destruct e as [f flag ch|f flag|t f|t| | |k| |]; cbn [step adds] in *; unfold with_mgr in Hs.
  - destruct (legal _ _ _); [|done]. unfold add_callback in Hs. repeat case_match; simplify_eq; cbn;
      rewrite lookup_insert_ne; (done || (to_prop; congruence)).
  - destruct (legal _ _ _); [|done]. unfold del_callback in Hs. repeat case_match; simplify_eq; cbn; [|done].
    rewrite lookup_delete_None. by right.
  - destruct (_ && _); [|done]. unfold block_remove_begin in Hs. repeat case_match; by simplify_eq.
  - repeat case_match; simplify_eq. cbn. rewrite lookup_delete_None. by right.
  - case_match; simplify_eq. unfold loop_top. by case_match.
  - case_match; by simplify_eq.
  - repeat case_match; by simplify_eq.
  - case_match; by simplify_eq.
  - case_match; by simplify_eq.
Qed.

(** C16: what [block_remove_fd] promises: once it has returned for a
    descriptor, no callback for the descriptor is running and none runs later,
    whatever the other threads do and whatever the loop was doing meanwhile, as
    long as nobody registers the descriptor again; so the connection may be
    deleted. *)
Theorem removed_fd_is_not_called a es1 t fd es2 es3 w :
  aio_ok a ->
  Forall (fun e => adds fd e = false /\ e <> RemoveEnd t) es2 -> Forall (fun e => adds fd e = false) es3 ->
  exec step (world_new a) (es1 ++ RemoveBegin t fd :: es2 ++ RemoveEnd t :: es3) = Some w ->
  callbacks (mg w) !! fd = None /\ (forall d, watched (aio_ (mg w)) d fd = false) /\
  forall d c rs ws, loop w <> Running d fd c rs ws.
Proof.
  intros Ha H2 H3 Hx. rewrite exec_app in Hx. destruct (exec step (world_new a) es1) as [w1|] eqn:E1; [|done].
  assert (aio_ok (aio_ (mg w1))) as Hok1 by (by eapply exec_aio_ok; [|exact E1]).
  cbn [exec] in Hx. destruct (step w1 (RemoveBegin t fd)) as [w2|] eqn:E2; [|done].
  assert (removing t fd w2) as Hr by (by eapply remove_begin_removing).
  rewrite exec_app in Hx. destruct (exec step w2 es2) as [w3|] eqn:E3; [|done].
  apply (exec_removing t fd es2 w2 w3 Hr H2) in E3 as (Hok3 & Hu3 & Hr3).
  cbn [exec] in Hx. destruct (step w3 (RemoveEnd t)) as [w4|] eqn:E4; [|done].
  assert (gone fd w4) as Hg.
  { cbn [step] in E4. destruct Hr3 as [->|[Hr3 Hq3]] in E4; [done|]. rewrite Hr3 in E4. injection E4 as <-.
    split; [done|]. split; [done|]. cbn. by rewrite lookup_delete_eq. }
  assert (gone fd w) as (_ & [Hu Hq] & Hc).
  { clear - Hg H3 Hx. revert w4 Hg Hx. induction H3 as [|e es He Hes IH]; intros w4 Hg; cbn; [by intros [= <-]|].
    destruct (step w4 e) as [w5|] eqn:E; [|done]. apply IH. by eapply step_gone. }
  split; [done|]. split; [exact Hu|]. intros d c rs ws El. rewrite El in Hq. by destruct Hq.
Qed.
End Manager.
Arguments mgr : clear implicits.
Arguments pc : clear implicits.
Arguments world : clear implicits.
Arguments event : clear implicits.

(** ** With [select], [block_remove_fd] returns *)

Section Wakeup.
Context {C : Type} `{EqDecision C}.

Definition swait (sn : snapshot) : pc snapshot C := Waiting sn.

Definition loop_event (e : event select_result C) : bool :=
  match e with LoopTop | LoopEnter | LoopReady _ | LoopNext | LoopReturn => true | _ => false end.

Definition about_to_wait (l : pc snapshot C) : bool :=
  match l with Enter | Waiting _ => true | _ => false end.

(** The pipe has a byte whenever a thread waits for the loop and the loop waits
    for a descriptor. *)
Record wake_inv (w : world select_aio snapshot C) : Prop := {
  wi_ok : select_ok (aio_ (mg w));
  wi_pending t fd : removers w !! t = Some (fd, false) -> pending_change (mg w) = true;
  wi_pipe : pending_change (mg w) = true -> about_to_wait (loop w) = true ->
    (0 < pipe_bytes (aio_ (mg w)))%nat;
  wi_snap sn : loop w = Waiting sn ->
    pipefd (aio_ (mg w)) ∈ trfds sn /\ 0 <= pipefd (aio_ (mg w)) <= high sn
}.

Lemma select_unwatch_pipe fd flag s b s' :
  select_unwatch fd flag s = Some (b, s') ->
  pipefd s' = pipefd s /\ (pipe_bytes s <= pipe_bytes s')%nat /\ (flag = CB_RDWR -> 0 < pipe_bytes s')%nat.
Proof.
  unfold select_unwatch. destruct flag; intros [= _ <-]; cbn [pipefd pipe_bytes];
    (split; [done|]; split; [|done || lia]); cbn; lia.
Qed.

Lemma wake_inv_client w m rm :
  wake_inv w -> select_ok (aio_ m) -> pipefd (aio_ m) = pipefd (aio_ (mg w)) ->
  (pipe_bytes (aio_ (mg w)) <= pipe_bytes (aio_ m))%nat ->
  (pending_change m = true -> pending_change (mg w) = true \/ (0 < pipe_bytes (aio_ m))%nat) ->
  (forall t fd, rm !! t = Some (fd, false) -> pending_change m = true) ->
  wake_inv (World m (loop w) rm).
Proof.
  intros [H1 H2 H3 H4] Hok Hp Hb Hpd Hrm. split; cbn [mg loop removers]; [done|done| |].
  - intros Hm Hl. destruct (Hpd Hm) as [Hw|]; [|done]. specialize (H3 Hw Hl). lia.
  - intros sn Hsn. rewrite Hp. by apply H4.
Qed.

Lemma select_legal (w : world select_aio snapshot C) f flag :
  legal w f flag = true -> 0 <= f /\ f <> pipefd (aio_ (mg w)) /\ flag_ok flag = true.
Proof. unfold legal. cbn [usable select_laws]. intros Hl. to_prop. done. Qed.

Lemma step_wake_inv w e w' : wake_inv w -> step w e = Some w' -> wake_inv w'.
Proof.
  intros Hw Hs. pose proof Hw as [H1 H2 H3 H4].
  assert (aio_ok (aio_ (mg w))) as Hok by exact H1.
  destruct e as [f flag ch|f flag|t f|t| | |k| |]; cbn [step] in Hs.
  - destruct (legal w f flag) eqn:El; [|done]. apply select_legal in El as (L1 & L2 & L3). unfold add_callback in Hs.
    cbn [watch_fd select_mgr] in Hs. destruct (negb _); [done|].
    destruct (match _ with Some c => _ | None => _ end); [|done]. injection Hs as <-.
    apply wake_inv_client; cbn; try done; [apply select_watch_ok; (done || lia)|..];
      [by destruct flag|destruct flag; cbn; lia|by left].
  - destruct (legal w f flag) eqn:El; [|done]. apply select_legal in El as (L1 & L2 & L3). unfold del_callback in Hs.
    destruct (unwatch_fd f flag _) as [[b a]|] eqn:E; [|done]. injection Hs as <-.
    destruct (select_unwatch_pipe _ _ _ _ _ E) as (E1 & E2 & _).
    apply wake_inv_client; try done; [by eapply select_unwatch_ok|by left].
  - destruct (legal w f CB_RDWR) eqn:El; [|done]. apply select_legal in El as (L1 & L2 & L3). destruct (bool_decide _); [|done].
    unfold block_remove_begin in Hs.
    destruct (unwatch_fd f CB_RDWR _) as [[b a]|] eqn:E; [|done]. injection Hs as <-.
    destruct (select_unwatch_pipe _ _ _ _ _ E) as (E1 & E2 & E3).
    apply wake_inv_client; try done; [by eapply select_unwatch_ok|]. intros _. right. by apply E3.
  - destruct (removers w !! t) as [[f []]|]; [|done..]. injection Hs as <-.
    apply wake_inv_client; try done; [by left|]. cbn. intros t' fd [_ Ht]%lookup_delete_Some. by eapply H2.
  - destruct (loop w) eqn:El; [|done..]. injection Hs as <-. unfold loop_top.
    destruct (pending_change (mg w)) eqn:Ep; split; cbn; try done.
    + intros t fd. rewrite lookup_fmap. by destruct (removers w !! t) as [[? ?]|].
    + intros t fd Ht. rewrite Ep. specialize (H2 t fd Ht). congruence.
    + congruence.
  - destruct (loop w) eqn:El; [done| |done..]. injection Hs as <-. split; cbn; [done|done| |].
    + intros Hp _. by apply H3.
    + intros sn [= <-]. split; [apply H1|]. apply (so_range _ H1). apply elem_of_union. left. apply H1.
  - destruct (loop w) as [| |wt| |] eqn:El; [done..| |done|done].
    destruct (wait_ready wt k _) as [[[rs ws] a]|] eqn:E; [|done]. injection Hs as <-.
    pose proof E as Ew. apply (wait_law (S := select_aio)) in E as (A1 & _); [|done].
    split; cbn [mg loop removers aio_ pending_change]; [done|done|by destruct (_ && _)|by destruct (_ && _)].
  - destruct (loop w) as [| | |rs ws|] eqn:El; [done..| |done]. injection Hs as <-.
    split; cbn; [done|done|..]; unfold loop_next; repeat case_match; done.
  - destruct (loop w) as [| | | |d f c rs ws] eqn:El; [done..|]. injection Hs as <-. by split; cbn.
Qed.

Lemma world_new_wake p : 0 <= p -> wake_inv (world_new (select_new p)).
Proof. intros Hp. split; cbn; [by apply select_new_ok|by intros t fd; rewrite lookup_empty|done|done]. Qed.

(** The loop comes back to its test. *)
Definition reaches_top (w : world select_aio snapshot C) : Prop :=
  exists es w', Forall (fun e => loop_event e = true) es /\ exec step w es = Some w' /\
    loop w' = Top /\ removers w' = removers w /\ pending_change (mg w') = pending_change (mg w).

Lemma reaches_top_step e w w1 :
  loop_event e = true -> step w e = Some w1 -> removers w1 = removers w ->
  pending_change (mg w1) = pending_change (mg w) -> reaches_top w1 -> reaches_top w.
Proof.
  intros He Hs Hr Hp (es & w' & H1 & H2 & H3 & H4 & H5). exists (e :: es), w'. split; [by constructor|].
  cbn [exec]. rewrite Hs. split_and!; congruence.
Qed.

Lemma dispatch_reaches_top n m rs ws rm :
  (length rs + length ws <= n)%nat -> reaches_top (World m (Dispatch rs ws) rm).
Proof.
  revert rs ws. induction n as [|n IH]; intros rs ws Hn;
    (eapply (reaches_top_step LoopNext); [reflexivity..|]); unfold loop_next; cbn [mg loop removers].
  - destruct rs, ws; cbn in Hn; try lia. exists [], (World m Top rm); by split_and!.
  - destruct rs as [|f rs]; [destruct ws as [|f ws]; [exists [], (World m Top rm); by split_and!|]|]; cbn in Hn;
      (destruct (callbacks m !! f); [eapply (reaches_top_step LoopReturn); [reflexivity..|]|]);
      apply IH; cbn; lia.
Qed.

(** A readable pipe ends the wait. *)
Lemma pipe_ends_wait sn s :
  pipefd s ∈ trfds sn -> 0 <= pipefd s <= high sn -> (0 < pipe_bytes s)%nat ->
  exists s', select_wait sn (Ready {[pipefd s]} ∅) s = Some ([], [], s').
Proof.
  intros Hp Hh Hb. unfold select_wait. set (p := pipefd s) in *.
  assert (existsb (fun fd => (fd =? p) && bool_decide (fd ∈ {[p]} ∩ trfds sn)) (seqZ 0 (high sn + 1)) = true) as ->.
  { apply existsb_exists. exists p. split; [apply list_elem_of_In, elem_of_seqZ; lia|].
    rewrite Z.eqb_refl. apply bool_decide_eq_true. set_solver. }
  destruct (pipe_bytes s) as [|n]; [lia|]. eexists. do 2 f_equal. f_equal.
  - apply elem_of_nil_inv. intros x [Hx _]%list_elem_of_filter. apply andb_true_iff in Hx as [H1 H2].
    apply bool_decide_eq_true in H2. assert (x = p) as -> by set_solver.
    rewrite Z.eqb_refl, bool_decide_true in H1 by done. done.
  - apply elem_of_nil_inv. intros x [Hx _]%list_elem_of_filter. apply andb_true_iff in Hx as [_ H2].
    apply bool_decide_eq_true in H2. set_solver.
Qed.

Lemma loop_reaches_top w : wake_inv w -> pending_change (mg w) = true -> reaches_top w.
Proof.
  intros Hw Hp. assert (forall w sn, wake_inv w -> pending_change (mg w) = true -> loop w = Waiting sn -> reaches_top w) as Hwait.
  { clear. intros w sn [H1 H2 H3 H4] Hp El. destruct (H4 sn El) as [Hin Hh].
    destruct (pipe_ends_wait sn (aio_ (mg w)) Hin Hh) as [s' E]; [apply H3; [done|by rewrite El]|].
    eapply (reaches_top_step (LoopReady (Ready {[pipefd (aio_ (mg w))]} ∅)));
      [done|cbn [step]; rewrite El; cbn [wait_ready select_mgr]; rewrite E; reflexivity|done|done|].
    rewrite !bool_decide_true by done. eexists [], _. by split_and!. }
  destruct (loop w) as [| |sn|rs ws|d f c rs ws] eqn:El.
  - exists [], w. by split_and!.
  - assert (step w LoopEnter = Some (World (mg w) (swait (select_enter (aio_ (mg w)))) (removers w))) as Es
      by (cbn [step]; by rewrite El).
    eapply (reaches_top_step LoopEnter); [done|exact Es|done|done|].
    eapply Hwait; [|done|done]. by eapply step_wake_inv.
  - by eapply Hwait.
  - destruct w as [m l rm]. cbn in El. subst l. by eapply dispatch_reaches_top.
  - destruct w as [m l rm]. cbn in El. subst l.
    eapply (reaches_top_step LoopReturn); [done|done|done|done|]. by eapply dispatch_reaches_top.
Qed.

(** C29: a thread in [block_remove_fd] is not forgotten: in every state in
    which it waits the loop can go on, without any other thread's help, to where
    it wakes the thread; in particular, when the loop waits for descriptors then a
    byte is in the pipe it listens to. *)
Theorem removal_completes p es w t fd :
  0 <= p -> exec step (world_new (select_new p)) es = Some w -> removers w !! t = Some (fd, false) ->
  (forall sn, loop w = Waiting sn -> pipefd (aio_ (mg w)) ∈ trfds sn /\ (0 < pipe_bytes (aio_ (mg w)))%nat) /\
  exists es' w', Forall (fun e => loop_event e = true) es' /\ exec step w (es' ++ [RemoveEnd t]) = Some w'.
Proof.
  intros Hp Hx Ht. assert (wake_inv w) as Hw.
  { eapply (exec_invariant step wake_inv); [|by apply (world_new_wake p)|exact Hx]. intros a e b. apply step_wake_inv. }
  pose proof Hw as [H1 H2 H3 H4]. specialize (H2 t fd Ht). split.
  - intros sn El. destruct (H4 sn El). split; [done|]. apply H3; [done|]. by rewrite El.
  - destruct (loop_reaches_top w Hw H2) as (es1 & w1 & E1 & E2 & E3 & E4 & E5).
    exists (es1 ++ [LoopTop]). eexists. split; [apply Forall_app; split; [done|by constructor]|].
    rewrite <- app_assoc, exec_app, E2. cbn [exec app step]. rewrite E3. unfold loop_top. rewrite E5, H2.
    cbn [removers]. rewrite lookup_fmap, E4, Ht. reflexivity.
Qed.
End Wakeup.

(** ** Concrete runs *)

(** the loop is in the middle of descriptor 5 when its removal begins *)
Definition demo_before : list (event select_result nat) :=
  [Add 5 CB_RDONLY 1%nat; Add 6 CB_RDONLY 2%nat; LoopTop; LoopEnter; LoopReady (Ready {[3; 5; 6]} ∅); LoopNext].

Definition demo_finish : list (event select_result nat) := [LoopReturn; LoopNext; LoopReturn; LoopNext; LoopTop].

Lemma removed_fd_is_not_called_witness :
  exists w, exec step (world_new (select_new 3))
      (demo_before ++ RemoveBegin 0 5 :: demo_finish ++ RemoveEnd 0 :: [LoopEnter; LoopReady (Ready {[6]} ∅); LoopNext]) = Some w /\
    loop w = Running Rd 6 2%nat [] [] /\ callbacks (mg w) !! 5 = None.
Proof.
  eexists. split; [vm_compute; reflexivity|]. split; [reflexivity|].
  eapply (removed_fd_is_not_called (select_new 3) demo_before 0 5 demo_finish
    [LoopEnter; LoopReady (Ready {[6]} ∅); LoopNext]).
  - apply select_new_ok. lia.
  - repeat constructor; discriminate.
  - repeat constructor.
  - vm_compute. reflexivity.
Defined.

Lemma removal_completes_witness :
  exists w es' w', exec step (world_new (select_new 3)) (demo_before ++ [RemoveBegin 0 5]) = Some w /\
    loop w = Running Rd 5 1%nat [6] [] /\ exec step w (es' ++ [RemoveEnd 0]) = Some w'.
Proof.
  assert (exists w, exec step (world_new (select_new 3)) (demo_before ++ [RemoveBegin 0 5]) = Some w /\
    loop w = Running Rd 5 1%nat [6] [] /\ removers w !! 0%nat = Some (5, false)) as (w & E & El & Er)
    by (eexists; split; [vm_compute; reflexivity|split; reflexivity]).
  destruct (removal_completes 3 _ w 0 5 ltac:(lia) E Er) as (_ & es' & w' & _ & Hx).
  exists w, es', w'. split; [exact E|]. split; [exact El|exact Hx].
Defined.

(** [block_remove_fd] waits once, without testing a condition.  In
    this state it waits while the callback of its descriptor runs, and a wakeup
    without a broadcast, which the system allows, would end it there. *)
Theorem spurious_wakeup_breaks_removal :
  exists w : world select_aio snapshot nat,
    exec step (world_new (select_new 3)) (demo_before ++ [RemoveBegin 0 5]) = Some w /\
    removers w !! 0%nat = Some (5, false) /\ loop w = Running Rd 5 1%nat [6] [].
Proof. eexists. split; [vm_compute; reflexivity|]. split; reflexivity. Qed.

(** [closeconn] marks the connection dead before it takes the
    descriptor out of the loop, and [write_cb] asserts that the connection is not
    dead.  The loop may come to its callback in between, for instance because the
    write callback of a finished [send] is still registered. *)
Theorem close_races_with_write_callback :
  (forall r cn, connection.write_cb r (connection.closeconn cn) = None) /\
  exists w : world select_aio snapshot nat,
    exec step (world_new (select_new 3))
      [Add 5 CB_RDONLY 1%nat; Add 5 CB_WRONLY 1%nat; LoopTop; LoopEnter; LoopReady (Ready ∅ {[5]}); LoopNext] = Some w /\
    loop w = Running Wr 5 1%nat [] [].
Proof.
  split.
  - intros r cn. unfold connection.write_cb, connection.closeconn.
    destruct (connection.dead cn) eqn:E; [by rewrite E|done].
  - eexists. split; [vm_compute; reflexivity|]. reflexivity.
Qed.

End PollMgr.
