(* ===== verification/ConnRef.v ===== *)
(** * Who owns a connection

    The reference counts of connections ([incref], [decref] of
    [rpc/connection.cc]) and the two places that create connections: the
    listener [tcpsconn] of [rpc/connection.cc], which keeps the accepted ones in
    a table and collects the dead ones, and the client [rpcc] of [rpc/rpc.cc],
    whose [get_refconn] replaces a dead one.  Connections live in an explicit
    store; an operation through a pointer to a deleted connection gives [None],
    like a failed assertion. *)

From stdpp Require Import gmap list.
From Stdlib Require Import ZArith Lia.
From S2P Require Import Prelude Text Marshall Connection.

Local Open Scope Z_scope.

Module ConnRef.
Import connection.

(** ** The store *)

(** the descriptor and the state of every connection that is not deleted *)
Record store := Store { heap : gmap nat (Z * conn); next : nat }.

Definition store_new : store := Store ∅ 0.

(** [new connection(mgr, fd, lossy)] *)
Definition new_connection (fd : Z) (st : store) : nat * store :=
  (next st, Store (<[next st := (fd, conn_new)]> (heap st)) (next st + 1)).

(** [c->incref()], [c->isdead()], [c->ref()], [c->closeconn()] *)
Definition incref_at (c : nat) (st : store) : option store :=
  match heap st !! c with
  | Some (fd, cn) => Some (Store (<[c := (fd, incref cn)]> (heap st)) (next st))
  | None => None
  end.

Definition isdead_at (c : nat) (st : store) : option bool :=
  match heap st !! c with Some (_, cn) => Some (isdead cn) | None => None end.

Definition ref_at (c : nat) (st : store) : option Z :=
  match heap st !! c with Some (_, cn) => Some (ref cn) | None => None end.

Definition close_at (c : nat) (st : store) : option store :=
  match heap st !! c with
  | Some (fd, cn) => Some (Store (<[c := (fd, closeconn cn)]> (heap st)) (next st))
  | None => None
  end.

(** [c->decref()]: the last reference to a dead connection deletes it *)
Definition decref_at (c : nat) (st : store) : option store :=
  match heap st !! c with
  | Some (fd, cn) =>
      match decref cn with
      | Some (true, _) => Some (Store (delete c (heap st)) (next st))
      | Some (false, cn') => Some (Store (<[c := (fd, cn')]> (heap st)) (next st))
      | None => None
      end
  | None => None
  end.

(** ** Counting references *)

Definition occ (c : nat) (refs : list nat) : nat := length (filter (eq c) refs).

#[export] Instance occ_perm c : Proper ((≡ₚ) ==> eq) (occ c).
Proof. intros l l' Hl. unfold occ. by rewrite Hl. Qed.

Lemma occ_cons c d refs : occ c (d :: refs) = ((if decide (c = d) then 1 else 0) + occ c refs)%nat.
Proof. unfold occ. rewrite filter_cons. by destruct (decide (c = d)). Qed.

Lemma occ_zero c refs : c ∉ refs -> occ c refs = 0%nat.
Proof.
  intros Hc. unfold occ. destruct (filter (eq c) refs) as [|x l] eqn:E; [done|].
  assert (x ∈ filter (eq c) refs) as [-> Hx]%list_elem_of_filter by (rewrite E; left). done.
Qed.

Lemma occ_pos c refs : c ∈ refs -> (0 < occ c refs)%nat.
Proof.
  intros Hc. unfold occ. assert (c ∈ filter (eq c) refs) as H by (by apply list_elem_of_filter).
  destruct (filter (eq c) refs); [by apply elem_of_nil in H|cbn; lia].
Qed.

(** [refs] are the references that are held: they are counted, and none of them
    is to a deleted connection. *)
Record refs_ok (st : store) (refs : list nat) : Prop := {
  ro_live c : c ∈ refs -> is_Some (heap st !! c);
  ro_count c fd cn : heap st !! c = Some (fd, cn) -> refno cn = Z.of_nat (occ c refs);
  ro_next c : is_Some (heap st !! c) -> (c < next st)%nat
}.

#[export] Instance refs_ok_perm st : Proper ((≡ₚ) ==> iff) (refs_ok st).
Proof.
  intros l l' Hl. split; intros [H1 H2 H3]; split; try done.
  - intros c. rewrite <- Hl. apply H1.
  - intros c fd cn E. rewrite <- Hl. by eapply H2.
  - intros c. rewrite Hl. apply H1.
  - intros c fd cn E. rewrite Hl. by eapply H2.
Qed.

Lemma refs_ok_new : refs_ok store_new [].
Proof. split; cbn; intros c; try (intros ? ?); rewrite ?lookup_empty; [set_solver|done|by intros []]. Qed.

Section Counting.
Context (st : store) (refs : list nat) (Hok : refs_ok st refs).

Lemma next_fresh : heap st !! next st = None /\ next st ∉ refs.
Proof.
  assert (heap st !! next st = None) as Hn.
  { apply eq_None_not_Some. intros Hs. apply (ro_next _ _ Hok) in Hs. lia. }
  split; [done|]. intros Hs%(ro_live _ _ Hok). rewrite Hn in Hs. by destruct Hs.
Qed.

Lemma new_connection_ok fd :
  let '(c, st') := new_connection fd st in refs_ok st' (c :: refs).
Proof.
  destruct next_fresh as [Hn Hr]. unfold new_connection. split; cbn [heap next].
  - intros c [->|Hc]%elem_of_cons; [rewrite lookup_insert_eq; by eexists|].
    rewrite lookup_insert_ne by (intros <-; done). by apply (ro_live _ _ Hok).
  - intros c fd' cn. rewrite occ_cons. intros [[<- [= <- <-]]|[Hne E]]%lookup_insert_Some.
    + rewrite decide_True by done. rewrite occ_zero by done. done.
    + rewrite decide_False by done. by eapply (ro_count _ _ Hok).
  - intros c [x [[<- _]|[_ E]]%lookup_insert_Some]; [lia|].
    assert (c < next st)%nat by (by eapply (ro_next _ _ Hok)). lia.
Qed.

Lemma incref_at_ok c : c ∈ refs -> exists st', incref_at c st = Some st' /\ refs_ok st' (c :: refs) /\
  forall d, (isdead_at d st' = isdead_at d st) /\ (fst <$> heap st' !! d) = (fst <$> heap st !! d).
Proof.
  intros Hc. destruct (ro_live _ _ Hok c Hc) as [[fd cn] E]. unfold incref_at. rewrite E.
  eexists. split; [done|]. split; [split; cbn [heap next]|].
  - intros d Hd. destruct (decide (c = d)) as [->|]; [rewrite lookup_insert_eq; by eexists|].
    rewrite lookup_insert_ne by done. apply (ro_live _ _ Hok). set_solver.
  - intros d fd' cn'. rewrite occ_cons. intros [[<- [= <- <-]]|[Hne E']]%lookup_insert_Some.
    + rewrite decide_True by done. cbn. rewrite (ro_count _ _ Hok _ _ _ E). lia.
    + rewrite decide_False by done. by eapply (ro_count _ _ Hok).
  - intros d [x [[<- _]|[_ E']]%lookup_insert_Some]; eapply (ro_next _ _ Hok); by eexists.
  - intros d. unfold isdead_at. cbn. destruct (decide (c = d)) as [->|];
      [rewrite lookup_insert_eq, E|rewrite lookup_insert_ne by done]; done.
Qed.

(** The state of a connection may change, except for its count. *)
Lemma set_conn_ok c fd cn cn' :
  heap st !! c = Some (fd, cn) -> refno cn' = refno cn ->
  refs_ok (Store (<[c := (fd, cn')]> (heap st)) (next st)) refs.
Proof.
  intros E Hr. split; cbn [heap next].
  - intros d Hd. destruct (decide (c = d)) as [->|]; [rewrite lookup_insert_eq; by eexists|].
    rewrite lookup_insert_ne by done. by apply (ro_live _ _ Hok).
  - intros d fd' cn1 [[<- [= <- <-]]|[Hne E']]%lookup_insert_Some; [rewrite Hr|]; by eapply (ro_count _ _ Hok).
  - intros d [x [[<- _]|[_ E']]%lookup_insert_Some]; eapply (ro_next _ _ Hok); by eexists.
Qed.
End Counting.

(** Giving a held reference back succeeds; the connection is deleted with its
    last reference if it is dead, and nothing else changes. *)
Lemma decref_at_ok st c refs :
  refs_ok st (c :: refs) ->
  exists st', decref_at c st = Some st' /\ refs_ok st' refs /\ next st' = next st /\
    (forall d, d <> c -> heap st' !! d = heap st !! d) /\
    (isdead_at c st = Some true -> c ∉ refs -> heap st' !! c = None) /\
    (c ∈ refs -> isdead_at c st' = isdead_at c st /\ (fst <$> heap st' !! c) = (fst <$> heap st !! c)).
Proof.
  intros Hok. destruct (ro_live _ _ Hok c) as [[fd cn] E]; [left|].
  pose proof (ro_count _ _ Hok _ _ _ E) as Hn. rewrite occ_cons, decide_True in Hn by done.
  unfold decref_at. rewrite E. unfold decref. destruct (refno cn - 1 <? 0) eqn:E0; to_prop; [lia|].
  destruct ((refno cn - 1 =? 0) && dead cn) eqn:E1; eexists; (split; [done|]); cbn [heap next].
  - to_prop. assert (c ∉ refs) as Hc by (intros Hc%occ_pos; lia). split; [split; cbn [heap next]|].
    + intros d Hd. rewrite lookup_delete_ne by (intros ->; done). apply (ro_live _ _ Hok). by right.
    + intros d fd' cn' [Hne E']%lookup_delete_Some. rewrite (ro_count _ _ Hok _ _ _ E'), occ_cons, decide_False by done.
      lia.
    + intros d [x [_ E']%lookup_delete_Some]. eapply (ro_next _ _ Hok). by eexists.
    + split; [done|]. split; [intros d Hd; by rewrite lookup_delete_ne|].
      split; [by rewrite lookup_delete_eq|done].
  - split; [split; cbn [heap next]|].
    + intros d Hd. destruct (decide (c = d)) as [->|]; [rewrite lookup_insert_eq; by eexists|].
      rewrite lookup_insert_ne by done. apply (ro_live _ _ Hok). by right.
    + intros d fd' cn' [[<- [= <- <-]]|[Hne E']]%lookup_insert_Some; [cbn; lia|].
      rewrite (ro_count _ _ Hok _ _ _ E'), occ_cons, decide_False by done. lia.
    + intros d [x [[<- _]|[_ E']]%lookup_insert_Some]; eapply (ro_next _ _ Hok); by eexists.
    + split; [done|]. split; [intros d Hd; by rewrite lookup_insert_ne|]. unfold isdead_at.
      rewrite E. cbn. rewrite lookup_insert_eq. split; [|done]. unfold isdead. intros [= Hd] Hc.
      apply andb_false_iff in E1 as [E1|E1]; [|congruence]. to_prop. rewrite occ_zero in Hn by done. lia.
Qed.

Lemma close_at_ok c st refs :
  refs_ok st refs -> is_Some (heap st !! c) ->
  exists st', close_at c st = Some st' /\ refs_ok st' refs /\ isdead_at c st' = Some true /\
    (forall d, (fst <$> heap st' !! d) = (fst <$> heap st !! d)) /\
    (forall d, d <> c -> heap st' !! d = heap st !! d).
Proof.
  intros Hok [[fd cn] E]. unfold close_at. rewrite E. eexists. split; [done|].
  split; [eapply set_conn_ok; [done|done|unfold closeconn; by destruct (dead cn)]|].
  unfold isdead_at. cbn. rewrite lookup_insert_eq.
  split; [unfold isdead, closeconn; destruct (dead cn) eqn:Ed; [by rewrite Ed|done]|].
  split; intros d; [|by intros Hne; rewrite lookup_insert_ne].
  destruct (decide (c = d)) as [->|]; [by rewrite lookup_insert_eq, E|by rewrite lookup_insert_ne].
Qed.

(** *** Owners and users

    [own] are the references of the object that created the connections, [refs]
    those of others: every connection is referred to, and one that is not dead by
    its owner. *)
Record owned (st : store) (own refs : list nat) : Prop := {
  ow_refs : refs_ok st (own ++ refs);
  ow_held c : is_Some (heap st !! c) -> c ∈ own ++ refs;
  ow_alive c : isdead_at c st = Some false -> c ∈ own
}.

#[export] Instance owned_perm st : Proper ((≡ₚ) ==> (≡ₚ) ==> iff) (owned st).
Proof.
  intros o o' Ho r r' Hr. split; intros [H1 H2 H3]; split.
  - by rewrite <- Ho, <- Hr.
  - intros c. rewrite <- Ho, <- Hr. apply H2.
  - intros c. rewrite <- Ho. apply H3.
  - by rewrite Ho, Hr.
  - intros c. rewrite Ho, Hr. apply H2.
  - intros c. rewrite Ho. apply H3.
Qed.

(** Connections keep their descriptors. *)
Definition same_fds (st st' : store) : Prop :=
  forall c x, heap st' !! c = Some x -> exists cn, heap st !! c = Some (x.1, cn).

Lemma same_fds_refl st : same_fds st st.
Proof. intros c [fd cn] E. by exists cn. Qed.

Lemma same_fds_of_fst st st' :
  (forall d, (fst <$> heap st' !! d) = (fst <$> heap st !! d)) -> same_fds st st'.
Proof.
  intros H c x E. specialize (H c). rewrite E in H. cbn in H.
  destruct (heap st !! c) as [[f cn]|]; [|done]. injection H as ->. by exists cn.
Qed.

Lemma owned_new : owned store_new [] [].
Proof.
  assert (forall c, heap store_new !! c = None) as Hn by (intros c; apply lookup_empty).
  split; [apply refs_ok_new|..]; intros c; unfold isdead_at; rewrite Hn; [by intros []|done].
Qed.

Lemma owned_alloc st own refs fd :
  owned st own refs -> let '(c, st') := new_connection fd st in owned st' (c :: own) refs.
Proof.
  intros [H1 H2 H3]. pose proof (new_connection_ok _ _ H1 fd) as Hn. unfold new_connection in *.
  split; cbn [app]; [done|..]; intros c; unfold isdead_at; cbn [heap];
    (destruct (decide (next st = c)) as [<-|Hc]; [set_solver|]); rewrite lookup_insert_ne by done.
  - intros Hs. right. by apply H2.
  - intros Hs. right. by apply H3.
Qed.

Lemma owned_close st own refs c :
  owned st own refs -> is_Some (heap st !! c) ->
  exists st', close_at c st = Some st' /\ owned st' own refs /\ same_fds st st' /\ isdead_at c st' = Some true.
Proof.
  intros [H1 H2 H3] Hc. destruct (close_at_ok c _ _ H1 Hc) as (st' & E & Ok & Hd & Hf & Ho).
  pose proof (same_fds_of_fst _ _ Hf) as Hs. exists st'. split; [done|]. split; [|done]. split; [done|..].
  - intros d [x Hx]. apply Hs in Hx as [cn Hx]. apply H2. by eexists.
  - intros d Hd'. apply H3. destruct (decide (d = c)) as [->|Hne]; [congruence|]. unfold isdead_at in *. by rewrite <- Ho.
Qed.

Lemma owned_incref st own refs c :
  owned st own refs -> c ∈ own ++ refs ->
  exists st', incref_at c st = Some st' /\ owned st' own (c :: refs) /\ same_fds st st' /\
    forall d, isdead_at d st' = isdead_at d st.
Proof.
  intros [H1 H2 H3] Hc. destruct (incref_at_ok _ _ H1 c Hc) as (st' & E & Ok & Hs).
  assert (same_fds st st') as Hfd by (apply same_fds_of_fst; intros d; apply Hs).
  assert (own ++ c :: refs ≡ₚ c :: own ++ refs) as Hp by (symmetry; apply Permutation_middle).
  exists st'. split; [done|]. split; [|split; [done|intros d; apply Hs]]. split; [by rewrite Hp|..].
  - intros d [x Hx]. apply Hfd in Hx as [cn Hx]. rewrite Hp. right. apply H2. by eexists.
  - intros d. rewrite (proj1 (Hs d)). apply H3.
Qed.

(** A reference is given back, by a user, or by the owner of a dead connection. *)
Lemma owned_decref st c own refs :
  refs_ok st (c :: own ++ refs) -> (forall d, is_Some (heap st !! d) -> d ∈ c :: own ++ refs) ->
  (forall d, isdead_at d st = Some false -> d ∈ own) ->
  exists st', decref_at c st = Some st' /\ owned st' own refs /\ same_fds st st' /\
    forall d, d <> c -> heap st' !! d = heap st !! d.
Proof.
  intros H1 H2 H3. destruct (decref_at_ok _ _ _ H1) as (st' & E & Ok & _ & Ho & Hgone & Hkeep). exists st'. split; [done|].
  assert (forall d x, heap st' !! d = Some x -> d = c /\ c ∈ own ++ refs \/ d <> c /\ heap st !! d = Some x) as Hcase.
  { intros d x Hx. destruct (decide (d = c)) as [->|Hne]; [left|right; split; [done|by rewrite <- Ho]]. split; [done|].
    destruct (decide (c ∈ own ++ refs)) as [|Hn]; [done|]. exfalso.
    destruct (isdead_at c st) as [[]|] eqn:Ed.
    - by rewrite Hgone in Hx.
    - apply Hn, elem_of_app. left. by apply H3.
    - unfold isdead_at in Ed. destruct (ro_live _ _ H1 c) as [[f cn] Hs]; [left|]. by rewrite Hs in Ed. }
  assert (same_fds st st') as Hold.
  { intros d x Hx. destruct (Hcase d x Hx) as [[-> Hin]|[_ Hx']]; [|destruct x; by eexists].
    destruct (Hkeep Hin) as [_ Hf]. rewrite Hx in Hf. cbn in Hf.
    destruct (heap st !! c) as [[f cn]|]; [|done]. injection Hf as ->. by exists cn. }
  split; [|done]. split; [done|..].
  - intros d [x Hx]. destruct (Hcase d x Hx) as [[-> ?]|[Hne Hx']]; [done|].
    specialize (H2 d (mk_is_Some _ _ Hx')). apply elem_of_cons in H2 as [->|?]; done.
  - intros d Hd. apply H3. destruct (decide (d = c)) as [->|Hne]; [|unfold isdead_at in *; by rewrite <- Ho].
    unfold isdead_at in Hd. destruct (heap st' !! c) as [x|] eqn:Ex; [|done].
    destruct (Hcase c x Ex) as [[_ Hin]|[? _]]; [|done]. rewrite <- (proj1 (Hkeep Hin)). unfold isdead_at. by rewrite Ex.
Qed.

Lemma owned_user_decref st c own refs :
  owned st own (c :: refs) ->
  exists st', decref_at c st = Some st' /\ owned st' own refs /\ same_fds st st' /\
    forall d, d <> c -> heap st' !! d = heap st !! d.
Proof.
  intros [H1 H2 H3]. assert (own ++ c :: refs ≡ₚ c :: own ++ refs) as Hp by (symmetry; apply Permutation_middle).
  apply owned_decref; [by rewrite <- Hp| |done]. intros d. rewrite <- Hp. apply H2.
Qed.

Lemma owned_owner_decref st c own refs :
  owned st (c :: own) refs -> isdead_at c st = Some true ->
  exists st', decref_at c st = Some st' /\ owned st' own refs /\ same_fds st st' /\
    forall d, d <> c -> heap st' !! d = heap st !! d.
Proof.
  intros [H1 H2 H3] Hd. apply owned_decref; [done|done|]. intros d Hd'.
  apply H3 in Hd' as Hin. apply elem_of_cons in Hin as [->|?]; [congruence|done].
Qed.

(** ** The listener *)

Record tcpsconn := Tcpsconn { conns : gmap Z nat; cstore : store }.

Definition tcpsconn_new : tcpsconn := Tcpsconn ∅ store_new.

(** one round of the loop that collects dead connections nobody else refers to *)
Definition collect (r : option tcpsconn) (e : Z * nat) : option tcpsconn :=
  match r with
  | None => None
  | Some l =>
      match isdead_at e.2 (cstore l), ref_at e.2 (cstore l) with
      | Some d, Some n =>
          if d && (n =? 1) then
            match decref_at e.2 (cstore l) with
            | Some st => Some (Tcpsconn (delete e.1 (conns l)) st)
            | None => None
            end
          else Some l
      | _, _ => None
      end
  end.

(** [process_accept], for the descriptor that [accept] returned *)
Definition process_accept (s1 : Z) (l : tcpsconn) : option tcpsconn :=
  let '(ch, st) := new_connection s1 (cstore l) in
  match foldl collect (Some (Tcpsconn (conns l) st)) (map_to_list (conns l)) with
  | Some l => Some (Tcpsconn (<[s1 := ch]> (conns l)) (cstore l))
  | None => None
  end.

(** what [select] and [accept] say in a round of [accept_conn] *)
Inductive accepted := Interrupted | SelectFailed | Selected (pipe tcp : bool) (s1 : option Z).

Inductive accept_result :=
| Again (l : tcpsconn)
| Stopped (l : tcpsconn)   (** the pipe was closed: the listener ends *)
| ThreadExit               (** [accept] failed *)
| AcceptAssert.

Definition accept_conn (a : accepted) (l : tcpsconn) : accept_result :=
  match a with
  | Interrupted => Again l
  | SelectFailed => AcceptAssert
  | Selected true _ _ => Stopped l
  | Selected false true None => ThreadExit
  | Selected false true (Some s1) =>
      match process_accept s1 l with Some l => Again l | None => AcceptAssert end
  | Selected false false _ => AcceptAssert
  end.

(** the loop of the destructor *)
Definition close_entry (r : option store) (e : Z * nat) : option store :=
  match r with
  | None => None
  | Some st => match close_at e.2 st with Some st => decref_at e.2 st | None => None end
  end.

Definition tcpsconn_delete (l : tcpsconn) : option store :=
  foldl close_entry (Some (cstore l)) (map_to_list (conns l)).

(** *** Runs of the listener with the users of its connections

    [holders]: the references of requests that are being served. *)
Record world := World { lst : tcpsconn; holders : list nat }.

Inductive event :=
| Accept (fd : Z)      (** a client connects *)
| Die (c : nat)        (** reading or writing fails *)
| Got (c : nat)        (** a request arrives: [rpcs::got_pdu] takes a reference *)
| Drop (c : nat).      (** a request is done *)

(** A new descriptor is not one of a connection that is still there; a dead
    connection receives nothing. *)
Definition guard (w : world) (e : event) : bool :=
  match e with
  | Accept fd => bool_decide (map_Forall (fun _ p => p.1 <> fd) (heap (cstore (lst w))))
  | Die c => bool_decide (is_Some (heap (cstore (lst w)) !! c))
  | Got c => bool_decide (isdead_at c (cstore (lst w)) = Some false)
  | Drop c => std_mem c (holders w)
  end.

Definition act (w : world) (e : event) : option world :=
  let l := lst w in
  match e with
  | Accept fd => match process_accept fd l with Some l => Some (World l (holders w)) | None => None end
  | Die c => match close_at c (cstore l) with
             | Some st => Some (World (Tcpsconn (conns l) st) (holders w))
             | None => None
             end
  | Got c => match incref_at c (cstore l) with
             | Some st => Some (World (Tcpsconn (conns l) st) (c :: holders w))
             | None => None
             end
  | Drop c => match decref_at c (cstore l) with
              | Some st => Some (World (Tcpsconn (conns l) st) (erase_first c (holders w)))
              | None => None
              end
  end.

Definition step (w : world) (e : event) : option world := if guard w e then act w e else None.

Definition table (m : gmap Z nat) : list nat := (map_to_list m).*2.

Lemma elem_of_table m c : c ∈ table m <-> exists fd, m !! fd = Some c.
Proof.
  unfold table. rewrite list_elem_of_fmap. split.
  - intros ([fd c'] & -> & H%elem_of_map_to_list). by exists fd.
  - intros [fd H]. exists (fd, c). split; [done|]. by apply elem_of_map_to_list.
Qed.

Lemma table_insert m fd c : m !! fd = None -> table (<[fd := c]> m) ≡ₚ c :: table m.
Proof. intros H. unfold table. by rewrite map_to_list_insert. Qed.

Lemma table_delete m fd c : m !! fd = Some c -> table m ≡ₚ c :: table (delete fd m).
Proof. intros H. unfold table. by rewrite <- (map_to_list_delete m fd c H). Qed.

(** References are counted, every connection is referred to, the table has the
    right descriptors and every connection that is not dead. *)
Record inv (l : tcpsconn) (hs : list nat) : Prop := {
  iv_owned : owned (cstore l) (table (conns l)) hs;
  iv_fd fd c : conns l !! fd = Some c -> (fst <$> heap (cstore l) !! c) = Some fd;
  iv_open c d fd cn cn' : heap (cstore l) !! c = Some (fd, cn) -> heap (cstore l) !! d = Some (fd, cn') -> c = d
}.

(** While the dead connections are collected, [ch], the new one, is an extra
    holder; [todo] are the entries still to be looked at. *)
Record collecting (s1 : Z) (ch : nat) (hs : list nat) (todo : list (Z * nat)) (l : tcpsconn) : Prop := {
  cl_owned : owned (cstore l) (ch :: table (conns l)) hs;
  cl_fd fd c : conns l !! fd = Some c -> (fst <$> heap (cstore l) !! c) = Some fd;
  cl_open c d fd cn cn' : heap (cstore l) !! c = Some (fd, cn) -> heap (cstore l) !! d = Some (fd, cn') -> c = d;
  cl_todo fd c : (fd, c) ∈ todo -> conns l !! fd = Some c;
  cl_nodup : NoDup todo.*1;
  cl_new : (ch ∉ table (conns l)) /\ (fst <$> heap (cstore l) !! ch) = Some s1 /\
    isdead_at ch (cstore l) = Some false;
  cl_done fd c : conns l !! fd = Some c -> (fd, c) ∈ todo \/
    ~ (isdead_at c (cstore l) = Some true /\ ref_at c (cstore l) = Some 1)
}.

Lemma table_inj l fd fd' c :
  (forall fd c, conns l !! fd = Some c -> (fst <$> heap (cstore l) !! c) = Some fd) ->
  conns l !! fd = Some c -> conns l !! fd' = Some c -> fd = fd'.
Proof. intros H H1%H H2%H. congruence. Qed.

Lemma collect_ok s1 ch hs fd c todo l :
  collecting s1 ch hs ((fd, c) :: todo) l -> exists l', collect (Some l) (fd, c) = Some l' /\ collecting s1 ch hs todo l'.
Proof.
  intros [H1 H3 H4 H6 H7 (N1 & N2 & N3) H8]. assert (conns l !! fd = Some c) as Hc by (apply H6; left).
  pose proof (table_delete _ _ _ Hc) as Ht.
  assert (ch :: table (conns l) ≡ₚ c :: ch :: table (delete fd (conns l))) as Hp by (rewrite Ht; apply perm_swap).
  destruct (ro_live _ _ (ow_refs _ _ _ H1) c) as [[fd' cn] Eh]; [rewrite Hp; set_solver|]. cbn [collect fst snd].
  unfold isdead_at at 1, ref_at at 1. rewrite Eh. cbn in H7. apply NoDup_cons in H7 as [Hn Hnd].
  destruct (isdead cn && (ref cn =? 1)) eqn:E.
  - apply andb_true_iff in E as [Ed Er]. rewrite Hp in H1.
    destruct (owned_owner_decref _ _ _ _ H1) as (st' & -> & Ow & Hs & Ho); [unfold isdead_at; by rewrite Eh, Ed|].
    eexists. split; [done|].
    assert (ch <> c) as Hcc by (intros ->; rewrite Ht in N1; set_solver).
    assert (forall f d, delete fd (conns l) !! f = Some d -> d <> c /\ conns l !! f = Some d) as Hdel.
    { intros f d [Hne Hd]%lookup_delete_Some. split; [|done]. intros ->. apply Hne. by eapply table_inj. }
    split; cbn [conns cstore].
    + done.
    + intros f d [Hne Hd]%Hdel. rewrite Ho by done. by apply H3.
    + intros d d' f x x' [? Hd]%Hs [? Hd']%Hs. by eapply H4.
    + intros f d Hfd. rewrite lookup_delete_ne; [apply H6; by right|]. intros <-.
      apply Hn, list_elem_of_fmap. by exists (fd, d).
    + done.
    + unfold isdead_at in *. rewrite Ho by done. rewrite Ht in N1. split; [set_solver|done].
    + intros f d [Hne Hd]%Hdel. unfold isdead_at, ref_at in *. rewrite Ho by done.
      destruct (H8 f d Hd) as [[?|?]%elem_of_cons|Hx]; [simplify_eq|by left|by right].
  - exists l. split; [done|]. split; try done.
    + intros f d Hfd. apply H6. by right.
    + intros f d Hd. destruct (H8 f d Hd) as [[[= -> ->]|?]%elem_of_cons|Hx]; [|by left|by right].
      right. unfold isdead_at, ref_at. rewrite Eh. intros [[= Ha] [= Hb]]. rewrite Ha, Hb in E. done.
Qed.

Lemma collect_visits_all s1 ch hs todo l :
  collecting s1 ch hs todo l -> exists l', foldl collect (Some l) todo = Some l' /\ collecting s1 ch hs [] l'.
Proof.
  revert l. induction todo as [|[fd c] todo IH]; intros l Hl; cbn [foldl]; [by exists l|].
  destruct (collect_ok _ _ _ _ _ _ _ Hl) as (l1 & -> & Hl1). by apply IH.
Qed.

Lemma accept_collecting s1 l hs :
  inv l hs -> map_Forall (fun _ p => p.1 <> s1) (heap (cstore l)) ->
  let '(ch, st) := new_connection s1 (cstore l) in
  collecting s1 ch hs (map_to_list (conns l)) (Tcpsconn (conns l) st).
Proof.
  intros [H1 H3 H4] Hfd. pose proof (owned_alloc _ _ _ s1 H1) as Hn.
  destruct (next_fresh _ _ (ow_refs _ _ _ H1)) as [_ Hf2]. unfold new_connection in *.
  assert (next (cstore l) ∉ table (conns l)) as Hne by set_solver.
  split; cbn [conns cstore heap].
  - done.
  - intros fd c Hc. rewrite lookup_insert_ne; [by apply H3|]. intros <-. apply Hne, elem_of_table. by exists fd.
  - intros c d fd cn cn' [[<- [= <- <-]]|[Hc E]]%lookup_insert_Some [[<- [= ?]]|[Hd E']]%lookup_insert_Some.
    + done.
    + by apply Hfd in E'.
    + subst. by apply Hfd in E.
    + by eapply H4.
  - intros fd c. by rewrite elem_of_map_to_list.
  - apply NoDup_fst_map_to_list.
  - unfold isdead_at. cbn. by rewrite lookup_insert_eq.
  - intros fd c Hc. left. by apply elem_of_map_to_list.
Qed.

(** A dead entry that was not collected is in use. *)
Lemma dead_entry_is_held l hs ch fd c :
  refs_ok (cstore l) (ch :: table (conns l) ++ hs) ->
  (forall fd c, conns l !! fd = Some c -> (fst <$> heap (cstore l) !! c) = Some fd) ->
  ch ∉ table (conns l) -> conns l !! fd = Some c -> isdead_at c (cstore l) = Some true ->
  ~ (isdead_at c (cstore l) = Some true /\ ref_at c (cstore l) = Some 1) -> c ∈ hs.
Proof.
  intros Hok Hfd Hch Hc Hd Hr. unfold isdead_at, ref_at in *.
  destruct (heap (cstore l) !! c) as [[f cn]|] eqn:E; [|done].
  pose proof (ro_count _ _ Hok _ _ _ E) as Hn. rewrite (table_delete _ _ _ Hc) in Hn, Hch. cbn [app] in Hn.
  rewrite !occ_cons, decide_False, decide_True in Hn by (done || intros ->; set_solver).
  destruct (decide (c ∈ table (delete fd (conns l)) ++ hs)) as [Hin|Hout].
  - apply elem_of_app in Hin as [[fd' [Hne Hd']%lookup_delete_Some]%elem_of_table|?]; [|done].
    exfalso. apply Hne. by eapply table_inj.
  - rewrite occ_zero in Hn by done. exfalso. apply Hr. split; [done|]. unfold ref. by rewrite Hn.
Qed.

(** What a new client brings about: the table has the new connection, every
    connection that it held before and that is not dead or has a user, and no
    dead one without a user. *)
Lemma process_accept_ok s1 l hs :
  inv l hs -> map_Forall (fun _ p => p.1 <> s1) (heap (cstore l)) ->
  exists l', process_accept s1 l = Some l' /\ inv l' hs /\
    forall fd c, conns l' !! fd = Some c -> isdead_at c (cstore l') = Some true -> c ∈ hs.
Proof.
  intros Hi Hfd. pose proof (accept_collecting s1 l hs Hi Hfd) as Hc. unfold process_accept.
  destruct (new_connection s1 (cstore l)) as [ch st].
  destruct (collect_visits_all _ _ _ _ _ Hc) as (l1 & -> & [H1 H3 H4 _ _ (Hn & Hch & Hnd) H8]). eexists. split; [done|].
  assert (conns l1 !! s1 = None) as Hs1.
  { apply eq_None_not_Some. intros [c Hc1]. apply Hn. pose proof (H3 _ _ Hc1) as Hf.
    destruct (heap (cstore l1) !! c) as [[f cn]|] eqn:E; [|done]. cbn in Hf. injection Hf as ->.
    destruct (heap (cstore l1) !! ch) as [[f cn']|] eqn:E'; [|done]. cbn in Hch. injection Hch as ->.
    rewrite <- (H4 _ _ _ _ _ E E'). apply elem_of_table. by exists s1. }
  split; [split; cbn [conns cstore]|]; cbn [conns cstore].
  - by rewrite (table_insert _ _ _ Hs1).
  - intros fd c [[<- <-]|[_ Hc']]%lookup_insert_Some; [done|by apply H3].
  - done.
  - intros fd c Hx Hd. apply lookup_insert_Some in Hx as [[<- <-]|[Hne Hx]]; [congruence|].
    destruct (H8 fd c Hx) as [?%elem_of_nil|Hr]; [done|].
    by apply (dead_entry_is_held l1 hs ch fd c); [apply H1|..].
Qed.

Lemma close_entries_ok todo hs st :
  refs_ok st (todo.*2 ++ hs) -> (forall c, is_Some (heap st !! c) -> c ∈ todo.*2 ++ hs) ->
  exists st', foldl close_entry (Some st) todo = Some st' /\ refs_ok st' hs /\
    forall c, is_Some (heap st' !! c) -> c ∈ hs.
Proof.
  revert st. induction todo as [|[fd c] todo IH]; intros st Hok Hl; cbn [foldl close_entry fst snd]; [by exists st|].
  cbn in Hok, Hl. destruct (close_at_ok c st _ Hok) as (st1 & -> & Ok1 & Hd1 & Hf1 & _); [apply (ro_live _ _ Hok); left|].
  destruct (decref_at_ok _ _ _ Ok1) as (st2 & -> & Ok2 & _ & Ho2 & Hd2 & _). apply IH; [done|].
  intros d Hd. destruct (decide (d ∈ todo.*2 ++ hs)) as [|Hn]; [done|]. exfalso.
  destruct (decide (d = c)) as [->|Hne]; [rewrite Hd2 in Hd by done; by destruct Hd|].
  rewrite Ho2 in Hd by done. assert (is_Some (heap st !! d)) as Hs.
  { destruct Hd as [x Hx]. pose proof (Hf1 d) as Hf. rewrite Hx in Hf. cbn in Hf.
    destruct (heap st !! d); [by eexists|done]. }
  apply Hl, elem_of_cons in Hs as [->|?]; done.
Qed.

Lemma erase_first_perm (c : nat) l : c ∈ l -> l ≡ₚ c :: erase_first c l.
Proof.
  induction l as [|d l IH]; intros Hc; [by apply elem_of_nil in Hc|]. cbn.
  destruct (decide (d = c)) as [->|Hne]; [done|]. apply elem_of_cons in Hc as [->|Hc]; [done|].
  rewrite Permutation_swap. by rewrite <- IH.
Qed.

Lemma inv_store l hs st hs' :
  inv l hs -> owned st (table (conns l)) hs' -> same_fds (cstore l) st -> inv (Tcpsconn (conns l) st) hs'.
Proof.
  intros [H1 H3 H4] Ho Hs. split; cbn [conns cstore]; [done|..].
  - intros fd c Hc. destruct (ro_live _ _ (ow_refs _ _ _ Ho) c) as [x Ex].
    { apply elem_of_app. left. apply elem_of_table. by exists fd. }
    rewrite Ex. apply Hs in Ex as [cn Ex]. apply H3 in Hc. rewrite Ex in Hc. done.
  - intros c d fd cn cn' [? Hx]%Hs [? Hy]%Hs. by eapply H4.
Qed.

Lemma listener_act_inv w e : inv (lst w) (holders w) -> guard w e = true ->
  exists w', act w e = Some w' /\ inv (lst w') (holders w').
Proof.
  intros Hi Hg. destruct w as [l hs]. pose proof (iv_owned _ _ Hi) as Ho.
  destruct e as [fd|c|c|c]; cbn [guard act lst holders] in *; to_prop.
  - destruct (process_accept_ok fd l hs Hi Hg) as (l' & -> & Hi' & _). by eexists.
  - destruct (owned_close _ _ _ c Ho Hg) as (st & -> & Ho' & Hs & _). eexists. split; [done|]. by eapply inv_store.
  - destruct (owned_incref _ _ _ c Ho) as (st & -> & Ho' & Hs & _).
    { apply elem_of_app. left. by apply (ow_alive _ _ _ Ho). }
    eexists. split; [done|]. by eapply inv_store.
  - apply std_mem_spec in Hg. rewrite (erase_first_perm c hs Hg) in Ho.
    destruct (owned_user_decref _ _ _ _ Ho) as (st & -> & Ho' & Hs & _). eexists. split; [done|]. by eapply inv_store.
Qed.

Lemma tcpsconn_inv : inv tcpsconn_new [].
Proof.
  split; cbn [tcpsconn_new conns cstore]; [apply owned_new|..].
  - intros fd c. by rewrite lookup_empty.
  - intros c d fd cn cn'. cbn. by rewrite lookup_empty.
Qed.

(** C17: whatever clients connect, requests arrive and finish, and
    connections die, the listener and the threads that serve requests only use
    connections that are not deleted; no reference count goes below zero; a
    connection is deleted as soon as it is dead, out of the table and without a
    user; accepting a client never loses an entry of the table, and leaves no dead
    one without a user in it; and deleting the listener deletes every connection
    without a user. *)
Theorem listener_references es w e :
  exec step (World tcpsconn_new []) es = Some w ->
  (guard w e = true -> is_Some (act w e)) /\
  (forall fd c, conns (lst w) !! fd = Some c -> exists cn, heap (cstore (lst w)) !! c = Some (fd, cn)) /\
  (forall c, c ∈ holders w -> is_Some (heap (cstore (lst w)) !! c)) /\
  (forall c, is_Some (heap (cstore (lst w)) !! c) -> (exists fd, conns (lst w) !! fd = Some c) \/ c ∈ holders w) /\
  (forall fd w', step w (Accept fd) = Some w' -> forall f c, conns (lst w') !! f = Some c ->
     isdead_at c (cstore (lst w')) = Some true -> c ∈ holders w') /\
  (exists st, tcpsconn_delete (lst w) = Some st /\ forall c, is_Some (heap st !! c) -> c ∈ holders w).
Proof.
  intros Hx. assert (inv (lst w) (holders w)) as Hi.
  { apply (exec_invariant step (fun w => inv (lst w) (holders w)) es (World tcpsconn_new [])); [|exact tcpsconn_inv|exact Hx].
    intros a ev b Ha. unfold step. destruct (guard a ev) eqn:Eg; [|done].
    destruct (listener_act_inv a ev Ha Eg) as (w' & -> & Hw'). by intros [= <-]. }
  pose proof Hi as [[H1 H2 H5] H3 H4]. split; [|split; [|split; [|split; [|split]]]].
  - intros Hg. destruct (listener_act_inv w e Hi Hg) as (w' & -> & _). by eexists.
  - intros fd c Hc%H3. destruct (heap (cstore (lst w)) !! c) as [[f cn]|]; [|done]. injection Hc as ->. by eexists.
  - intros c Hc. apply (ro_live _ _ H1). set_solver.
  - intros c [Hc|Hc]%H2%elem_of_app; [left; by apply elem_of_table|by right].
  - intros fd w' Hs. unfold step in Hs. destruct (guard w (Accept fd)) eqn:Eg; [|done]. cbn [guard act] in *. to_prop.
    destruct (process_accept_ok fd _ _ Hi Eg) as (l' & E & _ & Hd). rewrite E in Hs. injection Hs as <-. exact Hd.
  - destruct (close_entries_ok (map_to_list (conns (lst w))) (holders w) (cstore (lst w)) H1 H2) as (st & E & _ & Hl).
    by exists st.
Qed.

Lemma listener_references_witness :
  let es := [Accept 5; Got 0; Accept 6; Die 0; Die 1; Accept 7] in
  exists w, exec step (World tcpsconn_new []) es = Some w /\ conns (lst w) = {[5 := 0%nat; 7 := 2%nat]} /\
    is_Some (act w (Drop 0)).
Proof.
  intros es. eexists. split; [vm_compute; reflexivity|]. split; [vm_compute; reflexivity|].
  match goal with |- is_Some (act ?w _) => destruct (listener_references es w (Drop 0)) as [H _] end.
  - vm_compute. reflexivity.
  - apply H. vm_compute. reflexivity.
Defined.

End ConnRef.
