(* ===== verification/RpccCall.v ===== *)
(** * A call from the client's side

    The rest of [rpcc] of [rpc/rpc.cc]: [get_refconn], which finds or makes the
    connection to the server, the waiting and retransmitting loop of [call1], and
    the references that the calls hold.  What the clock says, whether the reply is
    there in time and whether a connection can be made are arguments of each round
    of the loop. *)

From stdpp Require Import gmap list.
From Stdlib Require Import ZArith Lia.
From S2P Require Import Prelude Text Marshall Rpc Rpcc Connection ConnRef.

Local Open Scope Z_scope.

Module rpcc_call.
Import connection ConnRef.

(** ** The connection *)

(** [chan_], and the connections that are not deleted *)
Record channel := Channel { chan : option nat; ccs : store }.

(** [connect_to_dst]: [res] is the socket, if the server was reached *)
Definition connect_to_dst (res : option Z) (st : store) : option nat * store :=
  match res with
  | Some fd => let '(c, st) := new_connection fd st in (Some c, st)
  | None => (None, st)
  end.

(** [get_refconn(&ch)]; [None] when it uses a deleted connection *)
Definition get_refconn (res : option Z) (ch : option nat) (k : channel) : option (option nat * channel) :=
  match
    match chan k with
    | None => let '(c, st) := connect_to_dst res (ccs k) in Some (Channel c st)
    | Some c =>
        match isdead_at c (ccs k) with
        | None => None
        | Some false => Some k
        | Some true =>
            match decref_at c (ccs k) with
            | None => None
            | Some st => let '(c, st) := connect_to_dst res st in Some (Channel c st)
            end
        end
    end
  with
  | None => None
  | Some k =>
      match chan k with
      | None => Some (ch, k)
      | Some c =>
          match (match ch with Some d => decref_at d (ccs k) | None => Some (ccs k) end) with
          | None => None
          | Some st => match incref_at c st with
                       | Some st => Some (Some c, Channel (chan k) st)
                       | None => None
                       end
          end
      end
  end.

(** the end of [call1]: [if (ch) ch->decref()] *)
Definition drop_conn (ch : option nat) (k : channel) : option channel :=
  match ch with
  | None => Some k
  | Some c => match decref_at c (ccs k) with Some st => Some (Channel (chan k) st) | None => None end
  end.

(** the destructor *)
Definition rpcc_delete (k : channel) : option store :=
  match chan k with
  | None => Some (ccs k)
  | Some c => match close_at c (ccs k) with Some st => decref_at c st | None => None end
  end.

(** *** Runs of several calls *)

(** [users]: the [ch] of every call *)
Record world := World { ck : channel; users : gmap nat (option nat) }.

Inductive event :=
| Begin (i : nat)
| Transmit (i : nat) (res : option Z)
| End (i : nat)
| Die (c : nat).

Definition guard (w : world) (e : event) : bool :=
  match e with
  | Begin i => bool_decide (users w !! i = None)
  | Transmit i _ | End i => map_has (users w) i
  | Die c => bool_decide (is_Some (heap (ccs (ck w)) !! c))
  end.

Definition act (w : world) (e : event) : option world :=
  match e with
  | Begin i => Some (World (ck w) (<[i := None]> (users w)))
  | Transmit i res =>
      match get_refconn res (map_get None (users w) i) (ck w) with
      | Some (ch, k) => Some (World k (<[i := ch]> (users w)))
      | None => None
      end
  | End i =>
      match drop_conn (map_get None (users w) i) (ck w) with
      | Some k => Some (World k (delete i (users w)))
      | None => None
      end
  | Die c =>
      match close_at c (ccs (ck w)) with
      | Some st => Some (World (Channel (chan (ck w)) st) (users w))
      | None => None
      end
  end.

Definition step (w : world) (e : event) : option world := if guard w e then act w e else None.

Definition one (o : option nat) : list nat := option_list o.

(** the references of all calls *)
Definition user_refs (m : gmap nat (option nat)) : list nat := omap id (map_to_list m).*2.

Lemma user_refs_insert m i ch : m !! i = None -> user_refs (<[i := ch]> m) ≡ₚ one ch ++ user_refs m.
Proof. intros H. unfold user_refs. rewrite map_to_list_insert by done. cbn. by destruct ch. Qed.

Lemma user_refs_delete m i ch : m !! i = Some ch -> user_refs m ≡ₚ one ch ++ user_refs (delete i m).
Proof. intros H. unfold user_refs. rewrite <- (map_to_list_delete m i ch H). cbn. by destruct ch. Qed.

Lemma user_refs_set m i ch ch' : m !! i = Some ch ->
  user_refs (<[i := ch']> m) ≡ₚ one ch' ++ user_refs (delete i m).
Proof.
  intros H. rewrite <- insert_delete_eq. by apply user_refs_insert, lookup_delete_eq.
Qed.

Lemma get_refconn_owned res ch k refs :
  owned (ccs k) (one (chan k)) (one ch ++ refs) ->
  exists ch' k', get_refconn res ch k = Some (ch', k') /\ owned (ccs k') (one (chan k')) (one ch' ++ refs) /\
    (chan k' <> None -> ch' = chan k') /\ (chan k' = None -> res = None /\ ch' = ch).
Proof.
  intros Ho.
  assert (forall st refs, owned st [] refs ->
    exists c st', connect_to_dst res st = (c, st') /\ owned st' (one c) refs /\ (c = None -> res = None)) as Hconn.
  { clear. intros st refs Ho. unfold connect_to_dst. destruct res as [fd|]; [|by exists None, st].
    pose proof (owned_alloc _ _ _ fd Ho) as H. destruct (new_connection fd st) as [c st']. by exists (Some c), st'. }
  assert (exists k1, match chan k with
    | None => let '(c, st) := connect_to_dst res (ccs k) in Some (Channel c st)
    | Some c => match isdead_at c (ccs k) with
                | None => None
                | Some false => Some k
                | Some true => match decref_at c (ccs k) with
                               | None => None
                               | Some st => let '(c, st) := connect_to_dst res st in Some (Channel c st)
                               end
                end
    end = Some k1 /\ owned (ccs k1) (one (chan k1)) (one ch ++ refs) /\ (chan k1 = None -> res = None)) as (k1 & E & O1 & Hn).
  { destruct (chan k) as [c|] eqn:Ec.
    - destruct (ro_live _ _ (ow_refs _ _ _ Ho) c) as [[f cn] Eh]; [cbn; by left|].
      assert (isdead_at c (ccs k) = Some (isdead cn)) as Ed by (unfold isdead_at; by rewrite Eh).
      rewrite Ed. destruct (isdead cn); [|exists k; rewrite Ec; by split_and!].
      destruct (owned_owner_decref _ _ [] _ Ho Ed) as (st & -> & O1 & _).
      destruct (Hconn st _ O1) as (c' & st' & -> & O2 & H2). by eexists.
    - destruct (Hconn (ccs k) _ Ho) as (c' & st' & -> & O2 & H2). by eexists. }
  unfold get_refconn. rewrite E. destruct (chan k1) as [c|] eqn:Ec; [|exists ch, k1; rewrite Ec; split_and!; auto; done].
  assert (exists st, match ch with Some d => decref_at d (ccs k1) | None => Some (ccs k1) end = Some st /\
    owned st [c] refs) as (st & -> & O2).
  { destruct ch as [d|]; [|by exists (ccs k1)]. destruct (owned_user_decref _ _ _ _ O1) as (st & -> & O2 & _). by exists st. }
  destruct (owned_incref _ _ _ c O2) as (st' & -> & O3 & _); [cbn; by left|].
  exists (Some c), (Channel (Some c) st'). by split_and!.
Qed.

Definition inv (w : world) : Prop := owned (ccs (ck w)) (one (chan (ck w))) (user_refs (users w)).

Lemma client_act_inv w e : inv w -> guard w e = true -> exists w', act w e = Some w' /\ inv w'.
Proof.
  unfold inv. intros Hi Hg. destruct e as [i|i res|i|c]; cbn [guard act] in *.
  - to_prop. eexists. split; [done|]. cbn [ck users]. by rewrite user_refs_insert.
  - apply map_has_true in Hg as [ch Hch]. unfold map_get. rewrite Hch. cbn [default from_option id].
    rewrite (user_refs_delete _ _ _ Hch) in Hi.
    destruct (get_refconn_owned res ch (ck w) _ Hi) as (ch' & k' & -> & Ho & _). eexists. split; [done|].
    cbn [ck users]. by rewrite (user_refs_set _ _ _ _ Hch).
  - apply map_has_true in Hg as [ch Hch]. unfold map_get. rewrite Hch. cbn [default from_option id].
    rewrite (user_refs_delete _ _ _ Hch) in Hi. destruct ch as [c|]; cbn [drop_conn]; [|by eexists].
    destruct (owned_user_decref _ _ _ _ Hi) as (st & -> & Ho & _). by eexists.
  - to_prop. destruct (owned_close _ _ _ c Hi Hg) as (st & -> & Ho & _). by eexists.
Qed.

(** C28: several threads may call through one [rpcc] while its
    connection dies and is replaced: no call uses a deleted connection, no
    reference count goes below zero, a connection that can be made is the one that
    is used, and when the calls have ended the destructor deletes every
    connection. *)
Theorem client_references es w e :
  exec step (World (Channel None store_new) ∅) es = Some w ->
  (guard w e = true -> is_Some (act w e)) /\
  (forall i c, users w !! i = Some (Some c) -> is_Some (heap (ccs (ck w)) !! c)) /\
  (forall i fd, is_Some (users w !! i) -> exists w' c, act w (Transmit i (Some fd)) = Some w' /\
     users w' !! i = Some (Some c) /\ chan (ck w') = Some c) /\
  (users w = ∅ -> exists st, rpcc_delete (ck w) = Some st /\ forall c, heap st !! c = None).
Proof.
  intros Hx. assert (inv w) as Hi.
  { apply (exec_invariant step inv es (World (Channel None store_new) ∅)); [|exact owned_new|exact Hx].
    intros a ev b Ha. unfold step. destruct (guard a ev) eqn:Eg; [|done].
    destruct (client_act_inv a ev Ha Eg) as (w' & -> & Hw'). by intros [= <-]. }
  split; [|split; [|split]].
  - intros Hg. destruct (client_act_inv w e Hi Hg) as (w' & -> & _). by eexists.
  - intros i c Hc. apply (ro_live _ _ (ow_refs _ _ _ Hi)). apply elem_of_app. right.
    rewrite (user_refs_delete _ _ _ Hc). cbn. by left.
  - intros i fd [ch Hch]. cbn [act]. unfold map_get. rewrite Hch. cbn [default from_option id].
    pose proof Hi as Ho. unfold inv in Ho. rewrite (user_refs_delete _ _ _ Hch) in Ho.
    destruct (get_refconn_owned (Some fd) ch (ck w) _ Ho) as (ch' & k' & -> & _ & H1 & H2).
    destruct (chan k') as [c|] eqn:Ec; [|by destruct (H2 eq_refl)]. specialize (H1 ltac:(done)) as ->.
    do 2 eexists. split; [done|]. cbn [ck users]. by rewrite lookup_insert_eq.
  - intros Hu. unfold inv in Hi. rewrite Hu in Hi. unfold rpcc_delete. destruct (chan (ck w)) as [c|] eqn:Ec.
    + destruct (owned_close _ _ _ c Hi) as (st & -> & Ho & _ & Hd); [apply (ro_live _ _ (ow_refs _ _ _ Hi)); cbn; by left|].
      destruct (owned_owner_decref _ _ [] _ Ho Hd) as (st' & -> & Ho' & _). exists st'. split; [done|].
      intros d. apply eq_None_not_Some. intros Hs%(ow_held _ _ _ Ho'). by apply elem_of_nil in Hs.
    + eexists. split; [done|]. intros d. apply eq_None_not_Some. intros Hs%(ow_held _ _ _ Hi). by apply elem_of_nil in Hs.
Qed.

Lemma client_references_witness :
  let es := [Begin 0; Transmit 0 (Some 5); Begin 1; Transmit 1 None; Die 0; Transmit 0 (Some 6); End 1] in
  exists w, exec step (World (Channel None store_new) ∅) es = Some w /\ chan (ck w) = Some 1%nat /\
    heap (ccs (ck w)) !! 0%nat = None /\ is_Some (act w (End 0)).
Proof.
  intros es. eexists. split; [vm_compute; reflexivity|]. split; [reflexivity|]. split; [reflexivity|].
  match goal with |- is_Some (act ?w _) => destruct (client_references es w (End 0)) as [H _] end.
  - vm_compute. reflexivity.
  - apply H. vm_compute. reflexivity.
Defined.

(** ** The waiting loop of [call1] *)

Definition to_max : Z := 120000.
Definition to_min : Z := 1000.

(** the variables of the loop; [sends] counts the requests that were sent *)
Record call_st := CallSt {
  transmit : bool;
  ch : option nat;
  finaldeadline : timespec;
  curr_to : Z;
  sends : nat
}.

(** What happens to a round: the [ch] that [get_refconn] gives if it is called,
    the clock, whether the reply is there before the deadline, and whether [ch] is
    dead after it. *)
Record round_in := RoundIn { conn_to : option nat; clock : timespec; reply : bool; ch_dead : bool }.

Inductive round_out :=
| Leave (done : bool) (s : call_st)           (** the loop ends *)
| Timeout (deadline : timespec) (s : call_st) (** the deadline passed *)
| Spin.   (** the deadline is not a valid time: [pthread_cond_timedwait] fails
              at once, again and again *)

Definition valid_time (t : timespec) : bool := (0 <=? tv_nsec t) && (tv_nsec t <? 1000000000).

Definition call1_round (retrans : bool) (i : round_in) (s : call_st) : round_out :=
  let c := if transmit s then conn_to i else ch s in
  let n := if transmit s && bool_decide (c <> None) then (sends s + 1)%nat else sends s in
  if tv_sec (finaldeadline s) =? 0 then Leave false (CallSt false c (finaldeadline s) (curr_to s) n)
  else
    let next := add_timespec (clock i) (curr_to s) in
    let '(next, final) := if 0 <? cmp_timespec next (finaldeadline s)
                          then (finaldeadline s, Timespec 0 (tv_nsec (finaldeadline s)))
                          else (next, finaldeadline s) in
    if reply i then Leave true (CallSt false c final (curr_to s) n)
    else if negb (valid_time next) then Spin
    else Timeout next (CallSt (retrans && (bool_decide (c = None) || ch_dead i)) c final
                         (s32 (Z.shiftl (curr_to s) 1)) n).

(** the variables before the loop *)
Definition call1_start (now : timespec) (to : Z) : call_st :=
  CallSt true None (add_timespec now to) to_min 0.

Inductive call_result :=
| Left (done : bool) (waited : Z) (s : call_st) (** the loop ended; the last deadline that passed *)
| More (s : call_st)                            (** it is still running *)
| Spins
| Illegal.   (** the clock was before a deadline that had passed *)

Fixpoint call1_loop (retrans : bool) (ins : list round_in) (s : call_st) (waited : Z) : call_result :=
  match ins with
  | [] => More s
  | i :: ins' =>
      if timespec_ns (clock i) <? waited then Illegal
      else match call1_round retrans i s with
           | Leave d s' => Left d waited s'
           | Timeout deadline s' => call1_loop retrans ins' s' (timespec_ns deadline)
           | Spin => Spins
           end
  end.

Lemma cmp_timespec_le a b :
  0 <= tv_nsec a <= 1000000000 -> 0 <= tv_nsec b <= 1000000000 -> (0 <? cmp_timespec a b) = false ->
  timespec_ns a <= timespec_ns b.
Proof.
  unfold cmp_timespec, timespec_ns. intros Ha Hb.
  repeat (destruct (_ <? _) eqn:?; to_prop); try done; intros _; nia.
Qed.

Section Deadline.
Context (now : timespec) (to : Z) (Hnow : valid_time now = true) (Hsec : 1 <= tv_sec now) (Hto : 0 <= to < 2 ^ 31).

(** After [k] rounds that timed out: the deadlines have doubled, and either the
    final one is still ahead or it has just passed. *)
Definition waiting (k : nat) (waited : Z) (s : call_st) : Prop :=
  (finaldeadline s = add_timespec now to /\ curr_to s = 1000 * 2 ^ Z.of_nat k /\
   timespec_ns now + 1000 * (2 ^ Z.of_nat k - 1) * 1000000 <= waited <= timespec_ns (add_timespec now to)) \/
  (tv_sec (finaldeadline s) = 0 /\ waited = timespec_ns (add_timespec now to) /\
   (1 <= k)%nat /\ 1000 * (2 ^ (Z.of_nat k - 1) - 1) <= to).

Lemma final_exact :
  timespec_ns (add_timespec now to) = timespec_ns now + to * 1000000 /\
  0 <= tv_nsec (add_timespec now to) <= 1000000000 /\ 1 <= tv_sec (add_timespec now to).
Proof.
  unfold valid_time in Hnow. to_prop. destruct (add_timespec_sum now to) as [H1 H2]; [lia|lia|].
  split; [done|]. split; [done|]. pose proof (add_timespec_later now to). lia.
Qed.

Lemma waiting_start : waiting 0 (timespec_ns now) (call1_start now to).
Proof. left. destruct final_exact as (E & _). rewrite E. cbn. split_and!; try done; lia. Qed.

Lemma waiting_rounds k waited s : waiting k waited s -> 1000 * (2 ^ (Z.of_nat k - 1) - 1) <= to.
Proof.
  destruct final_exact as (E & _). intros [(_ & _ & H)|(_ & _ & _ & H)]; [|done]. rewrite E in H.
  assert (2 ^ (Z.of_nat k - 1) <= 2 ^ Z.of_nat k) by (apply Z.pow_le_mono_r; lia). lia.
Qed.

Lemma round_waiting retrans i k waited s deadline s' :
  valid_time (clock i) = true -> waited <= timespec_ns (clock i) -> waiting k waited s ->
  call1_round retrans i s = Timeout deadline s' -> waiting (S k) (timespec_ns deadline) s'.
Proof.
  intros Hc Hw Hk Hr. destruct final_exact as (E & En & Es). unfold call1_round in Hr.
  destruct (tv_sec (finaldeadline s) =? 0) eqn:E0; [done|]. to_prop.
  destruct Hk as [(Hf & Hcur & Hwt)|(Hf & _)]; [|done].
  unfold valid_time in Hc. to_prop.
  assert (0 <= curr_to s) as Hcp by (rewrite Hcur; assert (0 < 2 ^ Z.of_nat k) by (by apply Z.pow_pos_nonneg; lia); lia).
  destruct (add_timespec_sum (clock i) (curr_to s)) as [H1 H2]; [lia|lia|].
  destruct (0 <? cmp_timespec _ _) eqn:Ec.
  - destruct (reply i); [done|]. destruct (negb _); [done|]. injection Hr as <- <-. right. cbn [finaldeadline tv_sec].
    rewrite Hf. split; [done|]. split; [done|]. split; [lia|].
    replace (Z.of_nat (S k) - 1) with (Z.of_nat k) by lia. lia.
  - destruct (reply i); [done|]. destruct (negb _); [done|]. injection Hr as <- <-. left. cbn [finaldeadline curr_to].
    apply cmp_timespec_le in Ec; [|done|by rewrite Hf]. rewrite Hf in Ec. split; [done|].
    rewrite Nat2Z.inj_succ, Z.pow_succ_r by lia.
    assert (1000 * (2 * 2 ^ Z.of_nat k - 1) <= to) as Hb by lia.
    split; [|lia]. rewrite Z.shiftl_mul_pow2 by lia. rewrite s32_small; [lia|]. unfold is_s32.
    assert (Z.of_nat k <= 20) as Hk20.
    { destruct (Z.le_gt_cases (Z.of_nat k) 20) as [|Hk]; [done|].
      assert (2 ^ 21 <= 2 ^ Z.of_nat k) by (apply Z.pow_le_mono_r; lia). lia. }
    assert (2 ^ Z.of_nat k <= 2 ^ 20) by (apply Z.pow_le_mono_r; lia). lia.
Qed.

(** What the loop gives, from a state after [k] rounds. *)
Definition loop_ok (k : nat) (ins : list round_in) (r : call_result) : Prop :=
  match r with
  | Left true _ _ => exists i, i ∈ ins /\ reply i = true
  | Left false waited _ => waited = timespec_ns now + to * 1000000
  | More _ => 1000 * (2 ^ (Z.of_nat (k + length ins) - 1) - 1) <= to
  | Spins => tv_nsec (add_timespec now to) = 1000000000 \/
             exists i b, i ∈ ins /\ tv_nsec (add_timespec (clock i) b) = 1000000000
  | Illegal => True
  end.

Lemma loop_ok_cons k i ins r : loop_ok (S k) ins r -> loop_ok k (i :: ins) r.
Proof.
  destruct r as [[] waited s|s| |]; cbn [loop_ok]; [|done| | |done].
  - intros (j & Hj & Hr). exists j. split; [by right|done].
  - cbn [length]. by rewrite Nat.add_succ_comm.
  - intros [|(j & b & Hj & Hb)]; [by left|]. right. exists j, b. split; [by right|done].
Qed.

Lemma round_spins retrans i k waited s :
  valid_time (clock i) = true -> waiting k waited s -> call1_round retrans i s = Spin ->
  tv_nsec (add_timespec now to) = 1000000000 \/ exists b, tv_nsec (add_timespec (clock i) b) = 1000000000.
Proof.
  intros Hc Hk Hr. destruct final_exact as (_ & En & _). unfold call1_round in Hr.
  destruct (tv_sec (finaldeadline s) =? 0) eqn:E0; [done|]. to_prop. destruct Hk as [(Hf & Hcur & _)|(Hf & _)]; [|done].
  unfold valid_time in Hc. to_prop.
  assert (0 <= curr_to s) by (rewrite Hcur; assert (0 < 2 ^ Z.of_nat k) by (by apply Z.pow_pos_nonneg; lia); lia).
  destruct (add_timespec_sum (clock i) (curr_to s)) as [_ H2]; [lia|lia|].
  assert (forall t, 0 <= tv_nsec t <= 1000000000 -> valid_time t = false -> tv_nsec t = 1000000000) as Hv.
  { intros t Ht Ev. unfold valid_time in Ev. apply andb_false_iff in Ev as [Ev|Ev]; to_prop; lia. }
  destruct (0 <? cmp_timespec _ _); (destruct (reply i); [done|]); (destruct (negb _) eqn:Ev; [|done]);
    apply negb_true_iff, Hv in Ev; try done.
  - left. by rewrite <- Hf.
  - by rewrite Hf.
  - right. by exists (curr_to s).
Qed.

Lemma loop_waiting retrans ins k waited s :
  Forall (fun i => valid_time (clock i) = true) ins -> waiting k waited s ->
  loop_ok k ins (call1_loop retrans ins s waited).
Proof.
  intros Hins. revert k waited s. induction Hins as [|i ins Hi Hins IH]; intros k waited s Hk; cbn [call1_loop].
  - cbn [loop_ok length]. rewrite Nat.add_0_r. by eapply waiting_rounds.
  - destruct (_ <? waited) eqn:Et; [done|]. to_prop. destruct (call1_round retrans i s) as [d s'|deadline s'|] eqn:Er.
    + unfold call1_round in Er. destruct (tv_sec (finaldeadline s) =? 0) eqn:E0; to_prop.
      * injection Er as <- <-. cbn [loop_ok]. destruct final_exact as (E & _ & Es).
        destruct Hk as [(Hf & _)|(_ & -> & _)]; [rewrite Hf in E0; lia|done].
      * destruct (0 <? cmp_timespec _ _); (destruct (reply i) eqn:Ep; [|by destruct (negb _)]); injection Er as <- <-;
          (exists i; split; [by left|done]).
    + apply loop_ok_cons, IH. by eapply round_waiting.
    + cbn [loop_ok]. destruct (round_spins retrans i k waited s Hi Hk Er) as [|[b Hb]]; [by left|].
      right. exists i, b. split; [by left|done].
Qed.
End Deadline.


Definition demo_round (sec : Z) : round_in := RoundIn (Some 0%nat) (Timespec sec 0) false false.


(** Without retransmission a request is sent at most once, and with it
    only again after its connection is found dead or missing. *)
Theorem sends_only_after_failure retrans i s deadline s' i' :
  call1_round retrans i s = Timeout deadline s' ->
  (sends s' <= sends s + 1)%nat /\
  (transmit s' = true <-> retrans = true /\ (ch s' = None \/ ch_dead i = true)) /\
  (transmit s' = false -> match call1_round retrans i' s' with
                          | Timeout _ s'' | Leave _ s'' => sends s'' = sends s'
                          | Spin => True
                          end).
Proof.
  intros Hr. unfold call1_round in Hr. destruct (tv_sec (finaldeadline s) =? 0); [done|].
  destruct (if 0 <? _ then _ else _) as [next final] eqn:En. destruct (reply i); [done|]. destruct (negb _); [done|].
  injection Hr as <- <-. cbn [sends transmit ch]. split; [destruct (transmit s && _); lia|]. split.
  - rewrite andb_true_iff, orb_true_iff, bool_decide_eq_true. done.
  - clear En. intros Ht. unfold call1_round. cbn [transmit ch sends finaldeadline curr_to]. rewrite Ht. cbn [andb].
    destruct (_ =? 0); [done|]. destruct (0 <? cmp_timespec _ _), (reply i'); try done; by destruct (negb _).
Qed.

(** Half a second past the second, a call with half a second to go waits
    for a time that is not valid, and never ends without a reply. *)
Theorem call1_spins :
  call1_loop false [RoundIn (Some 0%nat) (Timespec 100 500000000) false false]
    (call1_start (Timespec 100 500000000) 500) (timespec_ns (Timespec 100 500000000)) = Spins.
Proof. reflexivity. Qed.

End rpcc_call.
