(* ===== verification/EndToEnd.v ===== *)
(** * A call over the wire

    The parts of the RPC library together: a request that the client's [call1]
    prepares is put on the wire by [connection::send], read by the server's
    [readpdu] in whatever pieces, dispatched to the registered method, and its
    reply goes the same way back to [got_pdu] and the end of [call1]. *)

From stdpp Require Import gmap list strings.
From Stdlib Require Import ZArith Lia Ascii.
From S2P Require Import Prelude Text Marshall Rpc Rpcc Rpcs Connection.

Local Open Scope Z_scope.

Module EndToEnd.

(** ** From buffer to block *)

(** What a block of a buffer [b0] is on the other side: its size in front. *)
Lemma framed_delivered pdu b0 :
  take 4 pdu = replicate 4 None -> delivered pdu b0 ->
  delivered pdu (connection.frame b0 (Z.of_nat (length b0))).
Proof.
  intros Ht Hd. unfold connection.frame, delivered in *. rewrite <- (take_drop 4 pdu), Ht.
  apply Forall2_app; [repeat constructor; done|]. by apply Forall2_drop.
Qed.

Lemma packed_header_free m bs hdr :
  appended marshall_new bs m ->
  take 4 (m_pdu (Marshall (memcpy_at 4 hdr (m_buf m)) (m_capa m) (m_ind m))) = replicate 4 None.
Proof.
  intros [(Hl & Hi & _) Hp]. rewrite new_pdu in Hp. unfold m_pdu in *. cbn [m_ind m_buf] in *.
  assert (24 <= m_ind m)%nat as H24.
  { apply (f_equal length) in Hp. rewrite length_app, length_take, length_replicate in Hp. change RPC_HEADER_SZ with 24%nat in Hp. lia. }
  rewrite take_take, Nat.min_l by lia. unfold memcpy_at.
  rewrite take_app_le by (rewrite length_take; lia). rewrite take_take, Nat.min_l by lia.
  apply (f_equal (take 4)) in Hp. rewrite take_take, Nat.min_l in Hp by lia. rewrite Hp.
  rewrite take_app_le by (rewrite length_replicate; change RPC_HEADER_SZ with 24%nat; lia). reflexivity.
Qed.

Lemma appended_room bs m : appended marshall_new bs m -> (RPC_HEADER_SZ <= m_capa m)%nat.
Proof.
  intros [(Hl & Hi & _) Hp]. rewrite new_pdu in Hp. unfold m_pdu in Hp. apply (f_equal length) in Hp.
  rewrite length_app, length_take, length_replicate in Hp. lia.
Qed.

(** The transport of one block: it is sent whole, and the receiver passes
    something up. *)
Definition transported (b0 : bytes) (b : bytes) : Prop :=
  exists w ws c es s,
    connection.wres_ok (Z.of_nat (length b0)) w = true /\
    connection.send_run ws (connection.send b0 w connection.conn_new) = Some (connection.Sent true, c) /\
    exec connection.recv_step (connection.Receiver connection.conn_new (connection.wire c) []) es = Some s /\
    head (connection.passed s) = Some b.

Definition block_size (b0 : bytes) : Prop := 4 < Z.of_nat (length b0) <= connection.MAX_PDU.

Lemma block_size_fits b0 :
  block_size b0 -> (4 <= length b0)%nat /\ Z.of_nat (length b0) < 2 ^ 31.
Proof. intros [H1 H2]. change connection.MAX_PDU with 10485760 in H2. lia. Qed.

Lemma transported_frame b0 b :
  block_size b0 -> transported b0 b -> b = connection.frame b0 (Z.of_nat (length b0)).
Proof.
  intros Hb (w & ws & c & es & s & Hw & Hs & Hr & Hh).
  apply connection.send_done in Hs as (_ & _ & Hwire); [|destruct Hb; lia|done|done|done].
  cbn [connection.conn_new connection.wire app] in Hwire.
  set (f := connection.frame b0 (Z.of_nat (length b0))).
  assert (Forall connection.wire_block [f]) as Hf.
  { constructor; [|constructor]. unfold f. split.
    - rewrite connection.frame_length by (destruct Hb; lia). exact Hb.
    - rewrite connection.frame_length by (destruct Hb; lia). reflexivity. }
  assert (connection.wire c = concat [f]) as Ew by (rewrite Hwire; cbn [concat]; by rewrite app_nil_r).
  rewrite Ew in Hr. apply connection.recv_run_inv in Hr; [|done].
  assert (exists rest, [f] = connection.passed s ++ rest) as [rest Hp] by (destruct Hr; eauto).
  destruct (connection.passed s); [done|]. cbn in Hh. injection Hh as ->. by injection Hp as ->.
Qed.

(** ** The server's side *)

(** [dispatch] of a request that the server has not seen, on a live connection. *)
Lemma dispatch_runs {S} c b (s : rpcs S) (v : S) h u (f : handler_fn S) ret rep v' :
  unpack_req_header (unmarshall_of b (length b)) = (h, u) -> u_ok u = true ->
  rq_srv_nonce h = 0 \/ rq_srv_nonce h = nonce s ->
  procs s !! rq_proc h = Some f ->
  rq_clt_nonce h = 0 \/ (u32 (rq_xid h) ∉ xid <$> map_get [] (reply_window s) (rq_clt_nonce h)) ->
  f u marshall_new v = (ret, rep, v') -> 0 <= ret \/ ret = rpc_const.unmarshal_args_failure ->
  exists s', dispatch c b false s v =
    (inr (Sent c (m_pdu (pack_reply_header (ReplyHeader (rq_xid h) ret) rep))), s', v').
Proof.
  intros Hu Hok Hn Hp Hnew Hf Hret. unfold dispatch, dispatch_begin. rewrite Hu, Hok. cbn [negb].
  assert (negb (rq_srv_nonce h =? 0) && negb (rq_srv_nonce h =? nonce s) = false) as ->.
  { apply andb_false_iff. rewrite !negb_false_iff, !Z.eqb_eq. done. }
  rewrite Hp. assert (negb ((0 <=? ret) || (ret =? rpc_const.unmarshal_args_failure)) = false) as Hle.
  { apply negb_false_iff, orb_true_iff. rewrite Z.leb_le, Z.eqb_eq. done. }
  destruct (rq_clt_nonce h =? 0) eqn:E0.
  - cbn [dispatch_stat]. rewrite Hf. unfold dispatch_end. rewrite Hle, E0. destruct (heap_alloc _ _) as [b1 hp].
    cbn [latest_conn]. eexists. reflexivity.
  - destruct Hnew as [E|Hnew]; [by rewrite E in E0|]. unfold checkduplicate_and_update.
    set (s1 := set_reply_window _ (mem s) s). set (s2 := save_conn (rq_clt_nonce h) c s1).
    assert (map_get [] (reply_window s2) (rq_clt_nonce h) = map_get [] (reply_window s) (rq_clt_nonce h)) as ->.
    { change (win s2 (rq_clt_nonce h) = win s (rq_clt_nonce h)). unfold s2. rewrite win_save_conn. apply map_get_touch. }
    pose proof (trim_xids (u32 (rq_xid_rep h)) (map_get [] (reply_window s) (rq_clt_nonce h)) (mem s2)) as Htr.
    destruct (trim _ _ (mem s2)) as [l hp]. cbn [fst] in Htr.
    rewrite (proj2 (find_xid_None _ l)) by (by rewrite Htr). cbn [dispatch_stat]. rewrite Hf.
    unfold dispatch_end. rewrite Hle, E0. destruct (heap_alloc _ _) as [b1 hp']. unfold add_reply.
    set (s3 := if counting _ =? 0 then _ else _).
    assert (map_get [] (reply_window (set_reply_window (reply_window s3) hp' s3)) (rq_clt_nonce h) = l ++ [reply_new (u32 (rq_xid h))]) as ->.
    { unfold s3. destruct (counting _ =? 0); apply map_get_insert_eq. }
    destruct (record_reply_ok (u32 (rq_xid h)) b1
      (Z.of_nat (length (m_pdu (pack_reply_header (ReplyHeader (rq_xid h) ret) rep)))) (l ++ [reply_new (u32 (rq_xid h))]))
      as (l' & -> & _).
    { intros e [He|He]%elem_of_app Hx.
      - exfalso. apply Hnew. rewrite <- Htr, <- Hx. by apply list_elem_of_fmap_2.
      - apply list_elem_of_singleton in He as ->. done. }
    cbn [latest_conn]. eexists. reflexivity.
Qed.

(** What a dispatched request leaves of the tables of the server. *)
Lemma record_reply_xids x b n l l' : record_reply x b n l = Some l' -> xid <$> l' = xid <$> l.
Proof.
  revert l'. induction l as [|e l IH]; intros l'; simpl; [by intros [= <-]|].
  destruct (xid e =? x) eqn:E; to_prop; [destruct (_ && _); [|done]; intros [= <-]; simpl; by rewrite E|].
  destruct (record_reply x b n l) eqn:Er; [|done]. intros [= <-]. simpl. f_equal. by apply IH.
Qed.

Definition tables {S} (s : rpcs S) : Z * gmap Z (handler_fn S) := (nonce s, procs s).

Lemma tables_stat {S} h c f req stat b1 (s : rpcs S) : tables (dispatch_stat h c f req stat b1 s).2 = tables s.
Proof. unfold dispatch_stat, updatestat. destruct stat; repeat case_match; done. Qed.

Lemma tables_begin {S} c b (s : rpcs S) : tables (dispatch_begin c b s).2 = tables s.
Proof.
  unfold dispatch_begin. destruct (unpack_req_header _) as [h req]. destruct (negb (u_ok req)); [done|].
  destruct (_ && _); [done|]. destruct (procs s !! rq_proc h); [|done].
  destruct (rq_clt_nonce h =? 0); [apply tables_stat|].
  set (s1 := set_reply_window _ _ s). assert (tables (save_conn (rq_clt_nonce h) c s1) = tables s) as E
    by (unfold save_conn; repeat case_match; done).
  destruct (checkduplicate_and_update _ _ _ _) as [[stat b1] s2] eqn:Ec. rewrite tables_stat, <- E.
  unfold checkduplicate_and_update in Ec. repeat case_match; simplify_eq; done.
Qed.

Lemma tables_end {S} h c dead ret rep (s : rpcs S) : tables (dispatch_end h c dead ret rep s).2 = tables s.
Proof.
  unfold dispatch_end. destruct (negb _); [done|]. destruct (heap_alloc _ _) as [b1 hp].
  assert (forall s : rpcs S, tables (latest_conn (rq_clt_nonce h) c dead s).2 = tables s) as E
    by (intros s0; unfold latest_conn; repeat case_match; done).
  match goal with |- tables (match ?o with Some _ => _ | None => _ end).2 = _ => destruct o as [s1|] eqn:Er end; [|done].
  assert (tables s1 = tables s) as <- by (unfold add_reply in Er; repeat case_match; simplify_eq; done).
  specialize (E s1). destruct (latest_conn _ _ _ s1) as [[c'|] s2]; [|done]. cbn in E |- *. rewrite <- E.
  by destruct (rq_clt_nonce h =? 0).
Qed.

(** A request that ran changed the window of its client by its own number. *)
Lemma dispatch_window {S} c b dead (s : rpcs S) (v : S) c' p s' v' :
  rq_clt_nonce (header_of b) <> 0 ->
  dispatch c b dead s v = (inr (Sent c' p), s', v') ->
  tables s' = tables s /\
  forall k y, y ∈ xid <$> win s' k ->
    y ∈ xid <$> win s k \/ (k = rq_clt_nonce (header_of b) /\ y = u32 (rq_xid (header_of b))).
Proof.
  intros Hn. unfold dispatch. pose proof (tables_begin c b s) as T1.
  destruct (dispatch_begin c b s) as [d s1] eqn:E1. apply dispatch_begin_cases in E1. cbn in T1.
  destruct d as [| | |h c1 f req]; [done..|]. destruct E1 as [-> E1].
  destruct (f req marshall_new v) as [[ret rep] v1]. pose proof (tables_end (header_of b) c1 dead ret rep s1) as T2.
  destruct (dispatch_end _ _ _ _ _ _) as [o s2] eqn:E2. intros [= -> -> ->].
  apply dispatch_end_cases in E2 as [_ [_ E2]]. cbn in T2. split; [by rewrite T2|].
  unfold starts in E1. rewrite (proj2 (Z.eqb_neq _ _) Hn) in E1, E2.
  destruct E1 as (_ & W1 & _ & O1), E2 as (l' & R2 & W2 & _ & O2). intros k y Hy.
  destruct (decide (k = rq_clt_nonce (header_of b))) as [->|Hk]; [|left; by rewrite O2, O1 in Hy].
  rewrite W2 in Hy. apply record_reply_xids in R2. rewrite R2, W1, fmap_app, trim_xids in Hy.
  apply elem_of_app in Hy as [Hy|Hy]; [by left|]. right. by apply list_elem_of_singleton in Hy.
Qed.

(** ** The client's side *)

Lemma reply_settles_call b h rep cl ca :
  unpack_reply_header (unmarshall_of b (length b)) = (h, rep) -> u_ok rep = true -> is_s32 (rp_xid h) ->
  calls cl !! rp_xid h = Some ca -> ca_done ca = false ->
  calls (Rpcc.got_pdu b cl) !! rp_xid h = Some (Caller true (rp_ret h) (u_take_in rep)) /\
  (call1_end (rp_xid h) (Rpcc.got_pdu b cl)).1 = rp_ret h.
Proof.
  intros E Hok Hx Hca Hd.
  assert (calls (Rpcc.got_pdu b cl) !! rp_xid h = Some (Caller true (rp_ret h) (u_take_in rep))) as Hc.
  { rewrite (u_rep_header_ok _ _ _ E Hok). cbn. rewrite Hca, Hd. cbn. apply lookup_insert_eq. }
  split; [done|]. unfold call1_end. cbn. rewrite s32_small by done. by rewrite Hc.
Qed.

(** C5: a call, from one end to the other.  The request that [call1]
    prepares goes over a connection, whatever pieces the stream is read and written
    in; the server runs the method once, on the arguments the caller gave; and when
    the reply has come back over a connection, [call1] returns the status of the
    method, and the caller's result variable holds its result. *)
Theorem call_over_the_wire {S A1 A2 A3 R : Type} (w1 : wire A1) (w2 : wire A2) (w3 : wire A3)
    (wr : wire R) (z1 : A1) (z2 : A2) (z3 : A3) (zr r0 : R)
    (L1 : WireLaws w1) (L2 : WireLaws w2) (L3 : WireLaws w3) (Lr : WireLaws wr)
    (meth : A1 -> A2 -> A3 -> R -> S -> Z * R * S) a1 a2 a3 r ret v v'
    (cl cl1 : rpcc) (srv : rpcs S) proc h conn_ b0 b :
  w_ok w1 a1 -> w_ok w2 a2 -> w_ok w3 a3 -> w_ok wr r -> 0 <= ret < 2 ^ 31 ->
  meth (w_into w1 z1 a1) (w_into w2 z2 a2) (w_into w3 z3 a3) zr v = (ret, r, v') ->
  call1_begin proc cl = inr (h, cl1) -> wf_req_header h ->
  delivered (m_pdu (pack_req_header h (call_args3 w1 w2 w3 a1 a2 a3))) b0 -> block_size b0 -> transported b0 b ->
  rq_srv_nonce h = 0 \/ rq_srv_nonce h = nonce srv ->
  procs srv !! rq_proc h = Some (reg_fn3 wr zr w1 w2 w3 z1 z2 z3 meth) ->
  rq_clt_nonce h = 0 \/ (u32 (rq_xid h) ∉ xid <$> map_get [] (reply_window srv) (rq_clt_nonce h)) ->
  exists p srv', dispatch conn_ b false srv v = (inr (Sent conn_ p), srv', v') /\
    forall c0 c cl2 ca, delivered p c0 -> block_size c0 -> transported c0 c ->
      calls cl2 !! rq_xid h = Some ca -> ca_done ca = false ->
      exists un, calls (Rpcc.got_pdu c cl2) !! rq_xid h = Some (Caller true ret un) /\
        (call1_end (rq_xid h) (Rpcc.got_pdu c cl2)).1 = ret /\
        forall req, call_m wr (fun _ => (ret, un)) req r0 = (ret, w_into wr r0 r).
Proof.
  intros H1 H2 H3 Hr Hret Hm Hb Hwf Hd Hsz Ht Hn Hp Hnew.
  assert (appended marshall_new (w_enc (w_pair (w_pair w1 w2) w3) (a1, a2, a3)) (call_args3 w1 w2 w3 a1 a2 a3)) as Happ.
  { apply (w_put_appends (w := w_pair (w_pair w1 w2) w3)); [done|apply marshall_new_wf]. }
  apply transported_frame in Ht as ->; [|done]. destruct (block_size_fits b0 Hsz) as [Hs4 Hs31].
  apply framed_delivered in Hd.
  2: { rewrite pack_req_header_eq; [by eapply packed_header_free|apply Happ|by eapply appended_room]. }
  destruct (rpc_roundtrip w1 w2 w3 wr z1 z2 z3 zr r0 L1 L2 L3 Lr meth a1 a2 a3 v ret r v' h _ H1 H2 H3 Hwf Hm Hr Hret Hd)
    as (u & rep & Hu & Hok & Hrep & Hf & Hback); [by rewrite connection.frame_length|].
  destruct (dispatch_runs conn_ _ srv v h u _ ret rep v' Hu Hok Hn Hp Hnew Hf) as (srv' & Hs); [left; lia|].
  eexists _, srv'. split; [exact Hs|]. intros c0 c cl2 ca Hd' Hsz' Ht' Hca Hdone.
  apply transported_frame in Ht' as ->; [|done]. destruct (block_size_fits c0 Hsz') as [Hs4' Hs31'].
  apply framed_delivered in Hd'.
  2: { rewrite pack_reply_header_eq; [by eapply packed_header_free|apply Hrep|by eapply appended_room]. }
  destruct (Hback _ Hd') as (u' & Hu' & Hok' & Hcall); [by rewrite connection.frame_length|].
  exists (u_take_in u'). destruct Hwf as [Hx _].
  pose proof (reply_settles_call _ _ _ cl2 ca Hu' Hok' Hx Hca Hdone) as [E1 E2]. by split_and!.
Qed.

(** ** A concrete call *)

Definition wire_header : req_header := ReqHeader 2 24577 5 9 1.

Definition wire_request : bytes :=
  as_sent (m_pdu (pack_req_header wire_header (call_args3 w_u64 w_string w_u32 5 (str "abc") 7))).

Definition wire_server : rpcs Z :=
  Rpcs 9 {[24577 := reg_fn3 w_u32 0 w_u64 w_string w_u32 0 [] 0 demo_meth]} ∅ ∅ ∅ 0 0 ∅ (Heap ∅ 1 false).

Definition wire_block : bytes := connection.frame wire_request (Z.of_nat (length wire_request)).

Lemma wire_request_arrives : transported wire_request wire_block.
Proof.
  exists (connection.Wrote 10). eexists [connection.WAgain; connection.Wrote (length wire_request - 10)], _.
  exists [(7%nat, true); ((length wire_request - 11)%nat, false); (0%nat, true)]. eexists.
  split; [reflexivity|]. split; [vm_compute; reflexivity|]. split; vm_compute; reflexivity.
Qed.

Lemma call_over_the_wire_witness :
  exists p srv', dispatch 1 wire_block false wire_server 100 = (inr (Sent 1 p), srv', 112) /\
    forall c0 c, delivered p c0 -> block_size c0 -> transported c0 c ->
      (call1_end 2 (Rpcc.got_pdu c demo_pending)).1 = 0.
Proof.
  destruct (call_over_the_wire w_u64 w_string w_u32 w_u32 0 [] 0 0 0 _ _ _ _ demo_meth 5 (str "abc") 7 3 0 100 112
    demo_calls (match call1_begin 24577 demo_calls with inr (_, s) => s | inl _ => demo_calls end)
    wire_server 24577 wire_header 1 wire_request wire_block) as (p & srv' & H1 & H2).
  1, 2, 3, 4 : vm_compute; intuition congruence.
  - lia.
  - reflexivity.
  - vm_compute. reflexivity.
  - unfold wf_req_header, is_s32, is_u32; simpl; lia.
  - apply as_sent_delivered.
  - split; [vm_compute; reflexivity|vm_compute; congruence].
  - exact wire_request_arrives.
  - right. reflexivity.
  - apply lookup_singleton_eq.
  - right. vm_compute. intros H. inversion H.
  - exists p, srv'. split; [exact H1|]. intros c0 c Hd Hs Ht.
    destruct (H2 c0 c demo_pending (Caller false 0 unmarshall_empty) Hd Hs Ht) as (un & _ & H & _);
      [vm_compute; reflexivity|reflexivity|exact H].
Defined.

End EndToEnd.
