(* ===== verification/Loopback.v ===== *)
(** * A call that nothing interrupts

    The request of a client reaches the server, is dispatched there, and the reply
    comes back, each as a block of a connection.  When the arguments are those that
    the registered method expects, the caller gets what the method returns. *)

From stdpp Require Import gmap list strings.
From Stdlib Require Import ZArith Lia Ascii.
From S2P Require Import Prelude Text Marshall Rpc Rpcc Rpcs Connection EndToEnd.
Import EndToEnd.

Local Open Scope Z_scope.

(** What the other end of a connection passes up; it refuses a large block. *)
Definition arrives (p : pdu) : option bytes :=
  let b := as_sent p in
  if connection.MAX_PDU <? Z.of_nat (length b) then None
  else Some (connection.frame b (Z.of_nat (length b))).

(** A call that nothing interrupts; without a server, and when the server drops the
    request, it ends with its deadline. [None] is a failed assertion. *)
Definition call_now {S} (proc : Z) (req : marshall) (i : Z) (cl : rpcc) (srv : option (rpcs S * S))
    : option (Z * unmarshall * rpcc * option (rpcs S * S)) :=
  match call1_begin proc cl with
  | inl ret => Some (ret, unmarshall_empty, cl, srv)
  | inr (h, cl') =>
      let unanswered := fun srv =>
        let '(ret, cl') := call1_end (xid_ cl) cl' in Some (ret, unmarshall_empty, cl', srv) in
      match srv, arrives (m_pdu (pack_req_header h req)) with
      | Some (s, v), Some b =>
          match dispatch i b false s v with
          | (inr (Sent _ p), s, v) | (inl (Answered _ p), s, v) =>
              match arrives p with
              | None => unanswered (Some (s, v))
              | Some b =>
                  let cl' := Rpcc.got_pdu b cl' in
                  let un := match calls cl' !! rq_xid h with Some ca => ca_un ca | None => unmarshall_empty end in
                  let '(ret, cl') := call1_end (xid_ cl) cl' in Some (ret, un, cl', Some (s, v))
              end
          | (inl Dropped, s, v) => unanswered (Some (s, v))
          | _ => None
          end
      | _, _ => unanswered srv
      end
  end.

(** [bind] *)
Definition bind_now {S} (i : Z) (cl : rpcc) (srv : option (rpcs S * S)) : option (Z * rpcc * option (rpcs S * S)) :=
  '(ret, un, cl, srv) ← call_now rpc_const.bind (call_args1 w_s32 0) i cl srv;
  let '(intret, r) := call_m w_s32 (fun _ => (ret, un)) (call_args1 w_s32 0) 0 in
  let '(intret, cl) := Rpcc.bind intret r cl in
  Some (intret, cl, srv).

(** ** Blocks that arrive *)

Definition fits (bs : bytes) : Prop := 24 + Z.of_nat (length bs) <= connection.MAX_PDU.

Lemma appended_ind bs m : appended marshall_new bs m -> m_ind m = (24 + length bs)%nat.
Proof.
  intros [(Hl & Hi & _) Hp]. rewrite new_pdu in Hp. unfold m_pdu in Hp. apply (f_equal length) in Hp.
  rewrite length_take, length_app, length_replicate, length_fmap in Hp. change RPC_HEADER_SZ with 24%nat in Hp. lia.
Qed.

Lemma packed_length bs m hdr :
  appended marshall_new bs m -> (4 + length hdr <= 24)%nat ->
  length (m_pdu (Marshall (memcpy_at 4 hdr (m_buf m)) (m_capa m) (m_ind m))) = (24 + length bs)%nat.
Proof.
  intros Ha Hh. pose proof (appended_ind bs m Ha) as Hind. pose proof (appended_room bs m Ha) as Hroom.
  destruct Ha as [(Hl & Hi & _) _]. unfold m_pdu. cbn [m_ind m_buf]. rewrite length_take.
  rewrite length_memcpy; [lia|]. change RPC_HEADER_SZ with 24%nat in Hroom. lia.
Qed.

Lemma as_sent_length p : length (as_sent p) = length p.
Proof. apply length_fmap. Qed.

Lemma arrives_framed p :
  Z.of_nat (length p) <= connection.MAX_PDU -> take 4 p = replicate 4 None -> (4 <= length p)%nat ->
  exists b, arrives p = Some b /\ delivered p b /\ Z.of_nat (length b) < 2 ^ 31.
Proof.
  intros Hl Ht H4. unfold arrives. rewrite as_sent_length, (proj2 (Z.ltb_ge _ _)) by lia.
  eexists. split; [done|]. rewrite <- (as_sent_length p) at 1. split.
  - apply framed_delivered; [done|apply as_sent_delivered].
  - rewrite <- (as_sent_length p), connection.frame_length by (rewrite as_sent_length; lia).
    rewrite as_sent_length. change connection.MAX_PDU with 10485760 in Hl. lia.
Qed.

Lemma request_arrives h m args :
  wf_req_header h -> appended marshall_new args m -> fits args ->
  exists b u, arrives (m_pdu (pack_req_header h m)) = Some b /\
    unpack_req_header (unmarshall_of b (length b)) = (h, u) /\ cursor u args.
Proof.
  intros Hh Ha Hf.
  destruct (arrives_framed (m_pdu (pack_req_header h m))) as (b & E & Hd & Hb).
  1, 2, 3: rewrite pack_req_header_eq by (apply Ha || by eapply appended_room).
  - rewrite (packed_length args) by done || (cbn; lia). unfold fits in Hf. lia.
  - by eapply packed_header_free.
  - rewrite (packed_length args) by done || (cbn; lia). lia.
  - destruct (req_header_roundtrip h m args b) as (u & Hu & Hc); [done|by apply appended_carries|done|done|].
    by exists b, u.
Qed.

Lemma reply_arrives h m args :
  wf_reply_header h -> appended marshall_new args m -> fits args ->
  exists b u, arrives (m_pdu (pack_reply_header h m)) = Some b /\
    unpack_reply_header (unmarshall_of b (length b)) = (h, u) /\ cursor u args.
Proof.
  intros Hh Ha Hf.
  destruct (arrives_framed (m_pdu (pack_reply_header h m))) as (b & E & Hd & Hb).
  1, 2, 3: rewrite pack_reply_header_eq by (apply Ha || by eapply appended_room).
  - rewrite (packed_length args) by done || (cbn; lia). unfold fits in Hf. lia.
  - by eapply packed_header_free.
  - rewrite (packed_length args) by done || (cbn; lia). lia.
  - destruct (reply_header_roundtrip h m args b) as (u & Hu & Hc); [done|by apply appended_carries|done|done|].
    by exists b, u.
Qed.

(** [got_pdu] settles one call. *)
Lemma got_pdu_one b h rep cl :
  unpack_reply_header (unmarshall_of b (length b)) = (h, rep) -> u_ok rep = true ->
  let cl' := Rpcc.got_pdu b cl in
  (forall x, x <> rp_xid h -> calls cl' !! x = calls cl !! x) /\
  clt_nonce cl' = clt_nonce cl /\ srv_nonce cl' = srv_nonce cl /\ bind_done cl' = bind_done cl /\
  xid_ cl' = xid_ cl /\ destroy_wait cl' = destroy_wait cl.
Proof.
  intros E Hok. unfold Rpcc.got_pdu. rewrite E, Hok. cbn. destruct (calls cl !! rp_xid h) as [ca|]; [|done].
  destruct (ca_done ca); [done|]. cbn. split; [|done]. intros x Hx. by rewrite lookup_insert_ne.
Qed.

(** ** The call *)

(** A client that may call [proc] at a server with the number [n]. *)
Record may_call (n proc : Z) (cl : rpcc) : Prop := {
  mc_proc : is_s32 proc /\ is_u32 n;
  mc_bound : if proc =? rpc_const.bind then bind_done cl = false /\ srv_nonce cl = 0
             else bind_done cl = true /\ srv_nonce cl = n;
  mc_open : destroy_wait cl = false;
  mc_nonce : is_u32 (clt_nonce cl) /\ clt_nonce cl <> 0;
  mc_xid : 0 < xid_ cl < 2 ^ 31;
  mc_calls : calls cl = ∅
}.

(** The client after a call. *)
Definition called (cl cl' : rpcc) : Prop :=
  clt_nonce cl' = clt_nonce cl /\ srv_nonce cl' = srv_nonce cl /\ bind_done cl' = bind_done cl /\
  destroy_wait cl' = destroy_wait cl /\ xid_ cl' = xid_ cl + 1 /\ calls cl' = ∅.

(** The header and the client of [call1] once it has started. *)
Definition header_now (proc : Z) (cl : rpcc) : req_header :=
  ReqHeader (xid_ cl) proc (clt_nonce cl) (srv_nonce cl) (s32 (window_front cl)).

Definition begun (cl : rpcc) : rpcc :=
  Rpcc (clt_nonce cl) (srv_nonce cl) (bind_done cl) (xid_ cl + 1)
    {[xid_ cl := Caller false 0 unmarshall_empty]} (xid_rep_window cl) (destroy_wait cl).

Lemma begin_now n proc cl :
  may_call n proc cl -> call1_begin proc cl = inr (header_now proc cl, begun cl) /\ wf_req_header (header_now proc cl).
Proof.
  intros [[Hp Hnn] Hb Ho [Hn _] Hx Hc]. unfold call1_begin. rewrite Ho.
  assert ((negb (proc =? rpc_const.bind) && negb (bind_done cl)) || ((proc =? rpc_const.bind) && bind_done cl) = false) as ->.
  { destruct (proc =? rpc_const.bind); destruct Hb as [-> _]; done. }
  rewrite !(s32_small (xid_ cl)) by (unfold is_s32; lia). rewrite (s32_small proc), (u32_small (xid_ cl + 1)), Hc by (done || unfold is_u32; lia).
  split; [unfold header_now, begun; by rewrite Ho|]. unfold wf_req_header, header_now, is_s32; cbn. pose proof (s32_range (window_front cl)).
  assert (is_u32 (srv_nonce cl)) by (destruct (proc =? rpc_const.bind); destruct Hb as [_ ->]; [unfold is_u32; lia|done]).
  unfold is_s32, is_u32 in *. repeat split; lia.
Qed.

Lemma called_end cl cl1 x :
  called cl (set_calls (delete x (calls cl1)) cl1) -> 0 < x < 2 ^ 31 -> called cl (call1_end x cl1).2.
Proof. intros H Hx. unfold call1_end. cbn [snd]. by rewrite s32_small by (unfold is_s32; lia). Qed.

Definition after_call (cl : rpcc) (b : bytes) : rpcc := (call1_end (xid_ cl) (Rpcc.got_pdu b (begun cl))).2.

(** The reply of a call that has begun. *)
Lemma settle_now n proc cl b ret u :
  may_call n proc cl -> unpack_reply_header (unmarshall_of b (length b)) = (ReplyHeader (xid_ cl) ret, u) ->
  u_ok u = true ->
  calls (Rpcc.got_pdu b (begun cl)) !! xid_ cl = Some (Caller true ret (u_take_in u)) /\
  call1_end (xid_ cl) (Rpcc.got_pdu b (begun cl)) = (ret, after_call cl b) /\ called cl (after_call cl b).
Proof.
  intros [_ _ _ _ Hx _] Hu Hok.
  destruct (reply_settles_call b _ u (begun cl) (Caller false 0 unmarshall_empty) Hu) as [S1 S2];
    [done|unfold is_s32; cbn; lia|cbn; by rewrite lookup_singleton_eq|done|]. cbn [rp_xid rp_ret] in S1, S2.
  destruct (got_pdu_one b _ u (begun cl) Hu Hok) as (G1 & G2 & G3 & G4 & G5 & G6). cbn [rp_xid] in G1.
  split; [done|]. split; [by rewrite <- S2 at 1; unfold after_call; destruct (call1_end _ _)|].
  apply called_end; [|lia]. unfold called. cbn [set_calls clt_nonce srv_nonce bind_done destroy_wait xid_ calls].
  rewrite G2, G3, G4, G5, G6. repeat (split; [done|]). apply map_eq. intros x. rewrite lookup_empty.
  destruct (decide (x = xid_ cl)) as [->|Hne]; [by rewrite lookup_delete_eq|].
  rewrite lookup_delete_ne, G1 by done. cbn. by rewrite lookup_singleton_ne.
Qed.

Lemma call_now_ok {S} n proc req args f ret rb i cl (s : rpcs S) (v v' : S) :
  may_call n proc cl -> nonce s = n ->
  appended marshall_new args req -> fits args -> procs s !! proc = Some f ->
  (forall u, cursor u args -> exists rep, f u marshall_new v = (ret, rep, v') /\ appended marshall_new rb rep) ->
  0 <= ret < 2 ^ 31 \/ ret = rpc_const.unmarshal_args_failure -> fits rb ->
  (xid_ cl ∉ xid <$> win s (clt_nonce cl)) ->
  exists un cl' s', call_now proc req i cl (Some (s, v)) = Some (ret, un, cl', Some (s', v')) /\ cursor un rb /\
    called cl cl' /\ tables s' = tables s /\
    forall k y, y ∈ xid <$> win s' k -> y ∈ xid <$> win s k \/ (k = clt_nonce cl /\ y = xid_ cl).
Proof.
  intros Hm Hn Happ Hfit Hf Hrun Hret Hrb Hnew. destruct (begin_now n proc cl Hm) as [Eb Hwf].
  pose proof Hm as [Hps Hb Ho [Hcn Hn0] Hx Hc]. unfold call_now. rewrite Eb.
  destruct (request_arrives _ req args Hwf Happ Hfit) as (b & u & -> & Hu & Hcu).
  destruct (Hrun u Hcu) as (rep & Hrep & Hra).
  assert (u32 (xid_ cl) = xid_ cl) as Eu by (apply u32_small; unfold is_u32; lia).
  destruct (dispatch_runs i b s v _ u f ret rep v' Hu) as (s' & Hd);
    [apply Hcu| |done|right; cbn; by rewrite Eu|done|intuition lia|].
  { cbn. destruct (proc =? rpc_const.bind); destruct Hb as [_ ->]; auto. }
  destruct (dispatch_window i b false s v i _ s' v' ltac:(unfold header_of; by rewrite Hu) Hd) as [HT HW].
  unfold header_of in HW. rewrite Hu in HW. cbn [fst rq_clt_nonce rq_xid header_now] in HW. rewrite Eu in HW.
  rewrite Hd. destruct (reply_arrives (ReplyHeader (xid_ cl) ret) rep rb) as (b' & u' & E' & Hu' & Hc'); [|done|done|].
  { split; unfold is_s32; cbn; [lia|]. change rpc_const.unmarshal_args_failure with (-2) in Hret. lia. }
  cbn [rq_xid header_now]. rewrite E'.
  destruct (settle_now n proc cl b' ret u' Hm Hu' (proj1 Hc')) as (S1 & S2 & S3). rewrite S1, S2. cbn [ca_un].
  exists (u_take_in u'), (after_call cl b'), s'. split; [done|]. split; [by eapply take_in_cursor|]. done.
Qed.

(** A client of an earlier server is told so, and nothing runs. *)
Lemma call_now_old {S} n n' proc req args i cl (s : rpcs S) (v : S) :
  may_call n' proc cl -> proc <> rpc_const.bind -> nonce s = n -> n' <> n -> n' <> 0 ->
  appended marshall_new args req -> fits args ->
  exists un cl', call_now proc req i cl (Some (s, v)) = Some (rpc_const.oldsrv_failure, un, cl', Some (s, v)) /\ called cl cl'.
Proof.
  intros Hm Hp Hn Hne H0 Happ Hfit. destruct (begin_now n' proc cl Hm) as [Eb Hwf].
  pose proof (mc_bound _ _ _ Hm) as Hb. rewrite (proj2 (Z.eqb_neq _ _) Hp) in Hb. destruct Hb as [_ Hsn].
  unfold call_now. rewrite Eb. destruct (request_arrives _ req args Hwf Happ Hfit) as (b & u & -> & Hu & Hcu).
  unfold dispatch, dispatch_begin. rewrite Hu. rewrite (proj1 Hcu). cbn [negb header_now rq_srv_nonce].
  rewrite Hsn, Hn, (proj2 (Z.eqb_neq _ _) H0), (proj2 (Z.eqb_neq _ _) Hne). cbn [negb andb].
  destruct (reply_arrives (ReplyHeader (xid_ cl) rpc_const.oldsrv_failure) marshall_new []) as (b' & u' & E' & Hu' & Hc').
  { pose proof (mc_xid _ _ _ Hm). split; unfold is_s32, rpc_const.oldsrv_failure; cbn; lia. }
  { split; [apply marshall_new_wf|by rewrite app_nil_r]. }
  { by vm_compute. }
  unfold header_only. cbn [rq_xid header_now]. rewrite E'.
  destruct (settle_now n' proc cl b' _ u' Hm Hu' (proj1 Hc')) as (S1 & S2 & S3). rewrite S1, S2.
  eexists _, _. split; [reflexivity|done].
Qed.

(** A call whose arguments are those of the registered method: the method runs on
    them, and the caller gets its status and its result. *)
Lemma typed_call {S A R} (wa : wire A) (wr : wire R) `{!WireLaws wa, !WireLaws wr}
    n proc req i cl (s : rpcs S) f z zr (meth : A -> R -> S -> Z * R * S) a r r0 ret v v' :
  may_call n proc cl -> nonce s = n -> (xid_ cl ∉ xid <$> win s (clt_nonce cl)) ->
  procs s !! proc = Some f -> (forall u m, f u m v = wrap wa wr z zr meth u m v) ->
  appended marshall_new (w_enc wa a) req -> w_ok wa a -> fits (w_enc wa a) ->
  meth (w_into wa z a) zr v = (ret, r, v') -> 0 <= ret < 2 ^ 31 -> w_ok wr r -> fits (w_enc wr r) ->
  exists un cl' s', call_now proc req i cl (Some (s, v)) = Some (ret, un, cl', Some (s', v')) /\
    call_m wr (fun _ => (ret, un)) req r0 = (ret, w_into wr r0 r) /\
    called cl cl' /\ tables s' = tables s /\
    forall k y, y ∈ xid <$> win s' k -> y ∈ xid <$> win s k \/ (k = clt_nonce cl /\ y = xid_ cl).
Proof.
  intros Hm Hn Hnew Hf Hwrap Happ Ha Hfit Hmeth Hret Hr Hrb.
  destruct (call_now_ok n proc req (w_enc wa a) f ret (w_enc wr r) i cl s v v')
    as (un & cl' & s' & E & Hun & Hc & HT & HW); [done|done|done|done|done| |by left|done|done|].
  { intros u Hu. exists (w_put wr r marshall_new). rewrite Hwrap.
    split; [by apply (wrap_reads wa wr z zr meth a)|]. apply w_put_appends; [done|apply marshall_new_wf]. }
  exists un, cl', s'. split; [done|]. split; [|done]. rewrite (call_m_reads wr _ _ r0 r ret un) by done || lia. done.
Qed.

(** ** Binding *)

Lemma args1_appended {A} (wa : wire A) `{!WireLaws wa} a :
  w_ok wa a -> appended marshall_new (w_enc wa a) (call_args1 wa a).
Proof. intros Ha. apply w_put_appends; [done|apply marshall_new_wf]. Qed.

Lemma args2_appended {A B} (wa : wire A) (wb : wire B) `{!WireLaws wa, !WireLaws wb} a b :
  w_ok wa a -> w_ok wb b -> appended marshall_new (w_enc wa a ++ w_enc wb b) (call_args2 wa wb a b).
Proof. intros Ha Hb. apply (w_put_appends (w := w_pair wa wb) (a, b)); [done|apply marshall_new_wf]. Qed.

Lemma args3_appended {A B C} (wa : wire A) (wb : wire B) (wc : wire C) `{!WireLaws wa, !WireLaws wb, !WireLaws wc} a b c :
  w_ok wa a -> w_ok wb b -> w_ok wc c ->
  appended marshall_new (w_enc (w_pair (w_pair wa wb) wc) (a, b, c)) (call_args3 wa wb wc a b c).
Proof.
  intros Ha Hb Hc. apply (w_put_appends (w := w_pair (w_pair wa wb) wc) (a, b, c)); [done|apply marshall_new_wf].
Qed.

Lemma fits_int x : fits (w_enc w_s32 x).
Proof. unfold fits. change (length (w_enc w_s32 x)) with 4%nat. by vm_compute. Qed.

Lemma int_ok x : -(2 ^ 31) <= x < 2 ^ 31 -> w_ok w_s32 x.
Proof. done. Qed.

Lemma int_args x : -(2 ^ 31) <= x < 2 ^ 31 -> appended marshall_new (w_enc w_s32 x) (call_args1 w_s32 x).
Proof. intros Hx. apply args1_appended; [apply _|by apply int_ok]. Qed.

(** What every server registers. *)
Definition fn_bind {S} (n : Z) : handler_fn S := reg_fn1 w_s32 0 w_s32 0 (rpcbind n).

(** A client that is bound to the server [n]. *)
Record bound (n : Z) (cl : rpcc) : Prop := {
  bo_bound : bind_done cl = true /\ srv_nonce cl = n;
  bo_open : destroy_wait cl = false;
  bo_calls : calls cl = ∅
}.

Definition number (n : Z) : Prop := 0 < n < 2 ^ 31.

Lemma number_u32 n : number n -> is_u32 n.
Proof. unfold number, is_u32. lia. Qed.

Lemma rpcbind_answers {S} n u (v : S) :
  number n -> cursor u (w_enc w_s32 0) ->
  exists rep, fn_bind n u marshall_new v = (0, rep, v) /\ appended marshall_new (w_enc w_s32 n) rep.
Proof.
  intros Hn Hu. exists (w_put w_s32 n marshall_new). split.
  - unfold fn_bind. rewrite reg_fn1_wrap. by apply (wrap_reads w_s32 w_s32 0 0 (rpcbind n) 0); [apply int_ok; lia|..].
  - apply w_put_appends; [unfold number in Hn; apply int_ok; lia|apply marshall_new_wf].
Qed.

Lemma bind_now_ok {S} n i cl (s : rpcs S) (v : S) :
  number n -> may_call n rpc_const.bind cl -> nonce s = n -> procs s !! rpc_const.bind = Some (fn_bind n) ->
  (xid_ cl ∉ xid <$> win s (clt_nonce cl)) ->
  exists cl' s', bind_now i cl (Some (s, v)) = Some (0, cl', Some (s', v)) /\ bound n cl' /\
    clt_nonce cl' = clt_nonce cl /\ xid_ cl' = xid_ cl + 1 /\ tables s' = tables s /\
    forall k y, y ∈ xid <$> win s' k -> y ∈ xid <$> win s k \/ (k = clt_nonce cl /\ y = xid_ cl).
Proof.
  intros Hn Hm Ht1 Ht2 Hnew.
  destruct (call_now_ok n rpc_const.bind (call_args1 w_s32 0) (w_enc w_s32 0) (fn_bind n) 0 (w_enc w_s32 n) i cl s v v)
    as (un & cl' & s' & E & Hun & (C1 & C2 & C3 & C4 & C5 & C6) & HT & HW);
    [done|done|apply int_args; lia|apply fits_int|exact Ht2|intros u Hu; by apply rpcbind_answers|lia|apply fits_int|done|].
  unfold bind_now. rewrite E. cbn [mbind option_bind].
  rewrite (call_m_reads w_s32 _ _ 0 n 0 un) by (done || unfold number in Hn; apply int_ok || lia; lia).
  unfold Rpcc.bind. cbn [Z.eqb w_into w_s32]. unfold overwrite. eexists _, s'. split; [done|].
  split; [|done]. split; cbn; [split; [done|]|by rewrite C4, (mc_open _ _ _ Hm)|done].
  apply u32_small. by apply number_u32.
Qed.

Lemma fresh_client n k : number n -> number k -> may_call n rpc_const.bind (rpcc_new true k).
Proof.
  intros Hn%number_u32 Hk. unfold number in Hk.
  split; cbn; unfold is_s32, is_u32 in *; change rpc_const.bind with 1; done || lia.
Qed.

Lemma bound_may_call n proc cl :
  bound n cl -> proc <> rpc_const.bind -> is_s32 proc -> is_u32 n -> is_u32 (clt_nonce cl) -> clt_nonce cl <> 0 ->
  0 < xid_ cl < 2 ^ 31 -> may_call n proc cl.
Proof. intros [Hb Ho Hc] Hp Hs Hn H1 H2 Hx. split; [done| |done|done|done|done]. by rewrite (proj2 (Z.eqb_neq _ _) Hp). Qed.
