(* ===== verification/Rpctest.v ===== *)
(** * The test of the RPC library

    [rpc/rpctest.cc]: the handlers of its server, the calls that its tests make,
    and a network that carries them.  Threads share the clients; a request is on
    its way to the server, is dispatched there, and the reply is on its way back to
    the client at the other end of the connection, which finds the caller by the
    [xid] in the reply.  Messages are not lost and no call times out.  A failed
    assertion, of the library or of a test, ends the run. *)

From stdpp Require Import gmap list strings.
From Stdlib Require Import ZArith Lia Ascii.
From S2P Require Import Prelude Text Marshall Rpc Rpcc Rpcs Connection EndToEnd Loopback.
Import EndToEnd.

Local Open Scope Z_scope.

Module rpctest.

(** ** The server *)

Module srv.
Definition handle_22 (a b _ : bytes) (s : unit) : Z * bytes * unit := (0, a ++ b, s).
Definition handle_fast (a _ : Z) (s : unit) : Z * Z * unit := (0, s32 (a + 1), s).
Definition handle_slow (a _ : Z) (s : unit) : Z * Z * unit := (0, s32 (a + 2), s).
(** for a length that is not negative *)
Definition handle_bigrep (len : Z) (_ : bytes) (s : unit) : Z * bytes * unit :=
  (0, replicate (Z.to_nat len) "x"%char, s).
End srv.

(** [startserver], with the number that the constructor of [rpcs] draws *)
Definition startserver (nonce : Z) : option (rpcs unit) :=
  s ← reg1 22 (reg_fn2 w_string [] w_string w_string [] [] srv.handle_22)
        (rpcs_new nonce 0 (reg_fn1 w_s32 0 w_s32 0 (rpcbind nonce)));
  s ← reg1 23 (reg_fn1 w_s32 0 w_s32 0 srv.handle_fast) s;
  s ← reg1 24 (reg_fn1 w_s32 0 w_s32 0 srv.handle_slow) s;
  reg1 25 (reg_fn1 w_string [] w_s32 0 srv.handle_bigrep) s.

(** ** [testmarshall] *)

#[global] Instance req_header_eq_dec : EqDecision req_header.
Proof. solve_decision. Defined.

(** [false] is a failed assertion *)
Definition testmarshall : bool :=
  let rh := ReqHeader 1 2 3 4 5 in
  let m := pack_req_header rh marshall_new in
  let i := 12345 in
  let l := 1223344455 in
  let s := str "hallo...." in
  (m_ind m =? RPC_HEADER_SZ)%nat &&
  let b := as_sent (m_pdu (put_string s (put_u64 l (put_s32 i m)))) in
  (length b =? RPC_HEADER_SZ + 4 + 8 + length s + 4)%nat &&
  let '(rh1, un) := unpack_req_header (unmarshall_of b (length b)) in
  bool_decide (rh1 = rh) &&
  let '(i1, un) := get_s32 un in
  let '(l1, un) := get_u64 un in
  let '(s1, un) := get_string [] un in
  u_okdone un && (i1 =? i) && (l1 =? l) && bool_decide (s1 = s).

Theorem testmarshall_passes : testmarshall = true.
Proof. vm_compute. reflexivity. Qed.

(** ** Calls *)

(** A call of a test: what it sends, and what it asserts of the status and of the
    reply. *)
Record tcall := TCall { t_proc : Z; t_req : marshall; t_check : Z -> unmarshall -> bool }.

(** [call(proc, a1, rep)] and what is asserted of [intret] and [rep], which was
    [r0] before *)
Definition call_1 {A R} (wa : wire A) (wr : wire R) (proc : Z) (a : A) (r0 : R)
    (check : Z -> R -> bool) : tcall :=
  TCall proc (call_args1 wa a)
    (fun ret un => let '(intret, rep) := call_m wr (fun _ => (ret, un)) (call_args1 wa a) r0 in
                   check intret rep).

Definition call_2 {A B R} (wa : wire A) (wb : wire B) (wr : wire R) (proc : Z) (a : A) (b : B) (r0 : R)
    (check : Z -> R -> bool) : tcall :=
  TCall proc (call_args2 wa wb a b)
    (fun ret un => let '(intret, rep) := call_m wr (fun _ => (ret, un)) (call_args2 wa wb a b) r0 in
                   check intret rep).

Definition size (s : bytes) : Z := Z.of_nat (length s).

(** [client1]: [bigs] and [mixed] are what [random()] gives *)
Definition client1 (bigs : list Z) (mixed : list (bool * Z)) : list tcall :=
  map (fun arg => call_1 w_s32 w_string 25 arg [] (fun ret rep => (ret =? 0) && (size rep =? arg))) bigs ++
  map (fun '((which, arg) : bool * Z) =>
         call_1 w_s32 w_s32 (if which then 23 else 24) arg 0
           (fun ret rep => (ret =? 0) && (rep =? if which then arg + 1 else arg + 2))) mixed.

(** [client2], for the arguments that it draws until its time is over; the status
    is not tested *)
Definition client2 (args : list Z) : list tcall :=
  map (fun arg => call_1 w_s32 w_string 25 arg [] (fun _ rep => size rep =? arg)) args.

(** [client3]; [rep0] is what [rep] holds before the call *)
Definition client3 (rep0 : Z) : list tcall :=
  map (fun i => call_1 w_s32 w_s32 24 i rep0
                  (fun ret rep => (ret =? rpc_const.timeout_failure) || (rep =? i + 2))) [0; 1; 2; 3].

(** the calls of [client4] *)
Definition client4 (args : list Z) : list tcall :=
  map (fun arg => call_1 w_s32 w_string 25 arg [] (fun ret rep => (ret =? 0) && (size rep =? arg))) args.

(** [simple_tests], up to the client of a server that does not exist *)
Definition simple_tests : list tcall :=
  [ call_2 w_string w_string w_string 22 (str "hello") (str " goodbye") []
      (fun intret rep => (intret =? 0) && bool_decide (rep = str "hello goodbye"));
    call_1 w_s32 w_string 25 70000 (str "hello goodbye")
      (fun intret rep => (intret =? 0) && (size rep =? 70000));
    call_1 w_string w_string 22 (str "just one") (replicate (Z.to_nat 70000) "x"%char)
      (fun intret _ => intret <? 0);
    call_2 w_s32 w_s32 w_string 23 1001 1002 (replicate (Z.to_nat 70000) "x"%char)
      (fun intret _ => intret <? 0);
    call_2 w_string w_string w_s32 23 (str "hello") (str " goodbye") 0
      (fun intret _ => intret <? 0);
    call_1 w_s32 w_s32 23 77 0 (fun intret xx => (intret =? 0) && (xx =? 78));
    call_2 w_string w_string w_string 22 (replicate (Z.to_nat 1000) "x"%char) (str "x") []
      (fun _ rep => size rep =? 1001);
    call_2 w_string w_string w_string 22 (replicate (Z.to_nat 1000000) "x"%char) (str "z")
      (replicate (Z.to_nat 70000) "x"%char) (fun _ rep => size rep =? 1000001) ].

(** ** The network *)

(** Where the call of a thread is. *)
Inductive flight :=
  | Idle
  | ToServer (x : Z) (b : bytes)
  | ToClient (x : Z) (c : Z) (b : bytes)   (** the reply, on connection [c] *)
  | Landed (x : Z)
  | Lost.                                  (** the receiver refused a block *)

Record thread := Thread { th_client : Z; th_calls : list tcall; th_flight : flight }.

(** The connection of a client has the client's number. *)
Record net := Net { clients : gmap Z rpcc; server : rpcs unit; threads : list thread }.

Inductive event := Start (t : nat) | Request (t : nat) | Reply (t : nat) | Return (t : nat).

Inductive result := Next (w : net) | Disabled | Asserted.

Definition set_thread (t : nat) (th : thread) (w : net) : net :=
  Net (clients w) (server w) (<[t := th]> (threads w)).
Definition set_client (i : Z) (c : rpcc) (w : net) : net :=
  Net (<[i := c]> (clients w)) (server w) (threads w).
Definition set_server (s : rpcs unit) (w : net) : net := Net (clients w) s (threads w).

(** The call has returned: what is asserted of it, and the next one. *)
Definition returned (t : nat) (th : thread) (ret : Z) (un : unmarshall) (w : net) : result :=
  match th_calls th with
  | [] => Disabled
  | c :: rest => if t_check c ret un then Next (set_thread t (Thread (th_client th) rest Idle) w) else Asserted
  end.

Definition step (w : net) (e : event) : result :=
  match e with
  | Start t =>
      match threads w !! t with
      | Some (Thread i (c :: rest) Idle as th) =>
          match clients w !! i with
          | None => Disabled
          | Some cl =>
              match call1_begin (t_proc c) cl with
              | inl ret => returned t th ret unmarshall_empty w
              | inr (h, cl') =>
                  let fl := match arrives (m_pdu (pack_req_header h (t_req c))) with
                            | Some b => ToServer (xid_ cl) b
                            | None => Lost
                            end in
                  Next (set_thread t (Thread i (c :: rest) fl) (set_client i cl' w))
              end
          end
      | _ => Disabled
      end
  | Request t =>
      match threads w !! t with
      | Some (Thread i calls (ToServer x b)) =>
          match dispatch i b false (server w) () with
          | (inr (Sent c p), s, _) | (inl (Answered c p), s, _) =>
              let fl := match arrives p with Some b => ToClient x c b | None => Lost end in
              Next (set_thread t (Thread i calls fl) (set_server s w))
          | _ => Asserted
          end
      | _ => Disabled
      end
  | Reply t =>
      match threads w !! t with
      | Some (Thread i calls (ToClient x c b)) =>
          match clients w !! c with
          | None => Disabled
          | Some cl => Next (set_thread t (Thread i calls (Landed x)) (set_client c (Rpcc.got_pdu b cl) w))
          end
      | _ => Disabled
      end
  | Return t =>
      match threads w !! t with
      | Some (Thread i cs (Landed x) as th) =>
          match clients w !! i with
          | None => Disabled
          | Some cl =>
              match calls cl !! s32 x with
              | Some ca =>
                  if ca_done ca then
                    let '(ret, cl') := call1_end x cl in returned t th ret (ca_un ca) (set_client i cl' w)
                  else Disabled
              | None => Disabled
              end
          end
      | _ => Disabled
      end
  end.

Fixpoint run (w : net) (es : list event) : result :=
  match es with
  | [] => Next w
  | e :: es => match step w e with Next w => run w es | r => r end
  end.

(** ** One call at a time *)

(** a call of the tests, and its assertions *)
Definition tcall_now (c : tcall) (i : Z) (cl : rpcc) (srv : option (rpcs unit * unit)) : option (rpcc * option (rpcs unit * unit)) :=
  '(ret, un, cl, srv) ← call_now (t_proc c) (t_req c) i cl srv;
  if t_check c ret un then Some (cl, srv) else None.

Definition demand (b : bool) : option unit := if b then Some () else None.

(** the test of [main] and [simple_tests] with a server that does not exist *)
Definition bind_to_nobody (nonce : Z) : option unit :=
  '(intret, _, _) ← bind_now (S := unit) 0 (rpcc_new true nonce) None; demand (intret <? 0).

Definition hello_goodbye (check : Z -> bytes -> bool) : tcall :=
  call_2 w_string w_string w_string 22 (str "hello") (str " goodbye") [] check.

(** a client of the server, from its construction to its first [bind] *)
Definition new_client (i nonce : Z) (srv : option (rpcs unit * unit)) : option (rpcc * option (rpcs unit * unit)) :=
  '(intret, cl, srv) ← bind_now i (rpcc_new true nonce) srv; demand (0 <=? intret);; Some (cl, srv).

(** [failure_test] up to its first threads, for the client [cl] of the server
    before; [n] is the number of the new server, [n1] and [n2] those of the
    clients that are made *)
Definition failure_test (cl : rpcc) (n n1 n2 : Z) : option (rpcc * option (rpcs unit * unit)) :=
  bind_to_nobody n1;;
  s ← startserver n;
  '(cl, srv) ← tcall_now (hello_goodbye (fun intret _ => intret =? rpc_const.oldsrv_failure)) 0 cl (Some (s, ()));
  demand (bool_decide (calls cl = ∅));;
  '(client, srv) ← new_client 1 n2 srv;
  '(intret, client, srv) ← bind_now 1 client srv;
  demand (intret <? 0);;
  tcall_now (hello_goodbye (fun intret rep => (intret =? 0) && bool_decide (rep = str "hello goodbye")))
    1 client srv.

(** ** The threads *)

(** [main] up to its tests: the server and [NUM_CL] bound clients; [concurrent_test],
    [garbage_collection_test] and the other tests are threads of this network. *)
Definition start (n n0 n1 : Z) (ths : list thread) : option net :=
  s ← startserver n;
  '(ret0, c0, srv) ← bind_now 0 (rpcc_new true n0) (Some (s, ()));
  demand (ret0 =? 0);;
  '(ret1, c1, srv) ← bind_now 1 (rpcc_new true n1) srv;
  demand (ret1 =? 0);;
  '(s, _) ← srv;
  Some (Net {[0 := c0; 1 := c1]} s ths).

(** the threads of [concurrent_test(nt)], with what [random()] gives each of them *)
Definition concurrent_test (draws : list (list Z * list (bool * Z))) : list thread :=
  imap (fun i '((bigs, mixed) : list Z * list (bool * Z)) =>
          Thread (Z.of_nat i mod 2) (client1 bigs mixed) Idle) draws.

(** and those of [garbage_collection_test(nt)] *)
Definition garbage_collection_test (draws : list (list Z)) : list thread :=
  imap (fun i args => Thread (Z.of_nat i mod 2) (client4 args) Idle) draws.
End rpctest.
