(* ===== verification/RpctestPasses.v ===== *)
(** * The tests of the RPC library pass

    In every order in which the requests of the threads reach the server and the
    replies come back, each call returns what its handler computes for its own
    arguments; no assertion of the tests or of the library fails, and the threads
    come to their end. *)

From stdpp Require Import gmap list strings.
From Stdlib Require Import ZArith Lia Ascii.
From S2P Require Import Prelude Text Marshall Rpc Rpcc Rpcs Connection EndToEnd Loopback Rpctest.
Import EndToEnd rpctest.

Local Open Scope Z_scope.

(** ** One call *)

(** A call that the server answers with status [ret] and reply [rb], and whose
    assertions then hold. *)
Record answered (procs : gmap Z (handler_fn unit)) (c : tcall) (args : bytes) (ret : Z) (rb : bytes) : Prop := {
  an_proc : is_s32 (t_proc c) /\ t_proc c <> rpc_const.bind;
  an_args : appended marshall_new args (t_req c) /\ fits args;
  an_handler : exists f, procs !! t_proc c = Some f /\
    forall u, cursor u args -> exists rep, f u marshall_new () = (ret, rep, ()) /\ appended marshall_new rb rep;
  an_ret : 0 <= ret < 2 ^ 31 \/ ret = rpc_const.unmarshal_args_failure;
  an_reply : fits rb;
  an_check : forall un, cursor un rb -> t_check c ret un = true
}.

Definition good_call (procs : gmap Z (handler_fn unit)) (c : tcall) : Prop :=
  exists args ret rb, answered procs c args ret rb.

(** ** What is always true of the network *)

Section Network.
Context (N : Z) (procs : gmap Z (handler_fn unit)) (HN : is_u32 N).

Record client_ok (cl : rpcc) : Prop := {
  co_bound : bind_done cl = true /\ srv_nonce cl = N;
  co_open : destroy_wait cl = false;
  co_nonce : is_u32 (clt_nonce cl) /\ clt_nonce cl <> 0;
  co_xid : 0 < xid_ cl
}.

(** calls that have not started *)
Definition to_start (th : thread) : nat :=
  match th_flight th with Idle => length (th_calls th) | _ => length (tail (th_calls th)) end.

Definition budget (w : net) : nat := sum_list (to_start <$> threads w).

(** the outstanding call of a thread *)
Definition flying (th : thread) : option (Z * Z) :=
  match th_flight th with
  | Idle | Lost => None
  | ToServer x _ | ToClient x _ _ | Landed x => Some (th_client th, x)
  end.

Definition flight_ok (w : net) (cl : rpcc) (c : tcall) (x : Z) (th : thread) : Prop :=
  exists args ret rb, answered procs c args ret rb /\
  match th_flight th with
  | Idle | Lost => False
  | ToServer _ b =>
      (exists ca, calls cl !! x = Some ca /\ ca_done ca = false) /\
      (x ∉ xid <$> win (server w) (clt_nonce cl)) /\
      exists r u, cursor u args /\
        unpack_req_header (unmarshall_of b (length b)) = (ReqHeader x (t_proc c) (clt_nonce cl) N r, u)
  | ToClient _ i b =>
      (exists ca, calls cl !! x = Some ca /\ ca_done ca = false) /\ i = th_client th /\
      exists u, unpack_reply_header (unmarshall_of b (length b)) = (ReplyHeader x ret, u) /\ cursor u rb
  | Landed _ => exists un, calls cl !! x = Some (Caller true ret un) /\ cursor un rb
  end.

Definition thread_ok (w : net) (th : thread) : Prop :=
  Forall (good_call procs) (th_calls th) /\
  exists cl, clients w !! th_client th = Some cl /\ th_flight th <> Lost /\
  forall i x, flying th = Some (i, x) ->
    0 < x < xid_ cl /\ exists c rest, th_calls th = c :: rest /\ flight_ok w cl c x th.

Record net_inv (w : net) : Prop := {
  ni_tables : tables (server w) = (N, procs);
  ni_clients : forall i cl, clients w !! i = Some cl -> client_ok cl;
  ni_nonces : forall i j ci cj, clients w !! i = Some ci -> clients w !! j = Some cj ->
    clt_nonce ci = clt_nonce cj -> i = j;
  ni_window : forall i cl y, clients w !! i = Some cl ->
    y ∈ xid <$> win (server w) (clt_nonce cl) -> y < xid_ cl;
  ni_threads : forall t th, threads w !! t = Some th -> thread_ok w th;
  ni_apart : forall t t' th th' k, threads w !! t = Some th -> threads w !! t' = Some th' ->
    flying th = Some k -> flying th' = Some k -> t = t';
  ni_budget : forall i cl, clients w !! i = Some cl -> xid_ cl + Z.of_nat (budget w) < 2 ^ 31
}.

(** What another thread must leave as it is. *)
Definition undisturbed (th : thread) (w w' : net) : Prop :=
  forall i cl, clients w !! i = Some cl ->
    exists cl', clients w' !! i = Some cl' /\ clt_nonce cl' = clt_nonce cl /\ xid_ cl <= xid_ cl' /\
    forall x, flying th = Some (i, x) ->
      calls cl' !! x = calls cl !! x /\
      (x ∈ xid <$> win (server w') (clt_nonce cl) -> x ∈ xid <$> win (server w) (clt_nonce cl)).

Lemma thread_ok_frame w w' th : undisturbed th w w' -> thread_ok w th -> thread_ok w' th.
Proof.
  intros Hu (Hg & cl & Hcl & Hlost & Hfl). split; [done|]. destruct (Hu _ _ Hcl) as (cl' & Hcl' & Hn & Hx & Hc).
  exists cl'. split; [done|]. split; [done|]. intros i x Hf.
  assert (i = th_client th) as -> by (unfold flying in Hf; destruct (th_flight th); congruence).
  destruct (Hfl _ _ Hf) as (Hr & c & rest & E & args & ret & rb & Ha & Hp). split; [lia|].
  exists c, rest. split; [done|]. exists args, ret, rb. split; [done|]. destruct (Hc x Hf) as [Hca Hw].
  destruct (th_flight th) as [|x' b|x' i' b|x'|]; [done| | | |done].
  - destruct Hp as (H1 & H2 & r & u & H3 & H4). rewrite Hca, Hn. split; [done|]. split; [by intros ?%Hw|]. by exists r, u.
  - by rewrite Hca.
  - by rewrite Hca.
Qed.

Lemma sum_list_insert (l : list nat) i x y : l !! i = Some x -> (sum_list (<[i := y]> l) + x = sum_list l + y)%nat.
Proof.
  revert i. induction l as [|z l IH]; intros [|i] Hi; simplify_eq/=; [lia|]. specialize (IH i Hi). lia.
Qed.

Lemma net_inv_step w w' t th th' :
  net_inv w -> threads w !! t = Some th -> threads w' = <[t := th']> (threads w) ->
  tables (server w') = tables (server w) ->
  (forall i cl', clients w' !! i = Some cl' -> exists cl, clients w !! i = Some cl /\
     clt_nonce cl' = clt_nonce cl /\ client_ok cl' /\
     xid_ cl' + Z.of_nat (to_start th') <= xid_ cl + Z.of_nat (to_start th)) ->
  (forall i cl y, clients w' !! i = Some cl -> y ∈ xid <$> win (server w') (clt_nonce cl) -> y < xid_ cl) ->
  (forall t' th0, t' <> t -> threads w !! t' = Some th0 -> undisturbed th0 w w') ->
  thread_ok w' th' ->
  (forall k, flying th' = Some k -> flying th = Some k \/
     forall t' th0, threads w !! t' = Some th0 -> flying th0 <> Some k) ->
  net_inv w'.
Proof.
  intros HI Ht Eth Htab Hcl Hwin Hun Hok Hfly.
  assert (forall t1 th1, threads w' !! t1 = Some th1 ->
    (t1 = t /\ th1 = th') \/ (t1 <> t /\ threads w !! t1 = Some th1)) as Hth.
  { intros t1 th1. rewrite Eth. destruct (decide (t1 = t)) as [->|Hne]; [|rewrite list_lookup_insert_ne by done; auto].
    rewrite list_lookup_insert_eq by (by eapply lookup_lt_Some). intros [= <-]. auto. }
  split.
  - rewrite Htab. apply HI.
  - intros i cl' H. destruct (Hcl i cl' H) as (cl & _ & _ & ? & _). done.
  - intros i j ci cj Hi Hj E. destruct (Hcl i ci Hi) as (ci0 & Hi0 & Ni & _), (Hcl j cj Hj) as (cj0 & Hj0 & Nj & _).
    apply (ni_nonces w HI i j ci0 cj0 Hi0 Hj0). congruence.
  - done.
  - intros t1 th1 H1. destruct (Hth t1 th1 H1) as [[-> ->]|[Hne H]]; [done|].
    apply (thread_ok_frame w); [by apply (Hun t1)|by apply (ni_threads w HI t1)].
  - assert (forall t1 th1 k, t1 <> t -> threads w !! t1 = Some th1 -> flying th1 = Some k -> flying th' = Some k -> False) as Hx.
    { intros t1 th1 k Hne H1 F1 F'. destruct (Hfly k F') as [F|F]; [|by apply (F t1 th1)].
      apply Hne. by apply (ni_apart w HI t1 t th1 th k). }
    intros t1 t2 th1 th2 k H1 H2 F1 F2.
    destruct (Hth t1 th1 H1) as [[-> ->]|[N1 O1]], (Hth t2 th2 H2) as [[-> ->]|[N2 O2]]; [done| | |].
    + exfalso. by apply (Hx t2 th2 k).
    + exfalso. by apply (Hx t1 th1 k).
    + by apply (ni_apart w HI t1 t2 th1 th2 k).
  - intros i cl' H. destruct (Hcl i cl' H) as (cl & Hi & _ & _ & Hb). pose proof (ni_budget w HI i cl Hi) as Hbud.
    unfold budget in *. rewrite Eth, list_fmap_insert.
    pose proof (sum_list_insert (to_start <$> threads w) t (to_start th) (to_start th')) as Hs.
    rewrite list_lookup_fmap, Ht in Hs. specialize (Hs eq_refl). lia.
Qed.

(** A step of a thread that changes its client. *)
Lemma net_inv_client w t th th' i cl cl' :
  net_inv w -> threads w !! t = Some th -> clients w !! i = Some cl ->
  clt_nonce cl' = clt_nonce cl -> client_ok cl' -> xid_ cl <= xid_ cl' ->
  xid_ cl' + Z.of_nat (to_start th') <= xid_ cl + Z.of_nat (to_start th) -> (to_start th' <= to_start th)%nat ->
  (forall t' th0 x, t' <> t -> threads w !! t' = Some th0 -> flying th0 = Some (i, x) -> calls cl' !! x = calls cl !! x) ->
  thread_ok (set_thread t th' (set_client i cl' w)) th' ->
  (forall k, flying th' = Some k -> flying th = Some k \/
     forall t' th0, threads w !! t' = Some th0 -> flying th0 <> Some k) ->
  net_inv (set_thread t th' (set_client i cl' w)).
Proof.
  intros HI Ht Hcl Hn Hok Hx Hb Hb' Hca Hth Hfly.
  apply (net_inv_step w _ t th th'); [done|done|done|done| | | |done|done].
  - intros j c Hj. cbn in Hj. destruct (decide (i = j)) as [<-|Hne].
    + rewrite lookup_insert_eq in Hj. injection Hj as <-. by exists cl.
    + rewrite lookup_insert_ne in Hj by done. exists c. split; [done|]. split; [done|].
      split; [by eapply ni_clients|lia].
  - intros j c y Hj Hy. cbn in Hj, Hy. destruct (decide (i = j)) as [<-|Hne].
    + rewrite lookup_insert_eq in Hj. injection Hj as <-. rewrite Hn in Hy.
      pose proof (ni_window w HI i cl y Hcl Hy). lia.
    + rewrite lookup_insert_ne in Hj by done. by eapply ni_window.
  - intros t' th0 Hne H0 j c Hj. cbn [clients set_thread set_client server]. destruct (decide (i = j)) as [<-|Hij].
    + rewrite Hcl in Hj. injection Hj as <-. rewrite lookup_insert_eq. exists cl'. split; [done|]. split; [done|].
      split; [done|]. intros x Hf. split; [by apply (Hca t' th0)|done].
    + rewrite lookup_insert_ne by done. by exists c.
Qed.

(** The number of an outstanding call is below the next one of its client. *)
Lemma flying_below w t th i cl x :
  net_inv w -> threads w !! t = Some th -> flying th = Some (i, x) -> clients w !! i = Some cl -> 0 < x < xid_ cl.
Proof.
  intros HI Ht Hf Hcl. destruct (ni_threads w HI t th Ht) as (_ & cl0 & Hcl0 & _ & Hfl).
  replace (th_client th) with i in Hcl0 by (unfold flying in Hf; destruct (th_flight th); congruence).
  rewrite Hcl in Hcl0. injection Hcl0 as <-. by destruct (Hfl i x Hf).
Qed.

(** *** The four steps *)

(** The events of a call, one for each stage. *)
Definition next_event (t : nat) (th : thread) : option event :=
  match th_flight th with
  | Idle => match th_calls th with [] => None | _ :: _ => Some (Start t) end
  | ToServer _ _ => Some (Request t)
  | ToClient _ _ _ => Some (Reply t)
  | Landed _ => Some (Return t)
  | Lost => None
  end.

Lemma start_ok w t i c rest :
  net_inv w -> threads w !! t = Some (Thread i (c :: rest) Idle) ->
  exists w' x b, step w (Start t) = Next w' /\ net_inv w' /\
    threads w' = <[t := Thread i (c :: rest) (ToServer x b)]> (threads w).
Proof.
  intros HI Ht. pose proof (ni_threads w HI t _ Ht) as (Hg & cl & Hcl & _ & _). cbn in Hg, Hcl.
  pose proof (ni_clients w HI i cl Hcl) as [[Hb Hsn] Hd [Hn Hn0] Hx].
  pose proof (ni_budget w HI i cl Hcl) as Hbud.
  apply Forall_cons in Hg as [(args & ret & rb & Ha) Hg]. pose proof Ha as [[Hps Hpb] [Happ Hfit] _ _ _ _].
  cbn [step]. rewrite Ht, Hcl. unfold call1_begin. rewrite Hb, Hd, (proj2 (Z.eqb_neq _ _) Hpb). cbn [negb andb orb].
  set (x := xid_ cl) in *. assert (s32 x = x) as Ex by (apply s32_small; unfold is_s32; lia). rewrite Ex.
  assert (s32 (t_proc c) = t_proc c) as Ep by (by apply s32_small). rewrite Ep, Hsn.
  assert (u32 (x + 1) = x + 1) as Eu by (apply u32_small; unfold is_u32; lia). rewrite Eu.
  set (h := ReqHeader x (t_proc c) (clt_nonce cl) N (s32 (window_front cl))).
  destruct (request_arrives h (t_req c) args) as (b & u & E & Hu & Hc); [|done|done|].
  { unfold wf_req_header, h, is_s32; cbn. pose proof (s32_range (window_front cl)). unfold is_s32 in *. repeat split; try apply Hn; try apply HN; lia. }
  fold h. rewrite E. do 3 eexists. split; [done|]. split; [|done].
  eapply (net_inv_client w t _ _ i cl); [done|exact Ht|done|done|constructor; cbn; done || lia| | | | | |].
  - cbn. lia.
  - cbn. lia.
  - cbn. lia.
  - intros t' th0 x' _ H0 Hf. cbn. pose proof (flying_below w t' th0 i cl x' HI H0 Hf Hcl).
    rewrite lookup_insert_ne; [done|lia].
  - split; [cbn; constructor; [by exists args, ret, rb|done]|]. cbn [th_client]. eexists. split; [cbn; by rewrite lookup_insert_eq|].
    split; [done|]. intros i' x' [= <- <-]. split; [cbn; lia|]. exists c, rest. split; [done|].
    exists args, ret, rb. split; [done|]. cbn. split; [eexists; by rewrite lookup_insert_eq|].
    split; [|by do 2 eexists]. intros Hy. pose proof (ni_window w HI i cl x Hcl Hy). lia.
  - intros k [= <-]. right. intros t' th0 H0 Hf. pose proof (flying_below w t' th0 i cl x HI H0 Hf Hcl). lia.
Qed.

Lemma request_ok w t i cs x b :
  net_inv w -> threads w !! t = Some (Thread i cs (ToServer x b)) ->
  exists w' c' b', step w (Request t) = Next w' /\ net_inv w' /\
    threads w' = <[t := Thread i cs (ToClient x c' b')]> (threads w).
Proof.
  intros HI Ht. pose proof (ni_threads w HI t _ Ht) as (Hg & cl & Hcl & _ & Hfl). cbn in Hg, Hcl.
  destruct (Hfl i x eq_refl) as (Hx & c & rest & Ecs & args & ret & rb & Ha & Hca & Hnw & r & u & Hcu & Hu).
  clear Hfl. cbn in Ecs. subst cs.
  pose proof Ha as [[Hps Hpb] _ (f & Hf & Hrun) Hret Hfit _]. destruct (Hrun u Hcu) as (rep & Hrep & Happ).
  pose proof (ni_clients w HI i cl Hcl) as [_ _ [Hn Hn0] _]. pose proof (ni_budget w HI i cl Hcl) as Hbud.
  pose proof (ni_tables w HI) as Htab. injection Htab as HtN HtP.
  assert (u32 x = x) as Eu by (apply u32_small; unfold is_u32; lia).
  destruct (dispatch_runs i b (server w) () _ u f ret rep () Hu) as (s' & Hd);
    [apply Hcu|right; cbn; congruence|cbn; by rewrite HtP|right; cbn; by rewrite Eu|done|intuition lia|].
  destruct (dispatch_window i b false (server w) () i _ s' () ltac:(unfold header_of; by rewrite Hu) Hd) as [HT HW].
  unfold header_of in HW. rewrite Hu in HW. cbn [fst rq_clt_nonce rq_xid] in HW. rewrite Eu in HW.
  destruct (reply_arrives (ReplyHeader x ret) rep rb) as (b' & u' & E' & Hu' & Hc'); [|done|done|].
  { split; unfold is_s32; cbn; [lia|]. change rpc_const.unmarshal_args_failure with (-2) in Hret. lia. }
  cbn [step]. rewrite Ht, Hd. cbn [rq_xid] in *. rewrite E'. do 3 eexists. split; [done|]. split; [|done].
  apply (net_inv_step w _ t (Thread i (c :: rest) (ToServer x b)) (Thread i (c :: rest) (ToClient x i b')));
    [done|done|done|done| | | | |].
  - intros j cl' Hj. exists cl'. split; [done|]. split; [done|]. split; [by eapply ni_clients|done].
  - intros j cl' y Hj Hy. cbn in Hj, Hy. destruct (HW _ _ Hy) as [Hy'|[En ->]]; [by eapply ni_window|].
    assert (j = i) as -> by (by eapply (ni_nonces w HI j i)). rewrite Hcl in Hj. injection Hj as <-. lia.
  - intros t' th0 Hne H0 j cl0 Hj. exists cl0. split; [done|]. split; [done|]. split; [done|].
    intros x' Hf'. split; [done|]. cbn. intros Hy. destruct (HW _ _ Hy) as [Hy'|[En ->]]; [done|].
    exfalso. apply Hne. assert (j = i) as -> by (by eapply (ni_nonces w HI j i)).
    by apply (ni_apart w HI t' t th0 _ (i, x) H0 Ht).
  - split; [done|]. exists cl. split; [done|]. split; [done|]. intros i' x' [= <- <-]. split; [done|].
    exists c, rest. split; [done|]. exists args, ret, rb. split; [done|]. cbn. split; [done|]. split; [done|]. by exists u'.
  - intros k Hk. by left.
Qed.

Lemma reply_ok w t i cs x c' b :
  net_inv w -> threads w !! t = Some (Thread i cs (ToClient x c' b)) ->
  exists w', step w (Reply t) = Next w' /\ net_inv w' /\
    threads w' = <[t := Thread i cs (Landed x)]> (threads w).
Proof.
  intros HI Ht. pose proof (ni_threads w HI t _ Ht) as (Hg & cl & Hcl & _ & Hfl). cbn in Hg, Hcl.
  destruct (Hfl i x eq_refl) as (Hx & c & rest & Ecs & args & ret & rb & Ha & (ca & Hca & Hdone) & Ec & u & Hu & Hcu).
  clear Hfl. cbn in Ecs, Ec. subst cs c'.
  pose proof (ni_clients w HI i cl Hcl) as [Hb Ho Hn Hx0]. pose proof (ni_budget w HI i cl Hcl) as Hbud.
  destruct (got_pdu_one b _ u cl Hu) as (G1 & G2 & G3 & G4 & G5 & G6); [apply Hcu|]. cbn [rp_xid] in G1.
  destruct (reply_settles_call b _ u cl ca Hu) as [S1 _]; [apply Hcu|unfold is_s32; cbn; lia|done|done|].
  cbn [rp_xid rp_ret] in S1.
  cbn [step]. rewrite Ht, Hcl. eexists. split; [done|]. split; [|done].
  apply (net_inv_client w t (Thread i (c :: rest) (ToClient x i b)) _ i cl);
    [done|done|done|done|constructor; rewrite ?G2, ?G3, ?G4, ?G5, ?G6; done|lia|cbn; lia|cbn; lia| | |].
  - intros t' th0 x' Hne H0 Hf. apply G1. intros ->. apply Hne. by apply (ni_apart w HI t' t th0 _ (i, x) H0 Ht).
  - split; [done|]. cbn [th_client]. eexists. split; [cbn; by rewrite lookup_insert_eq|]. split; [done|].
    intros i' x' [= <- <-]. split; [by rewrite G5|]. exists c, rest. split; [done|]. exists args, ret, rb.
    split; [done|]. cbn. exists (u_take_in u). split; [done|]. by eapply take_in_cursor.
  - intros k Hk. by left.
Qed.

Lemma return_ok w t i cs x :
  net_inv w -> threads w !! t = Some (Thread i cs (Landed x)) ->
  exists w' c rest, step w (Return t) = Next w' /\ net_inv w' /\ cs = c :: rest /\
    threads w' = <[t := Thread i rest Idle]> (threads w).
Proof.
  intros HI Ht. pose proof (ni_threads w HI t _ Ht) as (Hg & cl & Hcl & _ & Hfl). cbn in Hg, Hcl.
  destruct (Hfl i x eq_refl) as (Hx & c & rest & Ecs & args & ret & rb & Ha & un & Hca & Hcu).
  clear Hfl. cbn in Ecs. subst cs. apply Forall_cons in Hg as [_ Hg].
  pose proof (ni_clients w HI i cl Hcl) as [Hb Ho Hn Hx0]. pose proof (ni_budget w HI i cl Hcl) as Hbud.
  assert (s32 x = x) as Ex by (apply s32_small; unfold is_s32; lia).
  cbn [step]. rewrite Ht, Hcl, Ex, Hca. cbn [ca_done ca_un]. unfold call1_end. rewrite Ex, Hca. cbn [ca_done ca_intret].
  unfold returned. cbn [th_calls]. rewrite (an_check _ _ _ _ _ Ha un Hcu).
  do 3 eexists. split; [done|]. split; [|done]. cbn [th_client].
  apply (net_inv_client w t (Thread i (c :: rest) (Landed x)) _ i cl);
    [done|done|done|done|constructor; done|done|cbn; lia|cbn; lia| | |].
  - intros t' th0 x' Hne H0 Hf. cbn. rewrite lookup_delete_ne; [done|]. intros ->. apply Hne.
    by apply (ni_apart w HI t' t th0 _ (i, x') H0 Ht).
  - split; [done|]. eexists. split; [cbn; by rewrite lookup_insert_eq|]. done.
  - done.
Qed.

(** *** Runs *)

(** Steps that a thread has still to make. *)
Definition steps_left (th : thread) : nat :=
  4 * length (th_calls th) - match th_flight th with ToServer _ _ => 1 | ToClient _ _ _ => 2 | Landed _ => 3 | _ => 0 end.

Definition left (w : net) : nat := sum_list (steps_left <$> threads w).

Lemma left_step w w' t th th' :
  threads w !! t = Some th -> threads w' = <[t := th']> (threads w) -> steps_left th = S (steps_left th') ->
  left w = S (left w').
Proof.
  intros Ht E Hs. unfold left. rewrite E, list_fmap_insert.
  pose proof (sum_list_insert (steps_left <$> threads w) t (steps_left th) (steps_left th')) as H.
  rewrite list_lookup_fmap, Ht in H. specialize (H eq_refl). lia.
Qed.

Lemma flying_calls w t th k :
  net_inv w -> threads w !! t = Some th -> flying th = Some k -> exists c rest, th_calls th = c :: rest.
Proof.
  intros HI Ht Hf. destruct (ni_threads w HI t th Ht) as (_ & cl & _ & _ & Hfl). destruct k as [i x].
  destruct (Hfl i x Hf) as (_ & c & rest & E & _). by exists c, rest.
Qed.

(** The next event of a thread is possible, and takes it one step further. *)
Lemma event_ok w t th e :
  net_inv w -> threads w !! t = Some th -> next_event t th = Some e ->
  exists w', step w e = Next w' /\ net_inv w' /\ left w = S (left w').
Proof.
  intros HI Ht. destruct th as [i cs [|x b|x c' b|x|]]; cbn; [destruct cs as [|c rest]; [done|]| | | |done]; intros [= <-].
  - destruct (start_ok w t i c rest HI Ht) as (w' & x & b & E & HI' & Eth). exists w'. split; [done|]. split; [done|].
    eapply left_step; [done|done|]. cbn. lia.
  - destruct (flying_calls w t _ (i, x) HI Ht eq_refl) as (c & rest & E0). cbn in E0.
    destruct (request_ok w t i cs x b HI Ht) as (w' & c1 & b' & E & HI' & Eth). exists w'. split; [done|]. split; [done|].
    eapply left_step; [done|done|]. cbn. rewrite E0. cbn. lia.
  - destruct (flying_calls w t _ (i, x) HI Ht eq_refl) as (c & rest & E0). cbn in E0.
    destruct (reply_ok w t i cs x c' b HI Ht) as (w' & E & HI' & Eth). exists w'. split; [done|]. split; [done|].
    eapply left_step; [done|done|]. cbn. rewrite E0. cbn. lia.
  - destruct (return_ok w t i cs x HI Ht) as (w' & c & rest & E & HI' & -> & Eth). exists w'. split; [done|]. split; [done|].
    eapply left_step; [done|done|]. cbn. lia.
Qed.

(** An event that is not the next one of a thread is not possible. *)
Lemma event_next w e :
  step w e = Disabled \/ exists t th, threads w !! t = Some th /\ next_event t th = Some e.
Proof.
  destruct e as [t|t|t|t]; unfold step; (destruct (threads w !! t) as [[i cs fl]|] eqn:Ht; [|left; reflexivity]);
    destruct fl; try (left; destruct cs; reflexivity); [destruct cs; [left; reflexivity|]| | |];
    right; eexists t, _; (split; [exact Ht|reflexivity]).
Qed.

Lemma run_ok w es :
  net_inv w ->
  match run w es with
  | Next w' => net_inv w' /\ left w = (length es + left w')%nat
  | Disabled => True
  | Asserted => False
  end.
Proof.
  revert w. induction es as [|e es IH]; intros w HI; [done|]. cbn [run].
  destruct (event_next w e) as [->|(t & th & Ht & He)]; [done|].
  destruct (event_ok w t th e HI Ht He) as (w' & -> & HI' & Hl). specialize (IH w' HI').
  destruct (run w' es); [|done|done]. destruct IH as [H1 H2]. split; [done|]. cbn. lia.
Qed.

(** As long as a thread has calls to make, the network can go on. *)
Lemma not_stuck w :
  net_inv w -> Forall (fun th => th_calls th = []) (threads w) \/ exists e w', step w e = Next w'.
Proof.
  intros HI. destruct (decide (Forall (fun th => th_calls th = []) (threads w))) as [|Hn]; [by left|right].
  apply not_Forall_Exists, Exists_exists in Hn as (th & Hin & Hc); [|apply _].
  apply list_elem_of_lookup in Hin as [t Ht].
  destruct (next_event t th) as [e|] eqn:He; [destruct (event_ok w t th e HI Ht He) as (w' & E & _); by exists e, w'|].
  exfalso. destruct (ni_threads w HI t th Ht) as (_ & cl & _ & Hl & _). destruct th as [i cs fl].
  cbn in He, Hc, Hl. destruct fl; [|done..]. by destruct cs.
Qed.

End Network.

(** ** Calls that pass *)

Section Calls.
Context {A R : Type} (wa : wire A) (wr : wire R) `{!WireLaws wa, !WireLaws wr}.
Context (procs : gmap Z (handler_fn unit)) (proc : Z) (Hproc : is_s32 proc /\ proc <> rpc_const.bind).

(** The arguments that the handler expects. *)
Lemma answered_runs (req : marshall) z zr (meth : A -> R -> unit -> Z * R * unit) a ret r r0 check f :
  appended marshall_new (w_enc wa a) req -> w_ok wa a -> w_ok wr r -> fits (w_enc wa a) -> fits (w_enc wr r) ->
  procs !! proc = Some f -> (forall u m, f u m () = wrap wa wr z zr meth u m ()) ->
  meth (w_into wa z a) zr () = (ret, r, ()) -> 0 <= ret < 2 ^ 31 -> check ret (w_into wr r0 r) = true ->
  answered procs (TCall proc req (fun ret un =>
    let '(intret, rep) := call_m wr (fun _ => (ret, un)) req r0 in check intret rep)) (w_enc wa a) ret (w_enc wr r).
Proof.
  intros Happ Ha Hr F1 F2 Hf Hwrap Hm Hret Hch. split; cbn [t_proc t_req t_check]; try done; [|by left|].
  - exists f. split; [done|]. intros u Hu. exists (w_put wr r marshall_new).
    rewrite Hwrap, (wrap_reads wa wr z zr meth a u marshall_new () ret r ()) by done.
    split; [done|]. apply w_put_appends; [done|apply marshall_new_wf].
  - intros un Hun. by rewrite (call_m_reads wr _ _ r0 r ret un) by done || lia.
Qed.

(** Arguments that it does not accept. *)
Lemma answered_rejects {R'} (wr' : wire R') (req : marshall) args r0 (check : Z -> R' -> bool) f :
  appended marshall_new args req -> fits args -> procs !! proc = Some f ->
  (forall u, cursor u args -> f u marshall_new () = (rpc_const.unmarshal_args_failure, marshall_new, ())) ->
  check rpc_const.unmarshal_args_failure r0 = true ->
  answered procs (TCall proc req (fun ret un =>
    let '(intret, rep) := call_m wr' (fun _ => (ret, un)) req r0 in check intret rep))
    args rpc_const.unmarshal_args_failure [].
Proof.
  intros Happ F1 Hf Hrej Hch. split; cbn [t_proc t_req t_check]; [done|done| |by right|by vm_compute|].
  - exists f. split; [done|]. intros u Hu. exists marshall_new. split; [by apply Hrej|].
    split; [apply marshall_new_wf|]. by rewrite app_nil_r.
  - intros un _. done.
Qed.
End Calls.

(** A string where the block is at its end. *)
Lemma get_string_at_end s u : cursor u [] -> u_ok (get_string s u).2 = false.
Proof.
  intros (Hok & _ & Hl & _ & Hi & Hd). apply (f_equal length) in Hd. rewrite length_drop in Hd. cbn in Hd.
  assert ((u_sz u <=? u_ind u)%nat = true) as E by (apply Nat.leb_le; lia).
  unfold get_string, get_u32, u_octet, u_rawbyte. rewrite E. cbn. by rewrite ?E; cbn; rewrite ?E; cbn; rewrite ?E.
Qed.

(** ** The server of the tests *)


Definition fn_22 : handler_fn unit := reg_fn2 w_string [] w_string w_string [] [] srv.handle_22.
Definition fn_23 : handler_fn unit := reg_fn1 w_s32 0 w_s32 0 srv.handle_fast.
Definition fn_24 : handler_fn unit := reg_fn1 w_s32 0 w_s32 0 srv.handle_slow.
Definition fn_25 : handler_fn unit := reg_fn1 w_string [] w_s32 0 srv.handle_bigrep.

Definition table (n : Z) : gmap Z (handler_fn unit) :=
  <[25 := fn_25]> (<[24 := fn_24]> (<[23 := fn_23]> (<[22 := fn_22]> {[rpc_const.bind := fn_bind n]}))).

Lemma startserver_ok n :
  startserver n = Some (Rpcs n (table n) ∅ ∅ ∅ 0 0 ∅ (Heap ∅ 1 false)).
Proof. reflexivity. Qed.

Lemma table_bind n : table n !! rpc_const.bind = Some (fn_bind n).
Proof. reflexivity. Qed.
Lemma table_22 n : table n !! 22 = Some fn_22.
Proof. reflexivity. Qed.
Lemma table_23 n : table n !! 23 = Some fn_23.
Proof. reflexivity. Qed.
Lemma table_24 n : table n !! 24 = Some fn_24.
Proof. reflexivity. Qed.
Lemma table_25 n : table n !! 25 = Some fn_25.
Proof. reflexivity. Qed.

Lemma user_proc proc : 22 <= proc <= 25 -> is_s32 proc /\ proc <> rpc_const.bind.
Proof. unfold is_s32. change rpc_const.bind with 1. lia. Qed.

Lemma fits_string s : fits (w_enc w_string s) <-> size s <= connection.MAX_PDU - 28.
Proof.
  unfold fits, size. cbn [w_enc w_string]. unfold enc_string. rewrite length_app.
  change (length (enc_u32 _)) with 4%nat. lia.
Qed.

Lemma fits_strings a b : fits (w_enc w_string a ++ w_enc w_string b) <-> size a + size b <= connection.MAX_PDU - 32.
Proof.
  unfold fits, size. cbn [w_enc w_string]. unfold enc_string. rewrite !length_app.
  change (length (enc_u32 _)) with 4%nat. lia.
Qed.

Lemma small_string s : size s <= connection.MAX_PDU -> w_ok w_string s.
Proof. unfold size. cbn. change connection.MAX_PDU with 10485760. lia. Qed.

Lemma big_ok n arg r0 check :
  0 <= arg <= 1000000 -> check 0 (replicate (Z.to_nat arg) "x"%char) = true ->
  good_call (table n) (call_1 w_s32 w_string 25 arg r0 check).
Proof.
  intros Ha Hc. assert (size (replicate (Z.to_nat arg) "x"%char) = arg) as Hs
    by (unfold size; rewrite length_replicate; lia).
  eexists _, _, _. apply (answered_runs w_s32 w_string (table n) 25) with (a := arg) (z := 0) (zr := [])
    (meth := srv.handle_bigrep) (f := fn_25) (ret := 0) (r := replicate (Z.to_nat arg) "x"%char);
    [by apply user_proc|apply int_args; lia|apply int_ok; lia
    |apply small_string; rewrite Hs; change connection.MAX_PDU with 10485760; lia|apply fits_int
    |apply fits_string; rewrite Hs; change connection.MAX_PDU with 10485760; lia|apply table_25
    |intros u m; apply reg_fn1_wrap|done|lia|done].
Qed.

Lemma fast_ok n arg r0 check :
  -(2 ^ 31) <= arg < 2 ^ 31 - 1 -> check 0 (arg + 1) = true -> good_call (table n) (call_1 w_s32 w_s32 23 arg r0 check).
Proof.
  intros Ha Hc. assert (s32 (arg + 1) = arg + 1) as Hs by (apply s32_small; unfold is_s32; lia).
  eexists _, _, _. apply (answered_runs w_s32 w_s32 (table n) 23) with (a := arg) (z := 0) (zr := 0)
    (meth := srv.handle_fast) (f := fn_23) (ret := 0) (r := arg + 1);
    [by apply user_proc|apply int_args; lia|apply int_ok; lia
    |apply int_ok; lia|apply fits_int|apply fits_int|apply table_23
    |intros u m; apply reg_fn1_wrap|unfold srv.handle_fast; cbn [w_into w_s32]; unfold overwrite; by rewrite Hs|lia|done].
Qed.

Lemma slow_ok n arg r0 check :
  -(2 ^ 31) <= arg < 2 ^ 31 - 2 -> check 0 (arg + 2) = true -> good_call (table n) (call_1 w_s32 w_s32 24 arg r0 check).
Proof.
  intros Ha Hc. assert (s32 (arg + 2) = arg + 2) as Hs by (apply s32_small; unfold is_s32; lia).
  eexists _, _, _. apply (answered_runs w_s32 w_s32 (table n) 24) with (a := arg) (z := 0) (zr := 0)
    (meth := srv.handle_slow) (f := fn_24) (ret := 0) (r := arg + 2);
    [by apply user_proc|apply int_args; lia|apply int_ok; lia
    |apply int_ok; lia|apply fits_int|apply fits_int|apply table_24
    |intros u m; apply reg_fn1_wrap|unfold srv.handle_slow; cbn [w_into w_s32]; unfold overwrite; by rewrite Hs|lia|done].
Qed.

Lemma concat_ok n a b r0 check :
  size a + size b <= 5000000 -> check 0 (a ++ b) = true ->
  good_call (table n) (call_2 w_string w_string w_string 22 a b r0 check).
Proof.
  intros Hl Hc.
  assert (0 <= size a /\ 0 <= size b) as [] by (unfold size; lia).
  assert (size (a ++ b) = size a + size b) as Hs by (unfold size; rewrite length_app; lia).
  assert (connection.MAX_PDU = 10485760) as HM by reflexivity.
  assert (w_ok w_string a /\ w_ok w_string b) as [Ha Hb] by (split; apply small_string; lia).
  eexists (w_enc w_string a ++ w_enc w_string b), 0, (w_enc w_string (a ++ b)).
  apply (answered_runs (w_pair w_string w_string) w_string (table n) 22 (user_proc 22 ltac:(lia))
    (call_args2 w_string w_string a b) ([], []) [] (fun '(a1, a2) => srv.handle_22 a1 a2) (a, b) 0 (a ++ b) r0 check fn_22).
  - apply (args2_appended w_string w_string a b Ha Hb).
  - done.
  - apply small_string. lia.
  - change (fits (w_enc w_string a ++ w_enc w_string b)). rewrite fits_strings. lia.
  - rewrite fits_string. lia.
  - apply table_22.
  - intros u m. apply reg_fn2_wrap.
  - done.
  - lia.
  - done.
Qed.

Lemma size_xs n : 0 <= n -> size (replicate (Z.to_nat n) "x"%char) = n.
Proof. intros Hn. unfold size. rewrite length_replicate. lia. Qed.

Lemma size_app a b : size (a ++ b) = size a + size b.
Proof. unfold size. rewrite length_app. lia. Qed.

(** One string where two are expected. *)
Lemma too_few_ok n s r0 (check : Z -> bytes -> bool) :
  size s <= 1000 -> check rpc_const.unmarshal_args_failure r0 = true ->
  good_call (table n) (call_1 w_string w_string 22 s r0 check).
Proof.
  intros Hs Hc. assert (connection.MAX_PDU = 10485760) as HM by reflexivity.
  assert (w_ok w_string s) as Hok by (apply small_string; lia).
  exists (w_enc w_string s), rpc_const.unmarshal_args_failure, [].
  apply (answered_rejects (table n) 22 (user_proc 22 ltac:(lia)) w_string (call_args1 w_string s) _ r0 check fn_22);
    [apply (args1_appended w_string s Hok)|rewrite fits_string; lia|apply table_22| |done].
  intros u Hu. rewrite <- (app_nil_r (w_enc w_string s)) in Hu. unfold fn_22, reg_fn2.
  rewrite (w_get_reads [] s u _ Hok Hu). apply cursor_app in Hu. pose proof (get_string_at_end [] _ Hu) as He.
  cbn [w_get w_string]. destruct (get_string [] _) as [a2 u2]. cbn in He. unfold u_okdone. by rewrite He.
Qed.

(** More than the integer that is expected. *)
Lemma too_many_rejected n x c rest (req : marshall) {R'} (wr' : wire R') r0 (check : Z -> R' -> bool) :
  -(2 ^ 31) <= x < 2 ^ 31 -> appended marshall_new (w_enc w_s32 x ++ c :: rest) req ->
  Z.of_nat (length rest) <= 1000 -> check rpc_const.unmarshal_args_failure r0 = true ->
  answered (table n) (TCall 23 req (fun ret un =>
    let '(intret, rep) := call_m wr' (fun _ => (ret, un)) req r0 in check intret rep))
    (w_enc w_s32 x ++ c :: rest) rpc_const.unmarshal_args_failure [].
Proof.
  intros Hx Ha Hl Hc.
  apply (answered_rejects (table n) 23 (user_proc 23 ltac:(lia)) wr' req _ r0 check fn_23);
    [done| |apply table_23| |done].
  - unfold fits. rewrite length_app. change (length (w_enc w_s32 x)) with 4%nat. cbn [length].
    change connection.MAX_PDU with 10485760. lia.
  - intros u Hu. unfold fn_23. rewrite reg_fn1_wrap.
    by apply (wrap_rejects w_s32 w_s32 0 0 srv.handle_fast x u c rest marshall_new ()); [apply int_ok|].
Qed.

(** The test for a result of the wrong size fails for another reason: the server
    rejects the two strings, which are not the integer that it expects, and sends
    no result. *)
Theorem wrong_size_test_has_wrong_arguments n c :
  simple_tests !! 4%nat = Some c ->
  exists args, answered (table n) c args rpc_const.unmarshal_args_failure [].
Proof.
  intros [= <-]. exists (w_enc w_string (str "hello") ++ w_enc w_string (str " goodbye")).
  apply (too_many_rejected n 5 "h"%char (str "ello" ++ w_enc w_string (str " goodbye"))); [lia| |by vm_compute|done].
  apply (args2_appended w_string w_string (str "hello") (str " goodbye")); by vm_compute.
Qed.

Lemma simple_tests_good n : Forall (good_call (table n)) simple_tests.
Proof.
  unfold simple_tests. repeat apply Forall_cons_2; [..|apply Forall_nil_2].
  - apply concat_ok; [by vm_compute|by vm_compute].
  - apply big_ok; [lia|]. rewrite size_xs by lia. done.
  - apply too_few_ok; [by vm_compute|done].
  - eexists _, _, _.
    apply (too_many_rejected n 1001 (char_of 0) [char_of 0; char_of 3; char_of 234]); [lia| |cbn; lia|done].
    apply (args2_appended w_s32 w_s32 1001 1002); apply int_ok; lia.
  - destruct (wrong_size_test_has_wrong_arguments n _ eq_refl) as [args Ha]. by eexists _, _, _.
  - apply fast_ok; [lia|done].
  - apply concat_ok; rewrite ?size_app, size_xs by lia; [by vm_compute|done].
  - apply concat_ok; rewrite ?size_app, size_xs by lia; [by vm_compute|done].
Qed.

Lemma client1_good n bigs mixed :
  Forall (fun arg => 0 <= arg < 2000) bigs -> Forall (fun p : bool * Z => 0 <= p.2 < 1000) mixed ->
  Forall (good_call (table n)) (client1 bigs mixed).
Proof.
  intros Hb Hm. apply Forall_app_2; apply Forall_fmap.
  - eapply Forall_impl; [exact Hb|]. intros arg Ha. cbn beta in Ha. unfold compose. apply big_ok; [lia|]. by rewrite size_xs, !Z.eqb_refl by lia.
  - eapply Forall_impl; [exact Hm|]. intros [[] arg] Ha; unfold compose; cbn [snd] in Ha.
    + apply fast_ok; [lia|]. by rewrite !Z.eqb_refl.
    + apply slow_ok; [lia|]. by rewrite !Z.eqb_refl.
Qed.

Lemma client2_good n args : Forall (fun arg => 0 <= arg < 2000) args -> Forall (good_call (table n)) (client2 args).
Proof.
  intros Ha. apply Forall_fmap. eapply Forall_impl; [exact Ha|]. intros arg Hr. cbn beta in Hr. unfold compose. apply big_ok; [lia|].
  by rewrite size_xs, Z.eqb_refl by lia.
Qed.

Lemma client3_good n rep0 : Forall (good_call (table n)) (client3 rep0).
Proof.
  apply Forall_fmap. repeat apply Forall_cons_2; [..|apply Forall_nil_2]; unfold compose; (apply slow_ok; [lia|reflexivity]).
Qed.

Lemma client4_good n args :
  Forall (fun arg => 250000 <= arg < 252000) args -> Forall (good_call (table n)) (client4 args).
Proof.
  intros Ha. apply Forall_fmap. eapply Forall_impl; [exact Ha|]. intros arg Hr. cbn beta in Hr. unfold compose. apply big_ok; [lia|].
  by rewrite size_xs, !Z.eqb_refl by lia.
Qed.

(** ** One call at a time *)

(** ** The threads *)

Lemma start_runs n n0 n1 ths s c0 s0 c1 s1 :
  startserver n = Some s -> bind_now 0 (rpcc_new true n0) (Some (s, ())) = Some (0, c0, Some (s0, ())) ->
  bind_now 1 (rpcc_new true n1) (Some (s0, ())) = Some (0, c1, Some (s1, ())) ->
  start n n0 n1 ths = Some (Net {[0 := c0; 1 := c1]} s1 ths).
Proof.
  intros Hs H0 H1. unfold start. rewrite Hs. cbn [mbind option_bind]. rewrite H0. cbn [mbind option_bind].
  rewrite H1. reflexivity.
Qed.

Lemma fresh_server n : exists s, startserver n = Some s /\ tables s = (n, table n) /\ forall k, win s k = [].
Proof. rewrite startserver_ok. eexists. split; [reflexivity|]. split; [reflexivity|]. intros k. reflexivity. Qed.

Lemma binds_at n (s : rpcs unit) : tables s = (n, table n) -> nonce s = n /\ procs s !! rpc_const.bind = Some (fn_bind n).
Proof. intros [= H1 H2]. split; [exact H1|]. rewrite H2. exact (table_bind n). Qed.

Lemma start_inv n n0 n1 ths :
  number n -> number n0 -> number n1 -> n0 <> n1 ->
  Forall (fun th => th_flight th = Idle /\ (th_client th = 0 \/ th_client th = 1) /\
                    Forall (good_call (table n)) (th_calls th)) ths ->
  Z.of_nat (sum_list ((fun th => length (th_calls th)) <$> ths)) < 2 ^ 31 - 2 ->
  exists w, start n n0 n1 ths = Some w /\ threads w = ths /\ net_inv n (table n) w.
Proof.
  intros Hn H0 H1 Hne Hth Hsum. destruct (fresh_server n) as (s & Es & Hs & Hw0).
  destruct (bind_now_ok n 0 (rpcc_new true n0) s ()) as (c0 & s0 & E0 & B0 & N0 & X0 & T0 & W0);
    [exact Hn|exact (fresh_client n n0 Hn H0)|exact (proj1 (binds_at n s Hs))|exact (proj2 (binds_at n s Hs))|rewrite Hw0; apply not_elem_of_nil|].
  destruct (bind_now_ok n 1 (rpcc_new true n1) s0 ()) as (c1 & s1 & E1 & B1 & N1 & X1 & T1 & W1);
    [exact Hn|exact (fresh_client n n1 Hn H1)|apply binds_at; by rewrite T0|apply binds_at; by rewrite T0| |].
  { clear Es E0. intros Hy. destruct (W0 _ _ Hy) as [Hy'|[E _]]; [rewrite Hw0 in Hy'; by apply not_elem_of_nil in Hy'|by cbn in E]. }
  exists (Net {[0 := c0; 1 := c1]} s1 ths). split; [exact (start_runs n n0 n1 ths s c0 s0 c1 s1 Es E0 E1)|].
  clear E0 E1 Es. split; [done|].
  cbn in N0, N1, X0, X1.
  assert (forall i cl, ({[0 := c0; 1 := c1]} : gmap Z rpcc) !! i = Some cl ->
    (i = 0 /\ cl = c0) \/ (i = 1 /\ cl = c1)) as Hcl.
  { intros i cl. destruct (decide (i = 0)) as [->|]; [rewrite lookup_insert_eq; intros [= <-]; auto|].
    rewrite lookup_insert_ne by done. intros [<- <-]%lookup_singleton_Some. auto. }
  assert (forall i y, y ∈ xid <$> win s1 i -> y = 1) as Hw.
  { intros i y Hy. destruct (W1 _ _ Hy) as [Hy'|[_ ->]]; [|done]. destruct (W0 _ _ Hy') as [Hy''|[_ ->]]; [|done].
    rewrite Hw0 in Hy''. by apply not_elem_of_nil in Hy''. }
  split; cbn [server clients threads].
  - by rewrite T1, T0.
  - intros i cl [[-> ->]|[-> ->]]%Hcl; [destruct B0 as [[] ? ?]|destruct B1 as [[] ? ?]];
      (split; [done|done|rewrite ?N0, ?N1; unfold number, is_u32 in *; lia|lia]).
  - intros i j ci cj [[-> ->]|[-> ->]]%Hcl [[-> ->]|[-> ->]]%Hcl; congruence.
  - intros i cl y Hi%Hcl ->%Hw. destruct Hi as [[-> ->]|[-> ->]]; lia.
  - intros t th Ht. pose proof (proj1 (Forall_lookup _ _) Hth t th Ht) as (Hi & Hc & Hg). split; [done|].
    assert (is_Some (({[0 := c0; 1 := c1]} : gmap Z rpcc) !! th_client th)) as [cl Hcl'].
    { destruct Hc as [-> | ->]; [by rewrite lookup_insert_eq|]. rewrite lookup_insert_ne by done. by rewrite lookup_singleton_eq. }
    exists cl. split; [done|]. split; [by rewrite Hi|]. unfold flying. by rewrite Hi.
  - intros t t' th th' k Ht _ Hf _. pose proof (proj1 (Forall_lookup _ _) Hth t th Ht) as (Hi & _).
    unfold flying in Hf. by rewrite Hi in Hf.
  - assert (budget (Net {[0 := c0; 1 := c1]} s1 ths) = sum_list ((fun th => length (th_calls th)) <$> ths)) as ->.
    { unfold budget. cbn. f_equal. apply list_fmap_ext. intros t th Ht.
      pose proof (proj1 (Forall_lookup _ _) Hth t th Ht) as (Hi & _). unfold to_start. by rewrite Hi. }
    intros i cl [[-> ->]|[-> ->]]%Hcl; lia.
Qed.

(** What the threads of the tests call, with the numbers that [random()] can give. *)
Inductive test_thread : list tcall -> Prop :=
  | Simple : test_thread simple_tests
  | Concurrent bigs mixed :
      Forall (fun arg => 0 <= arg < 2000) bigs -> Forall (fun p : bool * Z => 0 <= p.2 < 1000) mixed ->
      test_thread (client1 bigs mixed)
  | Lossy args : Forall (fun arg => 0 <= arg < 2000) args -> test_thread (client2 args)
  | Failure rep0 : test_thread (client3 rep0)
  | Garbage args : Forall (fun arg => 250000 <= arg < 252000) args -> test_thread (client4 args).

Lemma test_thread_good n cs : test_thread cs -> Forall (good_call (table n)) cs.
Proof.
  intros [|bigs mixed Hb Hm|args Ha|rep0|args Ha]; [apply simple_tests_good|by apply client1_good|by apply client2_good
    |apply client3_good|by apply client4_good].
Qed.

Definition total_calls (ths : list thread) : nat := sum_list ((fun th => length (th_calls th)) <$> ths).

Lemma left_idle w : Forall (fun th => th_flight th = Idle) (threads w) -> left w = (4 * total_calls (threads w))%nat.
Proof.
  unfold left, total_calls. induction 1 as [|th l Hi Hl IH]; [done|]. cbn [fmap list_fmap sum_list sum_list_with].
  cbn in IH |- *. rewrite IH. unfold steps_left. rewrite Hi. lia.
Qed.



(** ** [failure_test] *)

Lemma bind_to_nobody_fails k : bind_to_nobody k = Some ().
Proof. reflexivity. Qed.

(** A call of the tests that passes, by a client that nothing is outstanding at. *)
Lemma tcall_now_ok n c i cl s :
  may_call n (t_proc c) cl -> tables s = (n, table n) -> good_call (table n) c ->
  (xid_ cl ∉ xid <$> win s (clt_nonce cl)) ->
  exists cl' s', tcall_now c i cl (Some (s, ())) = Some (cl', Some (s', ())) /\ called cl cl' /\ tables s' = tables s.
Proof.
  intros Hm Ht (args & ret & rb & [_ [Happ Hfit] (f & Hf & Hrun) Hret Hrb Hch]) Hnew. injection Ht as Ht1 Ht2.
  destruct (call_now_ok n (t_proc c) (t_req c) args f ret rb i cl s () ()) as (un & cl' & s' & E & Hun & Hc & HT & _);
    [exact Hm|exact Ht1|exact Happ|exact Hfit|rewrite Ht2; exact Hf|exact Hrun|exact Hret|exact Hrb|exact Hnew|].
  exists cl', s'. split; [|done]. unfold tcall_now. rewrite E. cbn [mbind option_bind]. by rewrite (Hch un Hun).
Qed.

Lemma tcall_now_old n n' c i cl s args :
  may_call n' (t_proc c) cl -> t_proc c <> rpc_const.bind -> nonce s = n -> n' <> n -> n' <> 0 ->
  appended marshall_new args (t_req c) -> fits args ->
  (forall un, t_check c rpc_const.oldsrv_failure un = true) ->
  exists cl', tcall_now c i cl (Some (s, ())) = Some (cl', Some (s, ())) /\ called cl cl'.
Proof.
  intros Hm Hp Hn Hne H0 Happ Hfit Hch.
  destruct (call_now_old n n' (t_proc c) (t_req c) args i cl s () Hm Hp Hn Hne H0 Happ Hfit) as (un & cl' & E & Hc).
  exists cl'. split; [|exact Hc]. unfold tcall_now. rewrite E. cbn [mbind option_bind]. by rewrite Hch.
Qed.

(** A second [bind] is refused before anything is sent. *)
Lemma bind_again {S} n i cl (srv : option (rpcs S * S)) : bound n cl -> bind_now i cl srv = Some (rpc_const.bind_failure, cl, srv).
Proof. intros [[Hb _] _ _]. unfold bind_now, call_now, call1_begin. rewrite Hb. reflexivity. Qed.

Lemma failure_runs cl n n1 n2 s cl1 cl2 s2 cl3 s3 :
  startserver n = Some s ->
  tcall_now (hello_goodbye (fun intret _ => intret =? rpc_const.oldsrv_failure)) 0 cl (Some (s, ())) = Some (cl1, Some (s, ())) ->
  calls cl1 = ∅ -> bind_now 1 (rpcc_new true n2) (Some (s, ())) = Some (0, cl2, Some (s2, ())) -> bound n cl2 ->
  tcall_now (hello_goodbye (fun intret rep => (intret =? 0) && bool_decide (rep = str "hello goodbye"))) 1 cl2 (Some (s2, ())) =
    Some (cl3, Some (s3, ())) ->
  failure_test cl n n1 n2 = Some (cl3, Some (s3, ())).
Proof.
  intros Hs Hold Hc Hb Hbo Hcall. unfold failure_test. rewrite bind_to_nobody_fails. cbn [mbind option_bind].
  rewrite Hs. cbn [mbind option_bind]. rewrite Hold. cbn [mbind option_bind]. rewrite Hc.
  rewrite bool_decide_true by reflexivity. cbn [mbind option_bind demand]. unfold new_client. rewrite Hb.
  cbn [mbind option_bind demand Z.leb Z.compare]. rewrite (bind_again n) by exact Hbo. cbn [mbind option_bind].
  change (rpc_const.bind_failure <? 0) with true. cbn [mbind option_bind demand]. exact Hcall.
Qed.

(** C39: [failure_test], up to its threads, for a client of the server before:
    binding to no server fails, the new server tells the old client that its
    server is gone, and a new client binds once, is refused a second time, and
    gets the answer to its call. *)
Theorem failure_test_passes cl n' n n1 n2 :
  may_call n' 22 cl -> number n' -> number n -> number n2 -> n' <> n ->
  exists cl' s', failure_test cl n n1 n2 = Some (cl', Some (s', ())) /\ srv_nonce cl' = n.
Proof.
  intros Hm Hn' Hn Hn2 Hne. destruct (fresh_server n) as (s & Es & Hs & Hw0).
  assert (w_ok w_string (str "hello") /\ w_ok w_string (str " goodbye")) as [Hh Hg] by (split; by vm_compute).
  destruct (tcall_now_old n n' (hello_goodbye (fun intret _ => intret =? rpc_const.oldsrv_failure)) 0 cl s
    (w_enc w_string (str "hello") ++ w_enc w_string (str " goodbye"))) as (cl1 & E1 & C1);
    [exact Hm|discriminate|by injection Hs|exact Hne|unfold number in Hn'; lia
    |exact (args2_appended w_string w_string _ _ Hh Hg)|by vm_compute|reflexivity|].
  destruct (bind_now_ok n 1 (rpcc_new true n2) s ()) as (cl2 & s2 & E2 & B2 & N2 & X2 & T2 & W2);
    [exact Hn|exact (fresh_client n n2 Hn Hn2)|exact (proj1 (binds_at n s Hs))|exact (proj2 (binds_at n s Hs))|rewrite Hw0; apply not_elem_of_nil|].
  cbn [rpcc_new clt_nonce xid_] in N2, X2.
  destruct (tcall_now_ok n (hello_goodbye (fun intret rep => (intret =? 0) && bool_decide (rep = str "hello goodbye"))) 1 cl2 s2)
    as (cl3 & s3 & E3 & C3 & T3).
  - apply bound_may_call; [exact B2|cbn; discriminate|cbn; unfold is_s32; lia|exact (number_u32 n Hn)| | |].
    + rewrite N2. exact (number_u32 n2 Hn2).
    + rewrite N2. unfold number in Hn2. lia.
    + rewrite X2. lia.
  - rewrite T2. exact Hs.
  - apply concat_ok; by vm_compute.
  - rewrite N2, X2. clear -W2 Hw0. intros Hy. destruct (W2 _ _ Hy) as [Hy'|[_ E]]; [|cbn in E; lia].
    rewrite Hw0 in Hy'. by apply not_elem_of_nil in Hy'.
  - exists cl3, s3. split; [|destruct C3 as (_ & -> & _), B2 as [[_ ->] _ _]; reflexivity].
    exact (failure_runs cl n n1 n2 s cl1 cl2 s2 cl3 s3 Es E1 (proj2 (proj2 (proj2 (proj2 (proj2 C1))))) E2 B2 E3).
Qed.

Definition old_client : rpcc := Rpcc 7 5 true 2 ∅ [1] false.

Lemma failure_test_passes_witness :
  exists cl' s', failure_test old_client 9 3 4 = Some (cl', Some (s', ())) /\ srv_nonce cl' = 9.
Proof.
  apply (failure_test_passes old_client 5 9 3 4); [|split; reflexivity..|discriminate].
  split; cbn; unfold is_s32, is_u32; try lia; try (split; reflexivity); reflexivity.
Defined.
