(* ===== verification/Handle.v ===== *)
(** * RPC handles

    [handle_mgr] of [handle.cc]: a table of connected clients by address,
    shared by all layers, with a count of the users of each and a mark for one
    that is to be deleted.  A [handle] object gets its entry when it is
    constructed and gives it back when it is destroyed.  Clients ([rpcc]
    objects) are numbered; the ones deleted so far are recorded.  The counts
    are [int]s that stay far below their bound, so they are plain integers
    here. *)

From stdpp Require Import gmap list strings.
From Stdlib Require Import ZArith Lia Ascii.
From S2P Require Import Prelude Text.

Local Open Scope Z_scope.

Module handle_mgr.

Record hinfo := HInfo { cl : Z; refcnt : Z; del : bool }.

Record state := State {
  hmap : gmap bytes hinfo;
  next_cl : Z;             (** number of the next client that is made *)
  deleted : list Z         (** clients deleted so far *)
}.

Definition new : state := State ∅ 1 [].

(** [get_handle]; [ret] is what [bind] returns if it is called.  The result
    is the client of the handle, or [None] for a null pointer. *)
Definition get_handle (ret : Z) (m : bytes) (s : state) : option Z * state :=
  match hmap s !! m with
  | None =>
      let c := next_cl s in
      if ret <? 0 then (None, State (hmap s) (c + 1) (deleted s))
      else (Some c, State (<[m := HInfo c 1 false]> (hmap s)) (c + 1) (deleted s))
  | Some h =>
      if negb (del h)
      then (Some (cl h), State (<[m := HInfo (cl h) (refcnt h + 1) (del h)]> (hmap s))
                           (next_cl s) (deleted s))
      else (None, s)
  end.

Definition delete_handle_wo (m : bytes) (s : state) : state :=
  match hmap s !! m with
  | None => s
  | Some h =>
      if refcnt h =? 0
      then State (delete m (hmap s)) (next_cl s) (deleted s ++ [cl h])
      else State (<[m := HInfo (cl h) (refcnt h) true]> (hmap s)) (next_cl s) (deleted s)
  end.

(** [delete_handle] is [delete_handle_wo] under the mutex *)
Definition delete_handle (m : bytes) (s : state) : state := delete_handle_wo m s.

(** [done_handle] of the entry for [m]; [None] when the entry is gone, and the
    pointer dangles *)
Definition done_handle (m : bytes) (s : state) : option state :=
  match hmap s !! m with
  | None => None
  | Some h =>
      let n := refcnt h - 1 in
      let s := State (<[m := HInfo (cl h) n (del h)]> (hmap s)) (next_cl s) (deleted s) in
      Some (if (n <=? 0) && del h then delete_handle_wo m s else s)
  end.

(** ** Users of the table *)

(** The handles in use: address and client. *)
Record world := World { mgr : state; users : list (bytes * Z) }.

Inductive event :=
| Construct (ret : Z) (m : bytes)
| Destroy (m : bytes) (c : Z)
| Delete (m : bytes).

(** [None]: the object does not exist, or its entry is gone *)
Definition step (w : world) (e : event) : option world :=
  match e with
  | Construct ret m =>
      let '(r, s) := get_handle ret m (mgr w) in
      Some (World s (match r with Some c => (m, c) :: users w | None => users w end))
  | Destroy m c =>
      if std_mem (m, c) (users w) then
        match done_handle m (mgr w) with
        | Some s => Some (World s (erase_first (m, c) (users w)))
        | None => None
        end
      else None
  | Delete m => Some (World (delete_handle m (mgr w)) (users w))
  end.

(** Users of the entry for [m]. *)
Definition uses (m : bytes) (us : list (bytes * Z)) : Z :=
  Z.of_nat (length (filter (fun u => u.1 = m) us)).

Record inv (w : world) : Prop := {
  iv_user : forall m c, (m, c) ∈ users w -> exists h, hmap (mgr w) !! m = Some h /\ cl h = c;
  iv_count : forall m h, hmap (mgr w) !! m = Some h -> refcnt h = uses m (users w);
  iv_live : forall m h, hmap (mgr w) !! m = Some h -> ~ cl h ∈ deleted (mgr w);
  iv_old : forall m h, hmap (mgr w) !! m = Some h -> cl h < next_cl (mgr w);
  iv_inj : forall m m' h h', hmap (mgr w) !! m = Some h -> hmap (mgr w) !! m' = Some h' ->
             cl h = cl h' -> m = m';
  iv_deleted : NoDup (deleted (mgr w)) /\ forall c, c ∈ deleted (mgr w) -> c < next_cl (mgr w);
  iv_marked : forall m h, hmap (mgr w) !! m = Some h -> del h = true -> 0 < refcnt h
}.

Lemma inv_new : inv (World new []).
Proof.
  split; cbn; try (intros *; rewrite lookup_empty; done); [set_solver|].
  split; [constructor|set_solver].
Qed.

Lemma uses_cons m u us : uses m (u :: us) = uses m us + if decide (u.1 = m) then 1 else 0.
Proof.
  unfold uses. rewrite filter_cons. case_decide; cbn [length]; lia.
Qed.

Lemma uses_erase m u us :
  u ∈ us -> uses m (erase_first u us) = uses m us - if decide (u.1 = m) then 1 else 0.
Proof.
  induction us as [|v us IH]; intros Hin; [by apply elem_of_nil in Hin|]. cbn [erase_first].
  destruct (decide (v = u)) as [->|Hne]; [rewrite uses_cons; lia|].
  rewrite !uses_cons, IH by set_solver. lia.
Qed.

Lemma uses_pos m c us : (m, c) ∈ us -> 0 < uses m us.
Proof.
  intros H. unfold uses. destruct (filter _ us) eqn:E; [|cbn; lia].
  assert ((m, c) ∈ filter (fun u => u.1 = m) us) as Hf by (by apply list_elem_of_filter).
  rewrite E in Hf. by apply elem_of_nil in Hf.
Qed.

Lemma uses_zero m us : uses m us = 0 -> forall c, ~ (m, c) ∈ us.
Proof. intros H c Hc. apply uses_pos in Hc. lia. Qed.

Section Preserve.
Context (w : world) (Hw : inv w).

(** An entry changes its count and mark, and the users follow. *)
Lemma inv_set m h n d us :
  hmap (mgr w) !! m = Some h -> uses m us = n ->
  (forall m', m' <> m -> uses m' us = uses m' (users w)) ->
  (forall u, u ∈ us -> u ∈ users w \/ u = (m, cl h)) -> (d = true -> 0 < n) ->
  inv (World (State (<[m := HInfo (cl h) n d]> (hmap (mgr w))) (next_cl (mgr w)) (deleted (mgr w))) us).
Proof.
  intros Hm Hn Ho Hu Hd. destruct Hw as [I1 I2 I3 I4 I5 I6 I7].
  assert (forall m' h', <[m := HInfo (cl h) n d]> (hmap (mgr w)) !! m' = Some h' ->
    m' = m /\ h' = HInfo (cl h) n d \/ m' <> m /\ hmap (mgr w) !! m' = Some h') as Hc.
  { intros m' h' H. destruct (decide (m' = m)) as [->|Hne].
    - rewrite lookup_insert_eq in H. by injection H as <-; left.
    - rewrite lookup_insert_ne in H by done. by right. }
  assert (forall m' h', <[m := HInfo (cl h) n d]> (hmap (mgr w)) !! m' = Some h' ->
    exists h0, hmap (mgr w) !! m' = Some h0 /\ cl h0 = cl h') as Hold.
  { intros m' h' [[-> ->]|[_ H]]%Hc; eauto. }
  split; cbn.
  - intros m' c Hin. destruct (decide (m' = m)) as [->|Hne].
    + exists (HInfo (cl h) n d). rewrite lookup_insert_eq. split; [done|]. cbn.
      destruct (Hu _ Hin) as [Hin'|[= ->]]; [|done]. apply I1 in Hin' as (h0 & E & <-). congruence.
    + rewrite lookup_insert_ne by done. destruct (Hu _ Hin) as [Hin'|[= ? ?]]; [by apply I1|done].
  - intros m' h' [[-> ->]|[Hne H]]%Hc; [done|]. rewrite Ho by done. by apply I2.
  - intros m' h' (h0 & H & <-)%Hold. by apply (I3 m').
  - intros m' h' (h0 & H & <-)%Hold. by apply (I4 m').
  - intros m1 m2 h1 h2 (h1' & H1 & <-)%Hold (h2' & H2 & <-)%Hold. by apply I5.
  - done.
  - intros m' h' [[-> ->]|[Hne H]]%Hc; [done|by apply (I7 m')].
Qed.

(** An entry without users goes, with its client. *)
Lemma inv_drop m h us :
  hmap (mgr w) !! m = Some h -> uses m us = 0 ->
  (forall m', m' <> m -> uses m' us = uses m' (users w)) ->
  (forall u, u ∈ us -> u ∈ users w) ->
  inv (World (State (delete m (hmap (mgr w))) (next_cl (mgr w)) (deleted (mgr w) ++ [cl h])) us).
Proof.
  intros Hm Hn Ho Hu. destruct Hw as [I1 I2 I3 I4 I5 [I6 I6'] I7].
  split; cbn.
  - intros m' c Hin. destruct (decide (m' = m)) as [->|Hne]; [by apply uses_zero with (c := c) in Hn|].
    rewrite lookup_delete_ne by done. auto.
  - intros m' h' [Hne H]%lookup_delete_Some. rewrite Ho by done. by apply I2.
  - intros m' h' [Hne H]%lookup_delete_Some [Hd|Hd%list_elem_of_singleton]%elem_of_app.
    + by apply (I3 m' h').
    + apply Hne. by apply (I5 m m' h h').
  - intros m' h' [Hne H]%lookup_delete_Some. by apply (I4 m').
  - intros m1 m2 h1 h2 [_ H1]%lookup_delete_Some [_ H2]%lookup_delete_Some. by apply I5.
  - split.
    + apply NoDup_app. split_and!; [done| |apply NoDup_singleton].
      intros c Hc ->%list_elem_of_singleton. by apply (I3 m h).
    + intros c [Hc| ->%list_elem_of_singleton]%elem_of_app; [auto|by apply (I4 m)].
  - intros m' h' [_ H]%lookup_delete_Some. by apply (I7 m').
Qed.

(** A new entry, or a client that could not be connected. *)
Lemma inv_fresh m :
  hmap (mgr w) !! m = None ->
  inv (World (State (hmap (mgr w)) (next_cl (mgr w) + 1) (deleted (mgr w))) (users w)) /\
  inv (World (State (<[m := HInfo (next_cl (mgr w)) 1 false]> (hmap (mgr w))) (next_cl (mgr w) + 1)
                (deleted (mgr w))) ((m, next_cl (mgr w)) :: users w)).
Proof.
  intros Hm. destruct Hw as [I1 I2 I3 I4 I5 [I6 I6'] I7].
  assert (forall c, ~ (m, c) ∈ users w) as Hnone.
  { intros c Hc. apply I1 in Hc as (h & H & _). congruence. }
  assert (uses m (users w) = 0) as H0.
  { unfold uses. destruct (filter _ (users w)) as [|[m' c] l] eqn:E; [done|].
    assert ((m', c) ∈ filter (fun u => u.1 = m) (users w)) as [Hx Hi]%list_elem_of_filter by (rewrite E; set_solver).
    cbn in Hx. subst. by apply Hnone in Hi. }
  split.
  - split; cbn; auto; [intros m' h' H; apply I4 in H; lia|].
    split; [done|]. intros c Hc. apply I6' in Hc. lia.
  - set (n := next_cl (mgr w)) in *.
    assert (forall m' h', <[m := HInfo n 1 false]> (hmap (mgr w)) !! m' = Some h' ->
      m' = m /\ h' = HInfo n 1 false \/ m' <> m /\ hmap (mgr w) !! m' = Some h') as Hc.
    { intros m' h' H. destruct (decide (m' = m)) as [->|Hne].
      - rewrite lookup_insert_eq in H. by injection H as <-; left.
      - rewrite lookup_insert_ne in H by done. by right. }
    split; cbn.
    + intros m' c [[= -> ->]|Hin]%elem_of_cons; [rewrite lookup_insert_eq; eauto|].
      rewrite lookup_insert_ne by (intros ->; by apply Hnone in Hin). auto.
    + intros m' h' [[-> ->]|[Hne H]]%Hc; rewrite uses_cons; cbn [fst refcnt].
      * rewrite decide_True by done. lia.
      * rewrite decide_False by done. apply I2 in H. lia.
    + intros m' h' [[-> ->]|[Hne H]]%Hc; [|by apply (I3 m')]. cbn. intros Hd%I6'. lia.
    + intros m' h' [[-> ->]|[Hne H]]%Hc; cbn; [lia|]. apply I4 in H. lia.
    + intros m1 m2 h1 h2 [[-> ->]|[N1 H1]]%Hc [[-> ->]|[N2 H2]]%Hc; cbn; try done.
      * intros E. apply I4 in H2. lia.
      * intros E. apply I4 in H1. lia.
      * by apply I5.
    + split; [done|]. intros c Hd%I6'. lia.
    + intros m' h' [[-> ->]|[Hne H]]%Hc; [done|by apply (I7 m')].
Qed.

Lemma handle_step_inv e w' : step w e = Some w' -> inv w'.
Proof.
  destruct e as [ret m|m c|m]; cbn [step].
  - unfold get_handle. destruct (hmap (mgr w) !! m) as [h|] eqn:E.
    + destruct (del h) eqn:Ed; cbn [negb]; intros [= <-]; [by destruct w|].
      apply inv_set; [done| | | |done].
      * rewrite uses_cons, decide_True by done. by rewrite (iv_count w Hw m h E).
      * intros m' Hne. rewrite uses_cons, decide_False by done. lia.
      * intros u Hu. apply elem_of_cons in Hu as [->|?]; auto.
    + destruct (inv_fresh m E) as [F1 F2]. destruct (ret <? 0); by intros [= <-].
  - destruct (std_mem (m, c) (users w)) eqn:Em; [|done]. apply std_mem_spec in Em.
    unfold done_handle. destruct (iv_user w Hw m c Em) as (h & E & <-). rewrite E.
    pose proof (iv_count w Hw m h E) as Hn. pose proof (uses_pos m _ _ Em).
    pose proof (fun m' => uses_erase m' _ _ Em) as He. cbn [fst] in He.
    assert (forall m', m' <> m -> uses m' (erase_first (m, cl h) (users w)) = uses m' (users w)) as Ho.
    { intros m' Hne. rewrite He, decide_False by done. lia. }
    pose proof (erase_first_subseteq (m, cl h) (users w)) as Hs.
    specialize (He m). rewrite decide_True in He by done.
    destruct (refcnt h - 1 <=? 0) eqn:E0; to_prop; cbn [andb].
    + destruct (del h) eqn:Ed; intros [= <-].
      * unfold delete_handle_wo. cbn [hmap]. rewrite lookup_insert_eq. cbn [refcnt].
        assert ((refcnt h - 1 =? 0) = true) as -> by (apply Z.eqb_eq; lia). cbn [hmap next_cl deleted cl].
        rewrite delete_insert_eq. apply inv_drop; [done|lia|done|]. intros u Hu. by apply Hs.
      * apply inv_set; [done|lia|done| |done]. intros u Hu. left. by apply Hs.
    + intros [= <-]. apply inv_set; [done|lia|done| |lia]. intros u Hu. left. by apply Hs.
  - intros [= <-]. unfold delete_handle, delete_handle_wo.
    destruct (hmap (mgr w) !! m) as [h|] eqn:E; [|by destruct w].
    pose proof (iv_count w Hw m h E) as Hn. destruct (refcnt h =? 0) eqn:E0; to_prop.
    + apply inv_drop; auto. lia.
    + apply inv_set; auto. intros _. unfold uses in Hn. lia.
Qed.
End Preserve.

(** C34: whatever objects are constructed and destroyed and whatever
    addresses are deleted in between, a handle in use has an entry, with the
    client it was given, and that client has not been deleted; so giving it back
    always succeeds; no client is deleted twice; and an address marked for
    deletion is deleted as soon as its last user gives it back. *)
Theorem handles_stay_valid es w :
  exec step (World new []) es = Some w ->
  (forall m c, (m, c) ∈ users w ->
     (~ c ∈ deleted (mgr w)) /\
     exists h, hmap (mgr w) !! m = Some h /\ cl h = c /\ is_Some (step w (Destroy m c)) /\
       (del h = true -> refcnt h = 1 ->
        exists w', step w (Destroy m c) = Some w' /\ hmap (mgr w') !! m = None /\ c ∈ deleted (mgr w'))) /\
  NoDup (deleted (mgr w)).
Proof.
  intros Hx. assert (inv w) as Hw.
  { eapply (exec_invariant step inv); [|apply inv_new|exact Hx]. intros a e b Ha. by apply handle_step_inv. }
  split; [|apply (iv_deleted w Hw)]. intros m c Hu.
  destruct (iv_user w Hw m c Hu) as (h & E & Hc). split; [rewrite <- Hc; by apply (iv_live w Hw m)|].
  exists h. split; [done|]. split; [done|]. cbn [step].
  assert (std_mem (m, c) (users w) = true) as -> by (by apply std_mem_spec).
  unfold done_handle. rewrite E. split; [by eexists|]. intros Hd Hr. rewrite Hr, Hd.
  eexists. split; [done|]. change (1 - 1) with 0. change ((0 <=? 0) && true) with true. cbn [mgr].
  unfold delete_handle_wo. cbn [hmap]. rewrite lookup_insert_eq.
  change (refcnt (HInfo (cl h) 0 true) =? 0) with true. cbn [hmap deleted cl].
  split; [by rewrite lookup_delete_eq|]. set_solver.
Qed.

Lemma handles_stay_valid_witness :
  let es := [Construct 0 (str "1001"); Construct 0 (str "1001"); Delete (str "1001");
             Destroy (str "1001") 1; Construct 0 (str "1002")] in
  exists w, exec step (World new []) es = Some w /\
    (users w = [(str "1002", 2); (str "1001", 1)]) /\ (~ 1 ∈ deleted (mgr w)).
Proof.
  eexists. split; [vm_compute; reflexivity|]. split; [reflexivity|].
  match goal with |- context [mgr ?w] => destruct (handles_stay_valid
    [Construct 0 (str "1001"); Construct 0 (str "1001"); Delete (str "1001");
     Destroy (str "1001") 1; Construct 0 (str "1002")] w ltac:(vm_compute; reflexivity)) as [H _] end.
  apply (H (str "1001") 1). right. left.
Defined.

End handle_mgr.
