(* ===== verification/PaxosLog.v ===== *)
(** * The durable log of Paxos

    [log] of [log.cc] and the state of [acceptor] ([paxos.h]) it restores.
    The log file is a text of records [done i v], [high n m] and
    [prop n m v], one per line; [logread] parses it with stream extraction,
    whose failure modes are written out.  Replaying the records gives back
    the acceptor state that wrote them. *)

From stdpp Require Import gmap list strings.
From Stdlib Require Import ZArith Lia Ascii.
From S2P Require Import Prelude Text Marshall Protocols.

Local Open Scope Z_scope.

(** [acceptor]: its name, the state of the running instance, the decided
    values, the contents of its log file, and the upcalls
    [cfg->paxos_commit] made so far. *)
Record acceptor := Acceptor {
  me : bytes;
  n_h : prop_t;
  n_a : prop_t;
  v_a : bytes;
  instance_h : Z;
  values : gmap Z bytes;
  file : bytes;
  upcalls : list (Z * bytes)
}.

Definition set_n_h n a :=
  Acceptor (me a) n (n_a a) (v_a a) (instance_h a) (values a) (file a) (upcalls a).
Definition set_prop n v a :=
  Acceptor (me a) (n_h a) n v (instance_h a) (values a) (file a) (upcalls a).
Definition set_file f a :=
  Acceptor (me a) (n_h a) (n_a a) (v_a a) (instance_h a) (values a) f (upcalls a).

(** ** Writing records *)

Definition done_record (i : Z) (v : bytes) : bytes :=
  str "done" ++ [space] ++ dec i ++ [space] ++ v ++ [newline].
Definition high_record (n : prop_t) : bytes :=
  str "high" ++ [space] ++ dec (pn n) ++ [space] ++ pm n ++ [newline].
Definition prop_record (n : prop_t) (v : bytes) : bytes :=
  str "prop" ++ [space] ++ dec (pn n) ++ [space] ++ pm n ++ [space] ++ v ++ [newline].

Definition loginstance (i : Z) (v : bytes) (a : acceptor) : acceptor :=
  set_file (file a ++ done_record i v) a.
Definition loghigh (n : prop_t) (a : acceptor) : acceptor :=
  set_file (file a ++ high_record n) a.
Definition logprop (n : prop_t) (v : bytes) (a : acceptor) : acceptor :=
  set_file (file a ++ prop_record n v) a.

(** ** Reading them back *)

(** An [ifstream]: what is left to read, and whether it is still good. *)
Record istream := IStream { is_rest : bytes; is_good : bool }.

(** [from >> x] for [unsigned x]; an indeterminate [x] is [None] *)
Definition rd_unsigned (x : option Z) (s : istream) : option Z * istream :=
  if is_good s then
    match get_unsigned 32 (is_rest s) with
    | Got v r => (Some v, IStream r true)
    | Failed (Some v) r => (Some v, IStream r false)
    | Failed None r => (x, IStream r false)
    end
  else (x, s).

(** [from >> w] for [std::string w], which keeps its value on failure *)
Definition rd_word (w : bytes) (s : istream) : bytes * istream :=
  if is_good s then
    match get_word (is_rest s) with
    | Some (w', r) => (w', IStream r true)
    | None => (w, IStream [] false)
    end
  else (w, s).

(** [from.get()] *)
Definition rd_char (s : istream) : istream :=
  if is_good s then
    match is_rest s with
    | _ :: r => IStream r true
    | [] => IStream [] false
    end
  else s.

(** [getline(from, v)] into an empty [v] *)
Definition rd_line (s : istream) : bytes * istream :=
  if is_good s then
    match get_line (is_rest s) with
    | Some (v, r) => (v, IStream r true)
    | None => ([], IStream [] false)
    end
  else ([], s).

Inductive lread :=
  | LDone (a : acceptor)
  | LAssert              (** unknown record: [assert(0)] *)
  | LIndeterminate       (** [values[instance]] with [instance] never set *)
  | LFuel.

(** the record [type] has been read; [i] is the variable [instance] *)
Definition read_record (type : bytes) (i : option Z) (s : istream) (a : acceptor)
  : lread * option Z * istream :=
  if decide (type = str "done") then
    let '(i, s) := rd_unsigned i s in
    let '(v, s) := rd_line (rd_char s) in
    match i with
    | Some n =>
        (LDone (Acceptor (me a) (Prop_t 0 (pm (n_h a))) (Prop_t 0 (pm (n_a a))) [] n
                  (<[n := v]> (values a)) (file a) (upcalls a)), i, s)
    | None => (LIndeterminate, i, s)
    end
  else if decide (type = str "high") then
    let '(n, s) := rd_unsigned (Some (pn (n_h a))) s in
    let '(m, s) := rd_word (pm (n_h a)) s in
    (LDone (set_n_h (Prop_t (default 0 n) m) a), i, s)
  else if decide (type = str "prop") then
    let '(n, s) := rd_unsigned (Some (pn (n_a a))) s in
    let '(m, s) := rd_word (pm (n_a a)) s in
    let '(v, s) := rd_line (rd_char s) in
    (LDone (set_prop (Prop_t (default 0 n) m) v a), i, s)
  else (LAssert, i, s).

(** [while (from >> type)]: every round consumes at least one character, so
    one more round than there are characters is enough. *)
Fixpoint logread_loop (fuel : nat) (i : option Z) (s : istream) (a : acceptor) : lread :=
  match fuel with
  | O => LFuel
  | S f =>
      match (if is_good s then get_word (is_rest s) else None) with
      | None => LDone a
      | Some (type, r) =>
          match read_record type i (IStream r true) a with
          | (LDone a', i', s') => logread_loop f i' s' a'
          | (e, _, _) => e
          end
      end
  end.

Definition logread (a : acceptor) : lread :=
  logread_loop (S (length (file a))) None (IStream (file a) true) a.

(** [while (getline(from, v)) res = res + v + "\n";] *)
Fixpoint dump_loop (fuel : nat) (s : bytes) : bytes :=
  match fuel with
  | O => []
  | S f => match get_line s with
           | Some (v, r) => v ++ [newline] ++ dump_loop f r
           | None => []
           end
  end.

Definition dump (a : acceptor) : bytes := dump_loop (S (length (file a))) (file a).

(** [acceptor::restore]: the file is replaced, and read over the current
    state. *)
Definition restore (s : bytes) (a : acceptor) : lread := logread (set_file s a).

(** ** Termination *)

Lemma span_digits_length s : (length (span_digits s).2 <= length s)%nat.
Proof.
  induction s as [|c s IH]; simpl; [done|]. destruct (is_digit c); simpl; [|lia].
  destruct (span_digits s); simpl in *; lia.
Qed.

Lemma get_unsigned_length w s :
  (length (match get_unsigned w s with Got _ r | Failed _ r => r end) <= length s)%nat.
Proof.
  unfold get_unsigned. pose proof (skip_ws_length s) as H.
  destruct (skip_ws s) as [|c s'] eqn:E; [simpl; lia|]. simpl in H.
  set (s1 := if (_ : bool) then s' else c :: s').
  assert (length s1 <= length s)%nat as H1 by (unfold s1; case_match; simpl; lia).
  pose proof (span_digits_length s1) as H2.
  destruct (span_digits s1) as [[|d ds] r]; cbn [snd] in H2; [lia|].
  destruct (_ <=? _); lia.
Qed.

Lemma span_line_length s : (length (span_line s).2 <= length s)%nat.
Proof.
  induction s as [|c s IH]; simpl; [done|]. destruct (zchar c =? 10); simpl; [lia|].
  destruct (span_line s); simpl in *; lia.
Qed.

Section StreamLengths.
Implicit Types s : istream.

Lemma rd_unsigned_length x s : (length (is_rest (rd_unsigned x s).2) <= length (is_rest s))%nat.
Proof.
  unfold rd_unsigned. destruct (is_good s); [|done].
  pose proof (get_unsigned_length 32 (is_rest s)). by repeat case_match.
Qed.

Lemma rd_word_length w s : (length (is_rest (rd_word w s).2) <= length (is_rest s))%nat.
Proof.
  unfold rd_word. destruct (is_good s); [|done].
  destruct (get_word (is_rest s)) as [[w' r]|] eqn:E; simpl; [|lia].
  apply get_word_shorter in E. lia.
Qed.

Lemma rd_char_length s : (length (is_rest (rd_char s)) <= length (is_rest s))%nat.
Proof. unfold rd_char. destruct (is_good s), (is_rest s) eqn:E; simpl; rewrite ?E; simpl; lia. Qed.

Lemma rd_line_length s : (length (is_rest (rd_line s).2) <= length (is_rest s))%nat.
Proof.
  unfold rd_line. destruct (is_good s); [|done]. unfold get_line.
  destruct (is_rest s) as [|c r]; [done|].
  pose proof (span_line_length (c :: r)). by destruct (span_line (c :: r)).
Qed.

Lemma read_record_length type i s a :
  (length (is_rest (read_record type i s a).2) <= length (is_rest s))%nat.
Proof.
  unfold read_record. repeat case_decide; [| | |done].
  - pose proof (rd_unsigned_length i s). destruct (rd_unsigned i s) as [i' s1].
    pose proof (rd_char_length s1). pose proof (rd_line_length (rd_char s1)).
    destruct (rd_line (rd_char s1)) as [v s2]. destruct i'; simpl in *; lia.
  - pose proof (rd_unsigned_length (Some (pn (n_h a))) s). destruct (rd_unsigned _ s) as [n s1].
    pose proof (rd_word_length (pm (n_h a)) s1). destruct (rd_word _ s1); simpl in *; lia.
  - pose proof (rd_unsigned_length (Some (pn (n_a a))) s). destruct (rd_unsigned _ s) as [n s1].
    pose proof (rd_word_length (pm (n_a a)) s1). destruct (rd_word _ s1) as [m s2].
    pose proof (rd_char_length s2). pose proof (rd_line_length (rd_char s2)).
    destruct (rd_line (rd_char s2)); simpl in *; lia.
Qed.
End StreamLengths.

Lemma read_record_no_fuel type i s a : (read_record type i s a).1.1 <> LFuel.
Proof. unfold read_record. repeat case_match; done. Qed.

(** More fuel than characters is enough, and any more changes nothing. *)
Lemma logread_loop_fuel f g i s a :
  (length (is_rest s) < f)%nat -> (length (is_rest s) < g)%nat ->
  logread_loop f i s a <> LFuel /\ logread_loop f i s a = logread_loop g i s a.
Proof.
  revert g i s a. induction f as [|f IH]; intros g i s a Hf Hg; [lia|].
  destruct g as [|g]; [lia|]. simpl.
  destruct (is_good s); [|done].
  destruct (get_word (is_rest s)) as [[type r]|] eqn:E; [|done].
  apply get_word_shorter in E.
  pose proof (read_record_length type i (IStream r true) a) as Hl.
  pose proof (read_record_no_fuel type i (IStream r true) a) as Hn.
  destruct (read_record type i (IStream r true) a) as [[[a'| | |] i'] s']; try done.
  simpl in Hl. apply IH; lia.
Qed.

(** [logread] always comes to an end, whatever the file
    contains: it returns, or stops at an assertion or at an indeterminate
    instance number. *)
Theorem logread_terminates a : logread a <> LFuel.
Proof. by apply (logread_loop_fuel _ (S (length (file a)))); simpl; lia. Qed.

(** ** Replay *)

(** The records of the log and what replaying them does. *)
Inductive record :=
  | RDone (i : Z) (v : bytes)
  | RHigh (n : prop_t)
  | RProp (n : prop_t) (v : bytes).

Definition record_text (r : record) : bytes :=
  match r with
  | RDone i v => done_record i v
  | RHigh n => high_record n
  | RProp n v => prop_record n v
  end.

Definition wf_prop (n : prop_t) : Prop := is_u32 (pn n) /\ is_word (pm n).

Definition wf_record (r : record) : Prop :=
  match r with
  | RDone i v => is_u32 i /\ one_line v
  | RHigh n => wf_prop n
  | RProp n v => wf_prop n /\ one_line v
  end.

Definition apply_record (a : acceptor) (r : record) : acceptor :=
  match r with
  | RDone i v => Acceptor (me a) (Prop_t 0 (pm (n_h a))) (Prop_t 0 (pm (n_a a))) [] i
                   (<[i := v]> (values a)) (file a) (upcalls a)
  | RHigh n => set_n_h n a
  | RProp n v => set_prop n v a
  end.

Definition log_text (rs : list record) : bytes := concat (record_text <$> rs).

Lemma rd_unsigned_dec x n s :
  is_u32 n -> rd_unsigned x (IStream (dec n ++ space :: s) true) = (Some n, IStream (space :: s) true).
Proof.
  intros Hn. unfold rd_unsigned. simpl.
  rewrite get_unsigned_dec; [done|exact Hn|by apply span_digits_space].
Qed.

Lemma rd_unsigned_space x s : rd_unsigned x (IStream (space :: s) true) = rd_unsigned x (IStream s true).
Proof. reflexivity. Qed.

Lemma rd_word_app w0 w c s :
  is_word w -> is_space c = true ->
  rd_word w0 (IStream (space :: w ++ c :: s) true) = (w, IStream (c :: s) true).
Proof.
  intros Hw Hc. unfold rd_word. simpl. rewrite get_word_space by done.
  by rewrite get_word_app.
Qed.

Lemma rd_line_app v s :
  one_line v -> rd_line (IStream (v ++ newline :: s) true) = (v, IStream s true).
Proof.
  intros Hv. unfold rd_line, get_line. cbn [is_good is_rest].
  destruct (v ++ newline :: s) as [|c l] eqn:E; [by destruct v|].
  by rewrite <- E, span_line_app.
Qed.

Lemma read_one_record r i s a :
  wf_record r ->
  exists type rest i', is_word type /\ record_text r ++ s = type ++ space :: rest /\
    exists ws, Forall (fun c => is_space c = true) ws /\
    read_record type i (IStream (space :: rest) true) a =
      (LDone (apply_record a r), i', IStream (ws ++ s) true).
Proof.
  destruct r as [n v|n|n v]; cbn [wf_record record_text].
  - intros [Hn Hv]. exists (str "done"), (dec n ++ space :: v ++ newline :: s), (Some n).
    split; [by vm_compute; split; [|repeat constructor]|].
    split; [unfold done_record; by rewrite <- !app_assoc|]. exists []. split; [constructor|].
    unfold read_record. rewrite decide_True by done.
    rewrite rd_unsigned_space, rd_unsigned_dec by done. cbn [rd_char is_good is_rest].
    by rewrite rd_line_app.
  - intros [Hn Hm]. exists (str "high"), (dec (pn n) ++ space :: pm n ++ newline :: s), i.
    split; [by vm_compute; split; [|repeat constructor]|].
    split; [unfold high_record; by rewrite <- !app_assoc|].
    exists [newline]. split; [by repeat constructor|].
    unfold read_record. rewrite decide_False, decide_True by done.
    rewrite rd_unsigned_space, rd_unsigned_dec by done. rewrite rd_word_app by done.
    by destruct n.
  - intros [[Hn Hm] Hv].
    exists (str "prop"), (dec (pn n) ++ space :: pm n ++ space :: v ++ newline :: s), i.
    split; [by vm_compute; split; [|repeat constructor]|].
    split; [unfold prop_record; by rewrite <- !app_assoc|]. exists []. split; [constructor|].
    unfold read_record. rewrite decide_False, decide_False, decide_True by done.
    rewrite rd_unsigned_space, rd_unsigned_dec by done. rewrite rd_word_app by done.
    cbn [rd_char is_good is_rest]. rewrite rd_line_app by done. by destruct n.
Qed.

Lemma get_word_ws ws s : Forall (fun c => is_space c = true) ws -> get_word (ws ++ s) = get_word s.
Proof. induction 1; simpl; [done|]. by rewrite get_word_space. Qed.

Lemma logread_loop_replay rs i ws a :
  Forall wf_record rs -> Forall (fun c => is_space c = true) ws ->
  logread_loop (S (length (ws ++ log_text rs))) i (IStream (ws ++ log_text rs) true) a =
  LDone (foldl apply_record a rs).
Proof.
  intros Hrs. revert i ws a. induction Hrs as [|r rs Hr Hrs IH]; intros i ws a Hws.
  - cbn [logread_loop is_good is_rest]. rewrite get_word_ws by done. done.
  - destruct (read_one_record r i (log_text rs) a Hr) as (type & rest & i' & Ht & E & ws' & Hw' & Hread).
    change (log_text (r :: rs)) with (record_text r ++ log_text rs).
    cbn [logread_loop is_good is_rest]. rewrite get_word_ws by done.
    pose proof (f_equal length E) as Hlen. rewrite E, get_word_app by done. rewrite Hread.
    cbn [foldl]. rewrite <- (IH i' ws' (apply_record a r) Hw').
    apply logread_loop_fuel; cbn [is_rest]; [|lia].
    pose proof (read_record_length type i (IStream (space :: rest) true) a) as Hle.
    rewrite Hread in Hle. cbn in Hle. destruct Ht as [Hne _].
    rewrite !length_app. cbn [length]. rewrite length_app in Hle.
    destruct type; [done|]. cbn [length]. lia.
Qed.

Lemma logread_replay rs a :
  Forall wf_record rs -> file a = log_text rs -> logread a = LDone (foldl apply_record a rs).
Proof.
  intros Hrs Hf. unfold logread. rewrite Hf. by apply (logread_loop_replay rs None []).
Qed.
