(* ===== verification/Acceptor.v ===== *)
(** * The Paxos acceptor

    [acceptor] of [paxos.cc]: the constructor, the handlers of prepare,
    accept and decide requests, and [commit].  The handlers are run one at a
    time.  [cfg] is never null in the program ([config] passes itself), so a
    commit always makes the upcall. *)

From stdpp Require Import gmap list strings.
From Stdlib Require Import ZArith Lia Ascii.
From S2P Require Import Prelude Text Marshall Protocols PaxosLog.

Local Open Scope Z_scope.

(** The fields the constructor sets before it reads the log. *)
Definition acceptor_blank (m f : bytes) : acceptor :=
  Acceptor m (Prop_t 0 m) (Prop_t 0 m) [] 0 ∅ f [].

Definition acceptor_new (first : bool) (m v f : bytes) : lread :=
  match logread (acceptor_blank m f) with
  | LDone a =>
      if (instance_h a =? 0) && first
      then let a := Acceptor (me a) (n_h a) (n_a a) (v_a a) (instance_h a)
                      (<[1 := v]> (values a)) (file a) (upcalls a) in
           let a := loginstance 1 v a in
           LDone (Acceptor (me a) (n_h a) (n_a a) (v_a a) 1 (values a) (file a) (upcalls a))
      else LDone a
  | e => e
  end.

(** [value(i)]: an instance that was never decided reads as the empty string *)
Definition value (i : Z) (a : acceptor) : bytes := map_get [] (values a) i.

Definition preparereq (arg : preparearg) (a : acceptor) : Z * prepareres * acceptor :=
  if pa_instance arg <=? instance_h a then
    (paxos_protocol.OK, PrepareRes 1 0 (n_a a) (value (pa_instance arg) a), a)
  else if prop_gt (pa_n arg) (n_h a) then
    (paxos_protocol.OK, PrepareRes 0 1 (n_a a) (v_a a),
     loghigh (pa_n arg) (set_n_h (pa_n arg) a))
  else (paxos_protocol.OK, PrepareRes 0 0 (n_a a) (v_a a), a).

Definition acceptreq (arg : acceptarg) (a : acceptor) : Z * Z * acceptor :=
  if aa_instance arg <=? instance_h a then (paxos_protocol.OK, 0, a)
  else if prop_ge (aa_n arg) (n_h a) then
    (paxos_protocol.OK, 1,
     logprop (aa_n arg) (aa_v arg) (set_prop (aa_n arg) (aa_v arg) (set_n_h (aa_n arg) a)))
  else (paxos_protocol.OK, 0, a).

Definition commit_wo (i : Z) (v : bytes) (a : acceptor) : acceptor :=
  if instance_h a <? i then
    let a := Acceptor (me a) (n_h a) (n_a a) (v_a a) (instance_h a)
               (<[i := v]> (values a)) (file a) (upcalls a) in
    let a := loginstance i v a in
    Acceptor (me a) (Prop_t 0 (me a)) (Prop_t 0 (me a)) [] i (values a) (file a)
      (upcalls a ++ [(i, v)])
  else a.

Definition decidereq (arg : decidearg) (a : acceptor) : Z * Z * acceptor :=
  if da_instance arg <=? instance_h a then (paxos_protocol.OK, 0, a)
  else (paxos_protocol.OK, 1, commit_wo (da_instance arg) (da_v arg) a).

(** [commit] is [commit_wo] under the mutex *)
Definition commit (i : Z) (v : bytes) (a : acceptor) : acceptor := commit_wo i v a.

(** What can happen to an acceptor. *)
Inductive acc_op :=
  | OPrepare (arg : preparearg)
  | OAccept (arg : acceptarg)
  | ODecide (arg : decidearg)
  | OCommit (i : Z) (v : bytes).

Definition run_op (a : acceptor) (o : acc_op) : acceptor :=
  match o with
  | OPrepare arg => (preparereq arg a).2
  | OAccept arg => (acceptreq arg a).2
  | ODecide arg => (decidereq arg a).2
  | OCommit i v => commit i v a
  end.

(** ** Invariants *)

(** The case analysis of one operation. *)
Ltac acc_cases o :=
  destruct o as [[? ? ?]|[? ? ?]|[? ?]|? ?];
  unfold run_op, preparereq, acceptreq, decidereq, commit, commit_wo in *;
  cbn [pa_instance pa_n pa_v aa_instance aa_n aa_v da_instance da_v] in *;
  repeat case_match; to_prop; cbn in *; simplify_eq/=; try done.

Record acc_inv (a : acceptor) : Prop := {
  ai_order : prop_ge (n_h a) (n_a a) = true;
  ai_values : forall i, is_Some (values a !! i) -> i <= instance_h a;
  ai_upcalls : forall i v, (i, v) ∈ upcalls a -> values a !! i = Some v
}.

Lemma commit_wo_inv i v a : acc_inv a -> acc_inv (commit_wo i v a).
Proof.
  intros [H1 H2 H3]. unfold commit_wo. destruct (instance_h a <? i) eqn:E; to_prop; [|done].
  split; cbn [loginstance set_file n_h n_a values instance_h upcalls me]; [apply prop_ge_refl|..].
  - intros k Hk. apply lookup_insert_is_Some' in Hk as [<-|Hk]; [lia|]. apply H2 in Hk. lia.
  - intros k w [Hin|[= -> ->]%list_elem_of_singleton]%elem_of_app; [|by rewrite lookup_insert_eq].
    rewrite lookup_insert_ne; [auto|]. intros ->. apply H3 in Hin. apply mk_is_Some, H2 in Hin. lia.
Qed.

Lemma run_op_inv a o : acc_inv a -> acc_inv (run_op a o).
Proof.
  intros Hi. pose proof Hi as [H1 H2 H3]. destruct o as [arg|arg|arg|i v]; cbn [run_op].
  - unfold preparereq. case_match; [done|]. case_match; [|done].
    split; cbn; try done. apply prop_ge_cases. left. by eapply prop_gt_ge_trans.
  - unfold acceptreq. case_match; [done|]. case_match; [|done].
    split; try done. apply prop_ge_refl.
  - unfold decidereq. case_match; [done|]. by apply commit_wo_inv.
  - by apply commit_wo_inv.
Qed.

Lemma run_ops_inv a os : acc_inv a -> acc_inv (foldl run_op a os).
Proof. revert a. induction os as [|o os IH]; intros a Ha; [done|]. apply IH, run_op_inv, Ha. Qed.

Lemma run_op_instance a o : instance_h a <= instance_h (run_op a o).
Proof. acc_cases o; lia. Qed.

Lemma run_op_values a o i v :
  acc_inv a -> values a !! i = Some v -> values (run_op a o) !! i = Some v.
Proof.
  intros Hi Hv. assert (i <= instance_h a) by (apply (ai_values a Hi); by eexists).
  acc_cases o; rewrite lookup_insert_ne; [done|lia|done|lia].
Qed.

(** C21: a decided value is never replaced, the highest decided
    instance never goes back, and every upcall reports the decided value of its
    instance. *)
Theorem decided_values_stable a os i v :
  acc_inv a -> values a !! i = Some v ->
  values (foldl run_op a os) !! i = Some v /\
  instance_h a <= instance_h (foldl run_op a os) /\
  (forall j w, (j, w) ∈ upcalls (foldl run_op a os) ->
     values (foldl run_op a os) !! j = Some w).
Proof.
  intros Hi Hv. split; [|split].
  - revert a Hi Hv. induction os as [|o os IH]; intros a Hi Hv; [done|].
    apply IH; [by apply run_op_inv|by apply run_op_values].
  - clear Hi Hv. revert a. induction os as [|o os IH]; intros a; [done|].
    etrans; [apply (run_op_instance a o)|apply IH].
  - apply ai_upcalls, run_ops_inv, Hi.
Qed.

Lemma run_op_n_h a o :
  instance_h (run_op a o) = instance_h a -> prop_ge (n_h (run_op a o)) (n_h a) = true.
Proof.
  acc_cases o; intros; try (apply prop_ge_refl); try lia. apply prop_ge_cases. by left.
Qed.

Lemma run_ops_n_h a os :
  instance_h (foldl run_op a os) = instance_h a ->
  prop_ge (n_h (foldl run_op a os)) (n_h a) = true.
Proof.
  revert a. induction os as [|o os IH]; intros a H; [apply prop_ge_refl|]. cbn in *.
  assert (instance_h (run_op a o) = instance_h a) as Ho.
  { pose proof (run_op_instance a o).
    assert (instance_h (run_op a o) <= instance_h (foldl run_op (run_op a o) os)); [|lia].
    clear. generalize (run_op a o). induction os as [|o' os IH]; intros a'; [done|].
    etrans; [apply (run_op_instance a' o')|apply IH]. }
  eapply prop_ge_trans; [|by apply run_op_n_h]. apply IH. congruence.
Qed.

(** After an acceptor has answered a prepare request for proposal
    [n] with a promise, it accepts no proposal below [n] as long as the
    instance runs, whatever requests arrive in between. *)
Theorem promise_kept a arg a' os arg' :
  preparereq arg a = (paxos_protocol.OK, PrepareRes 0 1 (n_a a) (v_a a), a') ->
  instance_h (foldl run_op a' os) = instance_h a' ->
  prop_gt (pa_n arg) (aa_n arg') = true ->
  acceptreq arg' (foldl run_op a' os) = (paxos_protocol.OK, 0, foldl run_op a' os).
Proof.
  intros Hp Hi Hn.
  assert (n_h a' = pa_n arg) as Hh.
  { unfold preparereq in Hp. repeat case_match; simplify_eq. done. }
  apply run_ops_n_h in Hi. rewrite Hh in Hi.
  unfold acceptreq. case_match; [done|].
  rewrite prop_ge_negb. by rewrite (prop_ge_gt_trans _ _ _ Hi Hn).
Qed.

(** ** Crash and recovery *)

(** Two proposal numbers are interchangeable: the name of the proposer does
    not matter in number 0, which no proposal has. *)
Definition prop_eqv (a b : prop_t) : Prop := pn a = pn b /\ (pn a <> 0 -> pm a = pm b).

(** [a] holds the durable state of [b]. *)
Record recovers (a b : acceptor) : Prop := {
  rc_me : me a = me b;
  rc_n_h : prop_eqv (n_h a) (n_h b);
  rc_n_a : prop_eqv (n_a a) (n_a b);
  rc_v_a : v_a a = v_a b;
  rc_instance : instance_h a = instance_h b;
  rc_values : values a = values b
}.

(** The log of [a] is well formed and tells its state. *)
Definition logged (a : acceptor) : Prop :=
  exists rs, Forall wf_record rs /\ file a = log_text rs /\
    recovers (foldl apply_record (acceptor_blank (me a) []) rs) a.

(** The requests the wire can carry: instance and proposal numbers are
    [unsigned], proposer names are words and values have no line break. *)
Definition wf_op (o : acc_op) : Prop :=
  match o with
  | OPrepare arg => is_u32 (pa_instance arg) /\ wf_prop (pa_n arg)
  | OAccept arg => is_u32 (aa_instance arg) /\ wf_prop (aa_n arg) /\ one_line (aa_v arg)
  | ODecide arg => is_u32 (da_instance arg) /\ one_line (da_v arg)
  | OCommit i v => is_u32 i /\ one_line v
  end.

(** The proposer sends an accept request only to nodes that promised its
    number, so an accepted number is never above the promise. *)
Definition promised (o : acc_op) (a : acceptor) : Prop :=
  match o with
  | OAccept arg => aa_instance arg <= instance_h a \/ prop_gt (aa_n arg) (n_h a) = false
  | _ => True
  end.

Lemma log_text_snoc rs r : log_text (rs ++ [r]) = log_text rs ++ record_text r.
Proof. unfold log_text. rewrite fmap_app, concat_app. simpl. by rewrite app_nil_r. Qed.

Lemma logged_snoc a a' rs r :
  Forall wf_record rs -> wf_record r -> file a = log_text rs ->
  file a' = file a ++ record_text r -> me a' = me a ->
  recovers (apply_record (foldl apply_record (acceptor_blank (me a) []) rs) r) a' ->
  logged a'.
Proof.
  intros Hrs Hr Hf Hf' Hm Hc. exists (rs ++ [r]). split; [by apply Forall_app; auto|].
  split; [by rewrite log_text_snoc, <- Hf|]. by rewrite foldl_app, Hm.
Qed.

Lemma prop_eqv_refl n : prop_eqv n n.
Proof. done. Qed.

Lemma commit_wo_logged i v a : logged a -> is_u32 i -> one_line v -> logged (commit_wo i v a).
Proof.
  intros (rs & Hrs & Hf & Hc) Hi Hv. unfold commit_wo.
  destruct (instance_h a <? i); [|by exists rs].
  apply (logged_snoc a _ rs (RDone i v)); try done.
  destruct Hc. split; try done. cbn in *. by f_equal.
Qed.

Lemma run_op_logged a o : logged a -> wf_op o -> promised o a -> logged (run_op a o).
Proof.
  intros Hl Hw Hp. pose proof Hl as (rs & Hrs & Hf & Hc).
  destruct o as [arg|arg|arg|i v]; cbn [run_op wf_op promised] in *.
  - unfold preparereq. case_match; [done|]. case_match; [|done].
    apply (logged_snoc a _ rs (RHigh (pa_n arg))); try done; [by apply Hw|].
    destruct Hc. split; try done.
  - unfold acceptreq. case_match; [done|]. case_match; [|done]. to_prop.
    apply (logged_snoc a _ rs (RProp (aa_n arg) (aa_v arg))); try done; [by split; apply Hw|].
    assert (n_h a = aa_n arg) as Hn.
    { destruct Hp as [|Hp]; [lia|]. apply prop_ge_cases in H0 as [H0|H0]; congruence. }
    destruct Hc. split; try done. cbn in *. by rewrite <- Hn.
  - unfold decidereq. case_match; [done|]. apply commit_wo_logged; [done|apply Hw..].
  - apply commit_wo_logged; [done|apply Hw..].
Qed.

(** A run in which every accepted proposal was promised first. *)
Fixpoint promised_run (a : acceptor) (os : list acc_op) : Prop :=
  match os with
  | [] => True
  | o :: os => wf_op o /\ promised o a /\ promised_run (run_op a o) os
  end.

Lemma run_ops_logged a os : logged a -> promised_run a os -> logged (foldl run_op a os).
Proof.
  revert a. induction os as [|o os IH]; intros a Hl; [done|]. intros (Hw & Hp & Hr).
  apply IH; [by apply run_op_logged|done].
Qed.

Lemma foldl_file rs a f :
  foldl apply_record (set_file f a) rs = set_file f (foldl apply_record a rs).
Proof. revert a. induction rs as [|r rs IH]; intros a; [done|]. cbn. rewrite <- IH. by destruct r. Qed.

Lemma logged_recovers a v :
  logged a -> exists a', acceptor_new false (me a) v (file a) = LDone a' /\ recovers a' a.
Proof.
  intros (rs & Hrs & Hf & Hc). unfold acceptor_new. rewrite (logread_replay rs) by done.
  rewrite andb_false_r. eexists. split; [done|].
  change (acceptor_blank (me a) (file a)) with (set_file (file a) (acceptor_blank (me a) [])).
  rewrite foldl_file. by destruct Hc.
Qed.

Lemma acceptor_new_logged first m v :
  one_line v -> exists a, acceptor_new first m v [] = LDone a /\ logged a /\ me a = m.
Proof.
  intros Hv. unfold acceptor_new, logread. cbn [file acceptor_blank length logread_loop is_good
    is_rest get_word skip_ws instance_h].
  destruct first; cbn [andb Z.eqb].
  - eexists. split; [done|]. split; [|done]. exists [RDone 1 v].
    split; [constructor; [split; [unfold is_u32; lia|done]|constructor]|].
    split; [unfold log_text; cbn [fmap list_fmap concat record_text]; by rewrite app_nil_r|].
    by split.
  - eexists. split; [done|]. split; [|done]. exists []. split; [constructor|]. split; [done|].
    by split.
Qed.


(** ** State transfer of the log *)

Lemma one_line_app a b : one_line a -> one_line b -> one_line (a ++ b).
Proof. unfold one_line. rewrite Forall_app. auto. Qed.

Lemma dec_one_line n : 0 <= n -> one_line (dec n).
Proof. intros. by apply is_word_one_line, dec_is_word. Qed.

Lemma str_one_line : one_line (str "done") /\ one_line (str "high") /\ one_line (str "prop") /\
  one_line [space].
Proof. split_and!; vm_compute; repeat constructor. Qed.

(** Every record is one line. *)
Lemma record_line r : wf_record r -> exists l, one_line l /\ record_text r = l ++ [newline].
Proof.
  destruct str_one_line as (Hd & Hh & Hp & Hs).
  assert (forall n, is_u32 n -> one_line (dec n)) as Hdec by (intros n [? _]; by apply dec_one_line).
  destruct r as [n v|n|n v]; cbn [wf_record record_text].
  - intros [Hn Hv]. exists (str "done" ++ [space] ++ dec n ++ [space] ++ v).
    split; [by repeat apply one_line_app; auto|]. unfold done_record. by rewrite <- !app_assoc.
  - intros [Hn Hm%is_word_one_line]. exists (str "high" ++ [space] ++ dec (pn n) ++ [space] ++ pm n).
    split; [by repeat apply one_line_app; auto|]. unfold high_record. by rewrite <- !app_assoc.
  - intros [[Hn Hm%is_word_one_line] Hv].
    exists (str "prop" ++ [space] ++ dec (pn n) ++ [space] ++ pm n ++ [space] ++ v).
    split; [by repeat apply one_line_app; auto|]. unfold prop_record. by rewrite <- !app_assoc.
Qed.

Lemma dump_loop_log rs f :
  Forall wf_record rs -> (length (log_text rs) < f)%nat -> dump_loop f (log_text rs) = log_text rs.
Proof.
  intros Hrs. revert f. induction Hrs as [|r rs Hr Hrs IH]; intros f Hf.
  - destruct f; done.
  - destruct (record_line r Hr) as (l & Hl & E).
    change (log_text (r :: rs)) with (record_text r ++ log_text rs) in *.
    rewrite E in *. rewrite <- app_assoc in *. cbn [app] in *.
    destruct f as [|f]; [lia|]. cbn [dump_loop]. unfold get_line.
    destruct (l ++ newline :: log_text rs) as [|c x] eqn:Ex; [by destruct l|].
    rewrite <- Ex in *. rewrite span_line_app by done. cbn [app]. do 2 f_equal. apply IH.
    rewrite length_app in Hf. cbn in Hf. lia.
Qed.

(** The log of an acceptor, restored by one without history. *)
Lemma logged_transfer a m' f' :
  logged a ->
  exists b, restore (dump a) (acceptor_blank m' f') = LDone b /\
    values b = values a /\ instance_h b = instance_h a /\
    pn (n_h b) = pn (n_h a) /\ pn (n_a b) = pn (n_a a) /\ v_a b = v_a a.
Proof.
  intros (rs & Hrs & Hf & Hc).
  unfold restore, dump. rewrite Hf, dump_loop_log by (done || lia).
  rewrite (logread_replay rs) by done. eexists. split; [done|].
  assert (forall rs b c, values b = values c -> instance_h b = instance_h c ->
    pn (n_h b) = pn (n_h c) -> pn (n_a b) = pn (n_a c) -> v_a b = v_a c ->
    let b' := foldl apply_record b rs in let c' := foldl apply_record c rs in
    values b' = values c' /\ instance_h b' = instance_h c' /\
    pn (n_h b') = pn (n_h c') /\ pn (n_a b') = pn (n_a c') /\ v_a b' = v_a c') as Hext.
  { clear. induction rs as [|r rs IH]; intros b c ?????; cbn zeta; [done|]. cbn [foldl].
    apply IH; destruct r; cbn; congruence. }
  destruct (Hext rs (set_file (log_text rs) (acceptor_blank m' f'))
              (acceptor_blank (me a) [])) as (H1 & H2 & H3 & H4 & H5); try done.
  destruct Hc as [_ [Hn _] [Hn' _] Hva Hin Hvs]. rewrite H1, H2, H3, H4, H5. done.
Qed.

(** The log a node dumps, restored by a joining node that has no
    history, gives it the decided values, the highest instance, the promise
    and the accepted proposal of the sender. *)
Theorem log_transfer first m v a os m' f' :
  one_line v -> acceptor_new first m v [] = LDone a -> promised_run a os ->
  exists b, restore (dump (foldl run_op a os)) (acceptor_blank m' f') = LDone b /\
    values b = values (foldl run_op a os) /\
    instance_h b = instance_h (foldl run_op a os) /\
    pn (n_h b) = pn (n_h (foldl run_op a os)) /\
    pn (n_a b) = pn (n_a (foldl run_op a os)) /\
    v_a b = v_a (foldl run_op a os).
Proof.
  intros Hv Ha Hr. destruct (acceptor_new_logged first m v Hv) as (a0 & Ha0 & Hl & Hm).
  rewrite Ha in Ha0. injection Ha0 as <-. by apply logged_transfer, run_ops_logged.
Qed.

(** ** Concrete runs *)

Definition demo_node : bytes := str "3772".
Definition demo_other : bytes := str "3774".

Definition demo_acceptor : acceptor :=
  match acceptor_new true demo_node (str "3772") [] with
  | LDone a => a
  | _ => acceptor_blank [] []
  end.

(** A promise, an accepted proposal and a decision for instance 2, and the
    start of instance 3. *)
Definition demo_ops : list acc_op :=
  [OPrepare (PrepareArg 2 (Prop_t 1 demo_other) []);
   OAccept (AcceptArg 2 (Prop_t 1 demo_other) (str "3772 3774"));
   ODecide (DecideArg 2 (str "3772 3774"));
   OPrepare (PrepareArg 3 (Prop_t 2 demo_other) [])].

Lemma demo_promised : promised_run demo_acceptor demo_ops.
Proof.
  repeat split; try (vm_compute; congruence); try (vm_compute; repeat constructor; fail).
Qed.

Lemma demo_line : one_line (str "3772").
Proof. vm_compute. repeat constructor. Qed.

Lemma decided_values_stable_witness :
  values (foldl run_op demo_acceptor demo_ops) !! 1 = Some (str "3772").
Proof.
  destruct (decided_values_stable demo_acceptor demo_ops 1 (str "3772")) as [H _];
    [|reflexivity|exact H].
  split; [reflexivity| |intros i v H; vm_compute in H; inversion H].
  intros i [v H]. destruct (decide (i = 1)) as [->|]; [vm_compute; congruence|].
  exfalso. change (values demo_acceptor) with ({[ 1 := str "3772" ]} : gmap Z bytes) in H.
  by rewrite lookup_singleton_ne in H.
Defined.

Lemma promise_kept_witness :
  let a := foldl run_op demo_acceptor demo_ops in
  acceptreq (AcceptArg 3 (Prop_t 1 demo_node) (str "x")) a = (paxos_protocol.OK, 0, a).
Proof.
  exact (promise_kept (foldl run_op demo_acceptor (take 3 demo_ops))
           (PrepareArg 3 (Prop_t 2 demo_other) []) (foldl run_op demo_acceptor demo_ops) []
           (AcceptArg 3 (Prop_t 1 demo_node) (str "x")) eq_refl eq_refl eq_refl).
Defined.


Lemma log_transfer_witness :
  exists b, restore (dump (foldl run_op demo_acceptor demo_ops)) (acceptor_blank demo_other []) =
              LDone b /\ instance_h b = 2.
Proof.
  destruct (log_transfer true demo_node (str "3772") demo_acceptor demo_ops demo_other []
              demo_line eq_refl demo_promised) as (b & Hb & _ & Hi & _).
  exists b. split; [exact Hb|]. rewrite Hi. reflexivity.
Defined.
