(* ===== verification/Proposer.v ===== *)
(** * The Paxos proposer and agreement

    [proposer] of [paxos.cc]: the choice of a proposal number, the loops that
    ask the nodes to prepare, to accept and to learn a value, and [run].  A
    call to a node gives [Some] reply, or [None] when there is no connection
    or the call fails; a request may also reach the node and its reply be
    lost, or reach it after the caller gave up.  The last part runs many
    proposers and acceptors of one instance against each other and proves
    that at most one value is decided. *)

From stdpp Require Import gmap list strings relations.
From Stdlib Require Import ZArith Lia Ascii.
From S2P Require Import Prelude Text Marshall Protocols PaxosLog Acceptor.

Local Open Scope Z_scope.

(** ** Node lists *)

Fixpoint print_members (nodes : list bytes) : bytes :=
  match nodes with
  | [] => []
  | [m] => m
  | m :: nodes' => m ++ str "," ++ print_members nodes'
  end.

Fixpoint isamember (m : bytes) (nodes : list bytes) : bool :=
  match nodes with
  | [] => false
  | n :: nodes' => if decide (n = m) then true else isamember m nodes'
  end.

(** the counting loop of [majority] *)
Fixpoint count_members (l1 l2 : list bytes) : nat :=
  match l1 with
  | [] => 0
  | m :: l1' => ((if isamember m l2 then 1 else 0) + count_members l1' l2)%nat
  end.

Definition majority (l1 l2 : list bytes) : bool :=
  (length l1 / 2 + 1 <=? count_members l1 l2)%nat.

(** ** The proposer *)

Record proposer := Proposer {
  p_me : bytes;
  break1 : bool;
  break2 : bool;
  stable : bool;
  my_n : prop_t
}.

(** the constructor does not set [my_n.n]: [n0] is what the memory held *)
Definition proposer_new (m : bytes) (n0 : Z) : proposer :=
  Proposer m false false true (Prop_t n0 []).

Definition isrunning (p : proposer) : bool := negb (stable p).

Definition breakpoint (b : Z) (p : proposer) : proposer :=
  if b =? 3 then Proposer (p_me p) true (break2 p) (stable p) (my_n p)
  else if b =? 4 then Proposer (p_me p) (break1 p) true (stable p) (my_n p)
  else p.

(** [setn]: above everything this node promised and used, on [unsigned] *)
Definition setn (acc : acceptor) (p : proposer) : Z :=
  let a := u32 (pn (n_h acc) + 1) in
  let b := u32 (pn (my_n p) + 1) in
  if b <? a then a else b.

(** The loop of [prepare] over what the calls returned: whether it completed,
    the nodes that promised, the value to propose, and the value of an old
    instance that is committed at once. *)
Fixpoint prepare_loop (os : list (bytes * option prepareres)) (highest_n : Z)
    (v : bytes) (accepts : list bytes) : bool * list bytes * bytes * option bytes :=
  match os with
  | [] => (true, accepts, v, None)
  | (_, None) :: os' => prepare_loop os' highest_n v accepts
  | (clt, Some r) :: os' =>
      if pr_oldinstance r =? 1 then (false, accepts, v, Some (pr_v_a r))
      else if pr_accept r =? 1 then
        if (highest_n <? pn (pr_n_a r)) && negb (length (pr_v_a r) =? 0)%nat
        then prepare_loop os' (pn (pr_n_a r)) (pr_v_a r) (accepts ++ [clt])
        else prepare_loop os' highest_n v (accepts ++ [clt])
      else (false, accepts, v, None)
  end.

(** The loop of [accept]. *)
Fixpoint accept_loop (os : list (bytes * option Z)) : list bytes :=
  match os with
  | [] => []
  | (clt, Some r) :: os' => if r =? 1 then clt :: accept_loop os' else accept_loop os'
  | (_, None) :: os' => accept_loop os'
  end.

(** The value the accept phase proposes. *)
Definition proposal (c_v v : bytes) : bytes := if (length v =? 0)%nat then c_v else v.

(** ** A whole run against nodes that answer *)

Section Run.
(** [W] is the state of the other nodes; each call may change it. *)
Context {W : Type}.
Context (call_prepare : bytes -> preparearg -> W -> option prepareres * W).
Context (call_accept : bytes -> acceptarg -> W -> option Z * W).
Context (call_decide : bytes -> decidearg -> W -> option Z * W).

Fixpoint prepare (i : Z) (n : prop_t) (nodes : list bytes) (highest_n : Z) (v : bytes)
    (accepts : list bytes) (w : W) : bool * list bytes * bytes * option bytes * W :=
  match nodes with
  | [] => (true, accepts, v, None, w)
  | clt :: nodes' =>
      match call_prepare clt (PrepareArg i n []) w with
      | (None, w) => prepare i n nodes' highest_n v accepts w
      | (Some r, w) =>
          if pr_oldinstance r =? 1 then (false, accepts, v, Some (pr_v_a r), w)
          else if pr_accept r =? 1 then
            if (highest_n <? pn (pr_n_a r)) && negb (length (pr_v_a r) =? 0)%nat
            then prepare i n nodes' (pn (pr_n_a r)) (pr_v_a r) (accepts ++ [clt]) w
            else prepare i n nodes' highest_n v (accepts ++ [clt]) w
          else (false, accepts, v, None, w)
      end
  end.

Fixpoint accept (i : Z) (n : prop_t) (nodes : list bytes) (v : bytes) (w : W)
  : list bytes * W :=
  match nodes with
  | [] => ([], w)
  | clt :: nodes' =>
      let '(r, w) := call_accept clt (AcceptArg i n v) w in
      let '(accepts, w) := accept i n nodes' v w in
      (match r with
       | Some r => if r =? 1 then clt :: accepts else accepts
       | None => accepts
       end, w)
  end.

Fixpoint decide_all (i : Z) (accepts : list bytes) (v : bytes) (w : W) : W :=
  match accepts with
  | [] => w
  | clt :: accepts' => decide_all i accepts' v (call_decide clt (DecideArg i v) w).2
  end.

Inductive run_result :=
  | Ran (r : bool)
  | Died.         (** [exit(1)] at a break point *)

(** [run]: [acc] is the node's own acceptor as [setn] reads it, [own] commits
    to it.  A proposer that is already running returns at once. *)
Definition run (i : Z) (c_nodes : list bytes) (c_v : bytes) (acc : acceptor)
    (own : Z -> bytes -> W -> W) (p : proposer) (w : W) : run_result * proposer * W :=
  if negb (stable p) then (Ran false, p, w)
  else
    let n := Prop_t (setn acc p) (p_me p) in
    let p1 := Proposer (p_me p) (break1 p) (break2 p) true n in
    let '(ok, accepts, v, old, w) := prepare i n c_nodes 0 c_v [] w in
    let w := match old with Some u => own i u w | None => w end in
    if negb ok then (Ran false, p1, w)
    else if negb (majority c_nodes accepts) then (Ran false, p1, w)
    else
      let v := proposal c_v v in
      if break1 p then (Died, p1, w)
      else
        let '(accepts, w) := accept i n accepts v w in
        if negb (majority c_nodes accepts) then (Ran false, p1, w)
        else if break2 p then (Died, p1, w)
        else (Ran true, p1, decide_all i accepts v w).

(** The loop of [prepare] is the pure loop over the replies it got. *)
Lemma prepare_replies i n nodes h v accepts w :
  exists os, (prepare i n nodes h v accepts w).1 = prepare_loop os h v accepts /\
    Forall (fun o => o.1 ∈ nodes) os.
Proof.
  revert h v accepts w. induction nodes as [|clt nodes IH]; intros h v accepts w; cbn [prepare].
  - by exists [].
  - assert (forall os, Forall (fun o : bytes * option prepareres => o.1 ∈ nodes) os ->
      Forall (fun o => o.1 ∈ clt :: nodes) os) as Hs.
    { intros os Hos. eapply Forall_impl; [exact Hos|]. set_solver. }
    destruct (call_prepare clt (PrepareArg i n []) w) as [[r|] w'].
    + destruct (pr_oldinstance r =? 1) eqn:E1.
      { exists [(clt, Some r)]. cbn. rewrite E1. split; [done|]. constructor; [set_solver|done]. }
      destruct (pr_accept r =? 1) eqn:E2.
      * destruct (_ && _) eqn:E3.
        -- destruct (IH (pn (pr_n_a r)) (pr_v_a r) (accepts ++ [clt]) w') as (os & Ho & Hf).
           exists ((clt, Some r) :: os). cbn. rewrite E1, E2, E3. split; [done|].
           constructor; [set_solver|auto].
        -- destruct (IH h v (accepts ++ [clt]) w') as (os & Ho & Hf).
           exists ((clt, Some r) :: os). cbn. rewrite E1, E2, E3. split; [done|].
           constructor; [set_solver|auto].
      * exists [(clt, Some r)]. cbn. rewrite E1, E2. split; [done|]. constructor; [set_solver|done].
    + destruct (IH h v accepts w') as (os & Ho & Hf). exists ((clt, None) :: os).
      split; [done|]. constructor; [set_solver|auto].
Qed.
End Run.

(** ** Majorities meet *)

Lemma isamember_spec m nodes : isamember m nodes = true <-> m ∈ nodes.
Proof.
  induction nodes as [|n nodes IH]; simpl; [set_solver|].
  case_decide; subst; [set_solver|]. rewrite IH. set_solver.
Qed.

Lemma count_two l a b :
  (count_members l a + count_members l b <= length l +
   count_members l (filter (fun m => m ∈ b) a))%nat.
Proof.
  induction l as [|m l IH]; simpl; [lia|].
  destruct (isamember m a) eqn:Ea, (isamember m b) eqn:Eb; try (simpl; lia).
  assert (isamember m (filter (fun m => m ∈ b) a) = true) as ->; [|simpl; lia].
  apply isamember_spec, list_elem_of_filter. by rewrite <- !isamember_spec.
Qed.

Lemma count_pos l a : (0 < count_members l a)%nat -> exists m, m ∈ l /\ m ∈ a.
Proof.
  induction l as [|m l IH]; simpl; [lia|]. destruct (isamember m a) eqn:E.
  - intros _. exists m. split; [set_solver|]. by apply isamember_spec.
  - intros H. destruct (IH H) as (x & ? & ?). exists x. set_solver.
Qed.

Lemma majorities_meet l a b :
  majority l a = true -> majority l b = true -> exists m, m ∈ l /\ m ∈ a /\ m ∈ b.
Proof.
  unfold majority. intros Ha%Nat.leb_le Hb%Nat.leb_le. pose proof (count_two l a b) as H.
  pose proof (Nat.div_mod_eq (length l) 2) as Hd.
  pose proof (Nat.mod_upper_bound (length l) 2 ltac:(lia)) as Hm.
  destruct (count_pos l (filter (fun m => m ∈ b) a)) as (m & Hl & Hf); [lia|].
  apply list_elem_of_filter in Hf. exists m. tauto.
Qed.

(** ** What the loops compute *)

Definition promises (o : bytes * option prepareres) (a : bytes) (r : prepareres) : Prop :=
  o = (a, Some r) /\ pr_oldinstance r <> 1 /\ pr_accept r = 1.

Lemma prepare_loop_spec os h v acc accepts v' :
  prepare_loop os h v acc = (true, accepts, v', None) ->
  (forall a, a ∈ accepts -> a ∈ acc \/ exists o r, o ∈ os /\ promises o a r) /\
  exists h', h <= h' /\
    (forall o a r, o ∈ os -> promises o a r -> pr_v_a r <> [] -> pn (pr_n_a r) <= h') /\
    ((h' = h /\ v' = v) \/
     exists o a r, o ∈ os /\ promises o a r /\ pr_v_a r <> [] /\ pn (pr_n_a r) = h' /\ v' = pr_v_a r).
Proof.
  revert h v acc. induction os as [|[a o] os IH]; intros h v acc; cbn [prepare_loop].
  { intros [= <- <-]. split; [auto|]. exists h. split_and!; [lia|set_solver|auto]. }
  destruct o as [r|].
  2:{ intros H. destruct (IH _ _ _ H) as (H1 & h' & H2 & H3 & H4). split.
      - intros b Hb. destruct (H1 b Hb) as [|(o & r & ? & ?)]; [auto|]. right. set_solver.
      - exists h'. split_and!; [done| |set_solver].
        intros o b r [->|Hin]%elem_of_cons Hp; [by destruct Hp|eauto]. }
  destruct (pr_oldinstance r =? 1) eqn:E1; [done|].
  destruct (pr_accept r =? 1) eqn:E2; [|done]. to_prop.
  assert (promises (a, Some r) a r) as Hpr by done.
  assert (forall b, b ∈ accepts -> b ∈ acc ++ [a] \/
    (exists o r0, o ∈ os /\ promises o b r0) -> b ∈ acc \/
    exists o r0, o ∈ (a, Some r) :: os /\ promises o b r0) as Hacc.
  { intros b _ [[| ->%list_elem_of_singleton]%elem_of_app|(o & r0 & ? & ?)]; [auto| |];
      right; [exists (a, Some r), r|exists o, r0]; set_solver. }
  destruct (_ && _) eqn:E3.
  - to_prop. intros Hl. destruct (IH _ _ _ Hl) as (H1 & h' & H2 & H3 & H4).
    split; [intros b Hb; apply Hacc; auto|]. exists h'. split; [lia|]. split.
    + intros o b r' [->|Hin]%elem_of_cons Hp Hv; [|eauto].
      destruct Hp as ([= <- <-] & _). lia.
    + right. destruct H4 as [[-> ->]|(o & b & r' & Hin & Hp & H4)].
      * exists (a, Some r), a, r. split; [set_solver|]. split; [done|].
        split; [|done]. intros E. rewrite E in *. done.
      * exists o, b, r'. set_solver.
  - intros Hl. destruct (IH _ _ _ Hl) as (H1 & h' & H2 & H3 & H4).
    split; [intros b Hb; apply Hacc; auto|]. exists h'. split; [lia|]. split.
    + intros o b r' [->|Hin]%elem_of_cons Hp Hv; [|eauto].
      destruct Hp as ([= <- <-] & _). apply andb_false_iff in E3 as [E3|E3]; to_prop; [lia|].
      apply Nat.eqb_eq in E3. by destruct (pr_v_a r).
    + destruct H4 as [|(o & b & r' & Hin & Hp & H4)]; [auto|]. right. exists o, b, r'. set_solver.
Qed.

Lemma prepare_loop_old os h v acc accepts v' u :
  prepare_loop os h v acc = (false, accepts, v', Some u) ->
  exists a r, (a, Some r) ∈ os /\ pr_oldinstance r = 1 /\ u = pr_v_a r.
Proof.
  revert h v acc. induction os as [|[a o] os IH]; intros h v acc; cbn [prepare_loop]; [done|].
  destruct o as [r|].
  - destruct (pr_oldinstance r =? 1) eqn:E1; to_prop.
    + intros [= <- <- <-]. exists a, r. set_solver.
    + destruct (pr_accept r =? 1); [|done]. destruct (_ && _); intros H;
        destruct (IH _ _ _ H) as (b & r' & ? & ?); exists b, r'; set_solver.
  - intros H. destruct (IH _ _ _ H) as (b & r' & ? & ?). exists b, r'. set_solver.
Qed.

Lemma accept_loop_spec os a : a ∈ accept_loop os -> (a, Some 1) ∈ os.
Proof.
  induction os as [|[b [r|]] os IH]; cbn; [set_solver| |set_solver].
  destruct (r =? 1) eqn:E; to_prop; [subst|]; set_solver.
Qed.

(** ** Many proposers, one instance *)

Section Agreement.
Context (nodes : list bytes) (inst : Z).

(** The nodes, and everything that was ever sent: a request or a reply can
    be delivered at any time, any number of times, or never. *)
Record net := Net {
  accs : gmap bytes acceptor;
  props : gmap bytes proposer;
  started : list (prop_t * bytes);              (** numbers in use, and their [c_v] *)
  presp : list (bytes * prop_t * prepareres);   (** replies to prepare requests *)
  proposed : list (prop_t * bytes);             (** accept requests *)
  votes : list (bytes * prop_t * bytes);        (** requests a node accepted *)
  chosen : list bytes                           (** values sent in decide requests *)
}.

Definition with_acc (a : bytes) (st : acceptor) (s : net) : net :=
  Net (<[a := st]> (accs s)) (props s) (started s) (presp s) (proposed s) (votes s) (chosen s).

Definition with_presp x (s : net) : net :=
  Net (accs s) (props s) (started s) (presp s ++ [x]) (proposed s) (votes s) (chosen s).

Definition with_proposed x (s : net) : net :=
  Net (accs s) (props s) (started s) (presp s) (proposed s ++ [x]) (votes s) (chosen s).

Definition with_votes l (s : net) : net :=
  Net (accs s) (props s) (started s) (presp s) (proposed s) (votes s ++ l) (chosen s).

Definition with_chosen v (s : net) : net :=
  Net (accs s) (props s) (started s) (presp s) (proposed s) (votes s) (chosen s ++ [v]).

(** the replies a loop over the nodes may have got for proposal [n] *)
Definition replies (n : prop_t) (s : net) (os : list (bytes * option prepareres)) : Prop :=
  Forall (fun o => match o.2 with Some r => (o.1, n, r) ∈ presp s | None => True end) os.

Inductive net_step : net -> net -> Prop :=
  | ns_start s m p acc c_v :
      props s !! m = Some p -> p_me p = m -> accs s !! m = Some acc -> c_v <> [] ->
      0 <= pn (n_h acc) < 2 ^ 32 - 1 -> 0 <= pn (my_n p) < 2 ^ 32 - 1 ->
      (** no other proposer has used this counter *)
      (forall n' v', (n', v') ∈ started s -> pn n' = setn acc p -> pm n' = m) ->
      let n := Prop_t (setn acc p) m in
      net_step s (Net (accs s) (<[m := Proposer m (break1 p) (break2 p) (stable p) n]> (props s))
                    (started s ++ [(n, c_v)]) (presp s) (proposed s) (votes s) (chosen s))
  | ns_prepare s n c_v a st r st' :
      (n, c_v) ∈ started s -> accs s !! a = Some st ->
      preparereq (PrepareArg inst n []) st = (paxos_protocol.OK, r, st') ->
      net_step s (with_presp (a, n, r) (with_acc a st' s))
  | ns_propose s n c_v os accepts v :
      (n, c_v) ∈ started s -> (forall v', ~ (n, v') ∈ proposed s) -> replies n s os ->
      prepare_loop os 0 c_v [] = (true, accepts, v, None) -> majority nodes accepts = true ->
      net_step s (with_proposed (n, proposal c_v v) s)
  | ns_old s n c_v os accepts v u st :
      (n, c_v) ∈ started s -> replies n s os ->
      prepare_loop os 0 c_v [] = (false, accepts, v, Some u) ->
      accs s !! pm n = Some st ->
      net_step s (with_acc (pm n) (commit inst u st) s)
  | ns_accept s n v a st r st' :
      (n, v) ∈ proposed s -> accs s !! a = Some st ->
      acceptreq (AcceptArg inst n v) st = (paxos_protocol.OK, r, st') ->
      net_step s (with_votes (if r =? 1 then [(a, n, v)] else []) (with_acc a st' s))
  | ns_choose s n v os :
      Forall (fun o => o.2 = Some 1 -> (o.1, n, v) ∈ votes s) os ->
      majority nodes (accept_loop os) = true ->
      net_step s (with_chosen v s)
  | ns_decide s v a st r st' :
      v ∈ chosen s -> accs s !! a = Some st ->
      decidereq (DecideArg inst v) st = (paxos_protocol.OK, r, st') ->
      net_step s (with_acc a st' s).

(** Every node is idle in an earlier instance. *)
Definition net_start (s : net) : Prop :=
  (forall a st, accs s !! a = Some st ->
     instance_h st < inst /\ v_a st = [] /\ prop_ge (n_h st) (n_a st) = true) /\
  started s = [] /\ presp s = [] /\ proposed s = [] /\ votes s = [] /\ chosen s = [].

(** *** The invariant *)

(** A vote of a node that promised [n], below [n]: it was reported. *)
Definition reported (s : net) (a : bytes) (n : prop_t) (r : prepareres) : Prop :=
  (forall n' v', (a, n', v') ∈ votes s -> prop_gt n n' = true ->
     pr_v_a r <> [] /\ prop_ge (pr_n_a r) n' = true) /\
  (pr_v_a r <> [] -> (a, pr_n_a r, pr_v_a r) ∈ votes s /\ prop_gt n (pr_n_a r) = true).

(** What an acceptor that has not decided knows. *)
Record undecided (vs : list (bytes * prop_t * bytes)) (ps : list (bytes * prop_t * prepareres))
    (a : bytes) (st : acceptor) : Prop := {
  un_order : prop_ge (n_h st) (n_a st) = true;
  un_max : forall n v, (a, n, v) ∈ vs -> prop_ge (n_a st) n = true;
  un_last : (v_a st = [] /\ forall n v, ~ (a, n, v) ∈ vs) \/ (a, n_a st, v_a st) ∈ vs;
  un_promise : forall n r, (a, n, r) ∈ ps -> pr_accept r = 1 -> prop_ge (n_h st) n = true
}.

Definition acc_ok (s : net) (a : bytes) (st : acceptor) : Prop :=
  if instance_h st <? inst then undecided (votes s) (presp s) a st
  else exists v, values st !! inst = Some v /\ v ∈ chosen s.

(** A quorum [q] promised [n]; what it voted for below [n] is at most [n0],
    which was proposed with the same value, or it voted for nothing. *)
Definition justified (s : net) (n : prop_t) (v : bytes) : Prop :=
  exists q, majority nodes q = true /\
    (forall a, a ∈ q -> exists r, (a, n, r) ∈ presp s /\ pr_accept r = 1) /\
    ((forall a n' v', a ∈ q -> (a, n', v') ∈ votes s -> prop_gt n n' = false) \/
     exists n0, (n0, v) ∈ proposed s /\ prop_gt n n0 = true /\
       forall a n' v', a ∈ q -> (a, n', v') ∈ votes s -> prop_gt n n' = true -> prop_ge n0 n' = true).

Record net_inv (s : net) : Prop := {
  ni_started : forall n v, (n, v) ∈ started s -> 1 <= pn n /\ v <> [] /\
    exists p, props s !! pm n = Some p /\ pn n <= pn (my_n p);
  ni_distinct : forall n v n' v', (n, v) ∈ started s -> (n', v') ∈ started s ->
    pn n = pn n' -> n = n';
  ni_proposed : forall n v, (n, v) ∈ proposed s -> v <> [] /\ exists c, (n, c) ∈ started s;
  ni_valid : forall n v, (n, v) ∈ proposed s -> exists n', (n', v) ∈ started s;
  ni_one : forall n v v', (n, v) ∈ proposed s -> (n, v') ∈ proposed s -> v = v';
  ni_votes : forall a n v, (a, n, v) ∈ votes s -> (n, v) ∈ proposed s;
  ni_acc : forall a st, accs s !! a = Some st -> acc_ok s a st;
  ni_dom : forall a n r, (a, n, r) ∈ presp s -> is_Some (accs s !! a);
  ni_old : forall a n r, (a, n, r) ∈ presp s -> pr_oldinstance r = 1 -> pr_v_a r ∈ chosen s;
  ni_promised : forall a n r, (a, n, r) ∈ presp s -> pr_accept r = 1 -> reported s a n r;
  ni_just : forall n v, (n, v) ∈ proposed s -> justified s n v;
  ni_chosen : forall v, v ∈ chosen s -> exists n q, majority nodes q = true /\
    forall a, a ∈ q -> (a, n, v) ∈ votes s
}.

Lemma net_start_inv s : net_start s -> net_inv s.
Proof.
  intros (Ha & Hs & Hp & Hq & Hv & Hc).
  split; rewrite ?Hs, ?Hp, ?Hq, ?Hv, ?Hc; try set_solver.
  intros a st E. destruct (Ha a st E) as (Hi & Hva & Ho). unfold acc_ok.
  apply Z.ltb_lt in Hi. rewrite Hi. split; rewrite ?Hv, ?Hp; try set_solver.
Qed.

Lemma elem_of_snoc {A} (x y : A) l : x ∈ l ++ [y] <-> x ∈ l \/ x = y.
Proof. by rewrite elem_of_app, list_elem_of_singleton. Qed.

(** *** Two values are never both chosen *)

Lemma gt_counter s n v n' v' :
  net_inv s -> (n, v) ∈ started s -> (n', v') ∈ started s ->
  prop_gt n n' = true -> pn n' < pn n.
Proof.
  intros Hi H H' Hg. destruct (Z.eq_dec (pn n) (pn n')) as [E|E].
  - assert (n = n') as -> by (by eapply (ni_distinct s Hi)). by rewrite prop_gt_irrefl in Hg.
  - unfold prop_gt in Hg. apply orb_true_iff in Hg as [Hg|Hg]; to_prop; lia.
Qed.

Lemma chosen_later s n' v' q :
  net_inv s -> majority nodes q = true -> (forall a, a ∈ q -> (a, n', v') ∈ votes s) ->
  forall k n v, pn n <= Z.of_nat k -> (n, v) ∈ proposed s -> prop_ge n n' = true -> v = v'.
Proof.
  intros Hi Hq Hv. induction k as [|k IH]; intros n v Hk Hn Hge.
  { destruct (ni_proposed s Hi n v Hn) as [_ [c Hc]]. apply (ni_started s Hi) in Hc. lia. }
  destruct (ni_just s Hi n v Hn) as (q' & Hq' & _ & Hj).
  destruct (majorities_meet _ _ _ Hq Hq') as (a & _ & Ha & Ha').
  pose proof (Hv a Ha) as Hvote.
  apply prop_ge_cases in Hge as [Hgt| ->]; [|exact (ni_one s Hi _ _ _ Hn (ni_votes s Hi _ _ _ Hvote))].
  destruct Hj as [Hj|(n0 & Hn0 & Hgt0 & Hj)].
  { rewrite (Hj a n' v' Ha' Hvote) in Hgt. done. }
  apply (IH n0 v); [|done|by apply (Hj a n' v')].
  destruct (ni_proposed s Hi n v Hn) as [_ [c Hc]], (ni_proposed s Hi n0 v Hn0) as [_ [c0 Hc0]].
  pose proof (gt_counter s n c n0 c0 Hi Hc Hc0 Hgt0). lia.
Qed.

Lemma chosen_agree s v v' : net_inv s -> v ∈ chosen s -> v' ∈ chosen s -> v = v'.
Proof.
  intros Hi H H'. destruct (ni_chosen s Hi v H) as (n & q & Hq & Hv).
  destruct (ni_chosen s Hi v' H') as (n' & q' & Hq' & Hv').
  assert (forall n v q, majority nodes q = true -> (forall a, a ∈ q -> (a, n, v) ∈ votes s) ->
    (n, v) ∈ proposed s) as Hp.
  { intros m w k Hk Hw. destruct (majorities_meet _ _ _ Hk Hk) as (a & _ & Ha & _).
    eapply (ni_votes s Hi), Hw, Ha. }
  destruct (prop_ge n n') eqn:E.
  - by apply (chosen_later s n' v' q' Hi Hq' Hv' (Z.to_nat (pn n)) n v ltac:(lia) (Hp _ _ _ Hq Hv)).
  - rewrite prop_ge_negb in E. to_prop.
    symmetry. apply (chosen_later s n v q Hi Hq Hv (Z.to_nat (pn n')) n' v' ltac:(lia)
      (Hp _ _ _ Hq' Hv')). apply prop_ge_cases. by left.
Qed.

(** *** Every step keeps the invariant *)

Lemma inv_with_acc s a st st' :
  net_inv s -> accs s !! a = Some st -> acc_ok s a st' -> net_inv (with_acc a st' s).
Proof.
  intros [] Ha Hok. split; try done; cbn [accs with_acc presp].
  - intros b t. destruct (decide (a = b)) as [<-|]; [rewrite lookup_insert_eq|rewrite lookup_insert_ne by done].
    + by intros [= <-].
    + apply ni_acc0.
  - intros b n r Hr. apply lookup_insert_is_Some'. right. eauto.
Qed.

Lemma inv_commit s a st u :
  net_inv s -> accs s !! a = Some st -> u ∈ chosen s ->
  net_inv (with_acc a (commit inst u st) s).
Proof.
  intros Hi Ha Hu. apply (inv_with_acc s a st); [done..|].
  unfold commit, commit_wo. destruct (instance_h st <? inst) eqn:E; [|by apply (ni_acc s Hi)].
  unfold acc_ok. cbn [instance_h values loginstance set_file]. rewrite Z.ltb_irrefl.
  exists u. by rewrite lookup_insert_eq.
Qed.

Lemma inv_start s m p acc c_v :
  net_inv s -> props s !! m = Some p -> c_v <> [] ->
  0 <= pn (n_h acc) < 2 ^ 32 - 1 -> 0 <= pn (my_n p) < 2 ^ 32 - 1 ->
  (forall n' v', (n', v') ∈ started s -> pn n' = setn acc p -> pm n' = m) ->
  net_inv (Net (accs s)
             (<[m := Proposer m (break1 p) (break2 p) (stable p) (Prop_t (setn acc p) m)]> (props s))
             (started s ++ [(Prop_t (setn acc p) m, c_v)]) (presp s) (proposed s) (votes s) (chosen s)).
Proof.
  intros Hi Hp Hc Hh Hm Htie.
  assert (1 <= setn acc p /\ pn (my_n p) < setn acc p) as [Hge Hgt].
  { unfold setn. rewrite !u32_small by (unfold is_u32; lia). case_match; to_prop; lia. }
  destruct Hi. split; cbn [started accs props presp proposed votes chosen]; try done.
  - intros n v [H|[= -> ->]]%elem_of_snoc.
    + destruct (ni_started0 n v H) as (H1 & H2 & q & Hq & Hle). split_and!; [done..|].
      destruct (decide (m = pm n)) as [->|]; [|rewrite lookup_insert_ne by done; eauto].
      rewrite lookup_insert_eq. eexists. split; [done|]. cbn. simplify_eq. lia.
    + cbn. split_and!; [done..|]. rewrite lookup_insert_eq. eexists. split; [done|]. cbn. lia.
  - assert (forall n v, (n, v) ∈ started s -> pn n <> setn acc p) as Hne.
    { intros n v H E. pose proof (Htie n v H E) as Hpm.
      destruct (ni_started0 n v H) as (_ & _ & q & Hq & Hle). rewrite Hpm in Hq. simplify_eq. lia. }
    intros n v n' v' [H|[= -> ->]]%elem_of_snoc [H'|[= -> ->]]%elem_of_snoc E; cbn in *.
    + by eapply ni_distinct0.
    + exfalso. by eapply Hne.
    + exfalso. by eapply Hne.
    + done.
  - intros n v H. destruct (ni_proposed0 n v H) as (H1 & c & H2). split; [done|].
    exists c. apply elem_of_snoc. by left.
  - intros n v H. destruct (ni_valid0 n v H) as [n' H']. exists n'. apply elem_of_snoc. by left.
Qed.

Lemma inv_with_presp s a st n r :
  net_inv s -> accs s !! a = Some st ->
  (pr_oldinstance r = 1 -> pr_v_a r ∈ chosen s) ->
  (pr_accept r = 1 -> reported s a n r /\ (instance_h st < inst -> prop_ge (n_h st) n = true)) ->
  net_inv (with_presp (a, n, r) s).
Proof.
  intros Hi Ha Hold Hacc. destruct Hi.
  split; cbn [started accs props presp proposed votes chosen with_presp]; try done.
  - intros b t Hb. specialize (ni_acc0 b t Hb). unfold acc_ok in *.
    destruct (instance_h t <? inst) eqn:E; [|done]. destruct ni_acc0. split; try done.
    cbn [presp with_presp].
    intros n' r' [H|[= -> -> ->]]%elem_of_snoc; [eauto|]. intros Hr'. simplify_eq.
    to_prop. by apply Hacc.
  - intros b n' r' [H|[= -> -> ->]]%elem_of_snoc; eauto.
  - intros b n' r' [H|[= -> -> ->]]%elem_of_snoc; eauto.
  - intros b n' r' [H|[= -> -> ->]]%elem_of_snoc Hr'; [by apply ni_promised0|by apply Hacc].
  - intros n' v' H. destruct (ni_just0 n' v' H) as (q & Hq & Hp & Hj). exists q. split; [done|].
    split; [|done]. intros b Hb. destruct (Hp b Hb) as (r' & ? & ?). exists r'.
    split; [|done]. apply elem_of_snoc. by left.
Qed.

Lemma inv_prepare s n a st r st' :
  net_inv s -> accs s !! a = Some st ->
  preparereq (PrepareArg inst n []) st = (paxos_protocol.OK, r, st') ->
  net_inv (with_presp (a, n, r) (with_acc a st' s)).
Proof.
  intros Hi Ha Hp. pose proof (ni_acc s Hi a st Ha) as Hok. unfold preparereq in Hp.
  cbn [pa_instance pa_n] in Hp. unfold acc_ok in Hok.
  destruct (inst <=? instance_h st) eqn:E1; to_prop.
  { injection Hp as <- <-. assert ((instance_h st <? inst) = false) as E2 by (by apply Z.ltb_ge).
    rewrite E2 in Hok. destruct Hok as (v & Hv & Hc).
    apply (inv_with_presp _ a st); cbn; [|by rewrite lookup_insert_eq| |done].
    - apply (inv_with_acc s a st); [done..|]. by apply (ni_acc s Hi).
    - intros _. unfold value, map_get. by rewrite Hv. }
  assert ((instance_h st <? inst) = true) as E2 by (by apply Z.ltb_lt). rewrite E2 in Hok.
  pose proof Hok as [U1 U2 U3 U4].
  destruct (prop_gt n (n_h st)) eqn:E3; injection Hp as <- <-.
  - apply (inv_with_presp _ a (loghigh n (set_n_h n st))); cbn; [|by rewrite lookup_insert_eq|done|].
    + apply (inv_with_acc s a st); [done..|]. unfold acc_ok. cbn. rewrite E2. split; cbn; try done.
      * apply prop_ge_cases. left. by eapply prop_gt_ge_trans.
      * intros n' r' H H'. apply prop_ge_cases. left. eapply prop_gt_ge_trans; [done|]. eauto.
    + intros _. split; [|intros _; apply prop_ge_refl]. split; cbn [pr_v_a pr_n_a votes with_acc].
      * intros n' v' Hv Hgt. split; [|eauto]. destruct U3 as [[_ Hno]|Hin]; [by destruct (Hno n' v')|].
        by apply (ni_proposed s Hi _ _ (ni_votes s Hi _ _ _ Hin)).
      * intros Hne. destruct U3 as [[? _]|Hin]; [done|]. split; [done|]. by eapply prop_gt_ge_trans.
  - apply (inv_with_presp _ a st); cbn; [|by rewrite lookup_insert_eq|done|done].
    apply (inv_with_acc s a st); [done..|]. by apply (ni_acc s Hi).
Qed.

(** A vote a node may cast: nothing it promised is above it. *)
Lemma inv_vote s n v a st st' :
  net_inv s -> accs s !! a = Some st -> (instance_h st <? inst) = true ->
  prop_ge n (n_h st) = true -> (n, v) ∈ proposed s ->
  n_h st' = n -> n_a st' = n -> v_a st' = v -> instance_h st' = instance_h st ->
  net_inv (with_votes [(a, n, v)] (with_acc a st' s)).
Proof.
  intros Hi Ha E Hge Hn Hh Hna Hva Hin. pose proof (ni_acc s Hi a st Ha) as Hok.
  unfold acc_ok in Hok. rewrite E in Hok. destruct Hok as [U1 U2 _ U4].
  assert (forall n' r, (a, n', r) ∈ presp s -> pr_accept r = 1 -> prop_gt n' n = false) as Hpr.
  { intros n' r Hr Hr'. pose proof (prop_ge_trans _ _ _ Hge (U4 n' r Hr Hr')) as H.
    rewrite prop_ge_negb in H. by apply negb_true_iff in H. }
  destruct Hi. split; cbn [started accs props presp proposed votes chosen with_votes with_acc];
    try done.
  - intros b m w [H|[= -> -> ->]]%elem_of_snoc; eauto.
  - intros b t. destruct (decide (a = b)) as [<-|Hne].
    + rewrite lookup_insert_eq. intros [= <-]. unfold acc_ok. rewrite Hin, E. cbn.
      split; rewrite ?Hh, ?Hna, ?Hva; [apply prop_ge_refl| | |].
      * intros m w [H|[= -> ->]]%elem_of_snoc; [|apply prop_ge_refl].
        eapply prop_ge_trans; [done|]. eapply prop_ge_trans; [apply U1|]. eauto.
      * right. apply elem_of_snoc. by right.
      * intros m r Hr Hr'. eapply prop_ge_trans; [done|]. eauto.
    + rewrite lookup_insert_ne by done. intros Hb. specialize (ni_acc0 b t Hb).
      unfold acc_ok in *. destruct (instance_h t <? inst); [|done]. cbn. destruct ni_acc0 as [V1 V2 V3 V4].
      split; [done| | |done].
      * intros m w [H|[= -> -> ->]]%elem_of_snoc; [eauto|done].
      * destruct V3 as [[? V3]|V3]; [left|right; apply elem_of_snoc; by left].
        split; [done|]. intros m w [Hm|[= -> -> ->]]%elem_of_snoc; [by apply (V3 m w)|done].
  - intros b m r Hr. apply lookup_insert_is_Some'. right. eauto.
  - intros b m r Hr Hr'. destruct (ni_promised0 b m r Hr Hr') as [P1 P2]. split; cbn.
    + intros m' w [H|[= -> -> ->]]%elem_of_snoc Hgt; [eauto|].
      by rewrite (Hpr m r Hr Hr') in Hgt.
    + intros Hv. destruct (P2 Hv). split; [|done]. apply elem_of_snoc. by left.
  - intros m w Hm. destruct (ni_just0 m w Hm) as (q & Hq & Hp & Hj). exists q. split; [done|].
    split; [done|]. cbn.
    assert (forall b, b ∈ q -> b = a -> prop_gt m n = false) as Hb.
    { intros b Hb ->. destruct (Hp a Hb) as (r & Hr & Hr'). by eapply Hpr. }
    destruct Hj as [Hj|(n0 & H1 & H2 & H3)]; [left|right; exists n0; split_and!; [done..|]].
    + intros b m' w' Hbq [H|[= -> -> ->]]%elem_of_snoc; [eauto|by eapply Hb].
    + intros b m' w' Hbq [H|[= -> -> ->]]%elem_of_snoc Hgt; [eauto|]. by rewrite (Hb a) in Hgt.
  - intros w Hw. destruct (ni_chosen0 w Hw) as (m & q & Hq & H). exists m, q. split; [done|].
    intros b Hb. apply elem_of_snoc. left. auto.
Qed.

Lemma inv_accept s n v a st r st' :
  net_inv s -> (n, v) ∈ proposed s -> accs s !! a = Some st ->
  acceptreq (AcceptArg inst n v) st = (paxos_protocol.OK, r, st') ->
  net_inv (with_votes (if r =? 1 then [(a, n, v)] else []) (with_acc a st' s)).
Proof.
  intros Hi Hn Ha Hp. unfold acceptreq in Hp. cbn [aa_instance aa_n aa_v] in Hp.
  assert (net_inv (with_votes [] (with_acc a st s))) as Hsame.
  { assert (with_votes [] (with_acc a st s) = with_acc a st s) as ->.
    { unfold with_votes. by rewrite app_nil_r. }
    apply (inv_with_acc s a st); [done..|]. by apply (ni_acc s Hi). }
  destruct (inst <=? instance_h st) eqn:E1; to_prop; [by injection Hp as <- <-|].
  destruct (prop_ge n (n_h st)) eqn:E2; [|by injection Hp as <- <-].
  injection Hp as <- <-. cbn [Z.eqb]. eapply (inv_vote s n v a st); try done. by apply Z.ltb_lt.
Qed.

(** The value the loop of [prepare] settles on is justified. *)
Lemma prepared_justified s n c_v os accepts v :
  net_inv s -> (n, c_v) ∈ started s -> replies n s os ->
  prepare_loop os 0 c_v [] = (true, accepts, v, None) -> majority nodes accepts = true ->
  proposal c_v v <> [] /\ (exists n', (n', proposal c_v v) ∈ started s) /\
  justified s n (proposal c_v v).
Proof.
  intros Hi Hn Hrep Hl Hmaj. destruct (prepare_loop_spec _ _ _ _ _ _ Hl) as (Hacc & h & Hh & Hmax & Hv).
  assert (forall o a r, o ∈ os -> promises o a r -> (a, n, r) ∈ presp s /\ reported s a n r) as Hr.
  { intros o a r Ho (-> & _ & Hp). unfold replies in Hrep. rewrite Forall_forall in Hrep.
    pose proof (Hrep _ Ho) as Hin. cbn in Hin. split; [done|]. by apply (ni_promised s Hi). }
  assert (v <> []) as Hne.
  { destruct Hv as [[_ ->]|(o & a & r & _ & _ & H & _ & ->)]; [|done].
    by destruct (ni_started s Hi n c_v Hn) as (_ & ? & _). }
  assert (proposal c_v v = v) as ->. { unfold proposal. by destruct v. }
  split; [done|]. split.
  { destruct Hv as [[_ ->]|(o & a & r & Ho & Hp & H & _ & ->)]; [by exists n|].
    destruct (Hr o a r Ho Hp) as [_ [_ R2]]. destruct (R2 H) as [Hvote _].
    by apply (ni_votes s Hi), (ni_valid s Hi) in Hvote. }
  exists accepts. split; [done|].
  assert (forall a, a ∈ accepts -> exists o r, o ∈ os /\ promises o a r) as Hq.
  { intros a Ha. destruct (Hacc a Ha) as [H|H]; [by apply elem_of_nil in H|done]. }
  split.
  { intros a Ha. destruct (Hq a Ha) as (o & r & Ho & Hp). exists r. split; [by eapply Hr|apply Hp]. }
  assert (forall a n' v', a ∈ accepts -> (a, n', v') ∈ votes s -> prop_gt n n' = true ->
    pn n' <= h /\ 1 <= pn n') as Hbelow.
  { intros a n' v' Ha Hvote Hgt. destruct (Hq a Ha) as (o & r & Ho & Hp).
    destruct (Hr o a r Ho Hp) as [_ [R1 _]]. destruct (R1 n' v' Hvote Hgt) as [Hva Hge].
    pose proof (Hmax o a r Ho Hp Hva). apply (ni_votes s Hi), (ni_proposed s Hi) in Hvote as [_ [c Hc]].
    apply (ni_started s Hi) in Hc as [? _].
    unfold prop_ge in Hge. apply orb_true_iff in Hge as [Hge|Hge]; to_prop; lia. }
  destruct Hv as [[-> _]|(o & b & r & Ho & Hp & Hva & Hpn & ->)].
  - left. intros a n' v' Ha Hvote. destruct (prop_gt n n') eqn:Hgt; [|done].
    destruct (Hbelow a n' v' Ha Hvote Hgt). lia.
  - right. destruct (Hr o b r Ho Hp) as [_ [_ R2]]. destruct (R2 Hva) as [Hvote Hgt].
    pose proof (ni_votes s Hi _ _ _ Hvote) as Hprop. exists (pr_n_a r). split_and!; [done..|].
    intros a n' v' Ha Hvote' Hgt'. destruct (Hbelow a n' v' Ha Hvote' Hgt') as [Hle _].
    apply (ni_votes s Hi), (ni_proposed s Hi) in Hvote' as [_ [c Hc]].
    apply (ni_proposed s Hi) in Hprop as [_ [c' Hc']].
    destruct (Z.eq_dec (pn n') (pn (pr_n_a r))) as [Heq|Hneq].
    + rewrite (ni_distinct s Hi _ _ _ _ Hc Hc' Heq). apply prop_ge_refl.
    + apply prop_ge_cases. left. unfold prop_gt. apply orb_true_iff. left. apply Z.ltb_lt. lia.
Qed.

Lemma inv_propose s n c_v v :
  net_inv s -> (n, c_v) ∈ started s -> (forall v', ~ (n, v') ∈ proposed s) ->
  v <> [] -> (exists n', (n', v) ∈ started s) -> justified s n v ->
  net_inv (with_proposed (n, v) s).
Proof.
  intros Hi Hn Hnew Hv Hval Hj. assert (forall m w, justified s m w -> justified (with_proposed (n, v) s) m w) as Hmono.
  { intros m w (q & Hq & Hp & Hc). exists q. split; [done|]. split; [done|].
    destruct Hc as [Hc|(n0 & H1 & H2)]; [by left|]. right. exists n0. split; [|done].
    apply elem_of_snoc. by left. }
  destruct Hi. split; cbn [started accs props presp proposed votes chosen with_proposed]; try done.
  - intros m w [H|[= -> ->]]%elem_of_snoc; eauto.
  - intros m w [H|[= -> ->]]%elem_of_snoc; eauto.
  - intros m w w' [H|H]%elem_of_snoc [H'|H']%elem_of_snoc; simplify_eq; eauto;
      exfalso; by eapply Hnew.
  - intros a m w H. apply elem_of_snoc. eauto.
  - intros m w [H|[= -> ->]]%elem_of_snoc; auto.
Qed.

Lemma net_step_inv s s' : net_inv s -> net_step s s' -> net_inv s'.
Proof.
  intros Hi Hs. destruct Hs as [s m p acc c_v Hp Hm Ha Hc Hh Hmy Htie|s n c_v a st r st' _ Ha Hp
    |s n c_v os accepts v Hn Hnew Hrep Hl Hmaj|s n c_v os accepts v u st Hn Hrep Hl Ha
    |s n v a st r st' Hn Ha Hp|s n v os Hv Hmaj|s v a st r st' Hv Ha Hp].
  - by apply inv_start.
  - by eapply inv_prepare.
  - destruct (prepared_justified s n c_v os accepts v Hi Hn Hrep Hl Hmaj) as (? & ? & ?).
    by eapply inv_propose.
  - apply inv_commit; [done..|]. destruct (prepare_loop_old _ _ _ _ _ _ _ Hl) as (b & r & Hin & Ho & ->).
    unfold replies in Hrep. rewrite Forall_forall in Hrep. apply Hrep in Hin. cbn in Hin.
    by eapply (ni_old s Hi).
  - by eapply inv_accept.
  - assert (forall b t, accs s !! b = Some t -> acc_ok (with_chosen v s) b t) as Hacc.
    { intros b t Hb. pose proof (ni_acc s Hi b t Hb) as H. unfold acc_ok in *.
      destruct (_ <? _); [done|]. destruct H as (w & ? & ?). exists w. split; [done|].
      apply elem_of_snoc. by left. }
    destruct Hi. split; cbn [started accs props presp proposed votes chosen with_chosen]; try done.
    + intros a m r H H'. apply elem_of_snoc. left. eauto.
    + intros w [H|[= ->]]%elem_of_snoc; [eauto|]. exists n, (accept_loop os). split; [done|].
      intros a Ha%accept_loop_spec. rewrite Forall_forall in Hv. by apply (Hv _ Ha).
  - unfold decidereq in Hp. cbn in Hp. destruct (inst <=? instance_h st).
    + injection Hp as _ <-. apply (inv_with_acc s a st); [done..|]. by apply (ni_acc s Hi).
    + injection Hp as _ <-. by apply inv_commit.
Qed.

Lemma net_reachable_inv s0 s : net_start s0 -> rtc net_step s0 s -> net_inv s.
Proof.
  intros H0 Hr. eapply rtc_invariant; [exact Hr|by apply net_start_inv|]. intros a b. apply net_step_inv.
Qed.
End Agreement.

(** ** Theorems *)

Lemma decided_agree nodes inst s0 s a a' st st' v v' :
  net_start inst s0 -> rtc (net_step nodes inst) s0 s ->
  accs s !! a = Some st -> accs s !! a' = Some st' ->
  inst <= instance_h st -> inst <= instance_h st' ->
  values st !! inst = Some v -> values st' !! inst = Some v' ->
  v = v' /\ exists n, (n, v) ∈ started s.
Proof.
  intros H0 Hr Ha Ha' Hi Hi' Hv Hv'. pose proof (net_reachable_inv _ _ _ _ H0 Hr) as I.
  assert (forall a st v, accs s !! a = Some st -> inst <= instance_h st ->
    values st !! inst = Some v -> v ∈ chosen s) as Hch.
  { intros b t w Hb Ht Hw. pose proof (ni_acc _ _ s I b t Hb) as H. unfold acc_ok in H.
    apply Z.ltb_ge in Ht. rewrite Ht in H. destruct H as (w' & Hw' & Hc). congruence. }
  pose proof (Hch a st v Ha Hi Hv) as Hc. split.
  - by eapply (chosen_agree nodes inst s v v' I Hc), Hch.
  - destruct (ni_chosen _ _ s I v Hc) as (n & q & Hq & Hvotes).
    destruct (majorities_meet _ _ _ Hq Hq) as (b & _ & Hb & _).
    by eapply (ni_valid _ _ s I), (ni_votes _ _ s I), Hvotes.
Qed.

(** C1: any number of proposers run the protocol for one instance
    against each other, requests and replies are lost, delayed and repeated in
    any way, and no two of them ever use the same counter: then two nodes that
    have decided the instance have decided the same value, and it is a value
    one of the proposers started with. *)
Theorem paxos_agreement nodes inst s0 s a a' st st' v v' :
  net_start inst s0 -> rtc (net_step nodes inst) s0 s ->
  accs s !! a = Some st -> accs s !! a' = Some st' ->
  inst <= instance_h st -> inst <= instance_h st' ->
  values st !! inst = Some v -> values st' !! inst = Some v' ->
  v = v' /\ exists n, (n, v) ∈ started s.
Proof. apply decided_agree. Qed.

(** ** Concrete clusters *)

(** Nodes that answer calls, when they are reached: [up k] lists the nodes a
    run reaches in its [k]-th phase. *)
Section Cluster.
Context (up : nat -> list bytes).

Definition cluster : Type := gmap bytes acceptor.

Definition cluster_call {A R} (k : nat) (f : A -> acceptor -> Z * R * acceptor)
    (clt : bytes) (arg : A) (w : cluster) : option R * cluster :=
  if isamember clt (up k) then
    match w !! clt with
    | Some st => let '(_, r, st') := f arg st in (Some r, <[clt := st']> w)
    | None => (None, w)
    end
  else (None, w).

(** One call of [run] by node [m], with its proposer in a fresh state but
    for the last number [n0] it used. *)
Definition cluster_run (m : bytes) (n0 i : Z) (nodes : list bytes) (v : bytes) (w : cluster)
  : run_result * cluster :=
  match w !! m with
  | Some acc =>
      let '(r, _, w) :=
        run (cluster_call 1 preparereq) (cluster_call 2 acceptreq) (cluster_call 3 decidereq)
          i nodes v acc
          (fun i u w => match w !! m with
                        | Some st => <[m := commit i u st]> w
                        | None => w
                        end)
          (proposer_new m n0) w in (r, w)
  | None => (Ran false, w)
  end.
End Cluster.

Definition phases (a b c : list bytes) (k : nat) : list bytes :=
  match k with 1%nat => a | 2%nat => b | _ => c end.

Definition n1 : bytes := str "3772".
Definition n2 : bytes := str "3774".
Definition n3 : bytes := str "3776".

(** Three nodes in instance 1. *)
Definition demo_cluster : cluster :=
  let a m := Acceptor m (Prop_t 0 m) (Prop_t 0 m) [] 1 {[ 1 := str "3772 3774 3776 " ]} [] [] in
  {[ n1 := a n1; n2 := a n2; n3 := a n3 ]}.

Definition decided (i : Z) (w : cluster) (m : bytes) : option bytes :=
  st ← w !! m; values st !! i.

(** Without that condition agreement fails.  Node 3772 proposes x with
    number 1 and only reaches its own acceptor with it; 3776 proposes y, also
    with number 1, and it is accepted by 3774 and 3776 and decided at 3776;
    3774 then prepares number 2, hears of x first, and since [prepare]
    compares only the counters keeps x, which is decided at 3772 and 3774. *)
Theorem equal_counters_break_agreement :
  let nodes := [n1; n2; n3] in
  let '(_, w) := cluster_run (phases [n1; n2] [n1] []) n1 0 2 nodes (str "x") demo_cluster in
  let '(r1, w) := cluster_run (phases [n2; n3] [n2; n3] [n3]) n3 0 2 nodes (str "y") w in
  let '(r2, w) := cluster_run (phases [n1; n2] [n1; n2] [n1; n2]) n2 0 2 nodes (str "z") w in
  r1 = Ran true /\ r2 = Ran true /\
  decided 2 w n3 = Some (str "y") /\
  decided 2 w n1 = Some (str "x") /\ decided 2 w n2 = Some (str "x").
Proof. vm_compute. auto. Qed.

(** Nor does it hold across instances, since an acceptor keeps one
    proposal for all of them.  Instance 2 is chosen as x by 3772 and 3774, but
    only 3772 learns it; 3772 then runs instance 3 and has y accepted by 3776,
    which is still in instance 2; when 3776 runs instance 2 it proposes the y it
    accepted for instance 3, and 3774 and 3776 decide y for instance 2. *)
Theorem instances_are_confused :
  let nodes := [n1; n2; n3] in
  let '(r1, w) := cluster_run (phases [n1; n2] [n1; n2] [n1]) n1 0 2 nodes (str "x") demo_cluster in
  let '(r2, w) := cluster_run (phases [n1; n3] [n1; n3] [n1]) n1 1 3 nodes (str "y") w in
  let '(r3, w) := cluster_run (phases [n2; n3] [n2; n3] [n2; n3]) n3 0 2 nodes (str "z") w in
  r1 = Ran true /\ r2 = Ran true /\ r3 = Ran true /\
  decided 2 w n1 = Some (str "x") /\
  decided 2 w n2 = Some (str "y") /\ decided 2 w n3 = Some (str "y").
Proof. vm_compute. auto 10. Qed.

(** A run of the protocol in which the third of the nodes is not reached, step
    by step: the others agree to go on without it. *)
Section DemoNet.
Let nodes := [n1; n2; n3].
Let num := Prop_t 1 n1.

Definition do_prepare (n : prop_t) (a : bytes) (s : net) : net :=
  match accs s !! a with
  | Some st => let '(_, r, st') := preparereq (PrepareArg 2 n []) st in
               with_presp (a, n, r) (with_acc a st' s)
  | None => s
  end.

Definition do_accept (n : prop_t) (v a : bytes) (s : net) : net :=
  match accs s !! a with
  | Some st => let '(_, r, st') := acceptreq (AcceptArg 2 n v) st in
               with_votes (if r =? 1 then [(a, n, v)] else []) (with_acc a st' s)
  | None => s
  end.

Definition do_decide (v a : bytes) (s : net) : net :=
  match accs s !! a with
  | Some st => let '(_, _, st') := decidereq (DecideArg 2 v) st in with_acc a st' s
  | None => s
  end.

Lemma do_prepare_step n c_v a s :
  (n, c_v) ∈ started s -> rtc (net_step nodes 2) s (do_prepare n a s).
Proof.
  intros Hn. unfold do_prepare. destruct (accs s !! a) as [st|] eqn:E; [|apply rtc_refl].
  destruct (preparereq _ st) as [[o r] st'] eqn:Ep. apply rtc_once.
  assert (o = paxos_protocol.OK) as -> by (unfold preparereq in Ep; repeat case_match; by simplify_eq).
  by eapply ns_prepare.
Qed.

Lemma do_accept_step n v a s :
  (n, v) ∈ proposed s -> rtc (net_step nodes 2) s (do_accept n v a s).
Proof.
  intros Hn. unfold do_accept. destruct (accs s !! a) as [st|] eqn:E; [|apply rtc_refl].
  destruct (acceptreq _ st) as [[o r] st'] eqn:Ep. apply rtc_once.
  assert (o = paxos_protocol.OK) as -> by (unfold acceptreq in Ep; repeat case_match; by simplify_eq).
  by eapply ns_accept.
Qed.

Lemma do_decide_step v a s : v ∈ chosen s -> rtc (net_step nodes 2) s (do_decide v a s).
Proof.
  intros Hn. unfold do_decide. destruct (accs s !! a) as [st|] eqn:E; [|apply rtc_refl].
  destruct (decidereq _ st) as [[o r] st'] eqn:Ep. apply rtc_once.
  assert (o = paxos_protocol.OK) as -> by (unfold decidereq in Ep; repeat case_match; by simplify_eq).
  by eapply ns_decide.
Qed.

Definition net0 : net :=
  Net (delete n3 demo_cluster) {[ n1 := proposer_new n1 0 ]} [] [] [] [] [].
Definition net1 : net :=
  Net (accs net0) {[ n1 := Proposer n1 false false true num ]} [(num, str "3772 3774 ")] [] [] [] [].
Definition net2 : net := do_prepare num n2 (do_prepare num n1 net1).
Definition net3 : net := with_proposed (num, str "3772 3774 ") net2.
Definition net4 : net := do_accept num (str "3772 3774 ") n2 (do_accept num (str "3772 3774 ") n1 net3).
Definition net5 : net := with_chosen (str "3772 3774 ") net4.
Definition net6 : net := do_decide (str "3772 3774 ") n2 (do_decide (str "3772 3774 ") n1 net5).

Lemma net0_start : net_start 2 net0.
Proof.
  split; [|done]. intros a st H. cbn [accs net0] in H. unfold demo_cluster in H.
  apply lookup_delete_Some in H as [_ H].
  repeat (apply lookup_insert_Some in H as [[_ <-]|[_ H]]; [done|]).
  apply lookup_singleton_Some in H as [_ <-]. done.
Qed.

Lemma net_run : rtc (net_step nodes 2) net0 net6.
Proof.
  assert (forall {A} (P : A -> Prop) (x : A) l, l = [x] -> x ∈ l) as Hin by (intros ? ? ? ? ->; set_solver).
  trans net1.
  { apply rtc_once.
    apply (ns_start _ _ net0 n1 (proposer_new n1 0)
             (Acceptor n1 (Prop_t 0 n1) (Prop_t 0 n1) [] 1 {[ 1 := str "3772 3774 3776 " ]} [] [])); try done.
    intros n' v' H. by apply elem_of_nil in H. }
  trans net2.
  { trans (do_prepare num n1 net1); eapply do_prepare_step; by apply list_elem_of_singleton. }
  trans net3.
  { apply rtc_once. apply (ns_propose _ _ net2 num (str "3772 3774 ")
      [(n1, Some (PrepareRes 0 1 (Prop_t 0 n1) [])); (n2, Some (PrepareRes 0 1 (Prop_t 0 n2) []))]
      [n1; n2] (str "3772 3774 ")); [by apply list_elem_of_singleton| | |reflexivity|reflexivity].
    - intros v' H. by apply elem_of_nil in H.
    - change (replies num net2) with (replies num (Net ∅ ∅ [] 
        [(n1, num, PrepareRes 0 1 (Prop_t 0 n1) []); (n2, num, PrepareRes 0 1 (Prop_t 0 n2) [])] [] [] [])).
      repeat constructor; cbn; set_solver. }
  trans net4.
  { trans (do_accept num (str "3772 3774 ") n1 net3); eapply do_accept_step; by apply list_elem_of_singleton. }
  trans net5.
  { apply rtc_once. apply (ns_choose _ _ net4 num (str "3772 3774 ") [(n1, Some 1); (n2, Some 1)]);
      [|reflexivity].
    assert (votes net4 = [(n1, num, str "3772 3774 "); (n2, num, str "3772 3774 ")]) as E by reflexivity.
    rewrite E. repeat constructor; cbn; set_solver. }
  trans (do_decide (str "3772 3774 ") n1 net5); apply do_decide_step; by apply list_elem_of_singleton.
Qed.
End DemoNet.

Lemma paxos_agreement_witness :
  exists st st' : acceptor, accs net6 !! n1 = Some st /\ accs net6 !! n2 = Some st' /\
    values st !! 2 = Some (str "3772 3774 ") /\ values st' !! 2 = Some (str "3772 3774 ") /\
    exists n, (n, str "3772 3774 ") ∈ started net6.
Proof.
  destruct (accs net6 !! n1) as [st|] eqn:E1; [|vm_compute in E1; discriminate].
  destruct (accs net6 !! n2) as [st'|] eqn:E2; [|vm_compute in E2; discriminate].
  exists st, st'. split; [reflexivity|]. split; [reflexivity|].
  assert (instance_h st = 2 /\ values st !! 2 = Some (str "3772 3774 ")) as [I1 V1]
    by (vm_compute in E1; injection E1 as <-; split; reflexivity).
  assert (instance_h st' = 2 /\ values st' !! 2 = Some (str "3772 3774 ")) as [I2 V2]
    by (vm_compute in E2; injection E2 as <-; split; reflexivity).
  split; [exact V1|]. split; [exact V2|].
  exact (proj2 (paxos_agreement [n1; n2; n3] 2 net0 net6 n1 n2 st st' (str "3772 3774 ") (str "3772 3774 ")
    net0_start net_run E1 E2 ltac:(lia) ltac:(lia) V1 V2)).
Defined.
