(* ===== verification/Config.v ===== *)
(** * Views

    [config] of [config.cc]: the current view of the group, agreed on with
    Paxos, and the heartbeats that notice failed members.  A view is a Paxos
    value, the text of its member names, each followed by a space.  Where the
    code gives up its mutex, what other threads do there is an argument.  The
    proposer that [add] and [remove_wo] start is an argument too; it is the one
    of [Proposer]. *)

From stdpp Require Import gmap list strings.
From Stdlib Require Import ZArith Lia Ascii Sorted.
From S2P Require Import Prelude Text Marshall Rpc Protocols PaxosLog Acceptor Proposer.

Local Open Scope Z_scope.

Module config.

(** [unhandled] are the calls [mgr.delete_handle] made so far, [changes] the
    views [vc->commit_change] was called for. *)
Record config := Config {
  acc : acceptor;
  pro : proposer;
  myvid : Z;
  first : bytes;
  cme : bytes;
  mems : list bytes;
  unhandled : list bytes;
  changes : list (Z * list bytes)
}.

Definition set_acc a c := Config a (pro c) (myvid c) (first c) (cme c) (mems c) (unhandled c) (changes c).
Definition set_view vid ms c := Config (acc c) (pro c) vid (first c) (cme c) ms (unhandled c) (changes c).
Definition delete_handle m c :=
  Config (acc c) (pro c) (myvid c) (first c) (cme c) (mems c) (unhandled c ++ [m]) (changes c).
Definition commit_change c :=
  Config (acc c) (pro c) (myvid c) (first c) (cme c) (mems c) (unhandled c)
    (changes c ++ [(myvid c, mems c)]).

(** ** Views as text *)

(** [while (ist >> m)]; every round consumes a character *)
Fixpoint members_loop (fuel : nat) (s : bytes) : list bytes :=
  match fuel with
  | O => []
  | S f => match get_word s with
           | Some (m, r) => m :: members_loop f r
           | None => []
           end
  end.

Definition members (v : bytes) : list bytes := members_loop (S (length v)) v.

Definition value (ms : list bytes) : bytes := concat ((fun m => m ++ [space]) <$> ms).

Definition get_view (i : Z) (c : config) : list bytes := members (Acceptor.value i (acc c)).

Definition get_curview (c : config) : list bytes := get_view (myvid c) c.

(** [myvid - 1] is unsigned *)
Definition get_prevview (c : config) : list bytes := get_view (u32 (myvid c - 1)) c.

Definition ismember (m : bytes) (c : config) : bool := isamember m (mems c).

Definition print_curview (c : config) : bytes := print_members (mems c).

(** ** Changes of the view *)

Definition reconstruct (c : config) : config :=
  if 0 <? instance_h (acc c)
  then let vid := instance_h (acc c) in set_view vid (get_view vid c) c
  else c.

(** the constructor; [f] is the log file it finds, [n0] what the proposer's
    memory held; [None] when reading the log fails *)
Definition config_new (fst_ m f : bytes) (n0 : Z) : option config :=
  match acceptor_new (bool_decide (m = fst_)) m m f with
  | LDone a => Some (reconstruct (Config a (proposer_new m n0) 0 fst_ m [] [] []))
  | _ => None
  end.

Definition restore (s : bytes) (c : config) : option config :=
  match PaxosLog.restore s (acc c) with
  | LDone a => Some (reconstruct (set_acc a c))
  | _ => None
  end.

Definition dump (c : config) : bytes := PaxosLog.dump (acc c).

(** the loop of [paxos_commit] over the old members *)
Fixpoint drop_gone (old newmem : list bytes) (c : config) : config :=
  match old with
  | [] => c
  | m :: old' =>
      drop_gone old' newmem
        (if negb (isamember m newmem) && negb (bool_decide (cme c = m)) then delete_handle m c else c)
  end.

Definition paxos_commit (i : Z) (v : bytes) (c : config) : config :=
  let newmem := members v in
  let c := drop_gone (mems c) newmem c in
  commit_change (set_view i newmem c).

(** What the proposer is asked: instance, nodes, value. *)
Record request := Request { rq_instance : Z; rq_nodes : list bytes; rq_value : bytes }.

Section Propose.
(** the proposer, and what other threads do while the mutex is free *)
Context (run : request -> config -> bool * config) (others : config -> config).

Definition propose (v : bytes) (c : config) : bool * config :=
  let c := others c in run (Request (u32 (myvid c + 1)) (mems c) v) c.

Definition add (new_m : bytes) (c : config) : bool * config :=
  propose (value (mems c ++ [new_m])) c.

Definition remove_wo (m : bytes) (c : config) : bool * config :=
  propose (value (filter (fun x => x <> m) (mems c))) c.
End Propose.

(** ** Heartbeats *)

(** [heartbeat]: status and [r]; [None] is the failed assertion *)
Definition heartbeat (vid : Z) (c : config) : option (Z * Z) :=
  if vid =? myvid c then Some (paxos_protocol.OK, s32 (myvid c))
  else if isrunning (pro c) then
    if (vid =? u32 (myvid c + 1)) || (u32 (vid + 1) =? myvid c)
    then Some (paxos_protocol.OK, s32 (myvid c)) else None
  else Some (paxos_protocol.ERR, s32 (myvid c)).

Inductive heartbeat_t := OK | VIEWERR | FAILURE.

(** the number a member's name reads as; a name is never empty, so the
    variable is always set *)
Definition node_number (m : bytes) : Z :=
  match get_unsigned 64 m with
  | Got v _ => v
  | Failed stored _ => default 0 stored
  end.

(** the node with the smallest number, [me] if there is none below it *)
Definition lowest (me : bytes) (ms : list bytes) : bytes :=
  foldl (fun m x => if node_number x <? node_number m then x else m) me ms.

Inductive round :=
| NotMember
| Stable
| Unstable (m : bytes)
| BadIndex.            (** [mems[i]] past the end *)

Section Beats.
(** The call of a member's heartbeat: what it returns, [None] when there is no
    connection, and the state when it is back. *)
Context (call : bytes -> Z -> config -> option Z * config).

Definition doheartbeat (m : bytes) (c : config) : heartbeat_t * config :=
  let '(r, c) := call m (myvid c) c in
  let ret := default rpc_const.timeout_failure r in
  if ret =? paxos_protocol.OK then (OK, c)
  else if (ret =? rpc_const.atmostonce_failure) || (ret =? rpc_const.oldsrv_failure)
  then (OK, delete_handle m c)
  else if ret <? 0 then (FAILURE, c) else (VIEWERR, c).

(** the loop over [mems], which is read again in each round; [None] when the
    fuel is used up *)
Fixpoint ping_loop (fuel i : nat) (c : config) : option (round * config) :=
  match fuel with
  | O => None
  | S f =>
      match mems c !! i with
      | None => Some (Stable, c)
      | Some x =>
          if bool_decide (x = cme c) then ping_loop f (S i) c
          else let '(h, c) := doheartbeat x c in
               match h with
               | OK => ping_loop f (S i) c
               | _ => Some (match mems c !! i with Some m => Unstable m | None => BadIndex end, c)
               end
      end
  end.

(** one round of [heartbeater], up to the removal *)
Definition heartbeater_round (fuel : nat) (c : config) : option (round * config) :=
  if negb (isamember (cme c) (mems c)) then Some (NotMember, c)
  else
    let m := lowest (cme c) (mems c) in
    if bool_decide (m = cme c) then ping_loop fuel 0 c
    else let '(h, c) := doheartbeat m c in
         Some (match h with OK => Stable | _ => Unstable m end, c).

(** the whole round *)
Definition heartbeater (run : request -> config -> bool * config) (others : config -> config)
    (fuel : nat) (c : config) : option (round * config) :=
  match heartbeater_round fuel c with
  | Some (Unstable m, c) => Some (Unstable m, (remove_wo run others m c).2)
  | r => r
  end.
End Beats.

(** ** Views read back *)

Lemma members_loop_value f ms :
  Forall is_word ms -> (length ms < f)%nat -> members_loop f (value ms) = ms.
Proof.
  revert f. induction ms as [|m ms IH]; intros [|f] Hms Hf; cbn [length] in Hf; try lia; [done|].
  apply Forall_cons in Hms as [Hm Hms]. unfold value. cbn [fmap list_fmap concat members_loop].
  rewrite <- app_assoc. cbn [app]. rewrite get_word_app by done. f_equal.
  destruct f as [|f]; [lia|]. cbn [members_loop]. rewrite get_word_space by done.
  apply (IH (S f)); [done|lia].
Qed.

Lemma value_length ms : (length ms <= length (value ms))%nat.
Proof.
  induction ms as [|m ms IH]; [done|]. unfold value in *. cbn [fmap list_fmap concat length].
  rewrite !length_app. cbn [length]. lia.
Qed.

(** A view is read back as it was written. *)
Lemma members_value ms : Forall is_word ms -> members (value ms) = ms.
Proof. intros H. apply members_loop_value; [done|]. pose proof (value_length ms). lia. Qed.

(** ** The view is the latest value of Paxos *)

(** A request to the acceptor, with the upcall it makes. *)
Definition paxos_event (o : acc_op) (c : config) : config :=
  let a := run_op (acc c) o in
  foldl (fun c u => paxos_commit u.1 u.2 c) (set_acc a c) (drop (length (upcalls (acc c))) (upcalls a)).

Inductive event := Paxos (o : acc_op) | Restore (s : bytes).

(** [None]: the log is not one of a node that is in a view *)
Definition step (c : config) (e : event) : option config :=
  match e with
  | Paxos o => Some (paxos_event o c)
  | Restore s =>
      match restore s c with
      | Some c' => if 0 <? instance_h (acc c') then Some c' else None
      | None => None
      end
  end.

Record current (c : config) : Prop := {
  cu_vid : myvid c = instance_h (acc c);
  cu_mems : mems c = get_view (myvid c) c
}.

Lemma drop_gone_fields old newmem c :
  acc (drop_gone old newmem c) = acc c /\ changes (drop_gone old newmem c) = changes c.
Proof.
  revert c. induction old as [|m old IH]; intros c; [done|]. cbn [drop_gone].
  destruct (IH (if negb (isamember m newmem) && negb (bool_decide (cme c = m)) then delete_handle m c else c))
    as [-> ->]. by case_match.
Qed.

(** An operation of the acceptor decides nothing, or one later instance. *)
Lemma run_op_upcalls a o :
  let a' := run_op a o in
  (upcalls a' = upcalls a /\ values a' = values a /\ instance_h a' = instance_h a) \/
  exists i v, upcalls a' = upcalls a ++ [(i, v)] /\ values a' = <[i := v]> (values a) /\
    instance_h a' = i /\ instance_h a < i.
Proof.
  destruct o as [arg|arg|arg|i v]; cbn [run_op].
  - left. unfold preparereq. by repeat case_match.
  - left. unfold acceptreq. by repeat case_match.
  - unfold decidereq, commit_wo. repeat case_match; to_prop; [by left| |by left]. right. eauto 10.
  - unfold commit, commit_wo. case_match; to_prop; [|by left]. right. eauto 10.
Qed.

Lemma paxos_event_cases o c :
  let c' := paxos_event o c in
  (instance_h (acc c') = instance_h (acc c) /\ values (acc c') = values (acc c) /\
   myvid c' = myvid c /\ mems c' = mems c /\ changes c' = changes c) \/
  exists i v, instance_h (acc c) < i /\ instance_h (acc c') = i /\
    values (acc c') = <[i := v]> (values (acc c)) /\ myvid c' = i /\ mems c' = members v /\
    changes c' = changes c ++ [(i, members v)].
Proof.
  unfold paxos_event. destruct (run_op_upcalls (acc c) o) as [(Hu & Hv & Hi)|(i & v & Hu & Hv & Hi & Hlt)].
  - left. rewrite Hu, drop_all. done.
  - right. exists i, v. rewrite Hu, drop_app_length. cbn [foldl fst snd]. unfold paxos_commit.
    pose proof (drop_gone_fields (mems c) (members v) (set_acc (run_op (acc c) o) c)) as [E1 E2].
    cbn [mems set_acc]. unfold commit_change, set_view. cbn [acc myvid mems changes].
    cbn [acc set_acc changes] in E1, E2. rewrite E1, E2. done.
Qed.

Lemma step_current c e c' : current c -> step c e = Some c' -> current c'.
Proof.
  intros [H1 H2]. destruct e as [o|s]; cbn [step].
  - intros [= <-]. destruct (paxos_event_cases o c) as [(E1 & E2 & E3 & E4 & _)|(i & v & Hlt & E1 & E2 & E3 & E4 & _)].
    + split; [by rewrite E3, E1|]. rewrite E4, H2, E3. unfold get_view, Acceptor.value. by rewrite E2.
    + split; [by rewrite E3, E1|]. rewrite E3, E4. unfold get_view, Acceptor.value.
      by rewrite E2, map_get_insert_eq.
  - unfold restore. destruct (PaxosLog.restore s (acc c)) as [a| | |]; try done.
    unfold reconstruct. cbn [acc set_acc]. destruct (0 <? instance_h a) eqn:E; cbn [acc set_view set_acc];
      rewrite E; [|done]. intros [= <-]. by split.
Qed.


(** ** The next view *)

Lemma filter_words (P : bytes -> Prop) `{!forall x, Decision (P x)} ms :
  Forall is_word ms -> Forall is_word (filter P ms).
Proof.
  intros Hms. apply Forall_forall. intros x [_ Hx]%list_elem_of_filter.
  by apply (Forall_forall _ ms) with (x := x) in Hms.
Qed.

(** As long as the view does not change while the mutex is free,
    [add] and [remove_wo] ask the members of the current view to agree, for the
    next number, on the current view with the new node at its end, or without the
    node that is to go. *)
Theorem next_view_differs_by_one run others m c :
  Forall is_word (mems c) -> is_word m ->
  myvid (others c) = myvid c -> mems (others c) = mems c ->
  (exists v, add run others m c = run (Request (u32 (myvid c + 1)) (mems c) v) (others c) /\
     members v = mems c ++ [m]) /\
  (exists v, remove_wo run others m c = run (Request (u32 (myvid c + 1)) (mems c) v) (others c) /\
     members v = filter (fun x => x <> m) (mems c)).
Proof.
  intros Hms Hm Hv Hs. unfold add, remove_wo, propose. rewrite Hv, Hs.
  split; eexists; (split; [done|]); apply members_value.
  - apply Forall_app. split; [done|]. by constructor.
  - by apply filter_words.
Qed.

(** ** Heartbeats *)

Lemma lowest_spec me ms :
  lowest me ms ∈ me :: ms /\ forall x, x ∈ me :: ms -> node_number (lowest me ms) <= node_number x.
Proof.
  unfold lowest. revert me. induction ms as [|y ms IH]; intros me; cbn [foldl].
  - split; [set_solver|]. intros x ->%list_elem_of_singleton. done.
  - destruct (node_number y <? node_number me) eqn:E; to_prop.
    + destruct (IH y) as [H1 H2]. split; [set_solver|].
      intros x [->|Hx]%elem_of_cons; [|by apply H2].
      etrans; [apply (H2 y); set_solver|lia].
    + destruct (IH me) as [H1 H2]. split; [set_solver|].
      intros x [->|[->|Hx]%elem_of_cons]%elem_of_cons; [apply H2; set_solver| |apply H2; set_solver].
      etrans; [apply (H2 me); set_solver|lia].
Qed.

Section Rounds.
Context (call : bytes -> Z -> config -> option Z * config).
(** while a call is out, the view and the node's name stay *)
Context (call_keeps : forall m vid c, mems (call m vid c).2 = mems c /\ cme (call m vid c).2 = cme c).

(** Member [m] does not answer a call in state [c], or answers with an error. *)
Definition fails (m : bytes) (c : config) : Prop := (doheartbeat call m c).1 <> OK.

Lemma doheartbeat_keeps m c :
  mems (doheartbeat call m c).2 = mems c /\ cme (doheartbeat call m c).2 = cme c.
Proof.
  unfold doheartbeat. destruct (call_keeps m (myvid c) c) as [H1 H2].
  destruct (call m (myvid c) c) as [r c']. cbn in H1, H2. by repeat case_match.
Qed.

Lemma ping_loop_spec fuel i c :
  (length (mems c) < fuel + i)%nat -> (0 < fuel)%nat ->
  exists r c', ping_loop call fuel i c = Some (r, c') /\ mems c' = mems c /\ cme c' = cme c /\
    (r = Stable \/ exists m c1, r = Unstable m /\ m ∈ mems c /\ m <> cme c /\ fails m c1).
Proof.
  revert i c. induction fuel as [|fuel IH]; intros i c Hf H0; [lia|]. cbn [ping_loop].
  destruct (mems c !! i) as [x|] eqn:E; [|by do 2 eexists; split_and!; [| | |left]].
  pose proof (lookup_lt_Some _ _ _ E) as Hi.
  destruct (bool_decide (x = cme c)) eqn:Eb; [apply IH; lia|]. to_prop.
  destruct (doheartbeat_keeps x c) as [H1 H2]. destruct (doheartbeat call x c) as [h c1] eqn:Eh.
  cbn in H1, H2. destruct h.
  - destruct (IH (S i) c1) as (r & c' & Hp & Hm & Hc & Hr); [rewrite H1; lia|lia|].
    exists r, c'. split; [done|]. rewrite Hm, Hc, H1, H2. split; [done|]. split; [done|].
    destruct Hr as [->|(m & c2 & -> & Hin & Hne & Hfail)]; [by left|right].
    exists m, c2. by rewrite <- H1, <- H2.
  - do 2 eexists. split; [done|]. rewrite H1, E. split; [done|]. split; [done|]. right.
    exists x, c. split; [done|]. split; [by eapply list_elem_of_lookup_2|]. split; [done|].
    unfold fails. by rewrite Eh.
  - do 2 eexists. split; [done|]. rewrite H1, E. split; [done|]. split; [done|]. right.
    exists x, c. split; [done|]. split; [by eapply list_elem_of_lookup_2|]. split; [done|].
    unfold fails. by rewrite Eh.
Qed.

(** In a round during whose calls the view does not change,
    a node that is not in the view does nothing; the round always ends, and
    proposes to remove a node only if that node is another member that failed a
    heartbeat; a member that is not the lowest only ever removes the lowest. *)
Theorem heartbeat_round_sound c :
  exists r c', heartbeater_round call (S (length (mems c))) c = Some (r, c') /\
    (r = NotMember <-> ~ cme c ∈ mems c) /\ r <> BadIndex /\
    forall m, r = Unstable m ->
      m ∈ mems c /\ m <> cme c /\ (exists c1, fails m c1) /\
      (lowest (cme c) (mems c) <> cme c -> m = lowest (cme c) (mems c) /\ fails m c).
Proof.
  unfold heartbeater_round. destruct (isamember (cme c) (mems c)) eqn:Em; cbn [negb].
  2: { assert (~ cme c ∈ mems c) as Hn by (intros H%isamember_spec; congruence).
       do 2 eexists. split; [done|]. split; [done|]. split; [done|]. done. }
  apply isamember_spec in Em. destruct (bool_decide (lowest (cme c) (mems c) = cme c)) eqn:El; to_prop.
  - destruct (ping_loop_spec (S (length (mems c))) 0 c) as (r & c' & Hp & Hm & Hc & Hr); [lia|lia|].
    exists r, c'. split; [done|].
    destruct Hr as [->|(m & c1 & -> & Hin & Hne & Hf)]; (split; [done|]); (split; [done|]); [done|].
    intros m' [= <-]. split; [done|]. split; [done|]. split; [by eexists|done].
  - destruct (doheartbeat call (lowest (cme c) (mems c)) c) as [h c1] eqn:Eh.
    do 2 eexists. split; [done|]. split; [by destruct h|]. split; [by destruct h|].
    intros m Hm. assert (m = lowest (cme c) (mems c) /\ h <> OK) as [-> Hh] by (destruct h; by simplify_eq).
    assert (fails (lowest (cme c) (mems c)) c) as Hf by (unfold fails; by rewrite Eh).
    destruct (lowest_spec (cme c) (mems c)) as [Hin _]. split; [set_solver|]. split; [done|]. by eauto.
Qed.
End Rounds.

(** A heartbeat is answered with [OK] by a node in the same
    view, or in a neighbouring one while its proposer runs, otherwise with an
    error; but while its proposer runs, a node that is asked by one further ahead
    or behind stops at a failed assertion. *)
Theorem heartbeat_reply vid c :
  let near := vid = u32 (myvid c + 1) \/ u32 (vid + 1) = myvid c in
  (heartbeat vid c = Some (paxos_protocol.OK, s32 (myvid c)) <->
     vid = myvid c \/ isrunning (pro c) = true /\ near) /\
  (heartbeat vid c = Some (paxos_protocol.ERR, s32 (myvid c)) <->
     vid <> myvid c /\ isrunning (pro c) = false) /\
  (heartbeat vid c = None <-> vid <> myvid c /\ isrunning (pro c) = true /\ ~ near).
Proof.
  cbn zeta. unfold heartbeat. destruct (vid =? myvid c) eqn:E1; to_prop; [naive_solver|].
  destruct (isrunning (pro c)); [|naive_solver].
  destruct (Z.eqb_spec vid (u32 (myvid c + 1))), (Z.eqb_spec (u32 (vid + 1)) (myvid c)); cbn [orb]; naive_solver.
Qed.

(** ** Concrete runs *)

Definition demo_new : config :=
  default (Config (acceptor_blank [] []) (proposer_new [] 0) 0 [] [] [] [] [])
    (config_new (str "1") (str "1") [] 0).

(** Node 1 in view 2, with nodes 2 and 3. *)
Definition demo_config : config := paxos_event (OCommit 2 (str "1 2 3 ")) demo_new.


Lemma next_view_differs_by_one_witness :
  exists v, add (fun r c => (true, c)) (fun c => c) (str "7") demo_config =
              (true, demo_config) /\ members v = [str "1"; str "2"; str "3"; str "7"].
Proof.
  destruct (next_view_differs_by_one (fun r c => (true, c)) (fun c => c) (str "7") demo_config)
    as [(v & H & Hv) _]; [| |reflexivity|reflexivity|].
  - vm_compute. repeat constructor; done.
  - vm_compute. split; [done|]. repeat constructor.
  - exists v. split; [exact H|]. rewrite Hv. vm_compute. reflexivity.
Defined.

(** a call that times out at node 2 and is answered by the others *)
Definition demo_call (m : bytes) (vid : Z) (c : config) : option Z * config :=
  (if decide (m = str "2") then None else Some paxos_protocol.OK, c).

Lemma heartbeat_round_sound_witness :
  exists c', heartbeater_round demo_call 4 demo_config = Some (Unstable (str "2"), c') /\
    str "2" ∈ mems demo_config.
Proof.
  destruct (heartbeat_round_sound demo_call ltac:(done) demo_config) as (r & c' & H & _ & _ & Hr).
  assert (exists c2, heartbeater_round demo_call (S (length (mems demo_config))) demo_config =
    Some (Unstable (str "2"), c2)) as [c2 E] by (eexists; vm_compute; reflexivity).
  rewrite E in H. injection H as <- <-. exists c2. split; [exact E|]. by apply Hr.
Defined.

(** The text of the next view is made before the mutex is given up,
    the number and the members that are asked are read after.  If the view changes
    in between, here by the arrival of node 5, the proposal that adds node 4 takes
    that node out again. *)
Theorem add_race_drops_member :
  let others := paxos_event (OCommit 3 (str "1 2 3 5 ")) in
  let run r c := (true, paxos_event (OCommit (rq_instance r) (rq_value r)) c) in
  mems (others demo_config) = [str "1"; str "2"; str "3"; str "5"] /\
  mems (add run others (str "4") demo_config).2 = [str "1"; str "2"; str "3"; str "4"] /\
  myvid (add run others (str "4") demo_config).2 = 4.
Proof. vm_compute. auto. Qed.

(** The heartbeater reads [mems[i]] again after a call that
    failed.  If the view changed during the call, node 2 fails and node 3, which
    did not, is removed; or the index is past the end of the list. *)
Theorem heartbeat_race_removes_another :
  let call (m : bytes) (_ : Z) c :=
    if decide (m = str "2") then (None, paxos_event (OCommit 3 (str "1 3 ")) c)
    else (Some paxos_protocol.OK, c) in
  let call' (m : bytes) (_ : Z) c :=
    if decide (m = str "3") then (None, paxos_event (OCommit 3 (str "1 3 ")) c)
    else (Some paxos_protocol.OK, c) in
  option_map fst (heartbeater_round call 4 demo_config) = Some (Unstable (str "3")) /\
  option_map fst (heartbeater_round call' 4 demo_config) = Some BadIndex.
Proof. vm_compute. auto. Qed.

End config.
