(* ===== verification/Rsm.v ===== *)
(** * The replicated state machine

    [rsm] of [rsm.cc] as far as it is written: the choice of the primary, the
    joining of nodes, the announcement of members, and the hooks for testing.
    Requests of clients are not executed yet ([client_invoke] and [invoke]
    return at once, the synchronisation functions succeed without doing
    anything); they are modelled as they are.  A failed [assert] is [None]. *)

From stdpp Require Import gmap list strings sorting.
From Stdlib Require Import ZArith Lia Ascii.
From S2P Require Import Prelude Text Marshall Rpc Protocols PaxosLog Acceptor Proposer Config.

Local Open Scope Z_scope.

Module rsm.
Import Config.config(config, mems, myvid, cme, get_curview, get_prevview, ismember, node_number).

(** [peers] are the calls [set_reachable] on the clients of members, which are
    made as far as there is a connection *)
Record rsm := Rsm {
  cfg : config;
  myvs : viewstamp;
  last_myvs : viewstamp;
  primary : bytes;
  insync : bool;
  inviewchange : bool;
  partitioned : bool;
  dopartition : bool;
  break1 : bool;
  break2 : bool;
  reachable : bool;
  peers : list (bytes * bool)
}.

Definition set_cfg c s :=
  Rsm c (myvs s) (last_myvs s) (primary s) (insync s) (inviewchange s) (partitioned s)
    (dopartition s) (break1 s) (break2 s) (reachable s) (peers s).
Definition set_prim p s :=
  Rsm (cfg s) (myvs s) (last_myvs s) p (insync s) (inviewchange s) (partitioned s)
    (dopartition s) (break1 s) (break2 s) (reachable s) (peers s).

(** the constructor; [f] and [n0] as in [config_new] *)
Definition rsm_new (fst_ me f : bytes) (n0 : Z) : option rsm :=
  match Config.config.config_new fst_ me f n0 with
  | Some c => Some (Rsm c (Viewstamp 0 1) (Viewstamp 0 0) fst_ false false false false false false true [])
  | None => None
  end.

(** ** The primary *)

(** the last loop of [set_primary]: the first number that names a member *)
Fixpoint first_member (memsi : list Z) (c : list bytes) : option bytes :=
  match memsi with
  | [] => None
  | n :: memsi' => if isamember (dec n) c then Some (dec n) else first_member memsi' c
  end.

Definition set_primary (s : rsm) : option rsm :=
  let c := get_curview (cfg s) in
  let p := get_prevview (cfg s) in
  if (length c =? 0)%nat then None
  else if isamember (primary s) c then Some s
  else if (length p =? 0)%nat then None
  else match first_member (merge_sort Z.le (node_number <$> p)) c with
       | Some m => Some (set_prim m s)
       | None => None
       end.

Definition amiprimary_wo (s : rsm) : bool :=
  bool_decide (primary s = cme (cfg s)) && negb (inviewchange s).

(** [amiprimary] is [amiprimary_wo] under the mutex *)
Definition amiprimary (s : rsm) : bool := amiprimary_wo s.

(** ** Joining *)

(** [joinreq]: status and log; [add] is [config::add], whose result is not
    looked at *)
Definition joinreq (add : bytes -> config -> bool * config) (m : bytes) (s : rsm)
  : Z * joinres * rsm :=
  if ismember m (cfg s) then (rsm_client_protocol.OK, JoinRes (Config.config.dump (cfg s)), s)
  else if negb (bool_decide (cme (cfg s) = primary s)) then (rsm_client_protocol.BUSY, JoinRes [], s)
  else let s := set_cfg (add m (cfg s)).2 s in
       (rsm_client_protocol.OK, JoinRes (Config.config.dump (cfg s)), s).

(** [join]: [r] is what the call returns, [None] when there is no connection;
    the result is [None] when the log cannot be read *)
Definition join (r : option (Z * joinres)) (s : rsm) : option (bool * rsm) :=
  match r with
  | Some (ret, res) =>
      if negb (ret =? rsm_protocol.OK) then Some (false, s)
      else match Config.config.restore (jr_log res) (cfg s) with
           | Some c => Some (true, set_cfg c s)
           | None => None
           end
  | None => Some (false, s)
  end.

(** [recovery] up to the point where it sleeps: [calls] are what the calls to
    the primary return, one for each attempt *)
Inductive recovered :=
| Asleep (s : rsm)
| Aborted                  (** a failed assertion *)
| Trying (s : rsm).        (** every attempt so far failed *)

Fixpoint recovery (calls : list (option (Z * joinres))) (s : rsm) : recovered :=
  if ismember (cme (cfg s)) (cfg s) then Asleep s
  else match calls with
       | [] => Trying s
       | r :: calls' =>
           match join r s with
           | Some (true, s) => recovery calls' s
           | Some (false, s) =>
               match set_primary s with
               | Some s => recovery calls' s
               | None => Aborted
               end
           | None => Aborted
           end
       end.

(** [commit_change]: after the choice of the primary, a node that is not in
    the view runs [recovery], which does not return *)
Definition commit_change (calls : list (option (Z * joinres))) (s : rsm) : recovered :=
  match set_primary s with
  | Some s => if ismember (cme (cfg s)) (cfg s) then Asleep s else recovery calls s
  | None => Aborted
  end.

Definition client_members (s : rsm) : Z * list bytes :=
  (rsm_protocol.OK, get_curview (cfg s) ++ [primary s]).

(** ** Not written yet *)

Definition sync_with_backups (s : rsm) : bool * rsm := (true, s).
Definition sync_with_primary (s : rsm) : bool * rsm := (true, s).
Definition statetransfer (m : bytes) (s : rsm) : bool * rsm := (true, s).
Definition statetransferdone (m : bytes) (s : rsm) : bool * rsm := (true, s).
Definition client_invoke (procno : Z) (req r : bytes) (s : rsm) : Z * bytes * rsm :=
  (rsm_protocol.OK, r, s).
Definition invoke (proc : Z) (vs : viewstamp) (req : bytes) (s : rsm) : Z * rsm :=
  (rsm_protocol.OK, s).
Definition transferreq (src : bytes) (last : viewstamp) (r : transferres) (s : rsm)
  : Z * transferres * rsm := (rsm_protocol.OK, r, s).
Definition transferdonereq (m : bytes) (s : rsm) : Z * rsm := (rsm_client_protocol.OK, s).

(** ** Testing *)

Definition net_repair_wo (heal : bool) (s : rsm) : rsm :=
  Rsm (cfg s) (myvs s) (last_myvs s) (primary s) (insync s) (inviewchange s) (partitioned s)
    (dopartition s) (break1 s) (break2 s) heal
    (peers s ++ ((fun m => (m, heal)) <$> filter (fun m => m <> cme (cfg s)) (get_curview (cfg s)))).

Definition test_net_repairreq (heal : Z) (s : rsm) : Z * rsm :=
  let set d s := Rsm (cfg s) (myvs s) (last_myvs s) (primary s) (insync s) (inviewchange s) false
                   d (break1 s) (break2 s) (reachable s) (peers s) in
  (rsm_test_protocol.OK,
   if negb (heal =? 0) then set (dopartition s) (net_repair_wo true s) else set true s).

Definition breakpointreq (b : Z) (s : rsm) : Z * rsm :=
  let set b1 b2 c := Rsm c (myvs s) (last_myvs s) (primary s) (insync s) (inviewchange s)
                       (partitioned s) (dopartition s) b1 b2 (reachable s) (peers s) in
  if b =? 1 then (rsm_test_protocol.OK, set true (break2 s) (cfg s))
  else if b =? 2 then (rsm_test_protocol.OK, set (break1 s) true (cfg s))
  else if (b =? 3) || (b =? 4) then
    let c := cfg s in
    (rsm_test_protocol.OK,
     set (break1 s) (break2 s)
       (Config.config.Config (Config.config.acc c) (Proposer.breakpoint b (Config.config.pro c))
          (myvid c) (Config.config.first c) (cme c) (mems c) (Config.config.unhandled c)
          (Config.config.changes c)))
  else (rsm_test_protocol.ERR, s).

(** ** Who is the primary *)

(** The names of nodes are port numbers as the streams print them. *)
Definition canonical (m : bytes) : Prop := exists n, is_u64 n /\ m = dec n.

Lemma node_number_dec n : is_u64 n -> node_number (dec n) = n.
Proof.
  intros Hn. unfold node_number. pose proof (get_unsigned_dec 64 n [] Hn eq_refl) as H.
  rewrite app_nil_r in H. by rewrite H.
Qed.

Lemma canonical_number m : canonical m -> dec (node_number m) = m.
Proof. intros (n & Hn & ->). by rewrite node_number_dec. Qed.

Lemma first_member_spec l c :
  StronglySorted Z.le l ->
  match first_member l c with
  | Some m => exists n, n ∈ l /\ m = dec n /\ m ∈ c /\ forall k, k ∈ l -> dec k ∈ c -> n <= k
  | None => forall k, k ∈ l -> ~ dec k ∈ c
  end.
Proof.
  induction 1 as [|n l Hl IH Hn]; cbn [first_member]; [set_solver|].
  destruct (isamember (dec n) c) eqn:E.
  - apply isamember_spec in E. exists n. split_and!; [set_solver|done|done|].
    intros k [->|Hk]%elem_of_cons _; [done|]. by apply (Forall_forall _ l) with (x := k) in Hn.
  - assert (~ dec n ∈ c) as Hnc by (intros H%isamember_spec; congruence).
    destruct (first_member l c) as [m|].
    + destruct IH as (k & H1 & H2 & H3 & H4). exists k. split_and!; [set_solver|done|done|].
      intros j [->|Hj]%elem_of_cons Hd; [done|]. by apply H4.
    + intros k [->|Hk]%elem_of_cons; [done|by apply IH].
Qed.

(** A primary that is in the new view stays; otherwise the lowest
    numbered node of the previous view that is in the new one becomes it; and the
    choice fails exactly when there is neither.  Nothing else changes. *)
Theorem primary_is_chosen s :
  Forall canonical (get_prevview (cfg s)) ->
  match set_primary s with
  | Some s' =>
      s' = set_prim (primary s') s /\ primary s' ∈ get_curview (cfg s) /\
      (primary s ∈ get_curview (cfg s) -> primary s' = primary s) /\
      ((~ primary s ∈ get_curview (cfg s)) ->
         primary s' ∈ get_prevview (cfg s) /\
         forall x, x ∈ get_prevview (cfg s) -> x ∈ get_curview (cfg s) ->
           node_number (primary s') <= node_number x)
  | None =>
      (~ primary s ∈ get_curview (cfg s)) /\
      forall x, x ∈ get_prevview (cfg s) -> ~ x ∈ get_curview (cfg s)
  end.
Proof.
  intros Hp. unfold set_primary. set (c := get_curview (cfg s)) in *. set (p := get_prevview (cfg s)) in *.
  destruct c as [|c0 c'] eqn:Ec; cbn [length Nat.eqb]; [split; [apply not_elem_of_nil|]; intros; apply not_elem_of_nil|].
  rewrite <- Ec. clear Ec. destruct (isamember (primary s) c) eqn:Em.
  { apply isamember_spec in Em. split_and!; [by destruct s|done|done|done]. }
  assert (~ primary s ∈ c) as Hn by (intros H%isamember_spec; congruence).
  assert (forall x, x ∈ p -> node_number x ∈ merge_sort Z.le (node_number <$> p) /\ dec (node_number x) = x) as Hx.
  { intros x Hx. split; [|apply canonical_number; by apply (Forall_forall _ p) with (x := x) in Hp].
    rewrite merge_sort_Permutation. apply list_elem_of_fmap. by exists x. }
  destruct p as [|p0 p'] eqn:Ep; cbn [length Nat.eqb].
  { split; [done|]. intros x Hx'. by apply elem_of_nil in Hx'. }
  rewrite <- Ep in *. clear Ep. pose proof (first_member_spec (merge_sort Z.le (node_number <$> p)) c) as Hf.
  assert (StronglySorted Z.le (merge_sort Z.le (node_number <$> p))) as Hs by apply (StronglySorted_merge_sort Z.le).
  specialize (Hf Hs). destruct (first_member _ c) as [m|].
  - destruct Hf as (n & H1 & H2 & H3 & H4). cbn [primary set_prim]. split; [done|]. split; [done|].
    split; [done|]. intros _. rewrite merge_sort_Permutation in H1. apply list_elem_of_fmap in H1 as (x & -> & Hin).
    destruct (Hx x Hin) as [_ Hd]. rewrite Hd in H2. subst m. split; [done|].
    intros y Hy Hyc. destruct (Hx y Hy) as [Hy1 Hy2]. apply H4; [done|]. by rewrite Hy2.
  - split; [done|]. intros x Hin Hc. destruct (Hx x Hin) as [H1 H2]. apply (Hf _ H1). by rewrite H2.
Qed.

(** ** Joining *)

Lemma rsm_new_fresh fst_ m n0 :
  m <> fst_ -> exists p, rsm_new fst_ m [] n0 =
    Some (Rsm (Config.config.Config (acceptor_blank m []) p 0 fst_ m [] [] [])
            (Viewstamp 0 1) (Viewstamp 0 0) fst_ false false false false false false true []).
Proof.
  intros Hne. unfold rsm_new, Config.config.config_new, acceptor_new.
  rewrite bool_decide_false by done. cbn. eauto.
Qed.

(** C24: when a node whose log is in order answers the request of a member
    that starts without history, the new node ends up in the same view, with the
    same number and the same decided values, and its recovery is over. *)
Theorem join_brings_view add s fst_ m n0 j :
  logged (Config.config.acc (cfg s)) -> Config.config.current (cfg s) ->
  0 < myvid (cfg s) -> m ∈ mems (cfg s) -> m <> fst_ -> rsm_new fst_ m [] n0 = Some j ->
  exists res j', joinreq add m s = (rsm_client_protocol.OK, res, s) /\
    recovery [Some (rsm_client_protocol.OK, res)] j = Asleep j' /\
    myvid (cfg j') = myvid (cfg s) /\ mems (cfg j') = mems (cfg s) /\
    values (Config.config.acc (cfg j')) = values (Config.config.acc (cfg s)).
Proof.
  intros Hl [Hv Hms] Hpos Hin Hne Hj. destruct (rsm_new_fresh fst_ m n0 Hne) as [p E].
  rewrite E in Hj. injection Hj as <-. unfold joinreq, ismember.
  assert (isamember m (mems (cfg s)) = true) as -> by (by apply isamember_spec).
  destruct (logged_transfer (Config.config.acc (cfg s)) m [] Hl) as (b & Hb & Hvals & Hinst & _).
  eexists _, _. split; [done|]. unfold Config.config.dump.
  cbn [recovery cfg cme Config.config.cme ismember isamember mems Config.config.mems].
  unfold join. cbn [jr_log cfg]. unfold Config.config.restore. cbn [Config.config.acc]. rewrite Hb.
  change (rsm_client_protocol.OK =? rsm_protocol.OK) with true. cbn [negb].
  unfold Config.config.reconstruct. cbn [Config.config.acc Config.config.set_acc].
  assert ((0 <? instance_h b) = true) as -> by (rewrite Hinst, <- Hv; by apply Z.ltb_lt).
  set (j' := set_cfg _ _).
  assert (mems (cfg j') = mems (cfg s)) as Hm'.
  { cbn. rewrite Hms, Hv, Hinst. unfold Config.config.get_view, Acceptor.value. cbn. by rewrite Hvals. }
  assert (ismember (cme (cfg j')) (cfg j') = true) as Hmem.
  { unfold ismember. rewrite Hm'. by apply isamember_spec. }
  rewrite Hmem. split; [done|]. split; [|done]. cbn. by rewrite Hinst, Hv.
Qed.

(** A node that starts without history and whose first attempt to
    join fails, because its contact cannot be reached or is not the primary, does
    not try another one: it stops at an assertion, since it knows no view. *)
Theorem failed_join_aborts fst_ m n0 j r calls :
  m <> fst_ -> rsm_new fst_ m [] n0 = Some j -> join r j = Some (false, j) ->
  recovery (r :: calls) j = Aborted.
Proof.
  intros Hne Hj Hr. destruct (rsm_new_fresh fst_ m n0 Hne) as [p E]. rewrite E in Hj. injection Hj as <-.
  cbn [recovery]. rewrite Hr. reflexivity.
Qed.

(** ** Concrete runs *)

Definition view (vid : Z) (v : bytes) (s : rsm) : rsm :=
  set_cfg (Config.config.paxos_event (OCommit vid v) (cfg s)) s.

(** a node learns of a view *)
Definition learn (vid : Z) (v : bytes) (s : rsm) : recovered := commit_change [] (view vid v s).

Definition asleep (r : recovered) : option rsm := match r with Asleep s => Some s | _ => None end.

Definition demo_node (me : bytes) : rsm :=
  default (Rsm (Config.config.Config (acceptor_blank [] []) (proposer_new [] 0) 0 [] [] [] [] [])
             (Viewstamp 0 0) (Viewstamp 0 0) [] false false false false false false true [])
    (rsm_new (str "1") me [] 0).

(** Node [me] in view 5, of nodes 1, 2 and 3, whose primary is 1. *)
Definition demo_rsm (me : bytes) : rsm := view 5 (str "1 2 3 ") (demo_node me).

Lemma primary_is_chosen_witness :
  match set_primary (view 6 (str "3 2 ") (demo_rsm (str "2"))) with
  | Some s' => primary s' = str "2" | None => False end.
Proof.
  pose proof (primary_is_chosen (view 6 (str "3 2 ") (demo_rsm (str "2")))) as H.
  assert (Forall canonical (get_prevview (cfg (view 6 (str "3 2 ") (demo_rsm (str "2")))))) as Hc.
  { replace (get_prevview _) with [str "1"; str "2"; str "3"] by (vm_compute; reflexivity).
    repeat apply Forall_cons_2; [exists 1|exists 2|exists 3|constructor];
      (split; [unfold is_u64; lia|vm_compute; reflexivity]). }
  specialize (H Hc).
  assert (option_map primary (set_primary (view 6 (str "3 2 ") (demo_rsm (str "2")))) = Some (str "2")) as K
    by (vm_compute; reflexivity).
  destruct (set_primary _) as [s'|]; [|discriminate K]. by injection K.
Defined.

(** Node 1 in view 2, with node 3. *)
Definition demo_primary : rsm := view 2 (str "1 3 ") (demo_node (str "1")).

Lemma demo_primary_ok :
  logged (Config.config.acc (cfg demo_primary)) /\ Config.config.current (cfg demo_primary).
Proof.
  split; [|split; vm_compute; reflexivity].
  destruct (acceptor_new_logged true (str "1") (str "1")) as (a & Ha & Hl & _); [repeat constructor|].
  assert (Config.config.acc (cfg demo_primary) = run_op a (OCommit 2 (str "1 3 "))) as ->.
  { vm_compute in Ha. injection Ha as <-. vm_compute. reflexivity. }
  apply run_op_logged; [done| |done]. split; [unfold is_u32; lia|]. repeat constructor.
Qed.

Lemma join_brings_view_witness :
  exists res j', joinreq (fun _ c => (true, c)) (str "3") demo_primary =
      (rsm_client_protocol.OK, res, demo_primary) /\
    recovery [Some (rsm_client_protocol.OK, res)] (demo_node (str "3")) = Asleep j' /\
    mems (cfg j') = [str "1"; str "3"].
Proof.
  destruct demo_primary_ok as [Hl Hc].
  destruct (join_brings_view (fun _ c => (true, c)) demo_primary (str "1") (str "3") 0 (demo_node (str "3")) Hl Hc)
    as (res & j' & H1 & H2 & _ & H3 & _); [reflexivity|vm_compute; set_solver|discriminate|reflexivity|].
  exists res, j'. split; [exact H1|]. split; [exact H2|]. rewrite H3. vm_compute. reflexivity.
Defined.

Lemma failed_join_aborts_witness :
  recovery [None; None] (demo_node (str "3")) = Aborted.
Proof. apply (failed_join_aborts (str "1") (str "3") 0 _ None [None]); [discriminate|reflexivity|reflexivity]. Defined.

(** Nodes 2 and 3 are in view 5 with primary 1.  Node 1 fails
    and comes back: views 6 and 7.  Node 2 learns of both, node 3 only of the
    second: they are in the same view, and name different primaries.  If node 1
    does not come back, node 3 stops at an assertion, because it does not know the
    previous view. *)
Theorem skipped_view_two_primaries :
  (exists s6 s2 s3,
     learn 6 (str "2 3 ") (demo_rsm (str "2")) = Asleep s6 /\
     learn 7 (str "2 3 1 ") s6 = Asleep s2 /\
     learn 7 (str "2 3 1 ") (demo_rsm (str "3")) = Asleep s3 /\
     get_curview (cfg s2) = get_curview (cfg s3) /\ myvid (cfg s2) = myvid (cfg s3) /\
     primary s2 = str "2" /\ primary s3 = str "1") /\
  learn 7 (str "2 3 ") (demo_rsm (str "3")) = Aborted.
Proof.
  split; [|vm_compute; reflexivity].
  eexists _, _, _. split; [vm_compute; reflexivity|]. split; [vm_compute; reflexivity|].
  split; [vm_compute; reflexivity|]. vm_compute. auto.
Qed.

End rsm.
