(* ===== verification/RsmTest.v ===== *)
(** * The tester of the replicated state machine

    [rsm] has a server of its own for tests, with two procedures; [rsmtest_client.cc]
    calls them, and [rsm_tester.cc] is the program that is run from the command line.
    Shown is what a command does to the node. *)

From stdpp Require Import gmap list strings.
From Stdlib Require Import ZArith Lia Ascii.
From S2P Require Import Prelude Text Marshall Rpc Protocols Rpcc Rpcs Connection EndToEnd Loopback Address Rsm.
Import EndToEnd.

Local Open Scope Z_scope.

(** ** The server *)

Definition m_net_repair (heal : Z) (_ : Z) (s : rsm.rsm) : Z * Z * rsm.rsm :=
  let '(r, s) := rsm.test_net_repairreq heal s in (r, r, s).

Definition m_breakpoint (b : Z) (_ : Z) (s : rsm.rsm) : Z * Z * rsm.rsm :=
  let '(r, s) := rsm.breakpointreq b s in (r, r, s).

Definition fn_net_repair : handler_fn rsm.rsm := reg_fn1 w_s32 0 w_s32 0 m_net_repair.
Definition fn_breakpoint : handler_fn rsm.rsm := reg_fn1 w_s32 0 w_s32 0 m_breakpoint.

(** [testsvr] of the constructor of [rsm]: its port, and the server *)
Definition testsvr (me : bytes) (nonce : Z) : option (Z * rpcs rsm.rsm) :=
  s ← reg1 rsm_test_protocol.net_repair fn_net_repair (rpcs_new nonce 0 (fn_bind nonce));
  s ← reg1 rsm_test_protocol.breakpoint fn_breakpoint s;
  Some (testsvr_port me, s).

(** ** The client *)

Definition world : Type := rpcc * option (rpcs rsm.rsm * rsm.rsm).

(** [cl->call(proc, a, r)], and the assertion that the status is [OK]; [r] is [r0]
    before.  [None] is a failed assertion. *)
Definition call_ok (proc a r0 : Z) (w : world) : option (Z * world) :=
  '(ret, un, cl, srv) ← call_now proc (call_args1 w_s32 a) 1 w.1 w.2;
  let '(ret, r) := call_m w_s32 (fun _ => (ret, un)) (call_args1 w_s32 a) r0 in
  if negb (ret =? rsm_test_protocol.OK) then None else Some (r, (cl, srv)).

Definition net_repair (heal r0 : Z) : world -> option (Z * world) := call_ok rsm_test_protocol.net_repair heal r0.
Definition breakpoint (b r0 : Z) : world -> option (Z * world) := call_ok rsm_test_protocol.breakpoint b r0.

(** the constructor: a [bind] that fails is only reported *)
Definition rsmtest_client_new (nonce : Z) (srv : option (rpcs rsm.rsm * rsm.rsm)) : option world :=
  '(_, cl, srv) ← bind_now 1 (rpcc_new true nonce) srv; Some (cl, srv).

(** ** The program *)

(** What is printed *)
Inductive output :=
  | Usage
  | Net_repair_returned (r : Z)
  | Breakpoint_returned (b r : Z)
  | Unknown_command (c : bytes).

(** [main]: the output and the exit status; [srv] is the server at the address that
    [argv[1]] names. *)
Definition main (argv : list bytes) (nonce r0 : Z) (srv : option (rpcs rsm.rsm * rsm.rsm))
    : option (output * Z * option (rpcs rsm.rsm * rsm.rsm)) :=
  match argv with
  | [_; _; command; arg] =>
      lc ← rsmtest_client_new nonce srv;
      if decide (command = str "partition") then
        '(r, w) ← net_repair (atoi arg) r0 lc; Some (Net_repair_returned r, 0, w.2)
      else if decide (command = str "breakpoint") then
        let b := atoi arg in '(r, w) ← breakpoint b r0 lc; Some (Breakpoint_returned b r, 0, w.2)
      else Some (Unknown_command command, 0, lc.2)
  | _ => Some (Usage, 1, srv)
  end.

(** ** What the commands do *)

Definition table (n : Z) : gmap Z (handler_fn rsm.rsm) :=
  <[rsm_test_protocol.breakpoint := fn_breakpoint]>
    (<[rsm_test_protocol.net_repair := fn_net_repair]> {[rpc_const.bind := fn_bind n]}).

(** A server with these procedures that has not heard of the client. *)
Record ready (n k : Z) (s : rpcs rsm.rsm) : Prop := {
  re_tables : tables s = (n, table n);
  re_window : win s k = []
}.

Lemma testsvr_ready me n k : exists s, testsvr me n = Some (testsvr_port me, s) /\ ready n k s.
Proof. eexists. split; [reflexivity|]. split; reflexivity. Qed.

Lemma test_table_procs n :
  table n !! rpc_const.bind = Some (fn_bind n) /\ table n !! rsm_test_protocol.net_repair = Some fn_net_repair /\
  table n !! rsm_test_protocol.breakpoint = Some fn_breakpoint.
Proof. repeat split. Qed.

(** The client that the constructor makes may call. *)
Lemma client_binds n k s v :
  number n -> number k -> ready n k s ->
  exists cl s', rsmtest_client_new k (Some (s, v)) = Some (cl, Some (s', v)) /\ tables s' = (n, table n) /\
    (forall proc, proc <> rpc_const.bind -> is_s32 proc -> may_call n proc cl) /\ (xid_ cl ∉ xid <$> win s' (clt_nonce cl)).
Proof.
  intros Hn Hk [Ht Hw]. pose proof (f_equal fst Ht) as T1. pose proof (f_equal snd Ht) as T2. cbn in T1, T2.
  destruct (bind_now_ok n 1 (rpcc_new true k) s v) as (cl & s' & E & B & N & X & T & W);
    [exact Hn|exact (fresh_client n k Hn Hk)|exact T1|rewrite T2; apply test_table_procs|cbn [rpcc_new clt_nonce]; rewrite Hw; apply not_elem_of_nil|].
  exists cl, s'. unfold rsmtest_client_new. rewrite E. split; [reflexivity|]. split; [congruence|].
  cbn [rpcc_new clt_nonce xid_] in N, X, W. split.
  - intros proc Hp Hs. apply bound_may_call; [exact B|exact Hp|exact Hs|by apply number_u32| | |];
      rewrite ?N, ?X; unfold number, is_u32 in *; lia.
  - rewrite N, X. intros Hy. destruct (W _ _ Hy) as [Hy'|[_ Hy']]; [rewrite Hw in Hy'; by apply not_elem_of_nil in Hy'|lia].
Qed.

Lemma call_ok_runs n proc meth a r0 r cl s (v v' : rsm.rsm) :
  may_call n proc cl -> tables s = (n, table n) -> (xid_ cl ∉ xid <$> win s (clt_nonce cl)) ->
  table n !! proc = Some (reg_fn1 w_s32 0 w_s32 0 meth) -> is_s32 a -> meth a 0 v = (r, r, v') -> 0 <= r < 2 ^ 31 ->
  if r =? rsm_test_protocol.OK then exists cl' s', call_ok proc a r0 (cl, Some (s, v)) = Some (r, (cl', Some (s', v')))
  else call_ok proc a r0 (cl, Some (s, v)) = None.
Proof.
  intros Hm Ht Hnew Hp Ha Hme Hr. injection Ht as T1 T2.
  destruct (typed_call w_s32 w_s32 n proc (call_args1 w_s32 a) 1 cl s (reg_fn1 w_s32 0 w_s32 0 meth) 0 0 meth a r r0 r v v')
    as (un & cl' & s' & E & Ec & _);
    [exact Hm|exact T1|exact Hnew|rewrite T2; exact Hp|intros u m; apply reg_fn1_wrap|by apply int_args|by apply int_ok
    |apply fits_int|exact Hme|exact Hr|apply int_ok; lia|apply fits_int|].
  unfold call_ok. cbn [fst snd]. rewrite E. cbn [mbind option_bind]. rewrite Ec.
  destruct (r =? rsm_test_protocol.OK); [|reflexivity]. by exists cl', s'.
Qed.

Lemma atoi_s32 s : is_s32 (atoi s).
Proof. unfold atoi. destruct (skip_ws s) as [|c s']; [unfold is_s32; lia|]. apply s32_range. Qed.

Lemma test_procs : (rsm_test_protocol.net_repair <> rpc_const.bind /\ is_s32 rsm_test_protocol.net_repair) /\
  (rsm_test_protocol.breakpoint <> rpc_const.bind /\ is_s32 rsm_test_protocol.breakpoint).
Proof. split; split; by vm_compute. Qed.

Lemma status_range : 0 <= rsm_test_protocol.OK < 2 ^ 31 /\ 0 <= rsm_test_protocol.ERR < 2 ^ 31.
Proof. by vm_compute. Qed.

Lemma breakpoint_status b v :
  (rsm.breakpointreq b v).1 = if (1 <=? b) && (b <=? 4) then rsm_test_protocol.OK else rsm_test_protocol.ERR.
Proof.
  unfold rsm.breakpointreq. destruct (b =? 1) eqn:E1; [to_prop; by subst|]. destruct (b =? 2) eqn:E2; [to_prop; by subst|].
  destruct ((b =? 3) || (b =? 4)) eqn:E3.
  - apply orb_true_iff in E3 as [E3|E3]; to_prop; by subst.
  - apply orb_false_iff in E3 as [E3 E4]. to_prop. destruct ((1 <=? b) && (b <=? 4)) eqn:E5; [|done].
    apply andb_true_iff in E5 as [? ?]. to_prop. lia.
Qed.

(** Run against the test server of a node, the tester's [partition] always succeeds
    and its [breakpoint] succeeds for the four breakpoints that exist; the node is then
    in the state that the handler leaves it in.  For any other number the handler
    answers [ERR], and the tester does not report that: its assertion fails. *)
Theorem rsm_tester_commands me n k v prog addr arg r0 :
  number n -> number k ->
  exists s, testsvr me n = Some (testsvr_port me, s) /\
    (exists s', main [prog; addr; str "partition"; arg] k r0 (Some (s, v)) =
       Some (Net_repair_returned rsm_test_protocol.OK, 0, Some (s', (rsm.test_net_repairreq (atoi arg) v).2))) /\
    if (1 <=? atoi arg) && (atoi arg <=? 4) then
      exists s', main [prog; addr; str "breakpoint"; arg] k r0 (Some (s, v)) =
        Some (Breakpoint_returned (atoi arg) rsm_test_protocol.OK, 0, Some (s', (rsm.breakpointreq (atoi arg) v).2))
    else main [prog; addr; str "breakpoint"; arg] k r0 (Some (s, v)) = None.
Proof.
  intros Hn Hk. destruct (testsvr_ready me n k) as (s & Es & Hs). exists s. split; [exact Es|]. clear Es.
  destruct (client_binds n k s v Hn Hk Hs) as (cl & s1 & E & Ht & Hm & Hnew). unfold main. rewrite E. cbn [mbind option_bind]. clear E.
  destruct test_procs as [[P1 P2] [P3 P4]]. destruct (test_table_procs n) as (_ & T1 & T2). split.
  - pose proof (call_ok_runs n _ m_net_repair (atoi arg) r0 _ cl s1 v _ (Hm _ P1 P2) Ht Hnew T1 (atoi_s32 arg) eq_refl) as H.
    destruct (H (proj1 status_range)) as (cl' & s' & H'). exists s'.
    rewrite decide_True by reflexivity. unfold net_repair. rewrite H'. reflexivity.
  - rewrite decide_False by discriminate. rewrite decide_True by reflexivity. unfold breakpoint.
    pose proof (breakpoint_status (atoi arg) v) as Hst. destruct (rsm.breakpointreq (atoi arg) v) as [r v'] eqn:Eb. cbn [fst snd] in *.
    assert (m_breakpoint (atoi arg) 0 v = (r, r, v')) as Hme by (unfold m_breakpoint; by rewrite Eb).
    pose proof (call_ok_runs n _ m_breakpoint (atoi arg) r0 r cl s1 v v' (Hm _ P3 P4) Ht Hnew T2 (atoi_s32 arg) Hme) as H.
    destruct ((1 <=? atoi arg) && (atoi arg <=? 4)); subst r.
    + specialize (H (proj1 status_range)). destruct H as (cl' & s' & H). exists s'. rewrite H. reflexivity.
    + specialize (H (proj2 status_range)). cbn [Z.eqb rsm_test_protocol.ERR rsm_test_protocol.OK] in H. rewrite H. reflexivity.
Qed.
