(* ===== verification/Views.v ===== *)
(** * Views of the group

    What Paxos, the configuration and the replicated state machine give together.
    The instances of Paxos run one after the other, each among the members of
    the view before it; the view number is the instance.  Nodes that are in the
    same view then agree on its members, and on the primary if they saw the view
    before it with the same primary. *)

From stdpp Require Import gmap list strings relations.
From Stdlib Require Import ZArith Lia Ascii.
From S2P Require Import Prelude Text Marshall Rpc Protocols PaxosLog Acceptor Proposer Config Rsm.

Local Open Scope Z_scope.

Module views.

(** The acceptors after instances up to [inst]: only the node that started the
    group knows an instance, the first; the next instance is run from where the
    last one has left the nodes, all of them idle, among the members of its
    view; a node joins by reading the log of one that is there. *)
Inductive rounds : Z -> gmap bytes acceptor -> Prop :=
| rounds_start accs0 v0 :
    (forall a st, accs0 !! a = Some st ->
       instance_h st = 0 /\ values st = ∅ \/ instance_h st = 1 /\ values st = {[ 1 := v0 ]}) ->
    rounds 1 accs0
| rounds_next inst v s0 s :
    rounds inst (accs s0) -> (exists a st, accs s0 !! a = Some st /\ values st !! inst = Some v) ->
    net_start (inst + 1) s0 -> rtc (net_step (config.members v) (inst + 1)) s0 s ->
    rounds (inst + 1) (accs s)
| rounds_join inst accs0 a b st st' :
    rounds inst accs0 -> accs0 !! b = Some st ->
    values st' = values st -> instance_h st' = instance_h st ->
    rounds inst (<[a := st']> accs0).

(** ** The invariant *)

(** A node knows the value of its instance, and of no later one. *)
Record informed (st : acceptor) : Prop := {
  if_bound : forall i, is_Some (values st !! i) -> i <= instance_h st;
  if_last : 0 < instance_h st -> is_Some (values st !! instance_h st)
}.

Definition agreed (accs0 : gmap bytes acceptor) : Prop :=
  forall a b st st' i v v', accs0 !! a = Some st -> accs0 !! b = Some st' ->
    values st !! i = Some v -> values st' !! i = Some v' -> v = v'.

Definition all_informed (accs0 : gmap bytes acceptor) : Prop :=
  forall a st, accs0 !! a = Some st -> informed st.

(** A step of an instance changes the values of no other. *)
Definition keeps_values (inst : Z) (st st' : acceptor) : Prop :=
  (forall i, i <> inst -> values st' !! i = values st !! i) /\ (informed st -> informed st').

Lemma keeps_values_refl inst st : keeps_values inst st st.
Proof. done. Qed.

Lemma same_values inst st st' :
  values st' = values st -> instance_h st' = instance_h st -> keeps_values inst st st'.
Proof. intros Hv Hi. split; [by intros; rewrite Hv|]. intros [H1 H2]. split; by rewrite Hv, Hi. Qed.

Lemma commit_keeps inst u st : keeps_values inst st (commit_wo inst u st).
Proof.
  unfold commit_wo. destruct (instance_h st <? inst) eqn:E; [|apply keeps_values_refl]. to_prop. split; cbn.
  - intros i Hne. by rewrite lookup_insert_ne.
  - intros [H1 H2]. split; cbn; [|by rewrite lookup_insert_eq].
    intros i [<-|Hi]%lookup_insert_is_Some'; [done|]. apply H1 in Hi. lia.
Qed.

Lemma prepare_keeps inst arg st o r st' : preparereq arg st = (o, r, st') -> keeps_values inst st st'.
Proof. unfold preparereq. intros H. repeat case_match; simplify_eq; by apply same_values. Qed.

Lemma accept_keeps inst arg st o r st' : acceptreq arg st = (o, r, st') -> keeps_values inst st st'.
Proof. unfold acceptreq. intros H. repeat case_match; simplify_eq; by apply same_values. Qed.

Lemma decide_keeps inst v st o r st' : decidereq (DecideArg inst v) st = (o, r, st') -> keeps_values inst st st'.
Proof.
  unfold decidereq. intros H. repeat case_match; simplify_eq; [apply keeps_values_refl|apply commit_keeps].
Qed.

Lemma with_acc_keeps inst a st0 st0' s b st :
  accs s !! a = Some st0 -> keeps_values inst st0 st0' -> <[a := st0']> (accs s) !! b = Some st ->
  exists st1, accs s !! b = Some st1 /\ keeps_values inst st1 st.
Proof.
  intros Ha Hk [[<- <-]|[_ Hb]]%lookup_insert_Some; [by exists st0|]. exists st. split; [done|apply keeps_values_refl].
Qed.

Lemma step_keeps nodes inst s s' b st :
  net_step nodes inst s s' -> accs s' !! b = Some st ->
  exists st1, accs s !! b = Some st1 /\ keeps_values inst st1 st.
Proof.
  assert (forall st, accs s !! b = Some st -> exists st1, accs s !! b = Some st1 /\ keeps_values inst st1 st) as Hrefl.
  { intros st0 H. by exists st0. }
  destruct 1; cbn [accs with_presp with_proposed with_votes with_chosen with_acc]; try apply Hrefl;
    eapply with_acc_keeps; try done.
  - by eapply prepare_keeps.
  - apply commit_keeps.
  - by eapply accept_keeps.
  - by eapply decide_keeps.
Qed.

Lemma run_keeps nodes inst s s' b st :
  rtc (net_step nodes inst) s s' -> accs s' !! b = Some st ->
  exists st1, accs s !! b = Some st1 /\ keeps_values inst st1 st.
Proof.
  intros Hr. revert b st. induction Hr as [s|s s1 s' Hs Hr IH]; intros b st Hb; [by exists st|].
  destruct (IH b st Hb) as (st1 & H1 & [K1 K1']). destruct (step_keeps _ _ _ _ _ _ Hs H1) as (st2 & H2 & [K2 K2']).
  exists st2. split; [done|]. split; [|auto]. intros i Hne. rewrite K1 by done. by apply K2.
Qed.

Lemma rounds_inv inst accs0 : rounds inst accs0 -> agreed accs0 /\ all_informed accs0.
Proof.
  induction 1 as [accs0 v0 H0|inst v s0 s _ [IHa IHi] _ Hstart Hrun|inst accs0 a b st st' _ [IHa IHi] Hb Hv Hi].
  - split.
    + intros a b st st' i v v' Ha Hb Hv Hv'.
      destruct (H0 a st Ha) as [[_ E]|[_ E]]; rewrite E in Hv; [done|].
      destruct (H0 b st' Hb) as [[_ E']|[_ E']]; rewrite E' in Hv'; [done|].
      apply lookup_singleton_Some in Hv as [<- <-], Hv' as [_ <-]. done.
    + intros a st Ha. destruct (H0 a st Ha) as [[Ei E]|[Ei E]]; split; rewrite ?Ei, E; try lia.
      * intros i. rewrite lookup_empty. by intros [].
      * intros i [? [<- _]%lookup_singleton_Some]. done.
      * intros _. by rewrite lookup_singleton_eq.
  - assert (all_informed (accs s)) as Hinf.
    { intros a st Ha. destruct (run_keeps _ _ _ _ _ _ Hrun Ha) as (st1 & H1 & [_ K]). apply K. by eapply IHi. }
    split; [|done]. intros a b st st' i u u' Ha Hb Hu Hu'. destruct (decide (i = inst + 1)) as [->|Hne].
    + eapply (decided_agree _ (inst + 1) s0 s a b st st' u u'); try done;
        [by eapply (if_bound _ (Hinf a st Ha)); eexists|by eapply (if_bound _ (Hinf b st' Hb)); eexists].
    + destruct (run_keeps _ _ _ _ _ _ Hrun Ha) as (st1 & H1 & [K1 _]).
      destruct (run_keeps _ _ _ _ _ _ Hrun Hb) as (st2 & H2 & [K2 _]).
      rewrite K1 in Hu by done. rewrite K2 in Hu' by done. by apply (IHa a b st1 st2 i).
  - assert (forall d t, <[a := st']> accs0 !! d = Some t -> exists e t', accs0 !! e = Some t' /\
      values t = values t' /\ instance_h t = instance_h t') as Hold.
    { intros d t [[<- <-]|[_ Hd]]%lookup_insert_Some; [by exists b, st|by exists d, t]. }
    split.
    + intros d e t t' i u u' Hd He Hu Hu'. destruct (Hold d t Hd) as (d0 & t0 & Hd0 & E0 & _).
      destruct (Hold e t' He) as (e0 & t0' & He0 & E0' & _). rewrite E0 in Hu. rewrite E0' in Hu'.
      by apply (IHa d0 e0 t0 t0' i).
    + intros d t Hd. destruct (Hold d t Hd) as (d0 & t0 & Hd0 & E0 & E1). destruct (IHi d0 t0 Hd0) as [H1 H2].
      split; by rewrite E0, E1.
Qed.

(** ** Views *)

Lemma same_view inst accs0 c c' a b i :
  rounds inst accs0 -> accs0 !! a = Some (config.acc c) -> accs0 !! b = Some (config.acc c') ->
  is_Some (values (config.acc c) !! i) -> is_Some (values (config.acc c') !! i) ->
  config.get_view i c = config.get_view i c'.
Proof.
  intros [Ha _]%rounds_inv Hc Hc' [v Hv] [v' Hv']. unfold config.get_view, Acceptor.value, map_get.
  rewrite Hv, Hv'. cbn. by rewrite (Ha a b _ _ i v v' Hc Hc' Hv Hv').
Qed.

(** C8: nodes in the same view agree on it.  The instances of Paxos run
    one after the other, in each of them proposers against each other over an
    unreliable network with no counter used twice, every node idle when the next
    begins, and nodes join by reading a log.  Then two nodes whose view has the
    same number have the same members; and if both know the view before and had
    the same primary, they choose the same primary, or both find none. *)
Theorem same_number_same_view inst accs0 s s' a b :
  rounds inst accs0 ->
  accs0 !! a = Some (config.acc (rsm.cfg s)) -> accs0 !! b = Some (config.acc (rsm.cfg s')) ->
  config.current (rsm.cfg s) -> config.current (rsm.cfg s') ->
  0 < config.myvid (rsm.cfg s) -> config.myvid (rsm.cfg s) = config.myvid (rsm.cfg s') ->
  config.mems (rsm.cfg s) = config.mems (rsm.cfg s') /\
  (rsm.primary s = rsm.primary s' ->
   is_Some (values (config.acc (rsm.cfg s)) !! u32 (config.myvid (rsm.cfg s) - 1)) ->
   is_Some (values (config.acc (rsm.cfg s')) !! u32 (config.myvid (rsm.cfg s) - 1)) ->
   rsm.primary <$> rsm.set_primary s = rsm.primary <$> rsm.set_primary s').
Proof.
  intros Hr Ha Hb [V1 M1] [V2 M2] Hpos Hvid. pose proof (rounds_inv _ _ Hr) as [_ Hinf].
  assert (config.get_curview (rsm.cfg s) = config.get_curview (rsm.cfg s')) as Hcur.
  { unfold config.get_curview. rewrite <- Hvid. apply (same_view inst accs0 _ _ a b); [done..| |].
    - rewrite V1. apply (if_last _ (Hinf _ _ Ha)). lia.
    - rewrite Hvid, V2. apply (if_last _ (Hinf _ _ Hb)). lia. }
  split; [by rewrite M1, M2|]. intros Hp K1 K2.
  assert (config.get_prevview (rsm.cfg s) = config.get_prevview (rsm.cfg s')) as Hprev.
  { unfold config.get_prevview. rewrite <- Hvid. by apply (same_view inst accs0 _ _ a b). }
  unfold rsm.set_primary. rewrite Hcur, Hprev, Hp. repeat case_match; cbn; by rewrite ?Hp.
Qed.

(** ** A concrete group *)

(** The first three nodes, of which the third has gone: the two others have
    decided the second view among themselves. *)
Lemma demo_rounds : rounds 2 (accs net6).
Proof.
  apply (rounds_next 1 (str "3772 3774 3776 ") net0 net6); [| |exact net0_start|].
  - apply (rounds_start _ (str "3772 3774 3776 ")). intros a st H. cbn [accs net0] in H. unfold demo_cluster in H.
    apply lookup_delete_Some in H as [_ H]. right.
    repeat (apply lookup_insert_Some in H as [[_ <-]|[_ H]]; [done|]).
    apply lookup_singleton_Some in H as [_ <-]. done.
  - by eexists n1, _.
  - exact net_run.
Qed.

(** What node [m] is then. *)
Definition demo_member (m : bytes) (st : acceptor) : rsm.rsm :=
  rsm.Rsm (config.reconstruct (config.Config st (proposer_new m 0) 0 n1 m [] [] []))
    (Viewstamp 0 1) (Viewstamp 0 0) n3 false false false false false false true [].

(** Both take 3772 for the primary, since 3776 is no longer a member. *)
Lemma same_number_same_view_witness :
  exists st st', accs net6 !! n1 = Some st /\ accs net6 !! n2 = Some st' /\
    config.mems (rsm.cfg (demo_member n1 st)) = [n1; n2] /\
    config.mems (rsm.cfg (demo_member n1 st)) = config.mems (rsm.cfg (demo_member n2 st')) /\
    rsm.primary <$> rsm.set_primary (demo_member n1 st) = Some n1 /\
    rsm.primary <$> rsm.set_primary (demo_member n1 st) =
      rsm.primary <$> rsm.set_primary (demo_member n2 st').
Proof.
  destruct (accs net6 !! n1) as [st|] eqn:E1; [|vm_compute in E1; discriminate].
  destruct (accs net6 !! n2) as [st'|] eqn:E2; [|vm_compute in E2; discriminate].
  exists st, st'. split; [reflexivity|]. split; [reflexivity|].
  assert (config.acc (rsm.cfg (demo_member n1 st)) = st) as A1 by (unfold demo_member, config.reconstruct; by case_match).
  assert (config.acc (rsm.cfg (demo_member n2 st')) = st') as A2 by (unfold demo_member, config.reconstruct; by case_match).
  pose proof E1 as D1. pose proof E2 as D2. vm_compute in D1, D2. injection D1 as D1. injection D2 as D2.
  destruct (same_number_same_view 2 (accs net6) (demo_member n1 st) (demo_member n2 st') n1 n2 demo_rounds) as [H1 H2].
  - by rewrite A1.
  - by rewrite A2.
  - subst st. split; vm_compute; reflexivity.
  - subst st'. split; vm_compute; reflexivity.
  - subst st. vm_compute. reflexivity.
  - subst st st'. vm_compute. reflexivity.
  - split; [subst st; vm_compute; reflexivity|]. split; [exact H1|].
    split; [subst st; vm_compute; reflexivity|].
    apply H2; [reflexivity|subst st; vm_compute; by eexists|subst st st'; vm_compute; by eexists].
Defined.

End views.
