(* ===== verification/RsmClient.v ===== *)
(** * The client of the replicated state machine

    [rsm_client] of [rsm_client.cc]: [invoke] sends a request to the node it takes
    for the primary, and asks for the members when the node says that it is not.
    One step for each stretch of code between two points where a thread gives up
    the mutex; the [rpcc] objects are numbered, and a deleted one is no longer in
    the table.  What a call returns is an argument.  (The header [rsm_client.h] is
    not in the repository; the fields are those the code uses.) *)

From stdpp Require Import gmap list strings.
From Stdlib Require Import ZArith Lia Ascii.
From S2P Require Import Prelude Text Marshall Rpc Protocols Config Rsm.

Local Open Scope Z_scope.

Module rsm_client.

(** [rpccs]: the address of every [rpcc] that is not deleted, and whether it is
    bound *)
Record rsm_client := RsmClient {
  pid : bytes;           (** [primary.id] *)
  pcl : nat;             (** [primary.cl] *)
  nref : Z;              (** [primary.nref] *)
  known_mems : list bytes;
  rpccs : gmap nat (bytes * bool);
  next_cl : nat
}.

Definition set_nref n c := RsmClient (pid c) (pcl c) n (known_mems c) (rpccs c) (next_cl c).
Definition set_known l c := RsmClient (pid c) (pcl c) (nref c) l (rpccs c) (next_cl c).

(** ** [init_members] *)

Inductive result := Ok (ret : bool) (c : rsm_client) | Abort.

(** after the call of [members] returned [ret]: its reply [ms] was appended to
    [known_mems] when there is one; [bound] is whether the new primary answers *)
Definition init_members (ret : Z) (ms : list bytes) (bound : bool) (c : rsm_client) : result :=
  let c := if ret <? 0 then c else set_known (known_mems c ++ ms) c in
  if negb (ret =? rsm_protocol.OK) then Ok false c
  else match last (known_mems c) with
       | None => Abort
       | Some new_primary =>
           let c := set_known (take (length (known_mems c) - 1) (known_mems c)) c in
           if bool_decide (new_primary = pid c) then Ok true c
           else if negb (nref c =? 0) then Abort
           else Ok bound (RsmClient new_primary (next_cl c) (nref c) (known_mems c)
                            (<[next_cl c := (new_primary, bound)]> (delete (pcl c) (rpccs c))) (next_cl c + 1))
       end.

(** the constructor: [b] is whether [bind] succeeds; [None] is [exit] or a failed
    assertion *)
Definition rsm_client_new (dst : bytes) (b : bool) (ret : Z) (ms : list bytes) (bound : bool) : option rsm_client :=
  if negb b then None
  else match init_members ret ms bound (RsmClient dst 0 0 [] {[0%nat := (dst, true)]} 1) with
       | Ok true c => Some c
       | _ => None
       end.

Definition primary_failure (c : rsm_client) : rsm_client := c.

(** ** [invoke] *)

(** Where a thread is in [invoke]: counted in [nref] and about to read
    [primary.cl], inside a call through an [rpcc], about to ask for the members,
    inside that call, done. *)
Inductive thread :=
| Entered
| Calling (cl : nat)
| Asking
| InMembers (cl : nat)
| Done (ret : Z).

(** the head of the loop *)
Definition invoke_enter (c : rsm_client) : thread * rsm_client := (Entered, set_nref (nref c + 1) c).

(** after the call *)
Definition invoke_return (ret : Z) (c : rsm_client) : thread * rsm_client :=
  let c := set_nref (nref c - 1) c in
  if ret =? rsm_client_protocol.OK then (Done ret, c)
  else if ret =? rsm_client_protocol.BUSY then invoke_enter c
  else if ret =? rsm_client_protocol.NOTPRIMARY then (Asking, c)
  else invoke_enter (primary_failure c).

(** after the members are there *)
Definition invoke_members (ret : Z) (ms : list bytes) (bound : bool) (c : rsm_client)
  : option (thread * rsm_client) :=
  match init_members ret ms bound c with
  | Ok true c => Some (invoke_enter c)
  | Ok false c => Some (invoke_enter (primary_failure c))
  | Abort => None
  end.

Record world := World { cli : rsm_client; threads : gmap nat thread }.

Inductive event :=
| Invoke (t : nat)                     (** a thread calls [invoke] *)
| Read (t : nat)                       (** it reads [primary.cl] and calls *)
| Return (t : nat) (ret : Z)
| Members (t : nat) (ret : Z) (ms : list bytes) (bound : bool).

Definition set_thread (w : world) (t : nat) (p : thread * rsm_client) : world :=
  World p.2 (<[t := p.1]> (threads w)).

Definition step (w : world) (e : event) : option world :=
  let c := cli w in
  match e with
  | Invoke t =>
      match threads w !! t with
      | None | Some (Done _) => Some (set_thread w t (invoke_enter c))
      | _ => None
      end
  | Read t =>
      match threads w !! t with
      | Some Entered => Some (set_thread w t (Calling (pcl c), c))
      | Some Asking => Some (set_thread w t (InMembers (pcl c), c))
      | _ => None
      end
  | Return t ret =>
      match threads w !! t with
      | Some (Calling _) => Some (set_thread w t (invoke_return ret c))
      | _ => None
      end
  | Members t ret ms bound =>
      match threads w !! t with
      | Some (InMembers _) =>
          match invoke_members ret ms bound c with
          | Some p => Some (set_thread w t p)
          | None => None
          end
      | _ => None
      end
  end.

(** ** Calls go to the primary, through a live object *)

(** counted in [nref] *)
Definition counted (th : thread) : bool :=
  match th with Entered | Calling _ => true | _ => false end.

Definition count (m : gmap nat thread) : nat := length (filter (fun p => counted p.2 = true) (map_to_list m)).

Lemma count_insert m t th : m !! t = None ->
  count (<[t := th]> m) = ((if counted th then 1 else 0) + count m)%nat.
Proof.
  intros H. unfold count. rewrite map_to_list_insert by done. rewrite filter_cons. cbn [snd].
  destruct (counted th); by case_decide.
Qed.

Lemma count_set m t old th : m !! t = old ->
  (count (<[t := th]> m) + (if match old with Some o => counted o | None => false end then 1 else 0) =
   (if counted th then 1 else 0) + count m)%nat.
Proof.
  intros H. destruct old as [o|]; [|rewrite count_insert by done; lia].
  rewrite <- (insert_delete_id m t o H) at 2. rewrite <- insert_delete_eq.
  rewrite !count_insert by apply lookup_delete_eq. lia.
Qed.

Record inv (w : world) : Prop := {
  iv_count : nref (cli w) = Z.of_nat (count (threads w));
  iv_calling t cl : threads w !! t = Some (Calling cl) -> cl = pcl (cli w);
  iv_primary : exists b, rpccs (cli w) !! pcl (cli w) = Some (pid (cli w), b);
  iv_fresh k : is_Some (rpccs (cli w) !! k) -> (k < next_cl (cli w))%nat
}.

(** A step that leaves the primary alone. *)
Lemma inv_same w t th c :
  inv w -> pid c = pid (cli w) -> pcl c = pcl (cli w) -> rpccs c = rpccs (cli w) -> next_cl c = next_cl (cli w) ->
  (forall cl, th = Calling cl -> cl = pcl (cli w)) ->
  nref c + (if match threads w !! t with Some o => counted o | None => false end then 1 else 0) =
    nref (cli w) + (if counted th then 1 else 0) ->
  inv (set_thread w t (th, c)).
Proof.
  intros [H1 H2 H3 H4] E1 E2 E3 E4 Ht En. split; cbn [set_thread cli threads fst snd].
  - pose proof (count_set (threads w) t _ th eq_refl) as Hc.
    destruct (counted th), (match threads w !! t with Some _ => _ | None => _ end); cbn [Nat.add] in Hc, En; lia.
  - intros t' cl. rewrite E2. intros [[<- ->]|[_ Hx]]%lookup_insert_Some; [by apply Ht|by eapply H2].
  - by rewrite E1, E2, E3.
  - by rewrite E3, E4.
Qed.

Lemma count_zero m t th : count m = 0%nat -> m !! t = Some th -> counted th = false.
Proof.
  intros Hc Ht. destruct (counted th) eqn:E; [|done].
  rewrite <- (insert_delete_id m t th Ht), count_insert, E in Hc by apply lookup_delete_eq. lia.
Qed.

Lemma members_inv w t cl ret ms bound p :
  inv w -> threads w !! t = Some (InMembers cl) -> invoke_members ret ms bound (cli w) = Some p ->
  inv (set_thread w t p).
Proof.
  intros Hw Ht Hm. unfold invoke_members, init_members in Hm.
  set (c := if ret <? 0 then cli w else _) in Hm.
  assert (pid c = pid (cli w) /\ pcl c = pcl (cli w) /\ nref c = nref (cli w) /\ rpccs c = rpccs (cli w) /\
          next_cl c = next_cl (cli w)) as (E1 & E2 & E3 & E4 & E5) by (unfold c; by destruct (ret <? 0)).
  clearbody c. destruct (negb (ret =? _)).
  { injection Hm as <-. unfold primary_failure. apply inv_same; cbn; rewrite ?Ht; try done. cbn. lia. }
  destruct (last (known_mems c)) as [p1|]; [|done]. cbn [pid set_known nref pcl rpccs next_cl] in Hm.
  destruct (bool_decide (p1 = pid c)).
  { injection Hm as <-. apply inv_same; cbn; rewrite ?Ht; try done. cbn. lia. }
  destruct (negb (nref c =? 0)) eqn:En; [done|]. to_prop. destruct Hw as [H1 H2 H3 H4].
  assert (count (threads w) = 0%nat) as Hz by lia.
  assert (p = invoke_enter (RsmClient p1 (next_cl c) (nref c) (take (length (known_mems c) - 1) (known_mems c))
                            (<[next_cl c := (p1, bound)]> (delete (pcl c) (rpccs c))) (next_cl c + 1))) as ->
    by (destruct bound; by injection Hm as <-).
  split; cbn.
  - pose proof (count_set (threads w) t _ Entered Ht) as Hc. cbn in Hc. lia.
  - intros t' cl' [[_ [=]]|[_ Hx]]%lookup_insert_Some. by apply (count_zero _ _ _ Hz) in Hx.
  - exists bound. by rewrite lookup_insert_eq.
  - rewrite E2, E4, E5. intros k [x [[<- _]|[_ [_ Hx]%lookup_delete_Some]]%lookup_insert_Some]; [lia|].
    specialize (H4 k (mk_is_Some _ _ Hx)). lia.
Qed.

Lemma step_rsm_inv w e w' : inv w -> step w e = Some w' -> inv w'.
Proof.
  intros Hw. destruct e as [t|t|t ret|t ret ms bound]; cbn [step].
  - destruct (threads w !! t) as [[]|] eqn:Et; intros [= <-]; (apply inv_same; [done..|]);
      rewrite Et; cbn; lia.
  - destruct (threads w !! t) as [[]|] eqn:Et; intros [= <-]; (apply inv_same; try done);
      rewrite ?Et; cbn; try lia; congruence.
  - destruct (threads w !! t) as [[|cl| | |]|] eqn:Et; [done| |done..]. intros [= <-]. unfold invoke_return.
    repeat (destruct (ret =? _); [apply inv_same; [done..|]; rewrite Et; cbn; lia|]).
    apply inv_same; [done..|]. rewrite Et; cbn; lia.
  - destruct (threads w !! t) as [[| | |cl|]|] eqn:Et; [done..| |done|done].
    destruct (invoke_members _ _ _ _) as [p|] eqn:Em; [|done]. intros [= <-]. by eapply members_inv.
Qed.

Lemma rsm_client_new_inv dst b ret ms bound c :
  rsm_client_new dst b ret ms bound = Some c -> inv (World c ∅).
Proof.
  unfold rsm_client_new. destruct (negb b); [done|].
  set (c0 := RsmClient dst 0 0 [] {[0%nat := (dst, true)]} 1).
  assert (inv (World c0 {[0%nat := InMembers 0]})) as H0.
  { split; cbn; [done| |by exists true; rewrite lookup_singleton_eq|].
    - intros t cl [_ [=]]%lookup_singleton_Some.
    - intros k [x [<- _]%lookup_singleton_Some]. lia. }
  destruct (init_members ret ms bound c0) as [[] c1|] eqn:E; [|done|done]. intros [= ->].
  pose proof (members_inv _ 0 0 ret ms bound (invoke_enter c) H0) as H.
  unfold invoke_members in H. cbn [cli threads] in H. rewrite E, lookup_singleton_eq in H.
  destruct H as [H1 H2 H3 H4]; [done..|].
  assert (count (<[0%nat := Entered]> {[0%nat := InMembers 0]}) = 1%nat) as E1 by reflexivity.
  cbn [set_thread cli threads invoke_enter set_nref nref fst snd] in *. rewrite E1 in H1.
  split; cbn [cli threads]; [change (count ∅) with 0%nat; lia|done|done|done].
Qed.

(** C38: however many threads use the client, and whatever nodes answer,
    a request is sent through the object of the node that the client takes for the
    primary, and that object is not deleted while the request is out. *)
Theorem requests_use_live_primary dst b ret ms bound c es w t cl :
  rsm_client_new dst b ret ms bound = Some c -> exec step (World c ∅) es = Some w ->
  threads w !! t = Some (Calling cl) ->
  cl = pcl (cli w) /\ exists bd, rpccs (cli w) !! cl = Some (pid (cli w), bd).
Proof.
  intros Hc Hx Ht. assert (inv w) as [H1 H2 H3 H4].
  { apply (exec_invariant step inv es (World c ∅)); [|by eapply rsm_client_new_inv|exact Hx].
    intros a e b'. apply step_rsm_inv. }
  rewrite (H2 t cl Ht). by split.
Qed.

(** A client that is told that its node is not the primary asks
    the node for the members, and goes on with the node that the asked one takes
    for the primary; it aborts exactly when that is another node while other
    threads have requests out.  What it knows of the members is never cleared. *)
Theorem members_lead_to_primary (s : rsm.rsm) bound c :
  let '(ret, ms) := rsm.client_members s in
  (invoke_members ret ms bound c = None <-> rsm.primary s <> pid c /\ nref c <> 0) /\
  forall th c', invoke_members ret ms bound c = Some (th, c') ->
    th = Entered /\ pid c' = rsm.primary s /\ nref c' = nref c + 1 /\
    known_mems c' = known_mems c ++ config.get_curview (rsm.cfg s) /\
    (rsm.primary s = pid c -> pcl c' = pcl c /\ rpccs c' = rpccs c) /\
    (rsm.primary s <> pid c -> pcl c' = next_cl c /\ rpccs c' !! pcl c' = Some (rsm.primary s, bound)).
Proof.
  cbn [rsm.client_members]. set (v := config.get_curview (rsm.cfg s)). set (p := rsm.primary s).
  unfold invoke_members, init_members. change (rsm_protocol.OK <? 0) with false.
  change (negb (rsm_protocol.OK =? rsm_protocol.OK)) with false. cbn iota.
  cbn [known_mems set_known pid nref rpccs next_cl pcl]. rewrite app_assoc, last_snoc.
  replace (take _ (_ ++ [p])) with (known_mems c ++ v).
  2: { rewrite length_app. cbn [length]. rewrite Nat.add_sub, take_app_length. done. }
  case_bool_decide as Hp.
  - split; [split; [done|intros [? _]; done]|]. intros th c' [= <- <-]. cbn. by split_and!.
  - destruct (nref c =? 0) eqn:En; to_prop; cbn [negb].
    + split; [destruct bound; split; [done|intros [_ ?]; done|done|intros [_ ?]; done]|].
      intros th c' Hx. assert (th = Entered /\ c' = set_nref (nref c + 1) (RsmClient p (next_cl c) (nref c) (known_mems c ++ v)
        (<[next_cl c := (p, bound)]> (delete (pcl c) (rpccs c))) (next_cl c + 1))) as [-> ->].
      { destruct bound; by injection Hx as <- <-. }
      cbn. split_and!; try done. intros _. by rewrite lookup_insert_eq.
    + split; [by split|done].
Qed.

(** ** Concrete runs *)

Definition demo_client : rsm_client := RsmClient (str "1") 0 0 [str "1"] {[0%nat := (str "1", true)]} 1.

Lemma requests_use_live_primary_witness :
  exists w, exec step (World demo_client ∅)
      [Invoke 0; Read 0; Return 0 2; Read 0; Members 0 0 [str "2"; str "3"; str "2"] true; Read 0; Invoke 1; Read 1] = Some w /\
    pid (cli w) = str "2" /\ exists bd, rpccs (cli w) !! 1%nat = Some (str "2", bd).
Proof.
  eexists. split; [vm_compute; reflexivity|]. split; [reflexivity|].
  match goal with |- exists bd, rpccs (cli ?w) !! _ = _ =>
    destruct (requests_use_live_primary (str "1") true 0 [str "1"; str "1"] true demo_client
      [Invoke 0; Read 0; Return 0 2; Read 0; Members 0 0 [str "2"; str "3"; str "2"] true; Read 0; Invoke 1; Read 1]
      w 1 1) as [_ H] end.
  - vm_compute. reflexivity.
  - vm_compute. reflexivity.
  - vm_compute. reflexivity.
  - exact H.
Defined.

(** The call for the members is not counted: when two threads
    learn at once that their node is not the primary, the first to get the members
    deletes the object through which the second is calling. *)
Theorem members_call_on_deleted_client :
  exists w, exec step (World demo_client ∅)
      [Invoke 0; Invoke 1; Read 0; Read 1; Return 0 2; Return 1 2; Read 0; Read 1;
       Members 0 0 [str "2"; str "3"; str "2"] true] = Some w /\
    threads w !! 1%nat = Some (InMembers 0) /\ rpccs (cli w) !! 0%nat = None.
Proof. eexists. split; [vm_compute; reflexivity|]. split; reflexivity. Qed.

(** [primary_failure] does nothing: after a call that failed in
    any other way the client is where it was before the call, and calls the same
    node again. *)
Theorem failed_primary_is_called_again ret c :
  ret < 0 -> invoke_return ret (invoke_enter c).2 = invoke_enter c.
Proof.
  intros Hr. unfold invoke_return, rsm_client_protocol.OK, rsm_client_protocol.BUSY, rsm_client_protocol.NOTPRIMARY.
  rewrite !(proj2 (Z.eqb_neq ret _)) by lia. unfold primary_failure, invoke_enter, set_nref. cbn.
  by replace (nref c + 1 - 1 + 1) with (nref c + 1) by lia.
Qed.

End rsm_client.
