(* ===== verification/LockServer.v ===== *)
(** * The blocking lock server

    [lock_server] of [lock_server.cc]: a table of locks under one mutex.
    [acquire] blocks on the condition variable of the lock while it is held:
    a call is the creation of the lock, and then attempts that either wait or
    take the lock, each of them atomic because the mutex is held. *)

From stdpp Require Import gmap list.
From Stdlib Require Import ZArith Lia.
From S2P Require Import Prelude Text Marshall Protocols.

Local Open Scope Z_scope.

Module lock_server.

Inductive lock_state := FREE | LOCKED.

#[global] Instance lock_state_eq_dec : EqDecision lock_state.
Proof. solve_decision. Defined.

Record state := State {
  nacquire : Z;
  locks : gmap Z lock_state
}.

Definition new : state := State 0 ∅.

(** [stat]: status and [r] *)
Definition stat (clt lid : Z) (s : state) : Z * Z := (lock_protocol.OK, nacquire s).

(** a lock that is not known is created free *)
Definition acquire_enter (lid : Z) (s : state) : state :=
  if map_has (locks s) lid then s else State (nacquire s) (<[lid := FREE]> (locks s)).

(** one round of [while(locks[lid] == LOCKED)]: [None] waits *)
Definition acquire_try (clt lid : Z) (s : state) : option (Z * Z) * state :=
  match map_get FREE (locks s) lid with
  | LOCKED => (None, s)
  | FREE => let n := s32 (nacquire s + 1) in
            (Some (lock_protocol.OK, n), State n (<[lid := LOCKED]> (locks s)))
  end.

(** [acquire] up to its first wait or its return *)
Definition acquire (clt lid : Z) (s : state) : option (Z * Z) * state :=
  acquire_try clt lid (acquire_enter lid s).

(** [release]: status, [r] (untouched on error) *)
Definition release (clt lid : Z) (s : state) : Z * option Z * state :=
  match locks s !! lid with
  | Some LOCKED =>
      let n := s32 (nacquire s - 1) in
      (lock_protocol.OK, Some n, State n (<[lid := FREE]> (locks s)))
  | _ => (lock_protocol.NOENT, None, s)
  end.

(** ** Specification: the set of locks that are held *)

Definition held (s : state) : gset Z := dom (filter (fun kv => kv.2 = LOCKED) (locks s)).

Lemma held_spec s lid : lid ∈ held s <-> locks s !! lid = Some LOCKED.
Proof.
  unfold held. rewrite elem_of_dom. split.
  - intros [x Hx]. apply map_lookup_filter_Some in Hx as [Hx E]. simpl in E. by subst.
  - intros H. exists LOCKED. by apply map_lookup_filter_Some.
Qed.

Inductive call :=
  | Acquire (clt lid : Z)      (** a call that comes in *)
  | Wakeup (clt lid : Z)       (** a waiting call that is woken up *)
  | Release (clt lid : Z).

Definition run_call (s : state) (c : call) : state :=
  match c with
  | Acquire clt lid => (acquire clt lid s).2
  | Wakeup clt lid => (acquire_try clt lid s).2
  | Release clt lid => (release clt lid s).2
  end.

(** [r] and [stat] report the number of locks that are held. *)
Definition counted (s : state) : Prop := nacquire s = s32 (Z.of_nat (size (held s))).

Lemma held_insert_locked s lid n :
  held (State n (<[lid := LOCKED]> (locks s))) = {[lid]} ∪ held s.
Proof.
  apply set_eq. intros x. rewrite elem_of_union, elem_of_singleton, !held_spec. simpl.
  destruct (decide (lid = x)) as [->|]; [rewrite lookup_insert_eq|rewrite lookup_insert_ne by done]; naive_solver.
Qed.

Lemma held_insert_free s lid n :
  held (State n (<[lid := FREE]> (locks s))) = held s ∖ {[lid]}.
Proof.
  apply set_eq. intros x. rewrite elem_of_difference, elem_of_singleton, !held_spec. simpl.
  destruct (decide (lid = x)) as [->|]; [rewrite lookup_insert_eq|rewrite lookup_insert_ne by done]; naive_solver.
Qed.

Lemma s32_add_mod a b : s32 (s32 a + b) = s32 (a + b).
Proof.
  unfold s32. rewrite <- Z.add_assoc.
  replace ((a + 2 ^ 31) mod 2 ^ 32 - 2 ^ 31 + (b + 2 ^ 31))
    with ((a + 2 ^ 31) mod 2 ^ 32 + b) by lia.
  rewrite Zplus_mod_idemp_l. do 2 f_equal. lia.
Qed.

Lemma acquire_enter_held lid s :
  held (acquire_enter lid s) = held s /\ nacquire (acquire_enter lid s) = nacquire s.
Proof.
  unfold acquire_enter. destruct (map_has (locks s) lid) eqn:E; [done|]. split; [|done].
  apply map_has_false in E. rewrite held_insert_free.
  assert (~ lid ∈ held s); [|set_solver]. rewrite held_spec. congruence.
Qed.

Lemma acquire_try_counted clt lid s : counted s -> counted (acquire_try clt lid s).2.
Proof.
  intros Hc. unfold acquire_try. destruct (map_get FREE (locks s) lid) eqn:E; [|done].
  unfold counted. cbn [snd nacquire]. rewrite held_insert_locked, size_union.
  - rewrite size_singleton, Hc, s32_add_mod. f_equal. lia.
  - assert (~ lid ∈ held s); [|set_solver]. rewrite held_spec. intros H.
    unfold map_get in E. by rewrite H in E.
Qed.

Lemma run_call_counted s c : counted s -> counted (run_call s c).
Proof.
  intros Hc. destruct c as [clt lid|clt lid|clt lid]; cbn [run_call].
  - apply acquire_try_counted. destruct (acquire_enter_held lid s) as [H1 H2].
    unfold counted. by rewrite H1, H2.
  - by apply acquire_try_counted.
  - unfold release. destruct (locks s !! lid) as [[|]|] eqn:E; [done| |done].
    unfold counted. cbn [snd nacquire]. rewrite held_insert_free.
    assert (lid ∈ held s) as Hin by (by apply held_spec).
    rewrite size_difference by set_solver. rewrite size_singleton, Hc.
    assert (size (held s) <> 0)%nat as Hne by (rewrite size_non_empty_iff; set_solver).
    unfold Z.sub. rewrite s32_add_mod. f_equal. lia.
Qed.

(** At all times the number [stat] reports, and the one returned
    with every grant and release, is the number of locks that are held. *)
Theorem nacquire_counts_held cs :
  let s := foldl run_call new cs in
  nacquire s = s32 (Z.of_nat (size (held s))).
Proof.
  cbn zeta. assert (forall s, counted s -> counted (foldl run_call s cs)) as H.
  { induction cs as [|c cs IH]; intros s Hs; [done|]. apply IH, run_call_counted, Hs. }
  apply H. done.
Qed.

(** The three calls against the set of held locks: a grant takes a
    lock nobody holds, a lock that is held makes the call wait and changes
    nothing, a release gives back exactly that lock, and releasing a lock that
    nobody holds is the error [NOENT]. *)
Theorem lock_server_spec clt lid s :
  match acquire clt lid s with
  | (Some (st, _), s') => st = lock_protocol.OK /\ (~ lid ∈ held s) /\ held s' = {[lid]} ∪ held s
  | (None, s') => lid ∈ held s /\ held s' = held s
  end /\
  match release clt lid s with
  | (st, Some _, s') => st = lock_protocol.OK /\ lid ∈ held s /\ held s' = held s ∖ {[lid]}
  | (st, None, s') => st = lock_protocol.NOENT /\ (~ lid ∈ held s) /\ s' = s
  end.
Proof.
  split.
  - unfold acquire. destruct (acquire_enter_held lid s) as [H1 _]. rewrite <- H1.
    generalize (acquire_enter lid s) as s1. clear. intros s. unfold acquire_try.
    destruct (map_get FREE (locks s) lid) eqn:E; unfold map_get in E.
    + rewrite held_insert_locked. split; [done|]. split; [|done]. rewrite held_spec.
      intros H. by rewrite H in E.
    + split; [|done]. rewrite held_spec. destruct (locks s !! lid); by simplify_eq/=.
  - unfold release. destruct (locks s !! lid) as [[|]|] eqn:E.
    + rewrite held_spec, E. done.
    + rewrite held_insert_free. rewrite held_spec, E. done.
    + rewrite held_spec, E. done.
Qed.

End lock_server.
