(* ===== verification/LockServerCache.v ===== *)
(** * The caching lock server

    [lock_server_cache] of [lock_server_cache.cc]: who owns each lock, who
    waits for it, the queue of revocations and the list of released locks.
    [acquire] and [release] run under the mutex.  The threads [revoker] and
    [retryer] walk their lists with the mutex held, but give it up around
    each RPC: their iterations are split there.  Both lists only grow at the
    end while an RPC is out, so an iterator is a position in the list. *)

From stdpp Require Import gmap list strings relations.
From Stdlib Require Import ZArith Lia Ascii.
From S2P Require Import Prelude Text Marshall Protocols.

Local Open Scope Z_scope.

Module lock_server_cache.

Inductive lock_state := FREE | ACQUIRED.

#[global] Instance lock_state_eq_dec : EqDecision lock_state.
Proof. solve_decision. Defined.

(** A client is its address, a string; the empty string is nobody. *)
Record lock_info := LockInfo {
  clt_id : bytes;
  seq_num : Z;
  lstate : lock_state;
  waiting_clients : list bytes;
  retryer_sent_to : bytes
}.

Definition lock_info_new : lock_info := LockInfo [] 0 FREE [] [].

(** Where a list walking thread is: at a position, or at it with the RPC for
    the entry it read there under way. *)
Inductive walker :=
  | At (i : nat)
  | Calling (i : nat) (lid : Z) (clt : bytes).

Record state := State {
  locks : gmap Z lock_info;
  revokes : list (Z * bytes);
  free_locks : list Z;
  revoker_at : walker;
  retryer_at : walker
}.

Definition new : state := State ∅ [] [] (At 0) (At 0).

Definition lock_of (s : state) (lid : Z) : lock_info := map_get lock_info_new (locks s) lid.

Definition set_lock (lid : Z) (li : lock_info) (s : state) : state :=
  State (<[lid := li]> (locks s)) (revokes s) (free_locks s) (revoker_at s) (retryer_at s).

Definition set_revokes (l : list (Z * bytes)) (s : state) : state :=
  State (locks s) l (free_locks s) (revoker_at s) (retryer_at s).

Definition set_free_locks (l : list Z) (s : state) : state :=
  State (locks s) (revokes s) l (revoker_at s) (retryer_at s).

Definition set_revoker (w : walker) (s : state) : state :=
  State (locks s) (revokes s) (free_locks s) w (retryer_at s).

Definition set_retryer (w : walker) (s : state) : state :=
  State (locks s) (revokes s) (free_locks s) (revoker_at s) w.

(** ** The handlers *)

Definition set_waiting (l : list bytes) (li : lock_info) : lock_info :=
  LockInfo (clt_id li) (seq_num li) (lstate li) l (retryer_sent_to li).

(** the test under which the lock is granted *)
Definition grantable (clt : bytes) (li : lock_info) : bool :=
  bool_decide (lstate li = FREE) &&
  ((bool_decide (retryer_sent_to li = []) && bool_decide (waiting_clients li = []))
   || bool_decide (retryer_sent_to li = clt)).

(** [acquire]: the status (also stored in [r]) and the new state *)
Definition acquire (clt : bytes) (seq lid : Z) (s : state) : Z * state :=
  let li := lock_of s lid in
  if grantable clt li then
    (lock_protocol.OK, set_lock lid (LockInfo clt seq ACQUIRED (waiting_clients li) []) s)
  else
    let s := set_lock lid (set_waiting (push_unique clt (waiting_clients li)) li) s in
    let s := match lstate li with
             | ACQUIRED => set_revokes (push_unique (lid, clt_id li) (revokes s)) s
             | FREE => s
             end in
    (lock_protocol.RETRY, s).

Definition release (clt : bytes) (seq lid : Z) (s : state) : Z * state :=
  let li := lock_of s lid in
  if negb (bool_decide (clt_id li = clt)) && negb (bool_decide (retryer_sent_to li = clt))
  then (lock_protocol.RPCERR, set_lock lid li s)
  else (lock_protocol.OK,
        set_free_locks (free_locks s ++ [lid])
          (set_lock lid (LockInfo [] (seq_num li) FREE (waiting_clients li) []) s)).

Definition stat (lid : Z) : Z := lock_protocol.OK.

(** ** The revoker thread *)

(** One turn of the walk up to the RPC: the revocation that is sent. *)
Definition revoker_next (s : state) : option (Z * bytes) * state :=
  match revoker_at s with
  | At i =>
      match revokes s !! i with
      | Some (lid, clt) => (Some (lid, clt), set_revoker (Calling i lid clt) s)
      | None => (None, set_revoker (At 0) s)
      end
  | Calling _ _ _ => (None, s)
  end.

(** The RPC returned [ret]. *)
Definition revoker_done (ret : Z) (s : state) : state :=
  match revoker_at s with
  | Calling i _ _ =>
      if ret =? lock_protocol.OK
      then set_revoker (At i) (set_revokes (delete i (revokes s)) s)
      else set_revoker (At (S i)) s
  | At _ => s
  end.

(** ** The retryer thread *)

Definition retryer_next (s : state) : option (Z * bytes) * state :=
  match retryer_at s with
  | At i =>
      match free_locks s !! i with
      | Some lid =>
          let li := lock_of s lid in
          match waiting_clients li, retryer_sent_to li with
          | clt :: rest, [] =>
              (Some (lid, clt),
               set_retryer (Calling i lid clt)
                 (set_lock lid (LockInfo (clt_id li) (seq_num li) (lstate li) rest clt) s))
          | _, _ => (None, set_retryer (At (S i)) (set_lock lid li s))
          end
      | None => (None, set_retryer (At 0) s)
      end
  | Calling _ _ _ => (None, s)
  end.

Definition retryer_done (ret : Z) (s : state) : state :=
  match retryer_at s with
  | Calling i lid clt =>
      let li := lock_of s lid in
      let s := match waiting_clients li with
               | [] => s
               | _ :: _ => set_revokes (push_unique (lid, clt) (revokes s)) s
               end in
      if ret =? rlock_protocol.OK
      then set_retryer (At i) (set_free_locks (delete i (free_locks s)) s)
      else set_retryer (At (S i)) s
  | At _ => s
  end.

(** ** The server as a whole *)

Inductive event :=
  | EAcquire (clt : bytes) (seq lid : Z)
  | ERelease (clt : bytes) (seq lid : Z)
  | ERevoke                          (** the revoker's next turn *)
  | ERevoked (ret : Z)               (** its RPC returns *)
  | ERetry                           (** the retryer's next turn *)
  | ERetried (ret : Z).

Definition step (s : state) (e : event) : state :=
  match e with
  | EAcquire clt seq lid => (acquire clt seq lid s).2
  | ERelease clt seq lid => (release clt seq lid s).2
  | ERevoke => (revoker_next s).2
  | ERevoked ret => revoker_done ret s
  | ERetry => (retryer_next s).2
  | ERetried ret => retryer_done ret s
  end.

(** Who owns a lock. *)
Definition owner (s : state) (lid : Z) : option bytes :=
  match lstate (lock_of s lid) with
  | ACQUIRED => Some (clt_id (lock_of s lid))
  | FREE => None
  end.

(** ** Lemmas *)

Lemma lock_of_set lid li s lid' :
  lock_of (set_lock lid li s) lid' = if decide (lid = lid') then li else lock_of s lid'.
Proof.
  unfold lock_of, set_lock; cbn. case_decide as E; [subst; apply map_get_insert_eq|].
  by apply map_get_insert_ne.
Qed.

Lemma lock_of_set_same lid s lid' : lock_of (set_lock lid (lock_of s lid) s) lid' = lock_of s lid'.
Proof. rewrite lock_of_set. by case_decide; subst. Qed.

Lemma lock_of_locks s s' : locks s' = locks s -> forall lid, lock_of s' lid = lock_of s lid.
Proof. intros H lid. unfold lock_of. by rewrite H. Qed.

(** What each event does to the entry of each lock. *)
Definition lock_change (s : state) (e : event) (lid : Z) : lock_info :=
  let li := lock_of s lid in
  match e with
  | EAcquire clt seq l =>
      if decide (l = lid) then
        if grantable clt li then LockInfo clt seq ACQUIRED (waiting_clients li) []
        else set_waiting (push_unique clt (waiting_clients li)) li
      else li
  | ERelease clt seq l =>
      if decide (l = lid) then
        if negb (bool_decide (clt_id li = clt)) && negb (bool_decide (retryer_sent_to li = clt))
        then li else LockInfo [] (seq_num li) FREE (waiting_clients li) []
      else li
  | ERetry =>
      match retryer_at s with
      | At i =>
          if decide (free_locks s !! i = Some lid) then
            match waiting_clients li, retryer_sent_to li with
            | clt :: rest, [] => LockInfo (clt_id li) (seq_num li) (lstate li) rest clt
            | _, _ => li
            end
          else li
      | Calling _ _ _ => li
      end
  | _ => li
  end.

Lemma lock_of_step s e lid : lock_of (step s e) lid = lock_change s e lid.
Proof.
  destruct e as [clt seq l|clt seq l| |ret| |ret]; cbn [step lock_change].
  - unfold acquire. destruct (grantable clt (lock_of s l)) eqn:E; cbn [snd].
    + rewrite lock_of_set. case_decide; subst; [by rewrite E|done].
    + destruct (lstate (lock_of s l)).
      * rewrite lock_of_set. case_decide; subst; [by rewrite E|done].
      * rewrite (lock_of_locks (set_lock l (set_waiting (push_unique clt
          (waiting_clients (lock_of s l))) (lock_of s l)) s)) by done.
        rewrite lock_of_set. case_decide; subst; [by rewrite E|done].
  - unfold release. case_decide as El.
    + subst. destruct (_ && _); cbn [snd]; [by rewrite lock_of_set_same|].
      rewrite (lock_of_locks (set_lock lid (LockInfo [] (seq_num (lock_of s lid)) FREE
        (waiting_clients (lock_of s lid)) []) s)) by done.
      rewrite lock_of_set. by rewrite decide_True.
    + destruct (_ && _); cbn [snd]; [by rewrite lock_of_set_same|].
      rewrite (lock_of_locks (set_lock l (LockInfo [] (seq_num (lock_of s l)) FREE
        (waiting_clients (lock_of s l)) []) s)) by done.
      rewrite lock_of_set. by rewrite decide_False.
  - unfold revoker_next. by repeat case_match.
  - unfold revoker_done. by repeat case_match.
  - unfold retryer_next. destruct (retryer_at s) as [i|]; [|done].
    destruct (free_locks s !! i) as [l|] eqn:Ef; [|rewrite decide_False by done; done].
    destruct (decide (Some l = Some lid)) as [[= ->]|Hne].
    + destruct (waiting_clients (lock_of s lid)) as [|clt rest] eqn:Ew; cbn [snd];
        [apply lock_of_set_same|].
      destruct (retryer_sent_to (lock_of s lid)) eqn:Er; cbn [snd]; [|apply lock_of_set_same].
      transitivity (lock_of (set_lock lid (LockInfo (clt_id (lock_of s lid))
        (seq_num (lock_of s lid)) (lstate (lock_of s lid)) rest clt) s) lid); [done|].
      rewrite lock_of_set. by rewrite decide_True.
    + destruct (waiting_clients (lock_of s l)) as [|clt rest] eqn:Ew; cbn [snd];
        [apply lock_of_set_same|].
      destruct (retryer_sent_to (lock_of s l)) eqn:Er; cbn [snd]; [|apply lock_of_set_same].
      transitivity (lock_of (set_lock l (LockInfo (clt_id (lock_of s l))
        (seq_num (lock_of s l)) (lstate (lock_of s l)) rest clt) s) lid); [done|].
      rewrite lock_of_set. rewrite decide_False; [done|congruence].
  - unfold retryer_done. by repeat case_match.
Qed.


(** ** Invariants of the table *)

Definition event_client (e : event) : option bytes :=
  match e with
  | EAcquire clt _ _ | ERelease clt _ _ => Some clt
  | _ => None
  end.

(** Client addresses are not empty. *)
Definition named (e : event) : Prop := event_client e <> Some [].

Record lock_wf (li : lock_info) : Prop := {
  lw_nodup : NoDup (waiting_clients li);
  lw_names : ~ [] ∈ waiting_clients li;
  lw_owner : lstate li = FREE <-> clt_id li = []
}.

Definition table_ok (s : state) : Prop :=
  (forall lid, lock_wf (lock_of s lid)) /\ NoDup (revokes s).

Lemma lock_wf_new : lock_wf lock_info_new.
Proof. split; cbn; [constructor|set_solver|done]. Qed.

Lemma push_unique_names (c : bytes) l : (~ [] ∈ l) -> c <> [] -> ~ [] ∈ push_unique c l.
Proof. intros Hl Hc. rewrite push_unique_spec. intros [?|?]; [congruence|done]. Qed.

Lemma lock_change_wf s e lid : lock_wf (lock_of s lid) -> named e -> lock_wf (lock_change s e lid).
Proof.
  intros Hw Hn. pose proof Hw as [H1 H2 H3].
  destruct e as [clt seq l|clt seq l| |ret| |ret]; cbn [lock_change]; try done.
  - assert (clt <> []) as Hc by (intros ->; by apply Hn).
    case_decide; [|done]. destruct (grantable clt (lock_of s lid)); split; cbn; try done.
    + by apply push_unique_NoDup.
    + by apply push_unique_names.
  - case_decide; [|done]. destruct (_ && _); [done|]. by split.
  - destruct (retryer_at s); [|done]. case_decide; [|done].
    destruct (waiting_clients (lock_of s lid)) as [|c rest] eqn:Ew; [done|].
    destruct (retryer_sent_to (lock_of s lid)); [|done].
    apply NoDup_cons in H1 as [_ ?]. split; cbn; [done|set_solver|done].
Qed.

Lemma step_revokes_NoDup s e : NoDup (revokes s) -> NoDup (revokes (step s e)).
Proof.
  intros H. destruct e as [clt seq l|clt seq l| |ret| |ret]; cbn [step].
  - unfold acquire. repeat case_match; cbn; try done. by apply push_unique_NoDup.
  - unfold release. repeat case_match; done.
  - unfold revoker_next. repeat case_match; done.
  - unfold revoker_done. repeat case_match; cbn; try done.
    eapply sublist_NoDup; [exact H|apply sublist_delete].
  - unfold retryer_next. repeat case_match; done.
  - unfold retryer_done. repeat case_match; cbn; try done; by apply push_unique_NoDup.
Qed.

Lemma step_table_ok s e : table_ok s -> named e -> table_ok (step s e).
Proof.
  intros [H1 H2] Hn. split; [|by apply step_revokes_NoDup].
  intros lid. rewrite lock_of_step. by apply lock_change_wf.
Qed.

(** C36: Whatever clients and the two threads do, a client is at
    most once in the queue of a lock and a revocation at most once in the
    queue of revocations, and a lock has an owner exactly when it is not free. *)
Theorem server_table_ok es :
  Forall named es ->
  let s := foldl step new es in
  NoDup (revokes s) /\
  forall lid, NoDup (waiting_clients (lock_of s lid)) /\
    (lstate (lock_of s lid) = FREE <-> clt_id (lock_of s lid) = []).
Proof.
  intros Hes. cbn zeta.
  assert (forall s, table_ok s -> table_ok (foldl step s es)) as H.
  { induction Hes as [|e es He Hes IH]; intros s Hs; [done|]. by apply IH, step_table_ok. }
  destruct (H new) as [H1 H2].
  { split; [|constructor]. intros lid. apply lock_wf_new. }
  split; [done|]. intros lid. by destruct (H1 lid).
Qed.

(** What [acquire] does to the owner. *)
Lemma acquire_owner clt seq lid s :
  let '(st, s') := acquire clt seq lid s in
  (st = lock_protocol.OK /\ owner s lid = None /\ owner s' lid = Some clt \/
   st = lock_protocol.RETRY /\ owner s' lid = owner s lid) /\
  forall lid', lid' <> lid -> lock_of s' lid' = lock_of s lid'.
Proof.
  pose proof (lock_of_step s (EAcquire clt seq lid)) as H. cbn [step lock_change] in H.
  destruct (acquire clt seq lid s) as [st s'] eqn:E. cbn [snd] in H.
  split; [|intros lid' Hne; rewrite H; by rewrite decide_False].
  specialize (H lid). rewrite decide_True in H by done. unfold owner. rewrite H.
  unfold acquire in E. destruct (grantable clt (lock_of s lid)) eqn:Eg; injection E as <- _.
  - left. split; [done|]. split; [|done]. unfold grantable in Eg. to_prop. by rewrite H0.
  - by right.
Qed.

(** [acquire] grants a lock only when nobody owns it, and then
    the caller owns it; otherwise the owner stays, the caller is in the queue of
    the lock and a revocation for the owner is queued.  Other locks are not
    touched. *)
Theorem acquire_grants_free_locks clt seq lid s :
  let '(st, s') := acquire clt seq lid s in
  (st = lock_protocol.OK /\ owner s lid = None /\ owner s' lid = Some clt \/
   st = lock_protocol.RETRY /\ owner s' lid = owner s lid /\
   clt ∈ waiting_clients (lock_of s' lid) /\
   forall c, owner s lid = Some c -> (lid, c) ∈ revokes s') /\
  forall lid', lid' <> lid -> lock_of s' lid' = lock_of s lid'.
Proof.
  pose proof (acquire_owner clt seq lid s) as Ho.
  pose proof (lock_of_step s (EAcquire clt seq lid) lid) as H. cbn [step lock_change] in H.
  rewrite decide_True in H by done.
  destruct (acquire clt seq lid s) as [st s'] eqn:E. cbn [snd] in H.
  destruct Ho as [[Ho|[Hst Ho]] Hother]; (split; [|done]); [by left|right].
  split; [done|]. split; [done|]. unfold acquire in E.
  destruct (grantable clt (lock_of s lid)); [by simplify_eq|]. rewrite H. injection E as _ E.
  split; [apply push_unique_spec; by left|]. intros c Hc. unfold owner in Hc.
  destruct (lstate (lock_of s lid)); [done|]. injection Hc as <-.
  rewrite <- E. apply push_unique_spec. by left.
Qed.

(** The queue of a lock is served in order of arrival and
    nobody is dropped from it: every event leaves it as it is, adds one client
    at the end, or is the retryer taking its head and noting that client. *)
Theorem waiting_queue_is_fifo s e lid :
  (exists added, waiting_clients (lock_of (step s e) lid) = waiting_clients (lock_of s lid) ++ added /\
                 (length added <= 1)%nat) \/
  (e = ERetry /\ exists c, waiting_clients (lock_of s lid) = c :: waiting_clients (lock_of (step s e) lid) /\
                         retryer_sent_to (lock_of (step s e) lid) = c).
Proof.
  rewrite lock_of_step.
  assert (exists added : list bytes, waiting_clients (lock_of s lid) =
    waiting_clients (lock_of s lid) ++ added /\ (length added <= 1)%nat) as Hsame.
  { exists []. rewrite app_nil_r. auto. }
  destruct e as [clt seq l|clt seq l| |ret| |ret]; cbn [lock_change]; auto.
  - left. case_decide; [|done]. destruct (grantable clt (lock_of s lid)); [done|]. cbn.
    unfold push_unique. destruct (std_mem _ _); [done|]. exists [clt]. auto.
  - left. case_decide; [|done]. by destruct (_ && _).
  - destruct (retryer_at s); [|by left]. case_decide; [|by left].
    destruct (waiting_clients (lock_of s lid)) as [|c rest] eqn:Ew; [left; by rewrite Ew|].
    destruct (retryer_sent_to (lock_of s lid)); [|left; by rewrite Ew].
    right. split; [done|]. exists c. done.
Qed.


(** ** Mutual exclusion *)

(** What the clients believe: those that were granted a lock and have not
    successfully released it since. *)
Definition believes (s : state) (hs : list (Z * bytes)) (e : event) : list (Z * bytes) :=
  match e with
  | EAcquire clt seq lid =>
      if (acquire clt seq lid s).1 =? lock_protocol.OK then (lid, clt) :: hs else hs
  | ERelease clt seq lid =>
      if (release clt seq lid s).1 =? lock_protocol.OK then list_remove_all (lid, clt) hs else hs
  | _ => hs
  end.

Definition world_step (w : state * list (Z * bytes)) (e : event) : state * list (Z * bytes) :=
  (step w.1 e, believes w.1 w.2 e).

(** The event does not release a lock somebody else owns. *)
Definition own_release (s : state) (e : event) : Prop :=
  match e with
  | ERelease clt _ lid => forall c, owner s lid = Some c -> c = clt
  | _ => True
  end.

Fixpoint disciplined (s : state) (es : list event) : Prop :=
  match es with
  | [] => True
  | e :: es => own_release s e /\ disciplined (step s e) es
  end.

(** Every believer is the owner. *)
Definition truthful (w : state * list (Z * bytes)) : Prop :=
  forall lid c, (lid, c) ∈ w.2 -> owner w.1 lid = Some c.

Lemma owner_other s e lid :
  (forall clt seq, e <> EAcquire clt seq lid) -> (forall clt seq, e <> ERelease clt seq lid) ->
  owner (step s e) lid = owner s lid.
Proof.
  intros Ha Hr. unfold owner. rewrite lock_of_step.
  destruct e as [clt seq l|clt seq l| |ret| |ret]; cbn [lock_change]; try done.
  - rewrite decide_False; [done|]. intros ->. by eapply Ha.
  - rewrite decide_False; [done|]. intros ->. by eapply Hr.
  - destruct (retryer_at s); [|done]. case_decide; [|done]. by repeat case_match.
Qed.

Lemma world_step_truthful w e : truthful w -> own_release w.1 e -> truthful (world_step w e).
Proof.
  destruct w as [s hs]. intros Ht Hd lid c. cbn [world_step fst snd] in *.
  destruct e as [clt seq l|clt seq l| |ret| |ret]; cbn [believes].
  - pose proof (acquire_owner clt seq l s) as Ha.
    cbn [step]. destruct (acquire clt seq l s) as [st s']. cbn [fst snd].
    destruct Ha as [Ha Hother].
    assert (forall lid, lid <> l -> owner s' lid = owner s lid) as Ho.
    { intros lid' Hne. unfold owner. by rewrite Hother. }
    destruct Ha as [(-> & Hfree & Hown)|(-> & Hsame)]; cbn.
    + intros [[= -> ->]|Hin]%elem_of_cons; [done|]. apply Ht in Hin.
      rewrite Ho; [done|]. intros ->. cbn in Hin. congruence.
    + intros Hin. apply Ht in Hin. cbn in Hin. destruct (decide (lid = l)) as [->|]; [congruence|].
      by rewrite Ho.
  - unfold release. cbn [own_release] in Hd.
    destruct (_ && _) eqn:Eg; cbn.
    + intros Hin. apply Ht in Hin. cbn in Hin. rewrite <- Hin. unfold owner. unfold release. rewrite Eg.
      cbn [snd]. by rewrite lock_of_set_same.
    + intros [Hin Hne]%list_remove_all_spec. apply Ht in Hin. cbn in Hin.
      destruct (decide (lid = l)) as [->|Hl].
      * apply Hd in Hin. congruence.
      * rewrite <- Hin. unfold owner. pose proof (lock_of_step s (ERelease clt seq l) lid) as H.
        cbn [step lock_change] in H. by rewrite H, decide_False.
  - intros Hin. rewrite owner_other; [by apply Ht|done|done].
  - intros Hin. rewrite owner_other; [by apply Ht|done|done].
  - intros Hin. rewrite owner_other; [by apply Ht|done|done].
  - intros Hin. rewrite owner_other; [by apply Ht|done|done].
Qed.

(** C9: as long as no client releases a lock that another one owns,
    at most one client at a time has been granted a lock without having
    released it, under every interleaving of calls and of the two threads. *)
Theorem server_mutual_exclusion es lid c c' :
  disciplined new es ->
  let hs := (foldl world_step (new, []) es).2 in
  (lid, c) ∈ hs -> (lid, c') ∈ hs -> c = c'.
Proof.
  intros Hd hs H H'.
  assert (forall w, truthful w -> disciplined w.1 es -> truthful (foldl world_step w es)) as Ht.
  { clear. induction es as [|e es IH]; intros w Hw; [done|]. intros [H1 H2].
    apply IH; [by apply world_step_truthful|done]. }
  assert (truthful (foldl world_step (new, []) es)) as Hf.
  { apply Ht; [|done]. intros ? ? Hin. by apply elem_of_nil in Hin. }
  apply Hf in H, H'. congruence.
Qed.

Definition cA : bytes := str "127.0.0.1:1001".
Definition cB : bytes := str "127.0.0.1:1002".
Definition cC : bytes := str "127.0.0.1:1003".
Definition cD : bytes := str "127.0.0.1:1004".

Lemma server_mutual_exclusion_witness :
  let es := [EAcquire cA 0 7; EAcquire cB 0 7; ERevoke; ERevoked 0; ERelease cA 1 7; ERetry;
             ERetried 0; EAcquire cB 1 7] in
  (foldl world_step (new, []) es).2 = [(7, cB)] /\
  forall c, (7, c) ∈ (foldl world_step (new, []) es).2 -> c = cB.
Proof.
  intros es. assert ((foldl world_step (new, []) es).2 = [(7, cB)]) as E by (vm_compute; reflexivity).
  split; [exact E|]. intros c Hc. apply (server_mutual_exclusion es 7 c cB).
  - repeat split; intros c' Hc'; vm_compute in Hc';
      try discriminate; injection Hc' as <-; reflexivity.
  - exact Hc.
  - rewrite E. apply list_elem_of_singleton. reflexivity.
Defined.

Lemma server_table_ok_witness :
  NoDup (revokes (foldl step new [EAcquire cA 0 7; EAcquire cB 0 7; EAcquire cC 0 7])).
Proof.
  apply (server_table_ok [EAcquire cA 0 7; EAcquire cB 0 7; EAcquire cC 0 7]).
  repeat constructor; discriminate.
Defined.

(** The condition is not met by the clients the retryer calls.
    A releases lock 7 with nobody waiting, so that 7 stays in the list of
    released locks; B is then granted it, and C and D queue for it.  The retryer
    does not look whether the lock is free: it calls C, and as D still waits it
    has C revoked.  C returns the lock it never got, which is accepted although B
    owns it, and D is granted the lock while B still holds it. *)
Theorem stale_retry_releases_anothers_lock :
  let w := foldl world_step (new, [])
    [EAcquire cA 0 7; ERelease cA 1 7; ERetry; EAcquire cB 0 7; EAcquire cC 0 7; EAcquire cD 0 7;
     ERetry; ERetry; ERetried 0; ERevoke; ERevoked 0] in
  owner w.1 7 = Some cB /\ (revoker_next w.1).1 = Some (7, cC) /\
  let w' := foldl world_step w [ERevoke; ERevoked 0; ERelease cC 1 7; ERetry] in
  owner w'.1 7 = None /\ retryer_sent_to (lock_of w'.1 7) = cD /\
  (foldl world_step w' [ERetried 0; EAcquire cD 1 7]).2 = [(7, cD); (7, cB)].
Proof. vm_compute. auto. Qed.

End lock_server_cache.
