(* ===== verification/LockClientCache.v ===== *)
(** * The caching lock client

    [lock_client_cache] of [lock_client_cache.cc]: the state of each cached
    lock, the loop of [acquire] that its threads run, [release], the
    [releaser] thread and the handlers [revoke] and [retry].  Every piece of
    code between two points where the mutex is given up (waiting on a
    condition, an RPC) is one definition.  A thread that waits on a condition
    may wake up at any time, as POSIX allows, and looks again. *)

From stdpp Require Import gmap list strings relations.
From Stdlib Require Import ZArith Lia Ascii.
From S2P Require Import Prelude Text Marshall Protocols LockServerCache.

Local Open Scope Z_scope.

Module lock_client_cache.

Inductive lock_state := NONE | FREE | LOCKED | ACQUIRING | RELEASING.

#[global] Instance lock_state_eq_dec : EqDecision lock_state.
Proof. solve_decision. Defined.

Definition get_state (st : lock_state) : bytes :=
  match st with
  | NONE => str "NONE"
  | FREE => str "FREE"
  | LOCKED => str "LOCKED"
  | ACQUIRING => str "ACQUIRING"
  | RELEASING => str "RELEASING"
  end.

Record lock_info := LockInfo {
  lstate : lock_state;
  sequence_number : Z;
  waiting_threads : list Z;
  to_be_revoked : bool;
  retry_received : bool
}.

Definition lock_info_new : lock_info := LockInfo NONE 0 [] false false.

(** The releaser: at a position of [revoke_queue], or at it with the release
    RPC for the lock it read there under way. *)
Inductive walker :=
  | At (i : nat)
  | Calling (i : nat) (lid : Z).

Record client := Client {
  lock_cache : gmap Z lock_info;
  revoke_queue : list Z;
  releaser_at : walker
}.

Definition new : client := Client ∅ [] (At 0).

Definition lock_of (c : client) (lid : Z) : lock_info := map_get lock_info_new (lock_cache c) lid.

Definition set_lock (lid : Z) (li : lock_info) (c : client) : client :=
  Client (<[lid := li]> (lock_cache c)) (revoke_queue c) (releaser_at c).

Definition set_queue (q : list Z) (w : walker) (c : client) : client := Client (lock_cache c) q w.

Definition set_state (st : lock_state) (li : lock_info) : lock_info :=
  LockInfo st (sequence_number li) (waiting_threads li) (to_be_revoked li) (retry_received li).

Definition set_threads (l : list Z) (li : lock_info) : lock_info :=
  LockInfo (lstate li) (sequence_number li) l (to_be_revoked li) (retry_received li).

(** ** [acquire] *)

(** [acquire] before its loop *)
Definition acquire_enter (tid lid : Z) (c : client) : client :=
  let li := lock_of c lid in
  set_lock lid (set_threads (push_unique tid (waiting_threads li)) li) c.

(** What a thread does next. *)
Inductive verdict :=
  | Wait                  (** sleeps on the condition, then looks again *)
  | Send (seq : Z)        (** calls the server *)
  | Return                (** has the lock *)
  | Await                 (** waits for a retry from the server *)
  | Again.                (** looks again at once *)

(** one round of the loop, up to the call of the server *)
Definition acquire_loop (tid lid : Z) (c : client) : verdict * client :=
  let li := lock_of c lid in
  if to_be_revoked li then (Wait, c)
  else if negb (bool_decide (head (waiting_threads li) = Some tid)) then (Wait, c)
  else match lstate li with
  | NONE =>
      (Send (sequence_number li),
       set_lock lid (LockInfo ACQUIRING (s32 (sequence_number li + 1)) (waiting_threads li)
                       (to_be_revoked li) false) c)
  | FREE => (Return, set_lock lid (set_threads (tail (waiting_threads li)) (set_state LOCKED li)) c)
  | _ => (Wait, c)
  end.

(** the server answered [ret] *)
Definition acquire_reply (lid ret : Z) (c : client) : verdict * client :=
  let li := lock_of c lid in
  if ret =? lock_protocol.OK then
    (Return, set_lock lid (set_threads (tail (waiting_threads li)) (set_state LOCKED li)) c)
  else if ret =? lock_protocol.RETRY then (Await, set_lock lid (set_state NONE li) c)
  else (Again, c).

(** [while (!li.retry_received)] *)
Definition await_retry (lid : Z) (c : client) : verdict :=
  if retry_received (lock_of c lid) then Again else Await.

(** ** [release] and the handlers *)

Definition release (tid lid : Z) (c : client) : Z * client :=
  let li := lock_of c lid in
  (lock_protocol.OK,
   set_lock lid (set_threads (list_remove_all tid (waiting_threads li)) (set_state FREE li)) c).

Definition revoke (lid : Z) (c : client) : Z * client :=
  let li := lock_of c lid in
  (rlock_protocol.OK,
   set_queue (push_unique lid (revoke_queue c)) (releaser_at c)
     (set_lock lid (LockInfo (lstate li) (sequence_number li) (waiting_threads li) true
                      (retry_received li)) c)).

Definition retry (lid : Z) (c : client) : Z * client :=
  if map_has (lock_cache c) lid then
    let li := lock_of c lid in
    (rlock_protocol.OK,
     set_lock lid (LockInfo (lstate li) (sequence_number li) (waiting_threads li)
                     (to_be_revoked li) true) c)
  else (rlock_protocol.RPCERR, c).

(** ** The releaser *)

(** One turn of the walk, up to the RPC: the lock and the sequence number that
    are sent. *)
Definition releaser_next (c : client) : option (Z * Z) * client :=
  match releaser_at c with
  | At i =>
      match revoke_queue c !! i with
      | Some lid =>
          let li := lock_of c lid in
          match lstate li with
          | LOCKED => (None, set_queue (revoke_queue c) (At (S i)) (set_lock lid li c))
          | _ => (Some (lid, sequence_number li),
                  set_queue (revoke_queue c) (Calling i lid)
                    (set_lock lid (LockInfo RELEASING (s32 (sequence_number li + 1))
                       (waiting_threads li) (to_be_revoked li) (retry_received li)) c))
          end
      | None => (None, set_queue (revoke_queue c) (At 0) c)
      end
  | Calling _ _ => (None, c)
  end.

(** The RPC returned [ret]. *)
Definition releaser_done (ret : Z) (c : client) : client :=
  match releaser_at c with
  | Calling i lid =>
      if ret =? lock_protocol.OK then
        let li := lock_of c lid in
        set_queue (delete i (revoke_queue c)) (At i)
          (set_lock lid (LockInfo NONE (sequence_number li) (waiting_threads li) false
                           (retry_received li)) c)
      else set_queue (revoke_queue c) (At (S i)) c
  | At _ => c
  end.

(** ** The threads of a client *)

Inductive pc := Looping (lid : Z) | InCall (lid : Z) | Awaiting (lid : Z).

Record world := World {
  cl : client;
  pcs : gmap Z pc;                 (** threads inside [acquire] *)
  holders : list (Z * Z)           (** lock and thread: [acquire] has returned *)
}.

Definition world_new : world := World new ∅ [].

Inductive event :=
  | EEnter (tid lid : Z)           (** a thread calls [acquire] *)
  | ELoop (tid : Z)                (** it goes through the loop *)
  | EReply (tid ret : Z)           (** the server answers it *)
  | EAwait (tid : Z)               (** it checks for a retry *)
  | ERelease (tid lid : Z)         (** a holder calls [release] *)
  | ERevoke (lid : Z)
  | ERetry (lid : Z)
  | EPick                          (** the releaser takes a turn *)
  | EPicked (ret : Z).             (** its RPC returns *)

(** After a verdict the thread is inside [acquire] or has the lock. *)
Definition continue (tid lid : Z) (v : verdict) (c : client) (w : world) : world :=
  match v with
  | Wait | Again => World c (<[tid := Looping lid]> (pcs w)) (holders w)
  | Send _ => World c (<[tid := InCall lid]> (pcs w)) (holders w)
  | Await => World c (<[tid := Awaiting lid]> (pcs w)) (holders w)
  | Return => World c (delete tid (pcs w)) ((lid, tid) :: holders w)
  end.

Definition step (w : world) (e : event) : option world :=
  match e with
  | EEnter tid lid =>
      match pcs w !! tid with
      | None => Some (World (acquire_enter tid lid (cl w)) (<[tid := Looping lid]> (pcs w)) (holders w))
      | Some _ => None
      end
  | ELoop tid =>
      match pcs w !! tid with
      | Some (Looping lid) =>
          let '(v, c) := acquire_loop tid lid (cl w) in Some (continue tid lid v c w)
      | _ => None
      end
  | EReply tid ret =>
      match pcs w !! tid with
      | Some (InCall lid) =>
          let '(v, c) := acquire_reply lid ret (cl w) in Some (continue tid lid v c w)
      | _ => None
      end
  | EAwait tid =>
      match pcs w !! tid with
      | Some (Awaiting lid) => Some (continue tid lid (await_retry lid (cl w)) (cl w) w)
      | _ => None
      end
  | ERelease tid lid =>
      if std_mem (lid, tid) (holders w)
      then Some (World (release tid lid (cl w)).2 (pcs w) (list_remove_all (lid, tid) (holders w)))
      else None
  | ERevoke lid => Some (World (revoke lid (cl w)).2 (pcs w) (holders w))
  | ERetry lid => Some (World (retry lid (cl w)).2 (pcs w) (holders w))
  | EPick => Some (World (releaser_next (cl w)).2 (pcs w) (holders w))
  | EPicked ret => Some (World (releaser_done ret (cl w)) (pcs w) (holders w))
  end.

Lemma client_lock_of_set lid li c lid' :
  lock_of (set_lock lid li c) lid' = if decide (lid = lid') then li else lock_of c lid'.
Proof.
  unfold lock_of, set_lock; cbn. case_decide as E; [subst; apply map_get_insert_eq|].
  by apply map_get_insert_ne.
Qed.

Lemma lock_of_queue q w c lid : lock_of (set_queue q w c) lid = lock_of c lid.
Proof. done. Qed.


(** ** Mutual exclusion among the threads *)

Definition st_of (c : client) (lid : Z) : lock_state := lstate (lock_of c lid).

Record mutex_inv (w : world) : Prop := {
  mi_call : forall t lid, pcs w !! t = Some (InCall lid) -> st_of (cl w) lid = ACQUIRING;
  mi_one_call : forall t t' lid, pcs w !! t = Some (InCall lid) -> pcs w !! t' = Some (InCall lid) ->
    t = t';
  mi_hold : forall t lid, (lid, t) ∈ holders w -> st_of (cl w) lid = LOCKED;
  mi_one_hold : forall t t' lid, (lid, t) ∈ holders w -> (lid, t') ∈ holders w -> t = t';
  mi_releaser : forall i lid, releaser_at (cl w) = Calling i lid -> st_of (cl w) lid = RELEASING
}.

(** The releaser does not take a lock that a thread is asking the server for. *)
Definition leaves_calls_alone (w : world) (e : event) : bool :=
  match e with
  | EPick =>
      match releaser_at (cl w) with
      | At i => match revoke_queue (cl w) !! i with
                | Some lid => negb (bool_decide (st_of (cl w) lid = ACQUIRING))
                | None => true
                end
      | Calling _ _ => true
      end
  | _ => true
  end.

Definition careful_step (w : world) (e : event) : option world :=
  if leaves_calls_alone w e then step w e else None.

Lemma st_of_set lid li c lid' :
  st_of (set_lock lid li c) lid' = if decide (lid = lid') then lstate li else st_of c lid'.
Proof. unfold st_of. rewrite client_lock_of_set. by case_decide. Qed.

Lemma st_of_queue q wk c lid : st_of (set_queue q wk c) lid = st_of c lid.
Proof. done. Qed.

(** A change that keeps the state of every lock keeps the invariant. *)
Lemma mutex_inv_same w c ps :
  mutex_inv w -> (forall lid, st_of c lid = st_of (cl w) lid) -> releaser_at c = releaser_at (cl w) ->
  (forall t lid, ps !! t = Some (InCall lid) -> pcs w !! t = Some (InCall lid)) ->
  mutex_inv (World c ps (holders w)).
Proof.
  intros [] Hst Hr Hps. split; cbn; intros; rewrite ?Hst in *; eauto.
  apply mi_releaser0 with i. congruence.
Qed.

Lemma lookup_not_call (ps : gmap Z pc) t x t' lid :
  (forall l, x <> InCall l) -> <[t := x]> ps !! t' = Some (InCall lid) -> ps !! t' = Some (InCall lid).
Proof. intros Hx [[_ H]|[_ H]]%lookup_insert_Some; [by apply Hx in H|done]. Qed.

Lemma same_state_set lid li c : lstate li = st_of c lid -> forall lid', st_of (set_lock lid li c) lid' = st_of c lid'.
Proof. intros H lid'. rewrite st_of_set. case_decide; by subst. Qed.

Lemma inv_loop w tid lid v c :
  mutex_inv w -> pcs w !! tid = Some (Looping lid) -> acquire_loop tid lid (cl w) = (v, c) ->
  mutex_inv (continue tid lid v c w).
Proof.
  intros Hi Hpc. unfold acquire_loop. set (li := lock_of (cl w) lid).
  assert (mutex_inv (continue tid lid Wait (cl w) w)) as Hwait.
  { apply mutex_inv_same; try done. intros t l. by apply lookup_not_call. }
  destruct (to_be_revoked li); [by intros [= <- <-]|].
  destruct (negb _); [by intros [= <- <-]|].
  destruct (lstate li) eqn:Es; intros [= <- <-]; try done; destruct Hi;
    (assert (st_of (cl w) lid = lstate li) as Hst by done); rewrite Es in Hst.
  - split; cbn [cl pcs holders continue releaser_at set_lock]; intros; rewrite ?st_of_set in *.
    + apply lookup_insert_Some in H as [[_ [= ->]]|[_ H]]; [by rewrite decide_True|].
      case_decide; [done|]. eauto.
    + apply lookup_insert_Some in H as [[<- [= E1]]|[_ H]], H0 as [[<- [= E2]]|[_ H0]]; try done.
      * apply mi_call0 in H0. congruence.
      * apply mi_call0 in H. congruence.
      * by eapply mi_one_call0.
    + apply mi_hold0 in H as H'. case_decide; [subst; congruence|done].
    + eauto.
    + apply mi_releaser0 in H as H'. case_decide; [subst; congruence|done].
  - split; cbn [cl pcs holders continue releaser_at set_lock]; intros; rewrite ?st_of_set in *.
    + apply lookup_delete_Some in H as [_ H]. apply mi_call0 in H. case_decide; [subst; congruence|done].
    + apply lookup_delete_Some in H as [_ H], H0 as [_ H0]. eauto.
    + apply elem_of_cons in H as [[= -> ->]|H]; [by rewrite decide_True|]. case_decide; [done|]. eauto.
    + apply elem_of_cons in H as [[= -> ->]|H], H0 as [[= H0]|H0]; subst; try done; eauto;
        [apply mi_hold0 in H0; congruence|apply mi_hold0 in H; congruence].
    + apply mi_releaser0 in H as H'. case_decide; [subst; congruence|done].
Qed.

Lemma inv_reply w tid lid ret v c :
  mutex_inv w -> pcs w !! tid = Some (InCall lid) -> acquire_reply lid ret (cl w) = (v, c) ->
  mutex_inv (continue tid lid v c w).
Proof.
  intros Hi Hpc. unfold acquire_reply. set (li := lock_of (cl w) lid).
  pose proof (mi_call w Hi tid lid Hpc) as Hst.
  destruct (ret =? lock_protocol.OK); [|destruct (ret =? lock_protocol.RETRY)]; intros [= <- <-].
  - destruct Hi. split; cbn [cl pcs holders continue releaser_at set_lock]; intros; rewrite ?st_of_set in *.
    + apply lookup_delete_Some in H as [Hne H]. case_decide; [subst|eauto].
      exfalso. apply Hne. by eapply mi_one_call0.
    + apply lookup_delete_Some in H as [_ H], H0 as [_ H0]. eauto.
    + apply elem_of_cons in H as [[= -> ->]|H]; [by rewrite decide_True|]. case_decide; [done|]. eauto.
    + apply elem_of_cons in H as [[= -> ->]|H], H0 as [[= H0]|H0]; subst; try done; eauto;
        [apply mi_hold0 in H0; congruence|apply mi_hold0 in H; congruence].
    + apply mi_releaser0 in H as H'. case_decide; [subst; congruence|done].
  - destruct Hi. split; cbn [cl pcs holders continue releaser_at set_lock]; intros; rewrite ?st_of_set in *.
    + apply lookup_insert_Some in H as [[_ [=]]|[Hne H]]. case_decide; [subst|eauto].
      exfalso. apply Hne. by eapply mi_one_call0.
    + apply lookup_insert_Some in H as [[_ [=]]|[_ H]], H0 as [[_ [=]]|[_ H0]]. eauto.
    + apply mi_hold0 in H as H'. case_decide; [subst; congruence|done].
    + eauto.
    + apply mi_releaser0 in H as H'. case_decide; [subst; congruence|done].
  - apply mutex_inv_same; try done. intros t l. by apply lookup_not_call.
Qed.


Lemma inv_release w tid lid :
  mutex_inv w -> (lid, tid) ∈ holders w ->
  mutex_inv (World (release tid lid (cl w)).2 (pcs w) (list_remove_all (lid, tid) (holders w))).
Proof.
  intros Hi Hh. pose proof (mi_hold w Hi tid lid Hh) as Hst. destruct Hi.
  split; cbn [cl pcs holders release snd releaser_at set_lock]; intros; rewrite ?st_of_set in *.
  - apply mi_call0 in H. case_decide; [subst; congruence|done].
  - eauto.
  - apply list_remove_all_spec in H as [H Hne]. apply mi_hold0 in H as H'.
    case_decide; [subst|done]. exfalso. apply Hne. f_equal. by eapply mi_one_hold0.
  - apply list_remove_all_spec in H as [H _], H0 as [H0 _]. eauto.
  - apply mi_releaser0 in H. case_decide; [subst; congruence|done].
Qed.

Lemma inv_pick w :
  mutex_inv w -> leaves_calls_alone w EPick = true ->
  mutex_inv (World (releaser_next (cl w)).2 (pcs w) (holders w)).
Proof.
  intros Hi Hg. cbn [leaves_calls_alone] in Hg. unfold releaser_next.
  destruct (releaser_at (cl w)) as [i|i lid] eqn:Ea; [|destruct Hi; split; cbn; intros; eauto].
  destruct (revoke_queue (cl w) !! i) as [lid|] eqn:Eq.
  2:{ destruct Hi. split; cbn; intros; eauto. congruence. }
  to_prop. destruct (decide (st_of (cl w) lid = LOCKED)) as [Hl|Hl].
  - assert (lstate (lock_of (cl w) lid) = LOCKED) as El by done. rewrite El. cbn [snd].
    destruct Hi. split; cbn [cl pcs holders releaser_at set_queue]; intros; eauto; [| |done].
    + rewrite st_of_queue, same_state_set by done. eauto.
    + rewrite st_of_queue, same_state_set by done. eauto.
  - set (li := lock_of (cl w) lid).
    assert (forall t, pcs w !! t <> Some (InCall lid)) as Hc by (intros t H; by apply (mi_call w Hi) in H).
    assert (forall t, ~ (lid, t) ∈ holders w) as Hh by (intros t H; by apply (mi_hold w Hi) in H).
    assert (mutex_inv (World (set_queue (revoke_queue (cl w)) (Calling i lid)
       (set_lock lid (LockInfo RELEASING (s32 (sequence_number li + 1)) (waiting_threads li)
          (to_be_revoked li) (retry_received li)) (cl w))) (pcs w) (holders w))) as Hgoal.
    { destruct Hi. split; cbn [cl pcs holders releaser_at set_queue]; intros; eauto;
        unfold st_of in *; rewrite lock_of_queue, client_lock_of_set.
      - case_decide; [subst; by apply Hc in H|eauto].
      - case_decide; [subst; by apply Hh in H|eauto].
      - injection H as -> ->. by rewrite decide_True. }
    unfold st_of in Hl. fold li in Hl. by destruct (lstate li).
Qed.

Lemma inv_picked w ret : mutex_inv w -> mutex_inv (World (releaser_done ret (cl w)) (pcs w) (holders w)).
Proof.
  intros Hi. unfold releaser_done.
  destruct (releaser_at (cl w)) as [i|i lid] eqn:Ea; [destruct Hi; split; cbn; intros; eauto|].
  pose proof (mi_releaser w Hi i lid Ea) as Hst. destruct (ret =? lock_protocol.OK).
  - destruct Hi. split; cbn [cl pcs holders releaser_at set_queue]; intros; eauto;
      unfold st_of in *; try rewrite lock_of_queue, client_lock_of_set; try done.
    + apply mi_call0 in H. case_decide; [subst; congruence|done].
    + apply mi_hold0 in H. case_decide; [subst; congruence|done].
  - destruct Hi. split; cbn; intros; eauto; congruence.
Qed.

Lemma careful_step_inv w e w' : mutex_inv w -> careful_step w e = Some w' -> mutex_inv w'.
Proof.
  intros Hi. unfold careful_step. destruct (leaves_calls_alone w e) eqn:Hg; [|done].
  destruct e as [tid lid|tid|tid ret|tid|tid lid|lid|lid| |ret]; cbn [step].
  - destruct (pcs w !! tid); [done|]. intros [= <-]. apply mutex_inv_same; try done.
    + by apply same_state_set.
    + intros t l. by apply lookup_not_call.
  - destruct (pcs w !! tid) as [[lid|lid|lid]|] eqn:Ep; try done.
    destruct (acquire_loop tid lid (cl w)) eqn:E. intros [= <-]. by eapply inv_loop.
  - destruct (pcs w !! tid) as [[lid|lid|lid]|] eqn:Ep; try done.
    destruct (acquire_reply lid ret (cl w)) eqn:E. intros [= <-]. by eapply inv_reply.
  - destruct (pcs w !! tid) as [[lid|lid|lid]|] eqn:Ep; try done. intros [= <-].
    unfold await_retry. case_match; apply mutex_inv_same; try done; intros t l; by apply lookup_not_call.
  - destruct (std_mem (lid, tid) (holders w)) eqn:Em; [|done]. intros [= <-].
    apply inv_release; [done|by apply std_mem_spec].
  - intros [= <-]. apply mutex_inv_same; try done. by apply same_state_set.
  - intros [= <-]. unfold retry. case_match; [|by apply mutex_inv_same].
    apply mutex_inv_same; try done. by apply same_state_set.
  - intros [= <-]. by apply inv_pick.
  - intros [= <-]. by apply inv_picked.
Qed.

(** C10: as long as the releaser leaves a lock alone for which a
    thread is asking the server, at most one thread of the client has the lock
    at a time, under every interleaving of its threads, the releaser and the
    server's revoke and retry requests. *)
Theorem client_mutual_exclusion es w lid t t' :
  exec careful_step world_new es = Some w ->
  (lid, t) ∈ holders w -> (lid, t') ∈ holders w -> t = t'.
Proof.
  intros He. apply (mi_one_hold w). eapply exec_invariant; [apply careful_step_inv| |exact He].
  split; cbn; intros; try done; try (by apply elem_of_nil in H).
Qed.

(** Threads 1 and 2 share the lock, which is then revoked. *)
Definition demo_events : list event :=
  [EEnter 1 7; EEnter 2 7; ELoop 1; EReply 1 lock_protocol.RETRY; ERetry 7; EAwait 1; ELoop 1;
   EReply 1 lock_protocol.OK; ELoop 2; ERelease 1 7; ELoop 2; ERevoke 7; EPick; ERelease 2 7;
   EPick; EPick; EPicked lock_protocol.OK].

Lemma client_mutual_exclusion_witness :
  exists w, exec careful_step world_new (take 11 demo_events) = Some w /\ holders w = [(7, 2)] /\
    forall t, (7, t) ∈ holders w -> t = 2.
Proof.
  destruct (exec careful_step world_new (take 11 demo_events)) as [w|] eqn:E;
    [|vm_compute in E; discriminate].
  assert (holders w = [(7, 2)]) as Hh by (vm_compute in E; injection E as <-; reflexivity).
  exists w. split; [reflexivity|]. split; [exact Hh|]. intros t Ht.
  apply (client_mutual_exclusion (take 11 demo_events) w 7 t 2 E Ht).
  rewrite Hh. apply list_elem_of_singleton. reflexivity.
Defined.

Lemma demo_events_return :
  match exec careful_step world_new demo_events with
  | Some w => holders w = [] /\ st_of (cl w) 7 = NONE /\ revoke_queue (cl w) = []
  | None => False
  end.
Proof. vm_compute. auto. Qed.

(** ** A lock that is being returned is not given out *)

Lemma to_be_revoked_set lid li c lid' :
  to_be_revoked (lock_of (set_lock lid li c) lid') =
  if decide (lid = lid') then to_be_revoked li else to_be_revoked (lock_of c lid').
Proof. rewrite client_lock_of_set. by case_decide. Qed.

(** The revocation is over only when the server has taken the lock back. *)
Lemma step_revoked w e w' lid :
  step w e = Some w' -> e <> EPicked lock_protocol.OK -> to_be_revoked (lock_of (cl w) lid) = true ->
  to_be_revoked (lock_of (cl w') lid) = true.
Proof.
  intros Hs He Hr.
  assert (forall l li, to_be_revoked li = to_be_revoked (lock_of (cl w) l) \/ to_be_revoked li = true ->
    to_be_revoked (lock_of (set_lock l li (cl w)) lid) = true) as Hset.
  { intros l li H. rewrite to_be_revoked_set. case_decide; [subst; destruct H; congruence|done]. }
  destruct e as [tid l|tid|tid ret|tid|tid l|l|l| |ret]; cbn [step] in Hs; simplify_eq/=.
  - repeat case_match; simplify_eq/=. apply Hset. by left.
  - repeat case_match; simplify_eq/=. unfold acquire_loop in *.
    repeat case_match; simplify_eq/=; try done; apply Hset; by left.
  - repeat case_match; simplify_eq/=. unfold acquire_reply in *.
    repeat case_match; simplify_eq/=; try done; apply Hset; by left.
  - repeat case_match; simplify_eq/=. by destruct (await_retry _ _).
  - repeat case_match; simplify_eq/=. apply Hset. by left.
  - apply Hset. by right.
  - unfold retry. case_match; [|done]. apply Hset. by left.
  - unfold releaser_next. repeat case_match; try done; cbn [snd]; rewrite lock_of_queue; try done;
      apply Hset; by left.
  - unfold releaser_done. destruct (releaser_at (cl w)); [done|].
    destruct (ret =? lock_protocol.OK) eqn:E; [|done]. to_prop. by subst.
Qed.

(** From the moment a revoke request for a lock has arrived
    until the server has taken the lock back, no thread of the client gets past
    [acquire] for it or asks the server for it. *)
Theorem revoked_lock_is_not_acquired w es w' tid lid :
  to_be_revoked (lock_of (cl w) lid) = true -> Forall (fun e => e <> EPicked lock_protocol.OK) es ->
  exec step w es = Some w' ->
  acquire_loop tid lid (cl w') = (Wait, cl w').
Proof.
  intros Hr Hes He.
  assert (to_be_revoked (lock_of (cl w') lid) = true) as Hr'.
  { revert w Hr He. induction Hes as [|e es Hne Hes IH]; intros w Hr; cbn; [by intros [= <-]|].
    destruct (step w e) as [w1|] eqn:E; [|done]. apply IH. by eapply step_revoked. }
  unfold acquire_loop. by rewrite Hr'.
Qed.

Lemma revoked_lock_is_not_acquired_witness :
  exists w w', exec step world_new (take 12 demo_events) = Some w /\
    exec step w [EPick; ERelease 2 7; EPick; EPick] = Some w' /\
    acquire_loop 3 7 (cl w') = (Wait, cl w').
Proof.
  destruct (exec step world_new (take 12 demo_events)) as [w|] eqn:E; [|vm_compute in E; discriminate].
  destruct (exec step w [EPick; ERelease 2 7; EPick; EPick]) as [w'|] eqn:E'.
  - exists w, w'. split; [reflexivity|]. split; [exact E'|].
    apply (revoked_lock_is_not_acquired w [EPick; ERelease 2 7; EPick; EPick] w' 3 7);
      [|repeat constructor; discriminate|exact E'].
    vm_compute in E. injection E as <-. reflexivity.
  - exfalso. vm_compute in E. injection E as <-. vm_compute in E'. discriminate.
Defined.

End lock_client_cache.

(** ** Clients and server together *)

Module lock_clients.
Import lock_client_cache.
Module S := lock_server_cache.

Definition after (w : world) (es : list event) : world := default world_new (exec step w es).

Definition server_after (s : S.state) (es : list S.event) : S.state := foldl S.step s es.

(** A revoke request can reach the client before the reply that
    grants it the lock (the header file says so).  The releaser then takes the
    lock although a thread of the client is asking for it: it returns the lock,
    the server grants it to B, and when the first reply is handled a thread of A
    has the lock too. *)
Theorem early_revoke_gives_two_holders :
  let granted := S.acquire S.cA 0 7 S.new in
  let a := after world_new [EEnter 1 7; ELoop 1] in
  let s := server_after granted.2 [S.EAcquire S.cB 0 7; S.ERevoke] in
  let a := after a [ERevoke 7] in
  let picked := releaser_next (cl a) in
  let released := S.release S.cA 1 7 s in
  let a := after a [EPick; EPicked released.1; EReply 1 granted.1] in
  let s := server_after released.2 [S.ERevoked 0; S.ERetry] in
  let regranted := S.acquire S.cB 1 7 s in
  let b := after world_new [EEnter 2 7; ELoop 2; EReply 2 lock_protocol.RETRY; ERetry 7; EAwait 2;
                            ELoop 2; EReply 2 regranted.1] in
  granted.1 = lock_protocol.OK /\ picked.1 = Some (7, 1) /\ released.1 = lock_protocol.OK /\
  regranted.1 = lock_protocol.OK /\ holders a = [(7, 1)] /\ holders b = [(7, 2)].
Proof. vm_compute. auto 10. Qed.

(** B and C ask for the lock A holds, C after the first revoke
    request has been answered, so a second one is queued for A.  When it is sent
    A has already returned the lock; A tries to return it again, the server
    refuses, and A is left with a lock that is to be returned: every thread of A
    that asks for it waits. *)
Theorem stale_revoke_blocks_client :
  let a := after world_new [EEnter 1 7; ELoop 1; EReply 1 lock_protocol.OK; ERevoke 7; EPick] in
  let s := server_after S.new
    [S.EAcquire S.cA 0 7; S.EAcquire S.cB 0 7; S.ERevoke; S.ERevoked 0; S.EAcquire S.cC 0 7] in
  let a := after a [ERelease 1 7; EPick; EPick; EPicked (S.release S.cA 1 7 s).1] in
  let s := (S.release S.cA 1 7 s).2 in
  let sent := S.revoker_next s in
  let a := after a [ERevoke 7; EPick] in
  let refused := S.release S.cA 2 7 sent.2 in
  let a := after a [EPicked refused.1] in
  sent.1 = Some (7, S.cA) /\ refused.1 = lock_protocol.RPCERR /\
  st_of (cl a) 7 = RELEASING /\ to_be_revoked (lock_of (cl a) 7) = true /\
  forall tid, acquire_loop tid 7 (acquire_enter tid 7 (cl a)) = (Wait, acquire_enter tid 7 (cl a)).
Proof. vm_compute. auto 10. Qed.

End lock_clients.
