(* ===== verification/Extent.v ===== *)
(** * Extent storage

    [extent_server] ([extent_server.cc]): a map from extent ids to contents
    and attributes; and [extent_client] ([extent_client.cc]), which inherits
    the same maps as a write-back cache in front of it.  [now] is what
    [time(0)] returns.  Each RPC of the client has a fate: it is carried out
    and answered, carried out while the answer is lost, or lost. *)

From stdpp Require Import gmap list strings.
From Stdlib Require Import ZArith Lia Ascii.
From S2P Require Import Prelude Text Marshall Rpc Protocols.

Local Open Scope Z_scope.

Module extent_server.

Record state := State {
  extents : gmap Z bytes;
  extent_attrs : gmap Z attr
}.

Definition new : state := State ∅ ∅.

(** [put]: status, [r], state *)
Definition put (id : Z) (buf : bytes) (a : attr) (s : state) : Z * Z * state :=
  (extent_protocol.OK, extent_protocol.OK,
   State (<[id := buf]> (extents s)) (<[id := a]> (extent_attrs s))).

(** [get]: status and [buf], which is left alone on error *)
Definition get (now id : Z) (buf : bytes) (s : state) : Z * bytes * state :=
  match extents s !! id, extent_attrs s !! id with
  | Some b, Some a =>
      (extent_protocol.OK, b,
       State (extents s) (<[id := Attr (u32 now) (mtime a) (ctime a) (asize a)]> (extent_attrs s)))
  | _, _ => (extent_protocol.NOENT, buf, s)
  end.

Definition getattr (id : Z) (a : attr) (s : state) : Z * attr :=
  match extent_attrs s !! id with
  | Some a' => (extent_protocol.OK, a')
  | None => (extent_protocol.NOENT, a)
  end.

Definition remove (id : Z) (s : state) : Z * Z * state :=
  match extents s !! id with
  | Some _ => (extent_protocol.OK, extent_protocol.OK,
               State (delete id (extents s)) (delete id (extent_attrs s)))
  | None => (extent_protocol.NOENT, extent_protocol.NOENT, s)
  end.

(** [setattr]: status, and [r] when it is set *)
Definition setattr (id : Z) (a : attr) (s : state) : Z * option Z * state :=
  match extent_attrs s !! id with
  | Some _ => (extent_protocol.OK, Some extent_protocol.OK,
               State (extents s) (<[id := a]> (extent_attrs s)))
  | None => (extent_protocol.NOENT, None, s)
  end.

(** Contents and attributes are kept for the same ids. *)
Definition paired (s : state) : Prop :=
  forall id, is_Some (extents s !! id) <-> is_Some (extent_attrs s !! id).

(** The size attribute is the length of the contents, as a 32-bit number. *)
Definition sized (s : state) : Prop :=
  forall id b a, extents s !! id = Some b -> extent_attrs s !! id = Some a ->
    asize a = u32 (Z.of_nat (length b)).

Lemma new_sized : sized new.
Proof. intros id b a. cbn. by rewrite lookup_empty. Qed.

Lemma put_sized id buf a s :
  sized s -> asize a = u32 (Z.of_nat (length buf)) -> sized (put id buf a s).2.
Proof.
  intros Hs Ha k b a'. cbn. destruct (decide (id = k)) as [->|].
  - rewrite !lookup_insert_eq. by intros [= <-] [= <-].
  - rewrite !lookup_insert_ne by done. apply Hs.
Qed.

Lemma get_sized now id buf s : sized s -> sized (get now id buf s).2.
Proof.
  intros Hs. unfold get. destruct (extents s !! id) eqn:E1, (extent_attrs s !! id) eqn:E2; try done.
  intros k b' a'. cbn. destruct (decide (id = k)) as [->|].
  - rewrite lookup_insert_eq, E1. intros [= <-] [= <-]. cbn. by apply (Hs k).
  - rewrite lookup_insert_ne by done. apply Hs.
Qed.

Lemma remove_sized id s : sized s -> sized (remove id s).2.
Proof.
  intros Hs. unfold remove. destruct (extents s !! id) eqn:E; [|done]. intros k b a. cbn.
  destruct (decide (id = k)) as [->|]; [by rewrite lookup_delete_eq|].
  rewrite !lookup_delete_ne by done. apply Hs.
Qed.

Lemma new_paired : paired new.
Proof. intros id. cbn. rewrite !lookup_empty. done. Qed.

Lemma put_paired id buf a s : paired s -> paired (put id buf a s).2.
Proof.
  intros H k. cbn. destruct (decide (id = k)) as [->|].
  - rewrite !lookup_insert_eq. done.
  - rewrite !lookup_insert_ne by done. apply H.
Qed.

Lemma get_paired now id buf s : paired s -> paired (get now id buf s).2.
Proof.
  intros H k. unfold get. destruct (extents s !! id) eqn:E1, (extent_attrs s !! id) eqn:E2; try apply H.
  cbn. destruct (decide (id = k)) as [->|].
  - rewrite lookup_insert_eq, E1. done.
  - rewrite lookup_insert_ne by done. apply H.
Qed.

Lemma remove_paired id s : paired s -> paired (remove id s).2.
Proof.
  intros H k. unfold remove. destruct (extents s !! id) eqn:E; [|apply H]. cbn.
  destruct (decide (id = k)) as [->|].
  - rewrite !lookup_delete_eq. done.
  - rewrite !lookup_delete_ne by done. apply H.
Qed.

(** The server is a map: [get] and [getattr] give back the last
    [put], after [remove] they give [NOENT], other extents are not touched, and
    [remove] of an extent that is not there is an error that changes nothing. *)
Theorem extent_store_is_a_map now id id' buf b0 a a0 s :
  paired s ->
  (get now id b0 (put id buf a s).2).1 = (extent_protocol.OK, buf) /\
  getattr id a0 (put id buf a s).2 = (extent_protocol.OK, a) /\
  (get now id b0 (remove id s).2).1 = (extent_protocol.NOENT, b0) /\
  getattr id a0 (remove id s).2 = (extent_protocol.NOENT, a0) /\
  ((remove id s).1.1 = extent_protocol.NOENT <-> extents s !! id = None) /\
  (id' <> id -> (get now id' b0 (put id buf a s).2).1 = (get now id' b0 s).1 /\
                (get now id' b0 (remove id s).2).1 = (get now id' b0 s).1).
Proof.
  intros Hp. unfold get, getattr, put, remove. cbn. rewrite !lookup_insert_eq.
  split; [done|]. split; [done|].
  assert (extents s !! id = None -> extent_attrs s !! id = None) as Hn.
  { intros H. apply eq_None_not_Some. intros H'. apply Hp in H'. rewrite H in H'. by destruct H'. }
  destruct (extents s !! id) eqn:E; cbn.
  - rewrite !lookup_delete_eq. do 3 (split; [done|]). intros Hne.
    rewrite !lookup_insert_ne, !lookup_delete_ne by done. by repeat case_match.
  - rewrite E, (Hn eq_refl). do 3 (split; [done|]). intros Hne.
    rewrite !lookup_insert_ne by done. by repeat case_match.
Qed.

Lemma extent_store_is_a_map_witness :
  (get 9 2 [] (put 2 (str "x") (Attr 1 2 3 1) (State ∅ ∅)).2).1 = (extent_protocol.OK, str "x").
Proof. exact (proj1 (extent_store_is_a_map 9 2 3 (str "x") [] (Attr 1 2 3 1) (Attr 0 0 0 0) (State ∅ ∅) new_paired)). Defined.

End extent_server.

Module extent_client.
Import extent_server(state, State, extents, extent_attrs).

(** What becomes of an RPC. *)
Inductive fate := Done | ReplyLost | Lost.

(** [cl->call]: what the caller gets is [None] when no reply arrives *)
Definition rpc {R} (f : fate) (run : state -> R * state) (srv : state) : option R * state :=
  match f with
  | Done => let '(r, srv) := run srv in (Some r, srv)
  | ReplyLost => (None, (run srv).2)
  | Lost => (None, srv)
  end.

(** [extent_client] inherits the maps of [extent_server] *)
Record client := Client {
  base : state;
  modified_extents : list Z;
  modified_extent_attributes : list Z;
  removed_extents : list Z;
  waiting_threads : gmap Z (list Z)
}.

Definition new : client := Client extent_server.new [] [] [] ∅.

Definition set_base (b : state) (c : client) : client :=
  Client b (modified_extents c) (modified_extent_attributes c) (removed_extents c) (waiting_threads c).

Definition set_waiting (w : gmap Z (list Z)) (c : client) : client :=
  Client (base c) (modified_extents c) (modified_extent_attributes c) (removed_extents c) w.

(** [put_thread_to_wait_if_needed]: queues the thread; [true] when it has to
    wait for its turn *)
Definition put_thread_to_wait_if_needed (tid eid : Z) (c : client) : bool * client :=
  let q := push_unique tid (map_get [] (waiting_threads c) eid) in
  let c := set_waiting (<[eid := q]> (waiting_threads c)) c in
  (negb (bool_decide (head q = Some tid)), c).

Definition unlock_mutex_and_deque_thread (tid eid : Z) (c : client) : client :=
  set_waiting (<[eid := list_remove_all tid (map_get [] (waiting_threads c) eid)]>
                 (waiting_threads c)) c.

Definition add_extent_to_modified_queues (eid : Z) (c : client) : client :=
  Client (base c) (push_unique eid (modified_extents c))
    (push_unique eid (modified_extent_attributes c)) (erase_first eid (removed_extents c))
    (waiting_threads c).

(** [get_and_cache_extent_from_server]: status, [buf] and [attr], which a
    failed call leaves alone; [f1] and [f2] are the fates of its two calls *)
Definition get_and_cache_extent_from_server (f1 f2 : fate) (now eid : Z) (buf : bytes) (a : attr)
    (c : client) (srv : state) : Z * bytes * attr * client * state :=
  match rpc f1 (extent_server.get now eid []) srv with
  | (None, srv) => (rpc_const.timeout_failure, buf, a, c, srv)
  | (Some (ret, buf), srv) =>
      if ret =? extent_protocol.OK then
        match rpc f2 (fun s => (extent_server.getattr eid (Attr 0 0 0 0) s, s)) srv with
        | (None, srv) => (rpc_const.timeout_failure, buf, a, c, srv)
        | (Some (ret, a), srv) =>
            if ret =? extent_protocol.OK then
              let c := set_base (State (<[eid := buf]> (extents (base c)))
                                   (<[eid := a]> (extent_attrs (base c)))) c in
              (ret, buf, a, add_extent_to_modified_queues eid c, srv)
            else (ret, buf, a, c, srv)
        end
      else (ret, buf, a, c, srv)
  end.

(** A call of the client: [None] when the thread has to wait in the queue. *)
Definition queued {R} (tid eid : Z) (body : client -> R * client * state) (c : client)
  : option (R * client * state) :=
  let '(waits, c) := put_thread_to_wait_if_needed tid eid c in
  if waits then None
  else let '(r, c, srv) := body c in Some (r, unlock_mutex_and_deque_thread tid eid c, srv).

(** ** The operations; the result is the status and the output parameter *)

Definition get_body (f1 f2 : fate) (now eid : Z) (buf : bytes) (srv : state) (c : client)
  : (Z * bytes) * client * state :=
  if map_has (extents (base c)) eid then
    let '(ret, buf, b) := extent_server.get now eid buf (base c) in ((ret, buf), set_base b c, srv)
  else
    let '(ret, buf, _, c, srv) :=
      get_and_cache_extent_from_server f1 f2 now eid buf (Attr 0 0 0 0) c srv in
    ((ret, buf), c, srv).

Definition get (tid : Z) (f1 f2 : fate) (now eid : Z) (buf : bytes) (c : client) (srv : state)
  : option ((Z * bytes) * client * state) :=
  queued tid eid (get_body f1 f2 now eid buf srv) c.

Definition getattr_body (f1 f2 : fate) (now eid : Z) (a : attr) (srv : state) (c : client)
  : (Z * attr) * client * state :=
  if map_has (extent_attrs (base c)) eid then (extent_server.getattr eid a (base c), c, srv)
  else
    let '(ret, _, a, c, srv) := get_and_cache_extent_from_server f1 f2 now eid [] a c srv in
    ((ret, a), c, srv).

Definition getattr (tid : Z) (f1 f2 : fate) (now eid : Z) (a : attr) (c : client) (srv : state)
  : option ((Z * attr) * client * state) :=
  queued tid eid (getattr_body f1 f2 now eid a srv) c.

Definition put_body (now eid : Z) (buf : bytes) (srv : state) (c : client) : Z * client * state :=
  let a := Attr (u32 now) (u32 now) (u32 now) (u32 (Z.of_nat (length buf))) in
  let '(ret, _, b) := extent_server.put eid buf a (base c) in
  let c := set_base b c in
  (ret, if ret =? extent_protocol.OK then add_extent_to_modified_queues eid c else c, srv).

Definition put (tid now eid : Z) (buf : bytes) (c : client) (srv : state)
  : option (Z * client * state) := queued tid eid (put_body now eid buf srv) c.

Definition remove_body (eid : Z) (srv : state) (c : client) : Z * client * state :=
  let '(ret, _, b) := extent_server.remove eid (base c) in
  let c := set_base b c in
  (ret,
   if ret =? extent_protocol.OK then
     Client (base c) (erase_first eid (modified_extents c))
       (erase_first eid (modified_extent_attributes c)) (removed_extents c ++ [eid])
       (waiting_threads c)
   else c, srv).

Definition remove (tid eid : Z) (c : client) (srv : state) : option (Z * client * state) :=
  queued tid eid (remove_body eid srv) c.

(** the first half of [flush]: a modified extent is written back *)
Definition flush_modified (f : fate) (eid : Z) (c : client) (srv : state) : client * state :=
  if std_mem eid (modified_extents c) then
    let buf := map_get [] (extents (base c)) eid in
    let a := map_get (Attr 0 0 0 0) (extent_attrs (base c)) eid in
    match rpc f (extent_server.put eid buf a) srv with
    | (Some (ret, _), srv) =>
        (if ret =? extent_protocol.OK then
           Client (State (delete eid (extents (base c))) (delete eid (extent_attrs (base c))))
             (list_remove_all eid (modified_extents c))
             (list_remove_all eid (modified_extent_attributes c)) (removed_extents c)
             (waiting_threads c)
         else c, srv)
    | (None, srv) => (c, srv)
    end
  else (c, srv).

(** the second half: a removed one is removed at the server *)
Definition flush_removed (f : fate) (eid : Z) (c : client) (srv : state) : client * state :=
  if std_mem eid (removed_extents c) then
    match rpc f (extent_server.remove eid) srv with
    | (Some (ret, _), srv) =>
        (if ret =? extent_protocol.OK then
           Client (base c) (modified_extents c) (modified_extent_attributes c)
             (list_remove_all eid (removed_extents c)) (waiting_threads c)
         else c, srv)
    | (None, srv) => (c, srv)
    end
  else (c, srv).

Definition flush_body (f1 f2 : fate) (eid : Z) (srv : state) (c : client)
  : unit * client * state :=
  let '(c, srv) := flush_modified f1 eid c srv in
  let '(c, srv) := flush_removed f2 eid c srv in ((), c, srv).

Definition flush (tid : Z) (f1 f2 : fate) (eid : Z) (c : client) (srv : state)
  : option (unit * client * state) := queued tid eid (flush_body f1 f2 eid srv) c.


(** ** The invariant of the cache *)

Record cache_ok (c : client) : Prop := {
  co_paired : extent_server.paired (base c);
  co_modified : forall eid, is_Some (extents (base c) !! eid) <-> eid ∈ modified_extents c;
  co_attrs : forall eid, eid ∈ modified_extent_attributes c <-> eid ∈ modified_extents c;
  co_nodup : NoDup (modified_extents c) /\ NoDup (modified_extent_attributes c) /\
             NoDup (removed_extents c);
  co_removed : forall eid, eid ∈ removed_extents c -> ~ eid ∈ modified_extents c
}.

Definition no_waiter (c : client) : Prop := forall eid, map_get [] (waiting_threads c) eid = [].

Lemma cache_ok_waiting c w : cache_ok c -> cache_ok (set_waiting w c).
Proof. intros []. by split. Qed.

Lemma enter_no_waiter tid eid c :
  no_waiter c -> put_thread_to_wait_if_needed tid eid c =
    (false, set_waiting (<[eid := [tid]]> (waiting_threads c)) c).
Proof.
  intros H. unfold put_thread_to_wait_if_needed. rewrite H.
  change (push_unique tid []) with [tid]. cbn.
  by rewrite bool_decide_true.
Qed.

(** The queue of threads is empty whenever the mutex is free: a call never
    waits in it, and leaves it empty. *)
Lemma queued_runs {R} tid eid (body : client -> R * client * state) c :
  no_waiter c -> (forall c, waiting_threads (body c).1.2 = waiting_threads c) ->
  exists r c' srv' c2, queued tid eid body c = Some (r, c', srv') /\ no_waiter c' /\
    body (set_waiting (<[eid := [tid]]> (waiting_threads c)) c) = (r, c2, srv') /\
    c' = set_waiting (waiting_threads c') c2.
Proof.
  intros Hw Hb. unfold queued. rewrite enter_no_waiter by done.
  set (c1 := set_waiting (<[eid := [tid]]> (waiting_threads c)) c).
  specialize (Hb c1). destruct (body c1) as [[r c2] srv'] eqn:E. cbn in Hb.
  exists r, (unlock_mutex_and_deque_thread tid eid c2), srv', c2. split; [done|].
  split; [|by split].
  intros k. unfold unlock_mutex_and_deque_thread. cbn. rewrite Hb. unfold c1; cbn.
  destruct (decide (eid = k)) as [->|].
  - rewrite map_get_insert_eq, map_get_insert_eq. unfold list_remove_all.
    by rewrite filter_cons_False by (by intros H).
  - rewrite !map_get_insert_ne by done. apply Hw.
Qed.

Section Bodies.
Context (c : client) (Hc : cache_ok c).

Lemma cache_insert_ok eid b a :
  cache_ok (add_extent_to_modified_queues eid
    (set_base (State (<[eid := b]> (extents (base c))) (<[eid := a]> (extent_attrs (base c)))) c)).
Proof.
  destruct Hc as [H1 H2 H3 (H4 & H5 & H6) H7]. split; cbn.
  - apply (extent_server.put_paired eid b a (base c) H1).
  - intros k. rewrite push_unique_spec, <- H2. rewrite lookup_insert_is_Some'. naive_solver.
  - intros k. rewrite !push_unique_spec, H3. done.
  - split_and!; [by apply push_unique_NoDup..|]. by apply erase_first_NoDup.
  - intros k Hk. rewrite push_unique_spec. destruct (decide (k = eid)) as [->|Hne].
    + exfalso. by apply (proj2 (erase_first_NoDup eid _ H6)).
    + rewrite erase_first_other in Hk by done. apply H7 in Hk. naive_solver.
Qed.

Lemma cache_get_ok now eid buf : cache_ok (set_base (extent_server.get now eid buf (base c)).2 c).
Proof.
  destruct Hc as [H1 H2 H3 H4 H5]. split; cbn; try done.
  - by apply extent_server.get_paired.
  - intros k. rewrite <- H2. unfold extent_server.get. by repeat case_match.
Qed.

Lemma fetch_ok f1 f2 now eid buf a srv :
  cache_ok (get_and_cache_extent_from_server f1 f2 now eid buf a c srv).1.2.
Proof.
  unfold get_and_cache_extent_from_server. repeat case_match; cbn; try done. apply cache_insert_ok.
Qed.

Lemma remove_ok eid :
  is_Some (extents (base c) !! eid) ->
  cache_ok (Client (extent_server.remove eid (base c)).2 (erase_first eid (modified_extents c))
     (erase_first eid (modified_extent_attributes c)) (removed_extents c ++ [eid]) (waiting_threads c)).
Proof.
  intros Hin. destruct Hc as [H1 H2 H3 (H4 & H5 & H6) H7].
  destruct (erase_first_NoDup eid _ H4) as [N1 N2], (erase_first_NoDup eid _ H5) as [N3 N4].
  split; cbn.
  - by apply extent_server.remove_paired.
  - intros k. unfold extent_server.remove. destruct Hin as [b Hb]. rewrite Hb. cbn.
    destruct (decide (k = eid)) as [->|Hne].
    + rewrite lookup_delete_eq. split; [by intros []|done].
    + rewrite lookup_delete_ne, erase_first_other by done. apply H2.
  - intros k. destruct (decide (k = eid)) as [->|Hne]; [done|]. rewrite !erase_first_other by done. apply H3.
  - split_and!; [done..|]. apply NoDup_app. split_and!; [done| |apply NoDup_singleton].
    intros k Hk ->%list_elem_of_singleton. apply H7 in Hk. by apply Hk, H2.
  - intros k [Hk| ->%list_elem_of_singleton]%elem_of_app; [|done].
    intros Hm. apply (H7 k Hk). by apply erase_first_subseteq in Hm.
Qed.

Lemma flush_modified_ok f eid srv : cache_ok (flush_modified f eid c srv).1.
Proof.
  unfold flush_modified. destruct (std_mem _ _); [|done].
  destruct (rpc _ _ _) as [[[ret r]|] srv']; [|done]. destruct (ret =? _); [|done].
  destruct Hc as [H1 H2 H3 (H4 & H5 & H6) H7].
  split; cbn.
  - intros k. cbn. destruct (decide (k = eid)) as [->|]; [by rewrite !lookup_delete_eq|].
    rewrite !lookup_delete_ne by done. apply H1.
  - intros k. rewrite list_remove_all_spec, <- H2. destruct (decide (k = eid)) as [->|].
    + rewrite lookup_delete_eq. split; [by intros []|naive_solver].
    + rewrite lookup_delete_ne by done. naive_solver.
  - intros k. rewrite !list_remove_all_spec, H3. done.
  - split_and!; [by apply list_remove_all_NoDup..|done].
  - intros k Hk. rewrite list_remove_all_spec. apply H7 in Hk. naive_solver.
Qed.

Lemma flush_removed_ok f eid srv : cache_ok (flush_removed f eid c srv).1.
Proof.
  unfold flush_removed. destruct (std_mem _ _); [|done].
  destruct (rpc _ _ _) as [[[ret r]|] srv']; [|done]. destruct (ret =? _); [|done].
  destruct Hc as [H1 H2 H3 (H4 & H5 & H6) H7].
  split; cbn; try done.
  - split_and!; [done..|]. by apply list_remove_all_NoDup.
  - intros k [Hk _]%list_remove_all_spec. auto.
Qed.
End Bodies.


(** ** What the client sees *)

(** The contents of an extent as its client sees them: its cache, unless it
    removed the extent, over the server. *)
Definition view (c : client) (srv : state) (eid : Z) : option bytes :=
  match extents (base c) !! eid with
  | Some b => Some b
  | None => if std_mem eid (removed_extents c) then None else extents srv !! eid
  end.

Definition good (c : client) : Prop := cache_ok c /\ no_waiter c.

Lemma new_good : good new.
Proof.
  split; [split; cbn|intros eid; done].
  - apply extent_server.new_paired.
  - intros eid. rewrite lookup_empty. split; [by intros []|set_solver].
  - set_solver.
  - split_and!; constructor.
  - set_solver.
Qed.

Lemma view_waiting c w srv eid : view (set_waiting w c) srv eid = view c srv eid.
Proof. done. Qed.

(** Running a body that keeps the cache in order. *)
Lemma queued_good {R} tid eid (body : client -> R * client * state) c :
  good c -> (forall c, waiting_threads (body c).1.2 = waiting_threads c) ->
  (forall c, cache_ok c -> cache_ok (body c).1.2) ->
  exists r c' srv' c2, queued tid eid body c = Some (r, c', srv') /\ good c' /\
    body (set_waiting (<[eid := [tid]]> (waiting_threads c)) c) = (r, c2, srv') /\
    c' = set_waiting (waiting_threads c') c2.
Proof.
  intros [Hc Hw] Hb Hk.
  destruct (queued_runs tid eid body c Hw Hb) as (r & c' & srv' & c2 & Hq & Hw' & E & Hc').
  exists r, c', srv', c2. split_and!; [done|split; [|done]|done|done].
  rewrite Hc'. apply cache_ok_waiting.
  pose proof (Hk _ (cache_ok_waiting c (<[eid := [tid]]> (waiting_threads c)) Hc)) as H. by rewrite E in H.
Qed.

Lemma fetch_waiting f1 f2 now eid buf a c srv :
  waiting_threads (get_and_cache_extent_from_server f1 f2 now eid buf a c srv).1.2 = waiting_threads c.
Proof. unfold get_and_cache_extent_from_server. by repeat case_match. Qed.

(** What a fetch that gets through returns and does to the view. *)
Lemma fetch_done now eid buf a c srv :
  extent_server.paired srv -> extents (base c) !! eid = None -> (~ eid ∈ removed_extents c) ->
  exists ret buf' a' c' srv',
    get_and_cache_extent_from_server Done Done now eid buf a c srv = (ret, buf', a', c', srv') /\
    match view c srv eid with
    | Some b => ret = extent_protocol.OK /\ buf' = b
    | None => ret = extent_protocol.NOENT
    end /\
    extents srv' = extents srv /\
    forall k, view c' srv' k = view c srv k.
Proof.
  intros Hp He Hr. unfold get_and_cache_extent_from_server, rpc, extent_server.get, view.
  assert (std_mem eid (removed_extents c) = false) as Hm by (by apply bool_decide_eq_false).
  rewrite He, Hm. destruct (extents srv !! eid) as [b|] eqn:Es.
  - assert (is_Some (extent_attrs srv !! eid)) as [a1 Ha] by (apply Hp; by rewrite Es).
    rewrite Ha. cbn [Z.eqb extent_protocol.OK]. unfold extent_server.getattr. cbn [extent_attrs].
    rewrite lookup_insert_eq. cbn [Z.eqb extent_protocol.OK].
    do 5 eexists. split; [done|]. split; [done|]. split; [done|].
    intros k. cbn. destruct (decide (k = eid)) as [->|Hne].
    + by rewrite lookup_insert_eq, He, Hm, Es.
    + rewrite lookup_insert_ne by done. destruct (extents (base c) !! k); [done|].
      unfold std_mem. by rewrite (bool_decide_ext _ _ (erase_first_other eid k _ Hne)).
  - cbn. do 5 eexists. split; [done|]. split; [done|]. split; [done|]. done.
Qed.

(** What a [get] that gets through does. *)
Lemma get_done tid now eid c srv :
  good c -> extent_server.paired srv -> (~ eid ∈ removed_extents c) ->
  exists ret buf c' srv',
    get tid Done Done now eid [] c srv = Some ((ret, buf), c', srv') /\ good c' /\
    match view c srv eid with
    | Some b => ret = extent_protocol.OK /\ buf = b
    | None => ret = extent_protocol.NOENT
    end /\
    extents srv' = extents srv /\ forall k, view c' srv' k = view c srv k.
Proof.
  intros Hg Hp Hr. unfold get.
  destruct (queued_good tid eid (get_body Done Done now eid [] srv) c Hg) as (r & c' & srv' & c2 & Hq & Hg' & Hb & Hc').
  { intros c0. unfold get_body. case_match.
    - by destruct (extent_server.get now eid [] (base c0)) as [[? ?] ?].
    - pose proof (fetch_waiting Done Done now eid [] (Attr 0 0 0 0) c0 srv) as H0.
      by destruct (get_and_cache_extent_from_server _ _ _ _ _ _ c0 srv) as [[[[? ?] ?] ?] ?]. }
  { intros c0 H0. unfold get_body. case_match.
    - pose proof (cache_get_ok c0 H0 now eid []) as H1.
      by destruct (extent_server.get now eid [] (base c0)) as [[? ?] ?].
    - pose proof (fetch_ok c0 H0 Done Done now eid [] (Attr 0 0 0 0) srv) as H1.
      by destruct (get_and_cache_extent_from_server _ _ _ _ _ _ c0 srv) as [[[[? ?] ?] ?] ?]. }
  set (c1 := set_waiting (<[eid := [tid]]> (waiting_threads c)) c) in Hb.
  destruct r as [ret buf]. exists ret, buf, c', srv'. split; [done|]. split; [done|].
  assert (forall k, view c' srv' k = view c2 srv' k) as Hv by (intros k; rewrite Hc'; done).
  unfold get_body in Hb. destruct (map_has (extents (base c1)) eid) eqn:Em.
  - apply map_has_true in Em as [b Eb]. cbn in Eb.
    assert (is_Some (extent_attrs (base c) !! eid)) as [a Ea].
    { apply (co_paired c (proj1 Hg)). by rewrite Eb. }
    unfold extent_server.get in Hb. cbn in Hb. rewrite Eb, Ea in Hb. injection Hb as <- <- <- <-.
    unfold view at 1. rewrite Eb. split; [done|]. split; [done|]. intros k. by rewrite Hv.
  - apply map_has_false in Em.
    destruct (fetch_done now eid [] (Attr 0 0 0 0) c1 srv Hp Em Hr)
      as (ret0 & buf0 & a0 & c0 & srv0 & Hf & Hret & Hs & Hview).
    rewrite Hf in Hb. injection Hb as <- <- <- <-. split; [done|]. split; [done|].
    intros k. by rewrite Hv, Hview.
Qed.


Lemma std_mem_other {A} `{EqDecision A} (x y : A) l l' :
  (y ∈ l <-> y ∈ l') -> std_mem y l = std_mem y l'.
Proof. intros H0. unfold std_mem. by apply bool_decide_ext. Qed.

(** What [put] and [remove] do. *)
Lemma updates_done tid now eid buf c srv :
  good c ->
  (exists c', put tid now eid buf c srv = Some (extent_protocol.OK, c', srv) /\ good c' /\
     forall k, view c' srv k = if decide (k = eid) then Some buf else view c srv k) /\
  (exists ret c', remove tid eid c srv = Some (ret, c', srv) /\ good c' /\
     (ret = extent_protocol.OK <-> is_Some (extents (base c) !! eid)) /\
     (ret = extent_protocol.OK \/ ret = extent_protocol.NOENT) /\
     forall k, view c' srv k =
       if decide (k = eid /\ ret = extent_protocol.OK) then None else view c srv k).
Proof.
  intros Hg. split.
  - destruct (queued_good tid eid (put_body now eid buf srv) c Hg) as (r & c' & srv' & c2 & Hq & Hg' & Hb & Hc').
    { done. }
    { intros c0 H0. apply (cache_insert_ok c0 H0). }
    injection Hb as <- <- <-. exists c'. split; [done|]. split; [done|]. intros k. rewrite Hc'.
    unfold view. cbn. case_decide as E; [subst; by rewrite lookup_insert_eq|].
    rewrite lookup_insert_ne by done. destruct (extents (base c) !! k); [done|].
    by rewrite (std_mem_other eid k _ _ (erase_first_other eid k _ E)).
  - destruct (queued_good tid eid (remove_body eid srv) c Hg) as (r & c' & srv' & c2 & Hq & Hg' & Hb & Hc').
    { intros c0. unfold remove_body, extent_server.remove. by destruct (extents (base c0) !! eid). }
    { intros c0 H0. unfold remove_body. destruct (extents (base c0) !! eid) as [b|] eqn:E.
      - pose proof (remove_ok c0 H0 eid ltac:(by rewrite E)) as H1.
        unfold extent_server.remove in *. by rewrite E in *.
      - unfold extent_server.remove. rewrite E. cbn. destruct H0. by split. }
    unfold remove_body, extent_server.remove in Hb. cbn in Hb.
    assert (forall k, view c' srv' k = view c2 srv' k) as Hv by (intros k; rewrite Hc'; done).
    destruct (extents (base c) !! eid) as [b|] eqn:E; cbn in Hb; injection Hb as <- <- <-.
    + eexists _, c'. split; [done|]. split; [done|]. split; [split; [by eexists|done]|]. split; [by left|].
      intros k. rewrite Hv. unfold view. cbn. destruct (decide (k = eid)) as [->|Hne].
      * rewrite decide_True by done. rewrite lookup_delete_eq. unfold std_mem.
        by rewrite bool_decide_true by set_solver.
      * rewrite decide_False by naive_solver. rewrite lookup_delete_ne by done.
        destruct (extents (base c) !! k); [done|].
        by rewrite (std_mem_other eid k _ (removed_extents c)) by set_solver.
    + eexists _, c'. split; [done|]. split; [done|]. split.
      { split; [done|by intros []]. }
      split; [by right|]. intros k. rewrite Hv. rewrite decide_False by naive_solver. done.
Qed.

(** ** What calls keep, whatever they return *)

Lemma queued_inv {R} tid eid (body : client -> R * client * state) c r c' srv' :
  queued tid eid body c = Some (r, c', srv') ->
  exists c2 w w', body (set_waiting w c) = (r, c2, srv') /\ c' = set_waiting w' c2.
Proof.
  unfold queued, put_thread_to_wait_if_needed. intros H.
  case_match; [done|]. destruct (body _) as [[r0 c2] srv0] eqn:E.
  injection H as <- <- <-. by eexists c2, _, _.
Qed.

(** The size attributes are right in the cache and at the server. *)
Definition all_sized (c : client) (srv : state) : Prop :=
  extent_server.sized (base c) /\ extent_server.sized srv.

Lemma fetch_frame now eid buf a c srv :
  let '(ret, buf', a', c', srv') := get_and_cache_extent_from_server Done Done now eid buf a c srv in
  (extent_server.paired srv -> extent_server.paired srv') /\
  (all_sized c srv -> all_sized c' srv' /\
     (ret = extent_protocol.OK -> asize a' = u32 (Z.of_nat (length buf')))) /\
  removed_extents c' ⊆ removed_extents c.
Proof.
  unfold get_and_cache_extent_from_server. cbn [rpc].
  pose proof (extent_server.get_paired now eid [] srv) as Hp.
  pose proof (extent_server.get_sized now eid [] srv) as Hs.
  destruct (extent_server.get now eid [] srv) as [[ret b] srv'] eqn:E. cbn in Hp, Hs.
  destruct (ret =? extent_protocol.OK) eqn:Er; to_prop.
  2: { split; [done|]. split; [|done]. intros [? ?]. split; [split; auto|congruence]. }
  unfold extent_server.get in E.
  destruct (extents srv !! eid) as [b0|] eqn:E1; [|by injection E; intros; subst].
  destruct (extent_attrs srv !! eid) as [a0|] eqn:E2; [|by injection E; intros; subst].
  injection E as _ <- <-. unfold extent_server.getattr. cbn. rewrite lookup_insert_eq. cbn.
  split; [done|]. split; [|apply erase_first_subseteq].
  intros [Hc Hsrv]. specialize (Hs Hsrv).
  assert (asize a0 = u32 (Z.of_nat (length b0))) as Ha by (by apply (Hsrv eid)).
  split; [split; [|done]|done]. by apply (extent_server.put_sized eid b0 _ (base c)).
Qed.

Lemma get_frame tid now eid buf c srv r c' srv' :
  get tid Done Done now eid buf c srv = Some (r, c', srv') ->
  (extent_server.paired srv -> extent_server.paired srv') /\
  (all_sized c srv -> all_sized c' srv') /\ removed_extents c' ⊆ removed_extents c.
Proof.
  intros (c2 & w & w' & H & ->)%queued_inv. unfold get_body in H. case_match.
  - cbn in H. pose proof (extent_server.get_sized now eid buf (base c)) as Hs.
    destruct (extent_server.get now eid buf (base c)) as [[? ?] ?]. injection H as <- <- <-.
    split; [done|]. split; [|done]. intros [? ?]. split; [by apply Hs|done].
  - pose proof (fetch_frame now eid buf (Attr 0 0 0 0) (set_waiting w c) srv) as Hf.
    destruct (get_and_cache_extent_from_server _ _ _ _ _ _ _ _) as [[[[? ?] ?] ?] ?].
    injection H as <- <- <-. destruct Hf as (? & Hs & ?). split; [done|]. split; [|done].
    intros Ha. by apply Hs.
Qed.

Lemma put_frame tid now eid buf c srv r c' srv' :
  put tid now eid buf c srv = Some (r, c', srv') ->
  (all_sized c srv -> all_sized c' srv') /\ removed_extents c' = erase_first eid (removed_extents c).
Proof.
  intros (c2 & w & w' & H & ->)%queued_inv. injection H as <- <- <-. split; [|done].
  intros [H1 H2]. split; [|done]. by apply (extent_server.put_sized eid buf _ (base c)).
Qed.

Lemma remove_frame tid eid c srv r c' srv' :
  remove tid eid c srv = Some (r, c', srv') ->
  (all_sized c srv -> all_sized c' srv') /\
  (forall k, k <> eid -> k ∈ removed_extents c' -> k ∈ removed_extents c).
Proof.
  intros (c2 & w & w' & H & ->)%queued_inv. unfold remove_body in H. cbn in H.
  pose proof (extent_server.remove_sized eid (base c)) as Hs.
  destruct (extent_server.remove eid (base c)) as [[ret0 r0] b]. injection H as <- <- <-.
  split; [intros [? ?]; split; [|done]; case_match; by apply Hs|].
  intros k Hne. case_match; cbn; set_solver.
Qed.

(** What a [getattr] that gets through returns. *)
Lemma getattr_done tid now eid a c srv :
  good c -> extent_server.paired srv -> all_sized c srv -> (~ eid ∈ removed_extents c) ->
  exists ret a' c' srv',
    getattr tid Done Done now eid a c srv = Some ((ret, a'), c', srv') /\ good c' /\
    extent_server.paired srv' /\ all_sized c' srv' /\ removed_extents c' ⊆ removed_extents c /\
    match view c srv eid with
    | Some b => ret = extent_protocol.OK /\ asize a' = u32 (Z.of_nat (length b))
    | None => ret = extent_protocol.NOENT
    end /\
    forall k, view c' srv' k = view c srv k.
Proof.
  intros Hg Hp Ha Hr. unfold getattr.
  destruct (queued_good tid eid (getattr_body Done Done now eid a srv) c Hg)
    as ([ret a'] & c' & srv' & c2 & Hq & Hg' & Hb & Hc').
  { intros c0. unfold getattr_body. case_match; [done|].
    pose proof (fetch_waiting Done Done now eid [] a c0 srv) as H0.
    by destruct (get_and_cache_extent_from_server _ _ _ _ _ _ c0 srv) as [[[[? ?] ?] ?] ?]. }
  { intros c0 H0. unfold getattr_body. case_match; [done|].
    pose proof (fetch_ok c0 H0 Done Done now eid [] a srv) as H1.
    by destruct (get_and_cache_extent_from_server _ _ _ _ _ _ c0 srv) as [[[[? ?] ?] ?] ?]. }
  set (c1 := set_waiting (<[eid := [tid]]> (waiting_threads c)) c) in Hb.
  exists ret, a', c', srv'. split; [done|]. split; [done|]. rewrite Hc'.
  unfold getattr_body in Hb. destruct (map_has (extent_attrs (base c1)) eid) eqn:Em.
  - apply map_has_true in Em as [a1 Ea]. cbn in Ea.
    assert (is_Some (extents (base c) !! eid)) as [b Eb].
    { apply (co_paired c (proj1 Hg)). by rewrite Ea. }
    unfold extent_server.getattr in Hb. cbn in Hb. rewrite Ea in Hb. injection Hb as <- <- <- <-.
    split; [done|]. split; [done|]. split; [done|]. unfold view at 1. rewrite Eb.
    split; [|done]. split; [done|]. by apply (proj1 Ha eid).
  - apply map_has_false in Em.
    assert (extents (base c1) !! eid = None) as En.
    { apply eq_None_not_Some. intros [? Hx]. destruct (co_paired c (proj1 Hg) eid) as [Hi _].
      cbn in Hx. rewrite Hx in Hi. destruct (Hi ltac:(by eexists)). cbn in Em. congruence. }
    pose proof (fetch_frame now eid [] a c1 srv) as Hfr.
    destruct (fetch_done now eid [] a c1 srv Hp En Hr) as (ret0 & buf0 & a0 & c0 & srv0 & Hf & Hret & Hs & Hv).
    rewrite Hf in Hb, Hfr. injection Hb as <- <- <- <-. destruct Hfr as (F1 & F2 & F3).
    destruct (F2 Ha) as [F4 F5]. split; [by apply F1|]. split; [done|]. split; [done|].
    split; [|done]. change (view c1 srv eid) with (view c srv eid) in Hret. destruct (view c srv eid); [|done].
    destruct Hret as [-> ->]. split; [done|]. by apply F5.
Qed.

(** A [get] whose calls get through never waits, returns exactly
    what the client sees of the extent, or [NOENT], and changes neither the view
    of any extent nor the contents at the server. *)
Theorem cached_get_reads_view tid now eid c srv :
  good c -> extent_server.paired srv -> (~ eid ∈ removed_extents c) ->
  exists ret buf c' srv',
    get tid Done Done now eid [] c srv = Some ((ret, buf), c', srv') /\ good c' /\
    match view c srv eid with
    | Some b => ret = extent_protocol.OK /\ buf = b
    | None => ret = extent_protocol.NOENT
    end /\
    extents srv' = extents srv /\ forall k, view c' srv' k = view c srv k.
Proof. apply get_done. Qed.

(** [put] succeeds and makes exactly its extent read as the new
    contents; [remove] of a cached extent makes exactly that extent disappear,
    and of any other extent is the error [NOENT] that changes nothing; neither
    touches the server. *)
Theorem cached_updates_change_view tid now eid buf c srv :
  good c ->
  (exists c', put tid now eid buf c srv = Some (extent_protocol.OK, c', srv) /\ good c' /\
     forall k, view c' srv k = if decide (k = eid) then Some buf else view c srv k) /\
  (exists ret c', remove tid eid c srv = Some (ret, c', srv) /\ good c' /\
     (ret = extent_protocol.OK <-> is_Some (extents (base c) !! eid)) /\
     (ret = extent_protocol.OK \/ ret = extent_protocol.NOENT) /\
     forall k, view c' srv k =
       if decide (k = eid /\ ret = extent_protocol.OK) then None else view c srv k).
Proof. apply updates_done. Qed.

Lemma flush_waiting f1 f2 eid srv c : waiting_threads (flush_body f1 f2 eid srv c).1.2 = waiting_threads c.
Proof. unfold flush_body, flush_modified, flush_removed. by repeat (case_match; simplify_eq/=). Qed.

Lemma flush_good f1 f2 eid srv c : cache_ok c -> cache_ok (flush_body f1 f2 eid srv c).1.2.
Proof.
  intros Hc. unfold flush_body. pose proof (flush_modified_ok c Hc f1 eid srv) as H1.
  destruct (flush_modified f1 eid c srv) as [c1 srv1]. cbn in H1.
  pose proof (flush_removed_ok c1 H1 f2 eid srv1) as H2.
  by destruct (flush_removed f2 eid c1 srv1).
Qed.

Lemma flush_done eid srv c :
  cache_ok c ->
  let '(_, c', srv') := flush_body Done Done eid srv c in
  extents (base c') !! eid = None /\ extents srv' !! eid = view c srv eid /\
  (forall k, k <> eid -> extents srv' !! k = extents srv !! k) /\
  (forall k, view c' srv' k = view c srv k).
Proof.
  intros Hc. unfold flush_body, flush_modified, flush_removed. cbn [rpc].
  destruct (std_mem eid (modified_extents c)) eqn:Em.
  - apply std_mem_spec in Em. assert (is_Some (extents (base c) !! eid)) as [b Eb] by (by apply (co_modified c Hc)).
    assert (std_mem eid (removed_extents c) = false) as Er.
    { apply bool_decide_eq_false. intros H. by apply (co_removed c Hc) in H. }
    cbn. rewrite Er. unfold map_get, view. rewrite Eb. cbn.
    rewrite lookup_delete_eq, lookup_insert_eq. split; [done|]. split; [done|].
    split; [intros k Hne; by rewrite lookup_insert_ne|].
    intros k. destruct (decide (k = eid)) as [->|Hne]; [by rewrite lookup_delete_eq, lookup_insert_eq, Er, Eb|].
    by rewrite lookup_delete_ne, lookup_insert_ne by done.
  - assert (extents (base c) !! eid = None) as En.
    { apply eq_None_not_Some. intros H. apply (co_modified c Hc), std_mem_spec in H. congruence. }
    destruct (std_mem eid (removed_extents c)) eqn:Er.
    + unfold extent_server.remove. destruct (extents srv !! eid) as [b|] eqn:Es; cbn.
      * unfold view. cbn. rewrite En, Er, lookup_delete_eq. split; [done|]. split; [done|].
        split; [intros k Hne; by rewrite lookup_delete_ne|].
        intros k. destruct (extents (base c) !! k) eqn:Ek; [done|].
        destruct (decide (k = eid)) as [->|Hne].
        { rewrite Er, lookup_delete_eq. by case_match. }
        rewrite lookup_delete_ne by done.
        by rewrite (std_mem_other eid k (list_remove_all eid (removed_extents c)) (removed_extents c))
          by (rewrite list_remove_all_spec; naive_solver).
      * unfold view. rewrite En, Er, Es. split; [done|]. done.
    + cbn. unfold view. rewrite En, Er. done.
Qed.

(** C11: a [flush] whose calls get through makes the server hold exactly what
    this client sees of the extent, drops it from the cache, touches no other
    extent and does not change what the client sees; so any client that has
    nothing of its own for the extent sees the same from then on. *)
Theorem flush_publishes_view tid eid c srv :
  good c ->
  exists c' srv', flush tid Done Done eid c srv = Some ((), c', srv') /\ good c' /\
    extents (base c') !! eid = None /\ extents srv' !! eid = view c srv eid /\
    (forall k, k <> eid -> extents srv' !! k = extents srv !! k) /\
    (forall k, view c' srv' k = view c srv k) /\
    (forall d, extents (base d) !! eid = None -> (~ eid ∈ removed_extents d) ->
       view d srv' eid = view c srv eid).
Proof.
  intros Hg.
  destruct (queued_good tid eid (flush_body Done Done eid srv) c Hg)
    as (r & c' & srv' & c2 & Hq & Hg' & Hb & Hc'); [apply flush_waiting|intros ?; apply flush_good|].
  pose proof (flush_done eid srv _ (cache_ok_waiting c (<[eid := [tid]]> (waiting_threads c)) (proj1 Hg))) as H.
  rewrite Hb in H. destruct H as (H1 & H2 & H3 & H4). destruct r.
  exists c', srv'. split; [done|]. split; [done|]. rewrite Hc'. split_and!; try done.
  intros d Hd Hr. unfold view at 1. rewrite Hd. unfold std_mem.
  by rewrite bool_decide_false.
Qed.

Lemma flush_runs tid eid c srv :
  good c -> exists c' srv', flush tid Done Done eid c srv = Some ((), c', srv').
Proof.
  intros Hg.
  destruct (queued_good tid eid (flush_body Done Done eid srv) c Hg)
    as ([] & c' & srv' & c2 & Hq & _); [apply flush_waiting|intros ?; apply flush_good|]. by exists c', srv'.
Qed.

Lemma delete_sized eid s :
  extent_server.sized s -> extent_server.sized (State (delete eid (extents s)) (delete eid (extent_attrs s))).
Proof.
  intros Hs k b a. cbn. intros [_ H1]%lookup_delete_Some [_ H2]%lookup_delete_Some. by apply (Hs k).
Qed.

Lemma flush_frame tid eid c srv r c' srv' :
  good c -> flush tid Done Done eid c srv = Some (r, c', srv') ->
  (all_sized c srv -> all_sized c' srv') /\ removed_extents c' ⊆ removed_extents c.
Proof.
  intros Hg (c2 & w & w' & H & ->)%queued_inv.
  assert (forall d s, let '(d', s') := flush_modified Done eid (set_waiting w d) s in
    good d -> (all_sized d s -> all_sized d' s') /\ removed_extents d' = removed_extents d) as Hm.
  { intros d s. unfold flush_modified. destruct (std_mem eid _) eqn:Em; [|done]. cbn. intros Hd. split; [|done].
    intros [H1 H2]. split; [by apply (delete_sized eid (base d))|].
    apply std_mem_spec in Em. cbn in Em. apply (co_modified d (proj1 Hd)) in Em as [b Eb].
    assert (is_Some (extent_attrs (base d) !! eid)) as [a Ea] by (apply (co_paired d (proj1 Hd)); by rewrite Eb).
    unfold map_get. rewrite Eb, Ea. apply (extent_server.put_sized eid b a s H2). by apply (H1 eid). }
  specialize (Hm c srv). unfold flush_body in H.
  destruct (flush_modified Done eid (set_waiting w c) srv) as [d s]. destruct (Hm Hg) as [H1 H2].
  unfold flush_removed in H. destruct (std_mem eid (removed_extents d)); [|by injection H as <- <- <-; rewrite <- H2].
  cbn [rpc] in H. pose proof (extent_server.remove_sized eid s) as Hs.
  destruct (extent_server.remove eid s) as [[ret r0] s'] eqn:E. injection H as <- <- <-. cbn in Hs.
  assert (forall k, k ∈ list_remove_all eid (removed_extents d) -> k ∈ removed_extents d) as Hsub.
  { intros k. by intros [? _]%list_remove_all_spec. }
  split; [|case_match; cbn; rewrite <- H2; [intros k; apply Hsub|done]].
  intros Ha. destruct (H1 Ha). split; [|by apply Hs]. by case_match.
Qed.

(** ** What calls leave alone *)

(** The client keeps something of its own for the extent. *)
Definition cached (c : client) (eid : Z) : Prop :=
  is_Some (extents (base c) !! eid) \/ eid ∈ removed_extents c.

(** The call was about [eid] only. *)
Definition keeps_others (eid : Z) (c c' : client) : Prop :=
  forall k, k <> eid -> extents (base c') !! k = extents (base c) !! k /\
                        (k ∈ removed_extents c' <-> k ∈ removed_extents c).

Lemma view_uncached c srv eid : (~ cached c eid) -> view c srv eid = extents srv !! eid.
Proof.
  intros Hn. unfold view. destruct (extents (base c) !! eid) eqn:E; [destruct Hn; left; by rewrite E|].
  unfold std_mem. rewrite bool_decide_false; [done|]. intros ?. apply Hn. by right.
Qed.

Lemma keeps_others_cached eid c c' k : keeps_others eid c c' -> k <> eid -> cached c' k <-> cached c k.
Proof. intros H Hne. unfold cached. destruct (H k Hne) as [-> ->]. done. Qed.

Lemma keeps_others_view eid c c' srv srv' k :
  keeps_others eid c c' -> k <> eid -> extents srv' !! k = extents srv !! k ->
  view c' srv' k = view c srv k.
Proof.
  intros H Hne Hs. unfold view. destruct (H k Hne) as [-> Hr]. rewrite Hs.
  by rewrite (std_mem_other k k _ _ Hr).
Qed.

Lemma cache_insert_others eid b a c :
  keeps_others eid c (add_extent_to_modified_queues eid
    (set_base (State (<[eid := b]> (extents (base c))) (<[eid := a]> (extent_attrs (base c)))) c)).
Proof. intros k Hne. cbn. by rewrite lookup_insert_ne, erase_first_other by done. Qed.

(** What a fetch does, whatever becomes of its calls. *)
Lemma fetch_any f1 f2 now eid buf a c srv :
  cache_ok c -> extent_server.paired srv -> (~ cached c eid) ->
  let '(ret, buf', a', c', srv') := get_and_cache_extent_from_server f1 f2 now eid buf a c srv in
  extent_server.paired srv' /\ extents srv' = extents srv /\ keeps_others eid c c' /\
  (~ eid ∈ removed_extents c') /\ view c' srv' eid = view c srv eid /\
  (ret = extent_protocol.OK -> view c srv eid = Some buf').
Proof.
  intros Hc Hp Hn. rewrite (view_uncached c srv eid Hn).
  assert (~ eid ∈ removed_extents c) as Hr by (intros ?; apply Hn; by right).
  assert (forall srv1, extents srv1 = extents srv -> view c srv1 eid = extents srv !! eid) as Hv.
  { intros srv1 <-. by apply view_uncached. }
  pose proof (extent_server.get_paired now eid [] srv Hp) as Hp'.
  unfold get_and_cache_extent_from_server.
  destruct (extent_server.get now eid [] srv) as [[ret b] srv1] eqn:E.
  assert (extents srv1 = extents srv /\ (ret = extent_protocol.OK -> extents srv !! eid = Some b)) as [Hs Hb].
  { unfold extent_server.get in E. by repeat case_match; simplify_eq/=. }
  assert (forall r b' a', (r <> extent_protocol.OK) ->
    let '(ret, buf', _, c', srv') := (r, b', a', c, srv1) : Z * bytes * attr * client * state in
    extent_server.paired srv' /\ extents srv' = extents srv /\ keeps_others eid c c' /\
    (~ eid ∈ removed_extents c') /\ view c' srv' eid = extents srv !! eid /\
    (ret = extent_protocol.OK -> extents srv !! eid = Some buf')) as Hfail.
  { intros r b' a' Hne. split_and!; [done..|by apply Hv|done]. }
  destruct f1; cbn [rpc]; rewrite ?E; [|by apply Hfail|by split_and!; [done..|apply Hv|]].
  destruct (ret =? extent_protocol.OK) eqn:Er; to_prop; [|by apply Hfail].
  destruct (extent_server.getattr eid (Attr 0 0 0 0) srv1) as [ret2 a2] eqn:E2.
  destruct f2; cbn [rpc]; rewrite ?E2; cbn [fst snd]; [|by apply Hfail|by apply Hfail].
  destruct (ret2 =? extent_protocol.OK) eqn:Er2; to_prop; [|by apply Hfail].
  destruct (co_nodup c Hc) as (_ & _ & Hnd).
  split_and!; [done..|apply cache_insert_others| | |by intros _; apply Hb].
  - cbn. by apply (proj2 (erase_first_NoDup eid _ Hnd)).
  - unfold view. cbn. rewrite lookup_insert_eq. symmetry. by apply Hb.
Qed.

Lemma keeps_others_refl eid c w w' : keeps_others eid (set_waiting w c) (set_waiting w' c).
Proof. by intros k _. Qed.

(** A [get] or [getattr] by a thread, whatever becomes of its calls. *)
Lemma get_any tid f1 f2 now eid buf c srv r c' srv' :
  good c -> extent_server.paired srv -> (~ eid ∈ removed_extents c) ->
  get tid f1 f2 now eid buf c srv = Some (r, c', srv') ->
  good c' /\ extent_server.paired srv' /\ extents srv' = extents srv /\ keeps_others eid c c' /\
  (~ eid ∈ removed_extents c') /\ view c' srv' eid = view c srv eid /\
  (r.1 = extent_protocol.OK -> view c srv eid = Some r.2).
Proof.
  intros Hg Hp Hr Hget. unfold get in Hget.
  destruct (queued_good tid eid (get_body f1 f2 now eid buf srv) c Hg)
    as (r0 & c0 & srv0 & c2 & Hq & Hg' & Hb & Hc').
  { intros d. unfold get_body. case_match.
    - by destruct (extent_server.get now eid buf (base d)) as [[? ?] ?].
    - pose proof (fetch_waiting f1 f2 now eid buf (Attr 0 0 0 0) d srv) as H0.
      by destruct (get_and_cache_extent_from_server _ _ _ _ _ _ d srv) as [[[[? ?] ?] ?] ?]. }
  { intros d H0. unfold get_body. case_match.
    - pose proof (cache_get_ok d H0 now eid buf) as H1.
      by destruct (extent_server.get now eid buf (base d)) as [[? ?] ?].
    - pose proof (fetch_ok d H0 f1 f2 now eid buf (Attr 0 0 0 0) srv) as H1.
      by destruct (get_and_cache_extent_from_server _ _ _ _ _ _ d srv) as [[[[? ?] ?] ?] ?]. }
  rewrite Hq in Hget. injection Hget as -> -> ->. split; [done|]. rewrite Hc'.
  set (c1 := set_waiting (<[eid := [tid]]> (waiting_threads c)) c) in Hb.
  unfold get_body in Hb. destruct (map_has (extents (base c1)) eid) eqn:Em.
  - apply map_has_true in Em as [b Eb]. cbn in Eb.
    assert (is_Some (extent_attrs (base c) !! eid)) as [a Ea].
    { apply (co_paired c (proj1 Hg)). by rewrite Eb. }
    unfold extent_server.get in Hb. cbn in Hb. rewrite Eb, Ea in Hb. injection Hb as <- <- <-.
    unfold view. cbn. by rewrite Eb.
  - apply map_has_false in Em.
    pose proof (fetch_any f1 f2 now eid buf (Attr 0 0 0 0) c1 srv
      (cache_ok_waiting _ _ (proj1 Hg)) Hp) as Hf.
    destruct (get_and_cache_extent_from_server _ _ _ _ _ _ _ _) as [[[[ret b] a] d] s].
    injection Hb as <- <- <-. apply Hf. intros [[? H]|H]; [congruence|done].
Qed.

Lemma getattr_any tid f1 f2 now eid a c srv r c' srv' :
  good c -> extent_server.paired srv -> (~ eid ∈ removed_extents c) ->
  getattr tid f1 f2 now eid a c srv = Some (r, c', srv') ->
  good c' /\ extent_server.paired srv' /\ extents srv' = extents srv /\ keeps_others eid c c' /\
  (~ eid ∈ removed_extents c') /\ view c' srv' eid = view c srv eid.
Proof.
  intros Hg Hp Hr Hget. unfold getattr in Hget.
  destruct (queued_good tid eid (getattr_body f1 f2 now eid a srv) c Hg)
    as (r0 & c0 & srv0 & c2 & Hq & Hg' & Hb & Hc').
  { intros d. unfold getattr_body. case_match; [done|].
    pose proof (fetch_waiting f1 f2 now eid [] a d srv) as H0.
    by destruct (get_and_cache_extent_from_server _ _ _ _ _ _ d srv) as [[[[? ?] ?] ?] ?]. }
  { intros d H0. unfold getattr_body. case_match; [done|].
    pose proof (fetch_ok d H0 f1 f2 now eid [] a srv) as H1.
    by destruct (get_and_cache_extent_from_server _ _ _ _ _ _ d srv) as [[[[? ?] ?] ?] ?]. }
  rewrite Hq in Hget. injection Hget as -> -> ->. split; [done|]. rewrite Hc'.
  set (c1 := set_waiting (<[eid := [tid]]> (waiting_threads c)) c) in Hb.
  unfold getattr_body in Hb. destruct (map_has (extent_attrs (base c1)) eid) eqn:Em.
  - injection Hb as _ <- <-. done.
  - apply map_has_false in Em.
    pose proof (fetch_any f1 f2 now eid [] a c1 srv (cache_ok_waiting _ _ (proj1 Hg)) Hp) as Hf.
    destruct (get_and_cache_extent_from_server _ _ _ _ _ _ _ _) as [[[[ret b] a'] d] s].
    injection Hb as <- <- <-. destruct Hf as (F1 & F2 & F3 & F4 & F5 & _); [|done].
    intros [H|H]; [|done]. apply (co_paired c (proj1 Hg)) in H. cbn in Em. rewrite Em in H. by destruct H.
Qed.

Lemma put_any tid now eid buf c srv r c' srv' :
  good c -> put tid now eid buf c srv = Some (r, c', srv') ->
  good c' /\ srv' = srv /\ keeps_others eid c c' /\ (~ eid ∈ removed_extents c') /\
  extents (base c') !! eid = Some buf.
Proof.
  intros Hg Hput. unfold put in Hput.
  destruct (queued_good tid eid (put_body now eid buf srv) c Hg) as (r0 & c0 & srv0 & c2 & Hq & Hg' & Hb & Hc').
  { done. }
  { intros d H0. apply (cache_insert_ok d H0). }
  rewrite Hq in Hput. injection Hput as -> -> ->. split; [done|]. injection Hb as <- <- <-.
  rewrite Hc'. split; [done|]. split; [apply (cache_insert_others eid buf (Attr 0 0 0 0) c)|].
  destruct (co_nodup c (proj1 Hg)) as (_ & _ & Hnd). cbn. rewrite lookup_insert_eq. split; [|done].
  by apply (proj2 (erase_first_NoDup eid _ Hnd)).
Qed.

(** [remove] of a cached extent *)
Lemma remove_any tid eid c srv r c' srv' :
  good c -> is_Some (extents (base c) !! eid) -> remove tid eid c srv = Some (r, c', srv') ->
  good c' /\ srv' = srv /\ keeps_others eid c c' /\ eid ∈ removed_extents c' /\
  extents (base c') !! eid = None.
Proof.
  intros Hg [b E] Hrm. unfold remove in Hrm. pose proof (updates_done tid 0 eid [] c srv Hg) as [_ Hd].
  destruct Hd as (ret & d & Hq & Hgd & _). unfold remove in Hq. rewrite Hq in Hrm.
  injection Hrm as <- <- <-. split; [done|].
  apply queued_inv in Hq as (c2 & w & w' & Hb & ->). unfold remove_body, extent_server.remove in Hb.
  cbn in Hb. rewrite E in Hb. cbn in Hb. injection Hb as <- <-.
  split; [done|]. cbn. rewrite lookup_delete_eq. split; [|split; [set_solver|done]].
  intros k Hne. cbn. rewrite lookup_delete_ne by done. set_solver.
Qed.

(** [flush] that gets through *)
Lemma flush_any tid eid c srv r c' srv' :
  good c -> extent_server.paired srv -> (eid ∈ removed_extents c -> is_Some (extents srv !! eid)) ->
  flush tid Done Done eid c srv = Some (r, c', srv') ->
  good c' /\ extent_server.paired srv' /\ keeps_others eid c c' /\ (~ cached c' eid) /\
  extents srv' !! eid = view c srv eid /\ (forall k, k <> eid -> extents srv' !! k = extents srv !! k).
Proof.
  intros Hg Hp Hs Hfl. unfold flush in Hfl.
  destruct (queued_good tid eid (flush_body Done Done eid srv) c Hg)
    as (r0 & c0 & srv0 & c2 & Hq & Hg' & Hb & Hc'); [apply flush_waiting|intros ?; apply flush_good|].
  rewrite Hq in Hfl. injection Hfl as _ -> ->. split; [done|].
  pose proof (flush_done eid srv _ (cache_ok_waiting c (<[eid := [tid]]> (waiting_threads c)) (proj1 Hg))) as Hd.
  rewrite Hb in Hd. destruct Hd as (D1 & D2 & D3 & _). rewrite Hc'.
  enough (extent_server.paired srv' /\ keeps_others eid c c2 /\ ~ eid ∈ removed_extents c2) as (F1 & F2 & F3).
  { split; [done|]. split; [done|]. split; [intros [[? H]|H]; [cbn in H; congruence|done]|]. by split. }
  clear D1 D2 D3 Hq Hg' Hc'. unfold flush_body, flush_modified, flush_removed in Hb. cbn [rpc] in Hb.
  destruct (std_mem eid (modified_extents _)) eqn:Em; cbn in Hb.
  - assert (std_mem eid (removed_extents c) = false) as Er.
    { apply bool_decide_eq_false. intros H. by apply std_mem_spec, (co_removed c (proj1 Hg) eid H) in Em. }
    rewrite Er in Hb. injection Hb as _ <- <-. split; [by apply (extent_server.put_paired eid _ _ srv)|].
    split; [intros k Hne; cbn; by rewrite lookup_delete_ne|]. by apply bool_decide_eq_false in Er.
  - destruct (std_mem eid (removed_extents c)) eqn:Er; cbn in Hb.
    + apply std_mem_spec in Er. destruct (Hs Er) as [b Eb]. unfold extent_server.remove in Hb.
      rewrite Eb in Hb. cbn in Hb. injection Hb as _ <- <-.
      pose proof (extent_server.remove_paired eid srv Hp) as Hrp. unfold extent_server.remove in Hrp.
      rewrite Eb in Hrp. split; [done|].
      split; [|by intros [_ ?]%(list_remove_all_spec eid)].
      intros k Hne. split; [done|]. pose proof (list_remove_all_spec eid k (removed_extents c)). naive_solver.
    + injection Hb as _ <- <-. split; [done|]. split; [done|]. by apply bool_decide_eq_false in Er.
Qed.

(** ** Concrete runs *)

Definition demo_srv : state :=
  (extent_server.put 5 (str "old") (Attr 1 1 1 3) extent_server.new).2.

Lemma demo_srv_paired : extent_server.paired demo_srv.
Proof. apply extent_server.put_paired, extent_server.new_paired. Qed.

Lemma cached_get_reads_view_witness :
  exists c' srv', get 1 Done Done 9 5 [] new demo_srv =
                    Some ((extent_protocol.OK, str "old"), c', srv').
Proof.
  destruct (cached_get_reads_view 1 9 5 new demo_srv new_good demo_srv_paired)
    as (ret & buf & c' & srv' & H & _ & Hv & _); [apply not_elem_of_nil|].
  assert (view new demo_srv 5 = Some (str "old")) as E by reflexivity.
  rewrite E in Hv. destruct Hv as [-> ->]. exists c', srv'. exact H.
Defined.

Lemma cached_updates_change_view_witness :
  exists c', put 1 9 5 (str "new") new demo_srv = Some (extent_protocol.OK, c', demo_srv) /\
    view c' demo_srv 5 = Some (str "new").
Proof.
  destruct (cached_updates_change_view 1 9 5 (str "new") new demo_srv new_good) as [(c' & H & _ & Hv) _].
  exists c'. split; [exact H|]. rewrite Hv. reflexivity.
Defined.

Lemma flush_publishes_view_witness :
  exists c' srv', flush 1 Done Done 5 new demo_srv = Some ((), c', srv') /\
    extents srv' !! 5 = Some (str "old").
Proof.
  destruct (flush_publishes_view 1 5 new demo_srv new_good) as (c' & srv' & H & _ & _ & Hs & _).
  exists c', srv'. split; [exact H|]. rewrite Hs. reflexivity.
Defined.

(** [remove] looks only into the cache: an extent that is stored
    but not cached cannot be removed.  And a removal that has not been flushed is
    forgotten by the next [get], which brings the old contents back from the
    server. *)
Theorem removed_extent_comes_back :
  (exists c', remove 1 5 new demo_srv = Some (extent_protocol.NOENT, c', demo_srv)) /\
  match get 1 Done Done 9 5 [] new demo_srv with
  | Some (_, c, srv) =>
      match remove 1 5 c srv with
      | Some (ret, c, srv) =>
          ret = extent_protocol.OK /\ view c srv 5 = None /\
          match get 1 Done Done 9 5 [] c srv with
          | Some (r, c, srv) => r = (extent_protocol.OK, str "old") /\ view c srv 5 = Some (str "old")
          | None => False
          end
      | None => False
      end
  | None => False
  end.
Proof. vm_compute. split; [by eexists|auto]. Qed.

End extent_client.
