(* ===== verification/ExtentService.v ===== *)
(** * The extent server behind its RPCs

    [extent_smain.cc] registers the methods of [extent_server] at an RPC server, and
    [extent_client] reaches them with [call].  [Extent] takes such a call to be the
    method itself; here the calls go through the stubs, the connection and
    [dispatch], and a sequence of them is shown to be the same sequence of calls of
    the methods. *)

From stdpp Require Import gmap list strings.
From Stdlib Require Import ZArith Lia Ascii.
From S2P Require Import Prelude Text Marshall Rpc Protocols Rpcc Rpcs Connection EndToEnd Loopback Extent.
Import EndToEnd.

Local Open Scope Z_scope.

(** ** The server program *)

(** The object that the handlers run on: what [time(0)] returns, and the extents. *)
Definition service : Type := Z * extent_server.state.

Section Methods.
(** The result variable of a handler is not initialised when it is a struct. *)
Context (junk : attr).

Definition m_get (id : Z) (buf : bytes) (v : service) : Z * bytes * service :=
  let '(ret, buf, s) := extent_server.get v.1 id buf v.2 in (ret, buf, (v.1, s)).

Definition m_getattr (id : Z) (a : attr) (v : service) : Z * attr * service :=
  let '(ret, a) := extent_server.getattr id a v.2 in (ret, a, v).

Definition m_put (id : Z) (buf : bytes) (a : attr) (_ : Z) (v : service) : Z * Z * service :=
  let '(ret, r, s) := extent_server.put id buf a v.2 in (ret, r, (v.1, s)).

Definition m_remove (id : Z) (_ : Z) (v : service) : Z * Z * service :=
  let '(ret, r, s) := extent_server.remove id v.2 in (ret, r, (v.1, s)).

Definition fn_get : handler_fn service := reg_fn1 w_string [] w_u64 0 m_get.
Definition fn_getattr : handler_fn service := reg_fn1 w_attr junk w_u64 0 m_getattr.
Definition fn_put : handler_fn service := reg_fn3 w_s32 0 w_u64 w_string w_attr 0 [] junk m_put.
Definition fn_remove : handler_fn service := reg_fn1 w_s32 0 w_u64 0 m_remove.

(** [main] of [extent_smain.cc]: [count] is the number in [RPC_COUNT], [nonce] what
    the constructor of [rpcs] draws. *)
Definition main (argc : Z) (count : option Z) (nonce now : Z) : option (rpcs service * service) :=
  if negb (argc =? 2) then None
  else
    let server := rpcs_new nonce (default 0 count) (fn_bind nonce) in
    server ← reg1 extent_protocol.get fn_get server;
    server ← reg1 extent_protocol.getattr fn_getattr server;
    server ← reg1 extent_protocol.put fn_put server;
    server ← reg1 extent_protocol.remove fn_remove server;
    Some (server, (now, extent_server.new)).

(** ** The calls of [extent_client] *)

Inductive request :=
  | Put (id : Z) (buf : bytes) (a : attr)
  | Get (id : Z)
  | GetAttr (id : Z)
  | Remove (id : Z).

(** The status, and what the result variable holds. *)
Inductive answer :=
  | Status (ret r : Z)
  | Contents (ret : Z) (buf : bytes)
  | Attributes (ret : Z) (a : attr).

(** The methods themselves. *)
Definition direct (now : Z) (q : request) (s : extent_server.state) : answer * extent_server.state :=
  match q with
  | Put id buf a => let '(ret, r, s) := extent_server.put id buf a s in (Status ret r, s)
  | Get id => let '(ret, buf, s) := extent_server.get now id [] s in (Contents ret buf, s)
  | GetAttr id => let '(ret, a) := extent_server.getattr id junk s in (Attributes ret a, s)
  | Remove id => let '(ret, r, s) := extent_server.remove id s in (Status ret r, s)
  end.

(** Calls at given times *)
Fixpoint direct_all (qs : list (Z * request)) (v : service) : list answer * service :=
  match qs with
  | [] => ([], v)
  | (now, q) :: qs =>
      let '(a, s) := direct now q v.2 in let '(l, v) := direct_all qs (now, s) in (a :: l, v)
  end.

Definition world : Type := rpcc * option (rpcs service * service).

(** [cl->call(proc, ..., r)] with [r] as it was before *)
Definition call_over {R} (wr : wire R) (proc : Z) (req : marshall) (r0 : R) (w : world) : option (Z * R * world) :=
  '(ret, un, cl, srv) ← call_now proc req 1 w.1 w.2;
  let '(ret, r) := call_m wr (fun _ => (ret, un)) req r0 in Some (ret, r, (cl, srv)).

Definition call_put (id : Z) (buf : bytes) (a : attr) : world -> option (Z * Z * world) :=
  call_over w_s32 extent_protocol.put (call_args3 w_u64 w_string w_attr id buf a) 0.

Definition call_get (id : Z) : world -> option (Z * bytes * world) :=
  call_over w_string extent_protocol.get (call_args1 w_u64 id) [].

Definition call_getattr (id : Z) : world -> option (Z * attr * world) :=
  call_over w_attr extent_protocol.getattr (call_args1 w_u64 id) junk.

Definition call_remove (id : Z) : world -> option (Z * Z * world) :=
  call_over w_s32 extent_protocol.remove (call_args1 w_u64 id) 0.

Definition over_rpc (q : request) (w : world) : option (answer * world) :=
  match q with
  | Put id buf a => '(ret, r, w) ← call_put id buf a w; Some (Status ret r, w)
  | Get id => '(ret, buf, w) ← call_get id w; Some (Contents ret buf, w)
  | GetAttr id => '(ret, a, w) ← call_getattr id w; Some (Attributes ret a, w)
  | Remove id => '(ret, r, w) ← call_remove id w; Some (Status ret r, w)
  end.

(** Time passes. *)
Definition tick (now : Z) (w : world) : world :=
  match w with (cl, Some (s, v)) => (cl, Some (s, (now, v.2))) | _ => w end.

Fixpoint over_rpc_all (qs : list (Z * request)) (w : world) : option (list answer * world) :=
  match qs with
  | [] => Some ([], w)
  | (now, q) :: qs => '(a, w) ← over_rpc q (tick now w); '(l, w) ← over_rpc_all qs w; Some (a :: l, w)
  end.

(** ** The calls are the methods *)

(** What fits in a block, with the header and the other arguments. *)
Definition max_buf : Z := connection.MAX_PDU - 52.

Definition small (buf : bytes) : Prop := Z.of_nat (length buf) <= max_buf.

Definition request_ok (q : request) : Prop :=
  match q with
  | Put id buf a => w_ok w_u64 id /\ small buf /\ w_ok w_attr a
  | Get id | GetAttr id | Remove id => w_ok w_u64 id
  end.

(** What the server holds can be sent. *)
Definition sendable (s : extent_server.state) : Prop :=
  (forall id b, extent_server.extents s !! id = Some b -> small b) /\
  (forall id a, extent_server.extent_attrs s !! id = Some a -> w_ok w_attr a).

(** A client that can make [k] more calls. *)
Record linked (k : nat) (cl : rpcc) (s : rpcs service) : Prop := {
  li_bound : bound (nonce s) cl;
  li_nonces : is_u32 (nonce s) /\ is_u32 (clt_nonce cl) /\ clt_nonce cl <> 0;
  li_xid : 0 < xid_ cl /\ xid_ cl + Z.of_nat k < 2 ^ 31;
  li_window : forall y, y ∈ xid <$> win s (clt_nonce cl) -> y < xid_ cl;
  li_get : procs s !! extent_protocol.get = Some fn_get;
  li_getattr : procs s !! extent_protocol.getattr = Some fn_getattr;
  li_put : procs s !! extent_protocol.put = Some fn_put;
  li_remove : procs s !! extent_protocol.remove = Some fn_remove
}.

Lemma linked_called k cl s cl' s' :
  linked (S k) cl s -> called cl cl' -> tables s' = tables s ->
  (forall k y, y ∈ xid <$> win s' k -> y ∈ xid <$> win s k \/ (k = clt_nonce cl /\ y = xid_ cl)) ->
  linked k cl' s'.
Proof.
  intros [[[B1 B2] B3 B4] Hn Hx Hw P1 P2 P3 P4] (C1 & C2 & C3 & C4 & C5 & C6) HT HW. injection HT as T1 T2.
  split; rewrite ?T1, ?T2, ?C1, ?C5; [split; [split|..]; congruence|done|lia| |done|done|done|done].
  intros y Hy. destruct (HW _ _ Hy) as [H|[_ ->]]; [specialize (Hw y H)|]; lia.
Qed.

Lemma linked_may_call k proc cl s :
  linked (S k) cl s -> proc <> rpc_const.bind -> is_s32 proc ->
  may_call (nonce s) proc cl /\ (xid_ cl ∉ xid <$> win s (clt_nonce cl)).
Proof.
  intros [Hb (N1 & N2 & N3) Hx Hw _ _ _ _] Hp Hs. split.
  - apply bound_may_call; [exact Hb|exact Hp|exact Hs|exact N1|exact N2|exact N3|lia].
  - intros Hy. specialize (Hw _ Hy). lia.
Qed.

(** A call of a method through the connection. *)
Lemma call_over_runs {A R} (wa : wire A) (wr : wire R) (La : WireLaws wa) (Lr : WireLaws wr) k proc req f z zr
    (meth : A -> R -> service -> Z * R * service) a r r0 ret cl s v v' :
  linked (S k) cl s -> proc <> rpc_const.bind -> is_s32 proc ->
  procs s !! proc = Some f -> (forall u m, f u m v = wrap wa wr z zr meth u m v) ->
  appended marshall_new (w_enc wa a) req -> w_ok wa a -> fits (w_enc wa a) ->
  meth (w_into wa z a) zr v = (ret, r, v') -> 0 <= ret < 2 ^ 31 -> w_ok wr r -> fits (w_enc wr r) ->
  exists cl' s', call_over wr proc req r0 (cl, Some (s, v)) = Some (ret, w_into wr r0 r, (cl', Some (s', v'))) /\
    linked k cl' s'.
Proof.
  intros Hl Hp Hs Hf Hw Happ Ha Hfa Hm Hret Hr Hfr. destruct (linked_may_call k proc cl s Hl Hp Hs) as [Hmay Hnew].
  destruct (typed_call wa wr (nonce s) proc req 1 cl s f z zr meth a r r0 ret v v')
    as (un & cl' & s' & E & Ec & Hc & HT & HW);
    [exact Hmay|done|exact Hnew|exact Hf|exact Hw|exact Happ|exact Ha|exact Hfa|exact Hm|exact Hret|exact Hr|exact Hfr|].
  exists cl', s'. unfold call_over. cbn [fst snd]. rewrite E. cbn [mbind option_bind]. rewrite Ec.
  split; [reflexivity|exact (linked_called k cl s cl' s' Hl Hc HT HW)].
Qed.

Lemma fits_u64 x : fits (w_enc w_u64 x).
Proof. unfold fits. change (length (w_enc w_u64 x)) with 8%nat. by vm_compute. Qed.

Lemma fits_attr a : fits (w_enc w_attr a).
Proof. unfold fits. change (length (w_enc w_attr a)) with 16%nat. by vm_compute. Qed.

Lemma fits_buf b : small b -> fits (w_enc w_string b) /\ w_ok w_string b.
Proof.
  unfold small, max_buf, fits. cbn [w_enc w_string w_ok]. unfold enc_string. rewrite length_app.
  change (length (enc_u32 _)) with 4%nat. change connection.MAX_PDU with 10485760. lia.
Qed.

(** the arguments of [put] *)
Definition w_put_args : wire (Z * bytes * attr) := w_pair (w_pair w_u64 w_string) w_attr.

Lemma fits_put id b a : small b -> fits (w_enc w_put_args (id, b, a)).
Proof.
  unfold small, max_buf, fits. unfold w_put_args, w_pair. cbn [w_enc fst snd]. rewrite !length_app.
  change (length (w_enc w_u64 id)) with 8%nat. change (length (w_enc w_attr a)) with 16%nat.
  cbn [w_enc w_string]. unfold enc_string. rewrite length_app. change (length (enc_u32 _)) with 4%nat.
  change connection.MAX_PDU with 10485760. lia.
Qed.

Lemma put_args_ok id b a : w_ok w_u64 id -> small b -> w_ok w_attr a -> w_ok w_put_args (id, b, a).
Proof.
  intros Hi Hb%fits_buf Ha. unfold w_put_args, w_pair. cbn [w_ok fst snd].
  split; [split; [exact Hi|exact (proj2 Hb)]|exact Ha].
Qed.

Lemma put_args_appended id b a :
  w_ok w_u64 id -> small b -> w_ok w_attr a ->
  appended marshall_new (w_enc w_put_args (id, b, a)) (call_args3 w_u64 w_string w_attr id b a).
Proof.
  intros Hi Hb%fits_buf Ha. exact (args3_appended w_u64 w_string w_attr id b a Hi (proj2 Hb) Ha).
Qed.

Lemma sendable_insert s id b a :
  sendable s -> small b -> w_ok w_attr a ->
  sendable (extent_server.State (<[id := b]> (extent_server.extents s)) (<[id := a]> (extent_server.extent_attrs s))).
Proof.
  intros [H1 H2] Hb Ha. split; intros k x; cbn; destruct (decide (id = k)) as [->|].
  - rewrite lookup_insert_eq. by intros [= <-].
  - rewrite lookup_insert_ne by done. apply H1.
  - rewrite lookup_insert_eq. by intros [= <-].
  - rewrite lookup_insert_ne by done. apply H2.
Qed.

Lemma sendable_delete s id :
  sendable s -> sendable (extent_server.State (delete id (extent_server.extents s)) (delete id (extent_server.extent_attrs s))).
Proof. intros [H1 H2]. split; cbn; intros k x [_ H]%lookup_delete_Some; [by apply (H1 k)|by apply (H2 k)]. Qed.

Lemma touch_ok now a : w_ok w_attr a -> w_ok w_attr (Attr (u32 now) (mtime a) (ctime a) (asize a)).
Proof.
  intros (((H1 & H2) & H3) & H4). split; [split; [split|]|]; [|exact H2|exact H3|exact H4].
  pose proof (u32_range now). exact H.
Qed.

Lemma direct_sendable now q s : request_ok q -> sendable s -> sendable (direct now q s).2.
Proof.
  intros Hq Hs. destruct q as [id buf a|id|id|id]; cbn [direct].
  - destruct Hq as (_ & Hb & Ha). by apply sendable_insert.
  - unfold extent_server.get. destruct (extent_server.extents s !! id) as [b|] eqn:E, (extent_server.extent_attrs s !! id) as [a|] eqn:Ea; try exact Hs.
    cbn [snd]. rewrite <- (insert_id (extent_server.extents s) id b) by exact E.
    apply sendable_insert; [exact Hs|by apply (proj1 Hs id)|apply touch_ok; by apply (proj2 Hs id)].
  - by destruct (extent_server.getattr _ _ _).
  - unfold extent_server.remove. destruct (extent_server.extents s !! id); [|exact Hs]. by apply sendable_delete.
Qed.

Section Calls.
Context (Hjunk : w_ok w_attr junk).

(** The server program with its object. *)
Definition running (cl : rpcc) (s : rpcs service) (v : service) : world := (cl, Some (s, v)).

Definition same (k : nat) (q : request) (cl : rpcc) (s : rpcs service) (v : service) : Prop :=
  let '(ans, st) := direct v.1 q v.2 in
  exists cl' s', over_rpc q (running cl s v) = Some (ans, running cl' s' (v.1, st)) /\ linked k cl' s'.

(** The numbers of the procedures. *)
Lemma procs_ok proc : 24577 <= proc <= 24580 -> proc <> rpc_const.bind /\ is_s32 proc.
Proof. unfold is_s32. change rpc_const.bind with 1. lia. Qed.

Lemma put_same k id buf a cl s v : linked (S k) cl s -> request_ok (Put id buf a) -> same k (Put id buf a) cl s v.
Proof.
  intros Hl (Hi & Hb & Ha). destruct (procs_ok extent_protocol.put) as [Hp1 Hp2]; [by vm_compute|].
  destruct (call_over_runs w_put_args w_s32 _ _ k extent_protocol.put (call_args3 w_u64 w_string w_attr id buf a) fn_put
    (0, [], junk) 0 (fun '(a1, a2, a3) => m_put a1 a2 a3) (id, buf, a) extent_protocol.OK 0 extent_protocol.OK cl s v (v.1, (extent_server.put id buf a v.2).2))
    as (cl' & s' & E & Hl');
    [exact Hl|exact Hp1|exact Hp2|exact (li_put _ _ _ Hl)|intros u m; exact (reg_fn3_wrap w_s32 0 w_u64 w_string w_attr 0 [] junk m_put u m v)|by apply put_args_appended|by apply put_args_ok|by apply fits_put|destruct a; reflexivity|by vm_compute|by vm_compute|apply fits_int|].
  exists cl', s'. split; [|exact Hl']. unfold over_rpc, call_put, running. rewrite E. reflexivity.
Qed.

(** The calls with one argument. *)
Lemma id_call {R} (wr : wire R) (Lr : WireLaws wr) k proc zr meth id r r0 ret cl s v v' :
  linked (S k) cl s -> 24577 <= proc <= 24580 -> procs s !! proc = Some (reg_fn1 wr zr w_u64 0 meth) -> w_ok w_u64 id ->
  meth id zr v = (ret, r, v') -> 0 <= ret < 2 ^ 31 -> w_ok wr r -> fits (w_enc wr r) ->
  exists cl' s', call_over wr proc (call_args1 w_u64 id) r0 (running cl s v) = Some (ret, w_into wr r0 r, running cl' s' v') /\
    linked k cl' s'.
Proof.
  intros Hl [Hp1 Hp2]%procs_ok Hf Hi Hm Hret Hr Hfr.
  exact (call_over_runs w_u64 wr _ _ k proc (call_args1 w_u64 id) _ 0 zr meth id r r0 ret cl s v v'
    Hl Hp1 Hp2 Hf (fun u m => reg_fn1_wrap wr zr w_u64 0 meth u m v) (args1_appended w_u64 id Hi) Hi (fits_u64 id)
    Hm Hret Hr Hfr).
Qed.

Lemma get_same k id cl s v : linked (S k) cl s -> w_ok w_u64 id -> sendable v.2 -> same k (Get id) cl s v.
Proof.
  intros Hl Hi Hs. unfold same. cbn [direct].
  destruct (extent_server.get v.1 id [] v.2) as [[ret buf] st] eqn:Eg.
  assert (small buf /\ 0 <= ret < 2 ^ 31) as [Hb Hret].
  { assert (small []) as Hnil by (unfold small, max_buf; change connection.MAX_PDU with 10485760; cbn; lia).
    unfold extent_server.get in Eg. destruct (extent_server.extents v.2 !! id) as [b|] eqn:E1,
      (extent_server.extent_attrs v.2 !! id); injection Eg as <- <- <-; (split; [|split; reflexivity || discriminate]);
      [exact (proj1 Hs id b E1)|exact Hnil|exact Hnil|exact Hnil]. }
  destruct (id_call w_string _ k extent_protocol.get [] m_get id buf [] ret cl s v (v.1, st)) as (cl' & s' & E & Hl');
    [exact Hl|by vm_compute|exact (li_get _ _ _ Hl)|exact Hi|unfold m_get; by rewrite Eg|exact Hret
    |by apply fits_buf|by apply fits_buf|].
  exists cl', s'. split; [|exact Hl']. unfold over_rpc, call_get. rewrite E. reflexivity.
Qed.

Lemma getattr_same k id cl s v : linked (S k) cl s -> w_ok w_u64 id -> sendable v.2 -> same k (GetAttr id) cl s v.
Proof.
  intros Hl Hi Hs. unfold same. cbn [direct]. destruct (extent_server.getattr id junk v.2) as [ret a] eqn:Eg.
  assert (w_ok w_attr a /\ 0 <= ret < 2 ^ 31) as [Ha Hret].
  { unfold extent_server.getattr in Eg. destruct (extent_server.extent_attrs v.2 !! id) as [b|] eqn:E1;
      injection Eg as <- <-; (split; [|split; reflexivity || discriminate]); [exact (proj2 Hs id b E1)|exact Hjunk]. }
  destruct (id_call w_attr _ k extent_protocol.getattr junk m_getattr id a junk ret cl s v v) as (cl' & s' & E & Hl');
    [exact Hl|by vm_compute|exact (li_getattr _ _ _ Hl)|exact Hi|unfold m_getattr; by rewrite Eg|exact Hret
    |exact Ha|apply fits_attr|].
  exists cl', s'. split; [|exact Hl']. unfold over_rpc, call_getattr. rewrite E. destruct v, a. reflexivity.
Qed.

Lemma remove_same k id cl s v : linked (S k) cl s -> w_ok w_u64 id -> same k (Remove id) cl s v.
Proof.
  intros Hl Hi. unfold same. cbn [direct]. destruct (extent_server.remove id v.2) as [[ret r] st] eqn:Er.
  assert (w_ok w_s32 r /\ 0 <= ret < 2 ^ 31) as [Hr Hret].
  { unfold extent_server.remove in Er. destruct (extent_server.extents v.2 !! id); injection Er as <- <- <-; by vm_compute. }
  destruct (id_call w_s32 _ k extent_protocol.remove 0 m_remove id r 0 ret cl s v (v.1, st)) as (cl' & s' & E & Hl');
    [exact Hl|by vm_compute|exact (li_remove _ _ _ Hl)|exact Hi|unfold m_remove; by rewrite Er|exact Hret
    |exact Hr|apply fits_int|].
  exists cl', s'. split; [|exact Hl']. unfold over_rpc, call_remove. rewrite E. reflexivity.
Qed.

Lemma over_rpc_same k q cl s v : linked (S k) cl s -> request_ok q -> sendable v.2 -> same k q cl s v.
Proof.
  destruct q as [id buf a|id|id|id]; intros Hl Hq Hs;
    [by apply put_same|by apply get_same|by apply getattr_same|by apply remove_same].
Qed.

Lemma over_rpc_all_same qs cl s v :
  linked (length qs) cl s -> Forall request_ok qs.*2 -> sendable v.2 ->
  let '(answers, v') := direct_all qs v in
  exists cl' s', over_rpc_all qs (running cl s v) = Some (answers, running cl' s' v') /\ linked 0 cl' s'.
Proof.
  revert cl s v. induction qs as [|[now q] qs IH]; intros cl s [now0 st] Hl Hq Hs.
  { exists cl, s. done. }
  apply Forall_cons in Hq as [Hq Hqs]. pose proof (over_rpc_same _ q cl s (now, st) Hl Hq Hs) as H1. unfold same in H1.
  pose proof (direct_sendable now q st Hq Hs) as Hs'. cbn [fst snd direct_all over_rpc_all] in *.
  change (tick now (running cl s (now0, st))) with (running cl s (now, st)).
  destruct (direct now q st) as [ans st'] eqn:Ed. destruct H1 as (cl1 & s1 & E & Hl1).
  specialize (IH cl1 s1 (now, st') Hl1 Hqs Hs').
  destruct (direct_all qs (now, st')) as [l v2] eqn:El. destruct IH as (cl2 & s2 & E2 & Hl2).
  exists cl2, s2. split; [|exact Hl2]. rewrite E. cbn [mbind option_bind]. rewrite E2. reflexivity.
Qed.

(** ** From the start of the program *)

Definition table (n : Z) : gmap Z (handler_fn service) :=
  <[extent_protocol.remove := fn_remove]> (<[extent_protocol.put := fn_put]> (<[extent_protocol.getattr := fn_getattr]>
    (<[extent_protocol.get := fn_get]> {[rpc_const.bind := fn_bind n]}))).

Lemma main_starts count n now :
  exists s, main 2 count n now = Some (s, (now, extent_server.new)) /\ tables s = (n, table n) /\ forall k, win s k = [].
Proof. eexists. split; [reflexivity|]. split; [reflexivity|]. intros k. reflexivity. Qed.

Lemma table_procs n :
  table n !! rpc_const.bind = Some (fn_bind n) /\ table n !! extent_protocol.get = Some fn_get /\
  table n !! extent_protocol.getattr = Some fn_getattr /\ table n !! extent_protocol.put = Some fn_put /\
  table n !! extent_protocol.remove = Some fn_remove.
Proof. repeat split. Qed.

(** A new client binds to the server program. *)
Lemma main_binds count n now k m :
  number n -> number k -> Z.of_nat m < 2 ^ 31 - 2 ->
  exists s cl s', main 2 count n now = Some (s, (now, extent_server.new)) /\
    bind_now 1 (rpcc_new true k) (Some (s, (now, extent_server.new))) = Some (0, cl, Some (s', (now, extent_server.new))) /\
    linked m cl s'.
Proof.
  intros Hn Hk Hm. destruct (main_starts count n now) as (s & Es & Hs & Hw). injection Hs as Hs1 Hs2.
  destruct (table_procs n) as (Tb & Tg & Ta & Tp & Tr).
  destruct (bind_now_ok n 1 (rpcc_new true k) s (now, extent_server.new)) as (cl & s' & E & B & N & X & T & W);
    [exact Hn|exact (fresh_client n k Hn Hk)|exact Hs1|rewrite Hs2; exact Tb|rewrite Hw; apply not_elem_of_nil|].
  exists s, cl, s'. split; [exact Es|]. split; [exact E|]. clear Es E. injection T as T1 T2. rewrite Hs1 in T1. rewrite Hs2 in T2.
  cbn [rpcc_new clt_nonce xid_] in N, X.
  split; rewrite ?T1, ?T2, ?N, ?X; [exact B| |lia| |exact Tg|exact Ta|exact Tp|exact Tr].
  - split; [by apply number_u32|]. split; [by apply number_u32|]. unfold number in Hk. lia.
  - intros y Hy. destruct (W _ _ Hy) as [Hy'|[_ ->]]; [rewrite Hw in Hy'; by apply not_elem_of_nil in Hy'|]. cbn. lia.
Qed.
End Calls.
End Methods.

(** C19: the extent service over the network is the extent server.  A client that
    has bound to the program of [extent_smain.cc] and makes a sequence of calls, each
    marshalled, framed, dispatched and answered, gets the statuses and results that
    the methods of [extent_server] give when they are called directly in that order,
    at those times, errors included, and the server ends in the same state; the bounds are those of the
    transport: an extent and its attributes fit in one block. *)
Theorem extent_calls_over_rpc junk count n now k qs :
  w_ok w_attr junk -> number n -> number k -> Forall request_ok qs.*2 -> Z.of_nat (length qs) < 2 ^ 31 - 2 ->
  exists s cl s1 cl' s',
    main junk 2 count n now = Some (s, (now, extent_server.new)) /\
    bind_now 1 (rpcc_new true k) (Some (s, (now, extent_server.new))) = Some (0, cl, Some (s1, (now, extent_server.new))) /\
    over_rpc_all junk qs (cl, Some (s1, (now, extent_server.new))) =
      let '(answers, v) := direct_all junk qs (now, extent_server.new) in Some (answers, (cl', Some (s', v))).
Proof.
  intros Hj Hn Hk Hq Hlen. destruct (main_binds junk count n now k (length qs) Hn Hk Hlen) as (s & cl & s1 & Es & Eb & Hl).
  pose proof (over_rpc_all_same junk Hj qs cl s1 (now, extent_server.new) Hl Hq) as H. cbn [fst snd] in H.
  assert (sendable extent_server.new) as Hnew by (split; intros id x; cbn; by rewrite lookup_empty).
  specialize (H Hnew). destruct (direct_all junk qs (now, extent_server.new)) as [answers v].
  destruct H as (cl' & s' & E & _). exists s, cl, s1, cl', s'. split; [exact Es|]. split; [exact Eb|exact E].
Qed.

(** A file is stored, read, removed and found missing. *)
Definition demo_requests : list (Z * request) :=
  [(10, Put 5 (str "abc") (Attr 1 2 3 3)); (11, Get 5); (12, GetAttr 5); (12, Remove 5); (13, Get 5); (14, Remove 5)].

Lemma extent_calls_over_rpc_witness :
  exists w : world,
    (direct_all (Attr 0 0 0 0) demo_requests (9, extent_server.new)).1 =
      [Status 0 0; Contents 0 (str "abc"); Attributes 0 (Attr 11 2 3 3); Status 0 0; Contents 2 []; Status 2 2] /\
    exists w0, over_rpc_all (Attr 0 0 0 0) demo_requests w0 =
      Some ((direct_all (Attr 0 0 0 0) demo_requests (9, extent_server.new)).1, w).
Proof.
  destruct (extent_calls_over_rpc (Attr 0 0 0 0) None 7 9 8 demo_requests) as (s & cl & s1 & cl' & s' & _ & _ & E).
  - by vm_compute.
  - by vm_compute.
  - by vm_compute.
  - repeat constructor; by vm_compute.
  - by vm_compute.
  - exists (cl', Some (s', (direct_all (Attr 0 0 0 0) demo_requests (9, extent_server.new)).2)).
    split; [by vm_compute|]. by exists (cl, Some (s1, (9, extent_server.new))).
Defined.
