(* ===== verification/Coherence.v ===== *)
(** * Clients, lock server and extent server together

    The composition that makes the caches coherent: each client has a caching
    lock client and a caching extent client, and [extent_release_user]
    ([yfs_client.h]) makes the releaser of the first flush the second before a
    lock goes back ([lock_client_cache.cc] 179).  A step is a stretch of code of
    one thread as in the two lock modules, the execution of a request at the
    server, or the return of a call to its caller.  A call returns what the
    server answered, or fails; a call that has failed is not executed
    afterwards.  The calls of the extent client are made under its mutex, and
    are part of the step that makes them.

    The specification is a function of the history alone: the contents of an
    extent are those that were put last, by whatever client. *)

From stdpp Require Import gmap list strings.
From Stdlib Require Import ZArith Lia Ascii.
From S2P Require Import Prelude Text Marshall Rpc Protocols LockServerCache LockClientCache Extent.

Local Open Scope Z_scope.

Module coherence.
Module L := lock_client_cache.
Module S := lock_server_cache.
Module X := extent_client.

(** [extent_release_user::dorelease] *)
Definition dorelease (tid : Z) (f1 f2 : X.fate) (lid : Z) (ec : X.client) (srv : extent_server.state)
  : option (unit * X.client * extent_server.state) := X.flush tid f1 f2 lid ec srv.

(** An acquire call of a thread: under way to the server, or back from it. *)
Inductive call := Asked (lid seq : Z) | Answered (ret : Z).

(** What the releaser does outside the mutex: [dorelease], then the call. *)
Inductive releasing :=
| Idle
| Picked (lid seq : Z)
| Flushed (lid seq : Z)
| Released (ret : Z).

Record node := Node {
  lc : L.world;
  ec : X.client;
  calls : gmap Z call;
  rel : releasing
}.

Definition node_new : node := Node L.world_new X.new ∅ Idle.

(** A call of the server's revoker or retryer. *)
Inductive outcall := NoCall | Sent (lid : Z) (clt : bytes) | Returned (ret : Z).

Record world := World {
  nodes : gmap bytes node;
  locks : S.state;
  store : extent_server.state;
  revoking : outcall;
  retrying : outcall
}.

Definition world_new : world := World ∅ S.new extent_server.new NoCall NoCall.

Definition node_of (w : world) (c : bytes) : node := map_get node_new (nodes w) c.

Definition set_node (c : bytes) (n : node) (w : world) : world :=
  World (<[c := n]> (nodes w)) (locks w) (store w) (revoking w) (retrying w).

Definition set_locks (s : S.state) (w : world) : world :=
  World (nodes w) s (store w) (revoking w) (retrying w).

Definition set_store (srv : extent_server.state) (w : world) : world :=
  World (nodes w) (locks w) srv (revoking w) (retrying w).

Definition set_out (rv rt : outcall) (w : world) : world :=
  World (nodes w) (locks w) (store w) rv rt.

Inductive event :=
| Enter (c : bytes) (tid lid : Z)           (** a thread calls [acquire] *)
| Loop (c : bytes) (tid : Z)
| Await (c : bytes) (tid : Z)
| AcquireAt (c : bytes) (tid : Z)           (** the server executes its request *)
| AcquireBack (c : bytes) (tid : Z) (ok : bool)
| Release (c : bytes) (tid lid : Z)         (** a thread calls [release] *)
| Pick (c : bytes)                          (** the releaser's next turn *)
| DoRelease (c : bytes) (tid : Z) (f1 f2 : X.fate)
| ReleaseAt (c : bytes)
| ReleaseBack (c : bytes) (ok : bool)
| Revoker                                   (** the revoker's next turn *)
| RevokeAt                                  (** the client executes its request *)
| RevokeBack (ok : bool)
| Retryer
| RetryAt
| RetryBack (ok : bool)
| Get (c : bytes) (tid : Z) (f1 f2 : X.fate) (now eid : Z)
| Getattr (c : bytes) (tid : Z) (f1 f2 : X.fate) (now eid : Z)
| Put (c : bytes) (tid now eid : Z) (buf : bytes)
| Remove (c : bytes) (tid eid : Z).

(** The request that the next round of [acquire] sends, if it sends one. *)
Definition loop_call (tid : Z) (w : L.world) : option (Z * Z) :=
  match L.pcs w !! tid with
  | Some (L.Looping lid) =>
      match (L.acquire_loop tid lid (L.cl w)).1 with
      | L.Send seq => Some (lid, seq)
      | _ => None
      end
  | _ => None
  end.

(** A step of the lock client of [c]; [calls] and [rel] become what is given. *)
Definition lock_step (c : bytes) (e : L.event) (cs : gmap Z call) (r : releasing) (w : world)
  : option world :=
  let n := node_of w c in
  match L.step (lc n) e with
  | Some l => Some (set_node c (Node l (ec n) cs r) w)
  | None => None
  end.

(** An operation on an extent, by a thread that holds its lock ("The calls
    assume that the caller holds a lock on the extent"). *)
Definition extent_step {R} (c : bytes) (tid eid : Z)
    (op : X.client -> extent_server.state -> option (R * X.client * extent_server.state)) (w : world)
  : option world :=
  let n := node_of w c in
  if std_mem (eid, tid) (L.holders (lc n)) then
    match op (ec n) (store w) with
    | Some (_, x, srv) => Some (set_store srv (set_node c (Node (lc n) x (calls n) (rel n)) w))
    | None => None
    end
  else None.

Definition step (w : world) (e : event) : option world :=
  match e with
  | Enter c tid lid => let n := node_of w c in lock_step c (L.EEnter tid lid) (calls n) (rel n) w
  | Loop c tid =>
      let n := node_of w c in
      lock_step c (L.ELoop tid)
        (match loop_call tid (lc n) with
         | Some (lid, seq) => <[tid := Asked lid seq]> (calls n)
         | None => calls n
         end) (rel n) w
  | Await c tid => let n := node_of w c in lock_step c (L.EAwait tid) (calls n) (rel n) w
  | AcquireAt c tid =>
      let n := node_of w c in
      match calls n !! tid with
      | Some (Asked lid seq) =>
          let '(st, s) := S.acquire c seq lid (locks w) in
          Some (set_locks s (set_node c (Node (lc n) (ec n) (<[tid := Answered st]> (calls n)) (rel n)) w))
      | _ => None
      end
  | AcquireBack c tid ok =>
      let n := node_of w c in
      match calls n !! tid, ok with
      | Some (Answered ret), true => lock_step c (L.EReply tid ret) (delete tid (calls n)) (rel n) w
      | Some _, false =>
          lock_step c (L.EReply tid rpc_const.timeout_failure) (delete tid (calls n)) (rel n) w
      | _, _ => None
      end
  | Release c tid lid => let n := node_of w c in lock_step c (L.ERelease tid lid) (calls n) (rel n) w
  | Pick c =>
      let n := node_of w c in
      match rel n with
      | Idle =>
          lock_step c L.EPick (calls n)
            (match (L.releaser_next (L.cl (lc n))).1 with
             | Some (lid, seq) => Picked lid seq
             | None => Idle
             end) w
      | _ => None
      end
  | DoRelease c tid f1 f2 =>
      let n := node_of w c in
      match rel n with
      | Picked lid seq =>
          match dorelease tid f1 f2 lid (ec n) (store w) with
          | Some (_, x, srv) =>
              Some (set_store srv (set_node c (Node (lc n) x (calls n) (Flushed lid seq)) w))
          | None => None
          end
      | _ => None
      end
  | ReleaseAt c =>
      let n := node_of w c in
      match rel n with
      | Flushed lid seq =>
          let '(st, s) := S.release c seq lid (locks w) in
          Some (set_locks s (set_node c (Node (lc n) (ec n) (calls n) (Released st)) w))
      | _ => None
      end
  | ReleaseBack c ok =>
      let n := node_of w c in
      match rel n, ok with
      | Released ret, true => lock_step c (L.EPicked ret) (calls n) Idle w
      | Released _, false | Flushed _ _, false =>
          lock_step c (L.EPicked rpc_const.timeout_failure) (calls n) Idle w
      | _, _ => None
      end
  | Revoker =>
      match revoking w with
      | NoCall =>
          let '(o, s) := S.revoker_next (locks w) in
          Some (set_out (match o with Some (lid, clt) => Sent lid clt | None => NoCall end)
                  (retrying w) (set_locks s w))
      | _ => None
      end
  | RevokeAt =>
      match revoking w with
      | Sent lid clt =>
          let n := node_of w clt in
          match lock_step clt (L.ERevoke lid) (calls n) (rel n) w with
          | Some w' => Some (set_out (Returned (L.revoke lid (L.cl (lc n))).1) (retrying w) w')
          | None => None
          end
      | _ => None
      end
  | RevokeBack ok =>
      match revoking w, ok with
      | Returned ret, true => Some (set_out NoCall (retrying w) (set_locks (S.revoker_done ret (locks w)) w))
      | Returned _, false | Sent _ _, false =>
          Some (set_out NoCall (retrying w)
                  (set_locks (S.revoker_done rpc_const.timeout_failure (locks w)) w))
      | _, _ => None
      end
  | Retryer =>
      match retrying w with
      | NoCall =>
          let '(o, s) := S.retryer_next (locks w) in
          Some (set_out (revoking w) (match o with Some (lid, clt) => Sent lid clt | None => NoCall end)
                  (set_locks s w))
      | _ => None
      end
  | RetryAt =>
      match retrying w with
      | Sent lid clt =>
          let n := node_of w clt in
          match lock_step clt (L.ERetry lid) (calls n) (rel n) w with
          | Some w' => Some (set_out (revoking w) (Returned (L.retry lid (L.cl (lc n))).1) w')
          | None => None
          end
      | _ => None
      end
  | RetryBack ok =>
      match retrying w, ok with
      | Returned ret, true => Some (set_out (revoking w) NoCall (set_locks (S.retryer_done ret (locks w)) w))
      | Returned _, false | Sent _ _, false =>
          Some (set_out (revoking w) NoCall
                  (set_locks (S.retryer_done rpc_const.timeout_failure (locks w)) w))
      | _, _ => None
      end
  | Get c tid f1 f2 now eid => extent_step c tid eid (X.get tid f1 f2 now eid []) w
  | Getattr c tid f1 f2 now eid => extent_step c tid eid (X.getattr tid f1 f2 now eid (Attr 0 0 0 0)) w
  | Put c tid now eid buf => extent_step c tid eid (X.put tid now eid buf) w
  | Remove c tid eid => extent_step c tid eid (X.remove tid eid) w
  end.

(** ** The specification *)

(** The contents of the extents after a history. *)
Definition write (m : gmap Z bytes) (e : event) : gmap Z bytes :=
  match e with
  | Put _ _ _ eid buf => <[eid := buf]> m
  | Remove _ _ eid => delete eid m
  | _ => m
  end.

Definition written (es : list event) : gmap Z bytes := foldl write ∅ es.

(** What the protocol relies on and does not ensure: the releaser leaves a lock
    alone that a thread is asking for; the server is not made to free a lock
    that somebody else owns; the calls of [flush] get through; a client does
    not read an extent again that it has removed, and removes only extents that
    it has read and the extent server knows.  The concrete runs below and in
    the lock modules show what happens otherwise. *)
Definition careful (w : world) (e : event) : bool :=
  match e with
  | Pick c => L.leaves_calls_alone (lc (node_of w c)) L.EPick
  | DoRelease _ _ f1 f2 => match f1, f2 with X.Done, X.Done => true | _, _ => false end
  | ReleaseAt c =>
      match rel (node_of w c) with
      | Flushed lid _ =>
          match S.owner (locks w) lid with
          | Some d => bool_decide (d = c)
          | None => true
          end
      | _ => true
      end
  | Get c _ _ _ _ eid | Getattr c _ _ _ _ eid =>
      negb (std_mem eid (X.removed_extents (ec (node_of w c))))
  | Remove c _ eid =>
      map_has (extent_server.extents (X.base (ec (node_of w c)))) eid &&
      map_has (extent_server.extents (store w)) eid
  | _ => true
  end.

Definition careful_step (w : world) (e : event) : option world :=
  if careful w e then step w e else None.

(** ** What a step of a lock client does to the state of a lock *)

(** The client has the lock, for one of its threads or to give out. *)
Definition has (l : L.world) (lid : Z) : Prop :=
  L.st_of (L.cl l) lid = L.FREE \/ L.st_of (L.cl l) lid = L.LOCKED.

Ltac client_cases e H :=
  destruct e as [t l0|t|t ret|t|t l0|l0|l0| |ret]; cbn [L.step] in H.

(** A change of one lock. *)
Lemma has_set lid li l ps hs lid' :
  has (L.World (L.set_lock lid li (L.cl l)) ps hs) lid' <->
  if decide (lid = lid') then L.lstate li = L.FREE \/ L.lstate li = L.LOCKED else has l lid'.
Proof. unfold has. cbn [L.cl]. rewrite L.st_of_set. by case_decide. Qed.

Lemma has_queue q wk c ps hs lid : has (L.World (L.set_queue q wk c) ps hs) lid <-> has (L.World c ps hs) lid.
Proof. done. Qed.

Lemma has_continue tid lid v c l lid' : has (L.continue tid lid v c l) lid' <-> has (L.World c ∅ []) lid'.
Proof. by destruct v. Qed.

Lemma has_client l lid : has (L.World (L.cl l) ∅ []) lid <-> has l lid.
Proof. done. Qed.

(** Setting a state that says the same about having the lock. *)
Lemma has_same lid li l ps hs lid' :
  ((L.lstate li = L.FREE \/ L.lstate li = L.LOCKED) <-> has l lid) ->
  has (L.World (L.set_lock lid li (L.cl l)) ps hs) lid' <-> has l lid'.
Proof. intros H. rewrite has_set. case_decide; [by subst|done]. Qed.

Lemma loop_has tid lid l v c lid' :
  L.acquire_loop tid lid (L.cl l) = (v, c) -> has (L.World c ∅ []) lid' <-> has l lid'.
Proof.
  unfold L.acquire_loop. intros H.
  destruct (L.to_be_revoked _); [by injection H as <- <-|].
  destruct (negb _); [by injection H as <- <-|].
  destruct (L.lstate (L.lock_of (L.cl l) lid)) eqn:E; injection H as <- <-; try done;
    apply has_same; unfold has, L.st_of; rewrite E; cbn; naive_solver.
Qed.

Lemma reply_has lid ret l v c lid' :
  (~ has l lid) -> L.acquire_reply lid ret (L.cl l) = (v, c) ->
  has (L.World c ∅ []) lid' <-> has l lid' \/ ret = lock_protocol.OK /\ lid' = lid.
Proof.
  unfold L.acquire_reply. intros Hn H.
  destruct (ret =? lock_protocol.OK) eqn:E1; [|destruct (ret =? lock_protocol.RETRY) eqn:E2]; to_prop;
    injection H as <- <-.
  - rewrite has_set. case_decide; cbn; naive_solver.
  - rewrite has_same by (cbn; naive_solver). naive_solver.
  - rewrite has_client. naive_solver.
Qed.

Lemma pick_has l lid seq c lid' ps hs :
  L.releaser_next (L.cl l) = (Some (lid, seq), c) ->
  has (L.World c ps hs) lid' <-> has l lid' /\ lid' <> lid.
Proof.
  unfold L.releaser_next. intros H. repeat case_match; simplify_eq;
    rewrite has_queue, has_set; case_decide; cbn; naive_solver.
Qed.

Lemma no_pick_has l c lid' ps hs :
  L.releaser_next (L.cl l) = (None, c) -> has (L.World c ps hs) lid' <-> has l lid'.
Proof.
  unfold L.releaser_next. intros H. repeat case_match; simplify_eq; try done.
  rewrite has_queue. apply has_same. done.
Qed.

(** Which locks the client has after a step. *)
Definition has_after (l : L.world) (e : L.event) (lid : Z) : Prop :=
  match e with
  | L.EReply tid ret =>
      has l lid \/ ret = lock_protocol.OK /\ L.pcs l !! tid = Some (L.InCall lid)
  | L.EPick =>
      has l lid /\ forall seq, (L.releaser_next (L.cl l)).1 <> Some (lid, seq)
  | _ => has l lid
  end.

Lemma step_has l e l' lid :
  L.mutex_inv l -> L.step l e = Some l' -> has l' lid <-> has_after l e lid.
Proof.
  intros Hi H. client_cases e H; cbn [has_after].
  - repeat case_match; simplify_eq. by apply has_same.
  - destruct (L.pcs l !! t) as [[l1|l1|l1]|] eqn:Ep; try done.
    destruct (L.acquire_loop t l1 (L.cl l)) eqn:E. injection H as <-.
    rewrite has_continue. by eapply loop_has.
  - destruct (L.pcs l !! t) as [[l1|l1|l1]|] eqn:Ep; try done.
    destruct (L.acquire_reply l1 ret (L.cl l)) as [v c] eqn:E. injection H as <-.
    rewrite has_continue, (reply_has l1 ret l v c lid); [naive_solver| |exact E].
    unfold has. rewrite (L.mi_call l Hi t l1 Ep). naive_solver.
  - repeat case_match; simplify_eq. by rewrite has_continue.
  - destruct (std_mem _ _) eqn:Em; [|done]. injection H as <-. apply has_same.
    apply std_mem_spec in Em. apply (L.mi_hold l Hi) in Em. unfold has. rewrite Em. cbn. naive_solver.
  - injection H as <-. unfold L.revoke. cbn [snd]. rewrite has_queue. by apply has_same.
  - injection H as <-. unfold L.retry. case_match; [|done]. by apply has_same.
  - injection H as <-. destruct (L.releaser_next (L.cl l)) as [[[l1 seq]|] c] eqn:E; cbn [fst snd].
    + rewrite (pick_has l l1 seq c lid) by done. split; intros [? Hne]; (split; [done|]).
      * congruence.
      * intros ->. by apply (Hne seq).
    + rewrite (no_pick_has l c lid) by done. naive_solver.
  - injection H as <-. unfold L.releaser_done. destruct (L.releaser_at (L.cl l)) as [i|i l1] eqn:Ea; [done|].
    destruct (ret =? lock_protocol.OK); [|done]. rewrite has_queue. apply has_same.
    unfold has. rewrite (L.mi_releaser l Hi i l1 Ea). cbn. naive_solver.
Qed.

(** A thread that waits for the server goes on waiting until it is answered. *)
Lemma step_calls l e l' tid lid :
  L.step l e = Some l' -> L.pcs l !! tid = Some (L.InCall lid) -> (forall ret, e <> L.EReply tid ret) ->
  L.pcs l' !! tid = Some (L.InCall lid).
Proof.
  intros H Hp Hne. client_cases e H; simplify_eq/=; try done.
  - repeat case_match; simplify_eq/=. by rewrite lookup_insert_ne by congruence.
  - repeat case_match; simplify_eq/=.
    unfold L.continue; case_match; cbn; rewrite ?lookup_insert_ne, ?lookup_delete_ne by congruence; done.
  - assert (t <> tid) by (intros ->; by eapply Hne). repeat case_match; simplify_eq/=.
    unfold L.continue; case_match; cbn; rewrite ?lookup_insert_ne, ?lookup_delete_ne by congruence; done.
  - repeat case_match; simplify_eq/=.
    unfold L.continue; case_match; cbn; rewrite ?lookup_insert_ne, ?lookup_delete_ne by congruence; done.
  - repeat case_match; simplify_eq/=. done.
Qed.

Definition releaser_event (e : L.event) : bool :=
  match e with L.EPick | L.EPicked _ => true | _ => false end.

Lemma step_releaser l e l' :
  L.step l e = Some l' -> releaser_event e = false ->
  L.releaser_at (L.cl l') = L.releaser_at (L.cl l).
Proof.
  intros H He. client_cases e H; simplify_eq/=; try done.
  - by repeat case_match; simplify_eq/=.
  - repeat case_match; simplify_eq/=. unfold L.acquire_loop in *.
    by repeat case_match; simplify_eq/=.
  - repeat case_match; simplify_eq/=. unfold L.acquire_reply in *.
    by repeat case_match; simplify_eq/=.
  - repeat case_match; simplify_eq/=. by destruct (L.await_retry _ _).
  - by repeat case_match; simplify_eq/=.
  - unfold L.retry. by case_match.
Qed.

Lemma pick_calling c lid seq c' :
  L.releaser_next c = (Some (lid, seq), c') -> exists i, L.releaser_at c' = L.Calling i lid.
Proof. unfold L.releaser_next. intros H. repeat case_match; simplify_eq; by eexists. Qed.

Lemma loop_call_in tid l l' lid seq :
  loop_call tid l = Some (lid, seq) -> L.step l (L.ELoop tid) = Some l' ->
  L.pcs l' !! tid = Some (L.InCall lid).
Proof.
  unfold loop_call. cbn [L.step]. intros H Hs. repeat case_match; simplify_eq/=.
  unfold L.continue. cbn. by rewrite lookup_insert_eq.
Qed.

(** ** The invariant *)

(** What a node relies on when [own] says who owns a lock at the server. *)
Record node_ok (own : Z -> option bytes) (c : bytes) (n : node) : Prop := {
  no_mutex : L.mutex_inv (lc n);
  no_asked : forall tid lid seq, calls n !! tid = Some (Asked lid seq) ->
    L.pcs (lc n) !! tid = Some (L.InCall lid);
  no_answered : forall tid ret, calls n !! tid = Some (Answered ret) ->
    exists lid, L.pcs (lc n) !! tid = Some (L.InCall lid) /\ (ret = lock_protocol.OK -> own lid = Some c);
  no_has : forall lid, has (lc n) lid -> own lid = Some c;
  no_rel : forall lid seq, rel n = Picked lid seq \/ rel n = Flushed lid seq ->
    exists i, L.releaser_at (L.cl (lc n)) = L.Calling i lid;
  no_good : X.good (ec n);
  no_cached : forall eid, X.cached (ec n) eid ->
    own eid = Some c /\ (has (lc n) eid \/ exists seq, rel n = Picked eid seq)
}.

(** [m] is what the extents contain: a client that is alone in keeping
    something of an extent sees its contents. *)
Record store_ok (w : world) (m : gmap Z bytes) : Prop := {
  so_paired : extent_server.paired (store w);
  so_removed : forall c eid, eid ∈ X.removed_extents (ec (node_of w c)) ->
    is_Some (extent_server.extents (store w) !! eid);
  so_view : forall c eid, (forall d, d <> c -> ~ X.cached (ec (node_of w d)) eid) ->
    X.view (ec (node_of w c)) (store w) eid = m !! eid
}.

Definition inv (w : world) (m : gmap Z bytes) : Prop :=
  (forall c, node_ok (S.owner (locks w)) c (node_of w c)) /\ store_ok w m.

Lemma node_of_set c n w d : node_of (set_node c n w) d = if decide (c = d) then n else node_of w d.
Proof.
  unfold node_of, set_node. cbn. case_decide; [subst; apply map_get_insert_eq|by apply map_get_insert_ne].
Qed.

Lemma node_of_locks s w d : node_of (set_locks s w) d = node_of w d.
Proof. done. Qed.

Lemma node_of_store srv w d : node_of (set_store srv w) d = node_of w d.
Proof. done. Qed.

Lemma coherence_new : inv world_new ∅.
Proof.
  assert (forall eid, ~ X.cached X.new eid) as Hn.
  { intros eid [H|H]; [cbn in H; rewrite lookup_empty in H; by destruct H|by apply elem_of_nil in H]. }
  split; [intros c; split|split]; cbn.
  - split; cbn; intros; try done; by apply elem_of_nil in H.
  - done.
  - done.
  - by intros lid [].
  - by intros lid seq [].
  - apply X.new_good.
  - by intros eid ?%Hn.
  - apply extent_server.new_paired.
  - intros c eid ?%elem_of_nil. done.
  - intros c eid _. rewrite X.view_uncached; [done|apply Hn].
Qed.

(** Only what the clients keep of extents matters for the contents. *)
Lemma store_ok_same w w' m :
  (forall c, ec (node_of w' c) = ec (node_of w c)) -> store w' = store w -> store_ok w m -> store_ok w' m.
Proof.
  intros He Hs [H1 H2 H3]. split; rewrite Hs; [done| |]; intros c eid; rewrite He; [apply H2|].
  intros Hd. apply H3. intros d Hne. rewrite <- He. by apply Hd.
Qed.

(** A change that is about one extent. *)
Lemma store_ok_change eid w w' m m' :
  store_ok w m -> extent_server.paired (store w') ->
  (forall d, X.keeps_others eid (ec (node_of w d)) (ec (node_of w' d))) ->
  (forall k, k <> eid -> extent_server.extents (store w') !! k = extent_server.extents (store w) !! k) ->
  (forall k, k <> eid -> m' !! k = m !! k) ->
  (forall d, eid ∈ X.removed_extents (ec (node_of w' d)) ->
     is_Some (extent_server.extents (store w') !! eid)) ->
  (forall d, (forall d', d' <> d -> ~ X.cached (ec (node_of w' d')) eid) ->
     X.view (ec (node_of w' d)) (store w') eid = m' !! eid) ->
  store_ok w' m'.
Proof.
  intros [H1 H2 H3] Hp Hk Hs Hm Hr Hv. split; [done| |]; intros c k; destruct (decide (k = eid)) as [->|Hne].
  - apply Hr.
  - intros Hin. rewrite Hs by done. apply (H2 c). by apply (Hk c k Hne).
  - apply Hv.
  - intros Hd. rewrite Hm, <- (H3 c) by (try done; intros d Hdc; rewrite <- (X.keeps_others_cached eid _ _ k (Hk d) Hne);
      by apply Hd).
    apply (X.keeps_others_view eid); [apply Hk|done|by apply Hs].
Qed.

(** Another owner is as good when it is the same for the locks the node uses. *)
Lemma node_ok_own own own' c n :
  node_ok own c n ->
  (forall lid, own lid = Some c ->
     has (lc n) lid \/ X.cached (ec n) lid \/ (exists tid, L.pcs (lc n) !! tid = Some (L.InCall lid)) ->
     own' lid = Some c) ->
  node_ok own' c n.
Proof.
  intros [H1 H2 H3 H4 H5 H6 H7] Ho. split; try done.
  - intros tid ret (lid & Hp & Hr)%H3. exists lid. split; [done|]. intros E. apply Ho; [auto|].
    right. right. by exists tid.
  - intros lid Hl. apply Ho; auto.
  - intros eid He. destruct (H7 eid He) as [E ?]. split; [|done]. apply Ho; auto.
Qed.

Lemma inv_owner w w' m :
  inv w m -> (forall c, node_of w' c = node_of w c) -> store w' = store w ->
  (forall lid, S.owner (locks w') lid = S.owner (locks w) lid) -> inv w' m.
Proof.
  intros [H1 H2] Hn Hs Ho. split.
  - intros c. rewrite Hn. eapply node_ok_own; [apply H1|]. intros lid <- _. apply Ho.
  - eapply store_ok_same; [|exact Hs|done]. intros c. by rewrite Hn.
Qed.

(** ** The steps keep it *)

Section Steps.
Context (w : world) (m : gmap Z bytes) (Hi : inv w m).

(** A step of a lock client: what is to be shown of its calls and its releaser. *)
Lemma lock_step_inv c e cs r w' :
  let n := node_of w c in
  lock_step c e cs r w = Some w' -> L.leaves_calls_alone (lc n) e = true ->
  (forall l', L.step (lc n) e = Some l' ->
     (forall tid lid seq, cs !! tid = Some (Asked lid seq) -> L.pcs l' !! tid = Some (L.InCall lid)) /\
     (forall tid ret, cs !! tid = Some (Answered ret) -> calls n !! tid = Some (Answered ret) /\
        forall ret', e <> L.EReply tid ret') /\
     (forall lid seq, r = Picked lid seq \/ r = Flushed lid seq ->
        exists i, L.releaser_at (L.cl l') = L.Calling i lid)) ->
  (forall tid lid, e = L.EReply tid lock_protocol.OK -> L.pcs (lc n) !! tid = Some (L.InCall lid) ->
     S.owner (locks w) lid = Some c) ->
  (forall eid, X.cached (ec n) eid -> has_after (lc n) e eid \/ exists seq, r = Picked eid seq) ->
  inv w' m.
Proof.
  cbn zeta. unfold lock_step. set (n := node_of w c). destruct (L.step (lc n) e) as [l'|] eqn:E; [|done].
  intros [= <-] Hg Hl Hown Hca. destruct Hi as [H1 H2]. destruct (H1 c) as [M A1 A2 A3 A4 A5 A6]. fold n in M, A1, A2, A3, A4, A5, A6.
  destruct (Hl l' eq_refl) as (B1 & B2 & B3). split.
  - intros d. rewrite node_of_set. cbn [locks set_node]. case_decide; [subst d|apply H1].
    split; cbn [lc ec calls rel]; try done.
    + apply (L.careful_step_inv (lc n) e l' M). unfold L.careful_step. by rewrite Hg.
    + intros tid ret Hc. destruct (B2 tid ret Hc) as [Hc' Hne]. destruct (A2 tid ret Hc') as (lid & Hp & Ho).
      exists lid. split; [|done]. by eapply step_calls.
    + intros lid Hh. apply (step_has (lc n) e l' lid M E) in Hh.
      destruct e; cbn [has_after] in Hh; try (apply A3; tauto). destruct Hh as [Hh|[-> Hp]]; eauto.
    + intros eid Hc. split; [by apply A6|]. rewrite (step_has (lc n) e l' eid M E). auto.
  - apply (store_ok_same w); [|done|exact H2]. intros d. rewrite node_of_set. by case_decide; subst.
Qed.

(** The steps that neither start nor end a call. *)
Definition plain (e : L.event) : bool :=
  match e with L.ELoop _ | L.EReply _ _ | L.EPick | L.EPicked _ => false | _ => true end.

Lemma plain_step_inv c e w' :
  lock_step c e (calls (node_of w c)) (rel (node_of w c)) w = Some w' -> plain e = true -> inv w' m.
Proof.
  intros Hs Hp. destruct Hi as [H1 _]. destruct (H1 c) as [M A1 A2 A3 A4 A5 A6].
  eapply lock_step_inv; [exact Hs|by destruct e| |by destruct e|].
  - intros l' Hl. split_and!.
    + intros tid lid seq Hc. eapply step_calls; [exact Hl|eauto|by destruct e].
    + intros tid ret Hc. split; [done|]. by destruct e.
    + intros lid seq Hr. rewrite (step_releaser _ _ _ Hl) by (by destruct e). eauto.
  - intros eid Hc. destruct (A6 eid Hc) as [_ [Hh|?]]; [left; by destruct e|by right].
Qed.

Lemma loop_inv c tid w' : step w (Loop c tid) = Some w' -> inv w' m.
Proof.
  cbn [step]. intros Hs. destruct Hi as [H1 _]. destruct (H1 c) as [M A1 A2 A3 A4 A5 A6].
  eapply lock_step_inv; [exact Hs|done| |done|].
  - intros l' Hl. assert (forall t lid seq, calls (node_of w c) !! t = Some (Asked lid seq) ->
      L.pcs l' !! t = Some (L.InCall lid)) as Hold by (intros; eapply step_calls; eauto).
    split_and!.
    + intros t lid seq. destruct (loop_call tid _) as [[lid0 seq0]|] eqn:E; [|apply Hold].
      intros [[<- [= -> ->]]|[_ Hc]]%lookup_insert_Some; [by eapply loop_call_in|by eapply Hold].
    + intros t ret. destruct (loop_call tid _) as [[lid0 seq0]|] eqn:E; [|done].
      intros [[_ [=]]|[_ Hc]]%lookup_insert_Some. done.
    + intros lid seq Hr. rewrite (step_releaser _ _ _ Hl) by done. eauto.
  - intros eid Hc. destruct (A6 eid Hc) as [_ ?]. done.
Qed.

(** The reply to an acquire reaches its thread, or the call fails. *)
Lemma acquire_back_inv c tid ok w' : step w (AcquireBack c tid ok) = Some w' -> inv w' m.
Proof.
  cbn [step]. intros Hs. destruct Hi as [H1 _]. destruct (H1 c) as [M A1 A2 A3 A4 A5 A6].
  assert (forall ret, lock_step c (L.EReply tid ret) (delete tid (calls (node_of w c)))
    (rel (node_of w c)) w = Some w' ->
    (ret = lock_protocol.OK -> calls (node_of w c) !! tid = Some (Answered ret)) -> inv w' m) as Hgen.
  { intros ret Hl Hret. eapply lock_step_inv; [exact Hl|done| | |].
    - intros l' Hl'. split_and!.
      + intros t lid seq [Hne Hc]%lookup_delete_Some. eapply step_calls; [exact Hl'|eauto|congruence].
      + intros t r [Hne Hc]%lookup_delete_Some. split; [done|congruence].
      + intros lid seq Hr. rewrite (step_releaser _ _ _ Hl') by done. eauto.
    - intros t lid [= <- ->] Hp. destruct (A2 tid _ (Hret eq_refl)) as (lid' & Hp' & Ho).
      rewrite Hp in Hp'. injection Hp' as <-. by apply Ho.
    - intros eid Hc. destruct (A6 eid Hc) as [_ [?|?]]; [left; by left|by right]. }
  destruct (calls _ !! tid) as [[lid seq|ret]|], ok; try done; (eapply Hgen; [exact Hs|]); done.
Qed.

Lemma pick_inv c w' : careful w (Pick c) = true -> step w (Pick c) = Some w' -> inv w' m.
Proof.
  cbn [step careful]. intros Hg Hs. destruct Hi as [H1 _]. destruct (H1 c) as [M A1 A2 A3 A4 A5 A6].
  destruct (rel (node_of w c)) eqn:Er; try done.
  eapply lock_step_inv; [exact Hs|done| |done|].
  - intros l' Hl. split_and!.
    + intros; eapply step_calls; eauto.
    + done.
    + injection Hl as <-. cbn [L.cl]. destruct (L.releaser_next _) as [[[lid0 seq0]|] cl'] eqn:E; cbn [fst snd].
      * intros lid seq [[= <- <-]|[=]]. by eapply pick_calling.
      * by intros lid seq [].
  - intros eid Hc. destruct (A6 eid Hc) as [_ [Hh|[seq [=]]]]. cbn [has_after].
    destruct (L.releaser_next _) as [[[lid0 seq0]|] cl'] eqn:E; cbn [fst].
    + destruct (decide (eid = lid0)) as [->|]; [right; by eexists|]. left. split; [done|congruence].
    + by left.
Qed.

Lemma release_back_inv c ok w' : step w (ReleaseBack c ok) = Some w' -> inv w' m.
Proof.
  cbn [step]. intros Hs. destruct Hi as [H1 _]. destruct (H1 c) as [M A1 A2 A3 A4 A5 A6].
  assert (forall ret, lock_step c (L.EPicked ret) (calls (node_of w c)) Idle w = Some w' ->
    (forall lid seq, rel (node_of w c) <> Picked lid seq) -> inv w' m) as Hgen.
  { intros ret Hl Hr. eapply lock_step_inv; [exact Hl|done| |done|].
    - intros l' Hl'. split_and!; [intros; eapply step_calls; eauto|done|by intros lid seq []].
    - intros eid Hc. destruct (A6 eid Hc) as [_ [Hh|[seq E]]]; [by left|by apply Hr in E]. }
  destruct (rel (node_of w c)), ok; try done; by (eapply Hgen; [exact Hs|]).
Qed.

(** The server executes an acquire: nobody loses a lock by it. *)
Lemma acquire_at_inv c tid w' : step w (AcquireAt c tid) = Some w' -> inv w' m.
Proof.
  cbn [step]. intros Hs. destruct (calls (node_of w c) !! tid) as [[lid seq|]|] eqn:Ec; try done.
  pose proof (S.acquire_owner c seq lid (locks w)) as Ha.
  destruct (S.acquire c seq lid (locks w)) as [st s]. injection Hs as <-. destruct Ha as [Ha Hother].
  assert (forall l d, S.owner (locks w) l = Some d -> S.owner s l = Some d) as Hmono.
  { intros l d Ho. destruct (decide (l = lid)) as [->|Hne]; [|unfold S.owner; by rewrite Hother].
    destruct Ha as [(_ & E & _)|(_ & E)]; congruence. }
  destruct Hi as [H1 H2]. split.
  - intros d. assert (node_ok (S.owner s) d (node_of w d)) as Hd.
    { apply (node_ok_own (S.owner (locks w))); [apply H1|]. intros l Ho _. by apply Hmono. }
    rewrite node_of_locks, node_of_set. cbn [locks set_locks]. case_decide; [subst d|done]. destruct Hd as [M A1 A2 A3 A4 A5 A6]. split; try done; cbn [lc calls].
    + intros t l q [[_ [=]]|[_ Hc]]%lookup_insert_Some. eauto.
    + intros t ret [[<- [= <-]]|[_ Hc]]%lookup_insert_Some; [|eauto]. exists lid. split; [eauto|].
      intros ->. by destruct Ha as [(_ & _ & E)|([=] & _)].
  - apply (store_ok_same w); [|done|done]. intros d.
    rewrite node_of_locks, node_of_set. by case_decide; subst.
Qed.

(** The server executes a release: no client has anything of the lock then. *)
Lemma release_at_inv c w' :
  careful w (ReleaseAt c) = true -> step w (ReleaseAt c) = Some w' -> inv w' m.
Proof.
  cbn [step careful]. intros Hg Hs. destruct (rel (node_of w c)) as [|?|lid seq|] eqn:Er; try done.
  pose proof (S.lock_of_step (locks w) (S.ERelease c seq lid)) as Hst. cbn [S.step S.lock_change] in Hst.
  destruct (S.release c seq lid (locks w)) as [st s]. injection Hs as <-. cbn [snd] in Hst.
  destruct Hi as [H1 H2].
  assert (L.st_of (L.cl (lc (node_of w c))) lid = L.RELEASING) as Hrel.
  { destruct (H1 c) as [M _ _ _ A4 _ _]. destruct (A4 lid seq) as [i Hc]; [by right|].
    by apply (L.mi_releaser _ M i). }
  split.
  - intros d. assert (node_ok (S.owner s) d (node_of w d)) as Hd.
    { apply (node_ok_own (S.owner (locks w))); [apply H1|]. intros l Ho Hu.
      destruct (decide (l = lid)) as [->|Hne].
      2:{ unfold S.owner. rewrite Hst, decide_False by done. exact Ho. }
      exfalso. rewrite Ho in Hg. apply bool_decide_eq_true in Hg as ->.
      destruct (H1 c) as [M _ _ _ _ _ A6]. destruct Hu as [[Hu|Hu]|[Hu|[t Hu]]]; [congruence..| |].
      - destruct (A6 lid Hu) as [_ [[?|?]|[q ?]]]; congruence.
      - apply (L.mi_call _ M) in Hu. congruence. }
    rewrite node_of_locks, node_of_set. cbn [locks set_locks]. case_decide; [subst d|done].
    destruct Hd as [M A1 A2 A3 A4 A5 A6]. split; try done; cbn [rel].
    + by intros l q [].
    + intros eid Hc. destruct (A6 eid Hc) as [Ho [Hh|[q ?]]]; [by auto|congruence].
  - apply (store_ok_same w); [|done|done]. intros d.
    rewrite node_of_locks, node_of_set. by case_decide; subst.
Qed.

Lemma cached_by_one d d' eid :
  X.cached (ec (node_of w d)) eid -> X.cached (ec (node_of w d')) eid -> d = d'.
Proof.
  destruct Hi as [H1 _]. intros [H _]%(no_cached _ _ _ (H1 d)) [H' _]%(no_cached _ _ _ (H1 d')). congruence.
Qed.

(** A change of what a client keeps of one extent. *)
Lemma extent_change c x r srv eid m' :
  let n := node_of w c in
  X.good x -> extent_server.paired srv -> X.keeps_others eid (ec n) x ->
  (forall k, k <> eid -> extent_server.extents srv !! k = extent_server.extents (store w) !! k) ->
  (forall k, k <> eid -> m' !! k = m !! k) ->
  (eid ∈ X.removed_extents x -> is_Some (extent_server.extents srv !! eid)) ->
  (forall d, d <> c -> X.cached (ec (node_of w d)) eid ->
     ~ X.cached x eid /\ m' !! eid = m !! eid /\ extent_server.extents srv = extent_server.extents (store w)) ->
  ((forall d, d <> c -> ~ X.cached (ec (node_of w d)) eid) -> X.view x srv eid = m' !! eid) ->
  (forall lid seq, r = Picked lid seq \/ r = Flushed lid seq ->
     rel n = Picked lid seq \/ rel n = Flushed lid seq) ->
  (forall k, X.cached x k -> (k = eid \/ X.cached (ec n) k) ->
     S.owner (locks w) k = Some c /\ (has (lc n) k \/ exists seq, r = Picked k seq)) ->
  inv (set_store srv (set_node c (Node (lc n) x (calls n) r) w)) m'.
Proof.
  cbn zeta. set (n := node_of w c). intros Hg Hp Hk Hs Hm Hr Hoth Hv Hrel Hca. destruct Hi as [H1 H2].
  assert (forall d, ec (node_of (set_store srv (set_node c (Node (lc n) x (calls n) r) w)) d) =
    if decide (c = d) then x else ec (node_of w d)) as He.
  { intros d. rewrite node_of_store, node_of_set. by case_decide. }
  split.
  - intros d. rewrite node_of_store, node_of_set. cbn [locks set_store set_node]. case_decide; [subst d|apply H1].
    destruct (H1 c) as [M A1 A2 A3 A4 A5 A6]. split; try done; cbn [lc ec rel calls].
    + intros lid seq ?. by eapply A4, Hrel.
    + intros k Hc. apply Hca; [done|]. destruct (decide (k = eid)) as [|Hne]; [by left|right].
      by apply (X.keeps_others_cached eid _ _ k Hk Hne).
  - apply (store_ok_change eid w _ m); try done.
    + intros d. rewrite He. by case_decide; [subst d|].
    + intros d. rewrite He. cbn [store set_store]. case_decide; [by subst|]. intros Hd.
      destruct (Hoth d) as (_ & _ & ->); [done|by right|]. by apply (so_removed w m H2 d).
    + intros d Hd. assert (forall d', d' <> d -> ~ X.cached (if decide (c = d') then x else ec (node_of w d')) eid) as Hd'.
      { intros d' ?. rewrite <- He. by apply Hd. }
      rewrite He. cbn [store set_store]. case_decide as E.
      * subst d. apply Hv. intros d' Hne Hc'. specialize (Hd' d' Hne). rewrite decide_False in Hd' by done. done.
      * assert (~ X.cached x eid) as Hx by (specialize (Hd' c E); by rewrite decide_True in Hd').
        destruct (decide (X.cached (ec (node_of w d)) eid)) as [Hcd|Hcd].
        -- destruct (Hoth d) as (_ & -> & Es); [done..|].
           transitivity (X.view (ec (node_of w d)) (store w) eid); [unfold X.view; by rewrite Es|].
           apply (so_view w m H2 d). intros d' Hne Hc'. apply Hne. by apply (cached_by_one d' d eid).
        -- rewrite X.view_uncached by done. rewrite <- (X.view_uncached x srv eid Hx). apply Hv.
           intros d' Hne Hc'. destruct (decide (d' = d)) as [->|Hdd]; [done|].
           specialize (Hd' d' Hdd). by rewrite decide_False in Hd'.
Qed.

(** A thread that holds the lock of an extent is alone with it. *)
Lemma holder_alone c tid eid :
  (eid, tid) ∈ L.holders (lc (node_of w c)) ->
  has (lc (node_of w c)) eid /\ S.owner (locks w) eid = Some c /\
  (forall d, d <> c -> ~ X.cached (ec (node_of w d)) eid) /\
  X.view (ec (node_of w c)) (store w) eid = m !! eid.
Proof.
  intros Hh. destruct Hi as [H1 H2]. destruct (H1 c) as [M _ _ A3 _ _ _].
  assert (has (lc (node_of w c)) eid) as Hs by (right; by apply (L.mi_hold _ M tid)).
  pose proof (A3 eid Hs) as Ho.
  assert (forall d, d <> c -> ~ X.cached (ec (node_of w d)) eid) as Hd.
  { intros d Hne [E _]%(no_cached _ _ _ (H1 d)). congruence. }
  split_and!; [done..|]. by apply (so_view w m H2).
Qed.

Lemma holder_change c tid eid x srv m' :
  let n := node_of w c in
  (eid, tid) ∈ L.holders (lc n) -> X.good x -> extent_server.paired srv -> X.keeps_others eid (ec n) x ->
  (forall k, k <> eid -> extent_server.extents srv !! k = extent_server.extents (store w) !! k) ->
  (forall k, k <> eid -> m' !! k = m !! k) ->
  (eid ∈ X.removed_extents x -> is_Some (extent_server.extents srv !! eid)) ->
  X.view x srv eid = m' !! eid ->
  inv (set_store srv (set_node c (Node (lc n) x (calls n) (rel n)) w)) m'.
Proof.
  cbn zeta. intros Hh Hg Hp Hk Hs Hm Hr Hv. destruct (holder_alone c tid eid Hh) as (Hhas & Ho & Hd & _).
  apply (extent_change c x _ srv eid); try done.
  - intros d Hne Hc. by apply Hd in Hc.
  - intros k _ [->|Hc]; [by auto|]. destruct Hi as [H1 _]. by apply (no_cached _ _ _ (H1 c)).
Qed.

Lemma dorelease_inv c tid f1 f2 w' :
  careful w (DoRelease c tid f1 f2) = true -> step w (DoRelease c tid f1 f2) = Some w' -> inv w' m.
Proof.
  cbn [step careful]. intros Hg Hs. destruct f1, f2; try done. clear Hg.
  destruct (rel (node_of w c)) as [|lid seq| |] eqn:Er; try done. unfold dorelease in Hs.
  destruct (X.flush tid X.Done X.Done lid (ec (node_of w c)) (store w)) as [[[u x] srv]|] eqn:Ef; [|done].
  injection Hs as <-. destruct Hi as [H1 H2]. destruct (H1 c) as [M A1 A2 A3 A4 A5 A6].
  destruct (X.flush_any tid lid (ec (node_of w c)) (store w) u x srv) as (F1 & F2 & F3 & F4 & F5 & F6); try done.
  { apply H2. }
  { apply (so_removed w m H2). }
  apply (extent_change c x _ srv lid); try done.
  - intros ?. exfalso. apply F4. by right.
  - intros d Hne Hd. split; [done|]. split; [done|]. apply map_eq. intros k.
    destruct (decide (k = lid)) as [->|]; [|by apply F6]. rewrite F5. apply X.view_uncached.
    intros Hc. apply Hne. by apply (cached_by_one d c lid).
  - intros Hd. rewrite X.view_uncached by done. rewrite F5. by apply (so_view w m H2).
  - intros l q [[=]|[= -> ->]]. by left.
  - intros k Hc [->|Hk]; [done|]. destruct (A6 k Hk) as [Ho [Hh|[q Hq]]]; [by auto|].
    rewrite Er in Hq. injection Hq as -> ->. done.
Qed.

(** The operations on extents change the contents as the history says. *)
Lemma extent_step_inv e w' :
  careful w e = true -> step w e = Some w' ->
  match e with
  | Get _ _ _ _ _ _ | Getattr _ _ _ _ _ _ | Put _ _ _ _ _ | Remove _ _ _ => inv w' (write m e)
  | _ => True
  end.
Proof.
  intros Hg Hs. destruct Hi as [H1 H2]. destruct e; try done; cbn [step careful write] in *; unfold extent_step in Hs;
    (destruct (std_mem (eid, tid) _) eqn:Em; [apply std_mem_spec in Em|done]);
    destruct (holder_alone _ _ _ Em) as (Hhas & Ho & Hd & Hv); pose proof (no_good _ _ _ (H1 c)) as Hgood.
  - apply negb_true_iff, bool_decide_eq_false in Hg. destruct (X.get _ _ _ _ _ _ _ _) as [[[r x] srv]|] eqn:E; [|done]. injection Hs as <-.
    destruct (X.get_any _ _ _ _ _ _ _ _ _ _ _ Hgood (so_paired _ _ H2) Hg E)
      as (F1 & F2 & F3 & F4 & F5 & F6 & _).
    apply (holder_change c tid eid); try done; [by rewrite F3|congruence].
  - apply negb_true_iff, bool_decide_eq_false in Hg. destruct (X.getattr _ _ _ _ _ _ _ _) as [[[r x] srv]|] eqn:E; [|done]. injection Hs as <-.
    destruct (X.getattr_any _ _ _ _ _ _ _ _ _ _ _ Hgood (so_paired _ _ H2) Hg E)
      as (F1 & F2 & F3 & F4 & F5 & F6).
    apply (holder_change c tid eid); try done; [by rewrite F3|congruence].
  - destruct (X.put _ _ _ _ _ _) as [[[r x] srv]|] eqn:E; [|done]. injection Hs as <-.
    destruct (X.put_any _ _ _ _ _ _ _ _ _ Hgood E) as (F1 & -> & F3 & F4 & F5).
    apply (holder_change c tid eid); try done; [apply H2| |].
    + intros k Hne. by rewrite lookup_insert_ne.
    + unfold X.view. by rewrite F5, lookup_insert_eq.
  - apply andb_true_iff in Hg as [G1%map_has_true G2%map_has_true].
    destruct (X.remove _ _ _ _) as [[[r x] srv]|] eqn:E; [|done]. injection Hs as <-.
    destruct (X.remove_any _ _ _ _ _ _ _ Hgood G1 E) as (F1 & -> & F3 & F4 & F5).
    apply (holder_change c tid eid); try done; [apply H2| |].
    + intros k Hne. by rewrite lookup_delete_ne.
    + unfold X.view. rewrite F5, lookup_delete_eq. unfold std_mem. by rewrite bool_decide_true.
Qed.

(** The turns of the server's threads change no owner. *)
Lemma server_thread_inv e rv rt :
  (forall clt seq lid, e <> S.EAcquire clt seq lid) -> (forall clt seq lid, e <> S.ERelease clt seq lid) ->
  inv (set_out rv rt (set_locks (S.step (locks w) e) w)) m.
Proof. intros Ha Hr. apply (inv_owner w); [done..|]. intros lid. by apply S.owner_other. Qed.

Lemma set_out_inv rv rt w' : inv w' m -> inv (set_out rv rt w') m.
Proof. intros H. by apply (inv_owner w'). Qed.

Lemma outcall_inv e w' :
  step w e = Some w' ->
  match e with
  | Revoker | RevokeAt | RevokeBack _ | Retryer | RetryAt | RetryBack _ => inv w' m
  | _ => True
  end.
Proof.
  intros Hs. destruct e; try done; cbn [step] in Hs.
  - destruct (revoking w); try done. pose proof (server_thread_inv S.ERevoke) as H. cbn [S.step] in H.
    destruct (S.revoker_next (locks w)). injection Hs as <-. by apply H.
  - destruct (revoking w); try done. destruct (lock_step _ _ _ _ _) eqn:E; [|done]. injection Hs as <-.
    apply set_out_inv. by eapply plain_step_inv.
  - destruct (revoking w), ok; try done; injection Hs as <-; by apply (server_thread_inv (S.ERevoked _)).
  - destruct (retrying w); try done. pose proof (server_thread_inv S.ERetry) as H. cbn [S.step] in H.
    destruct (S.retryer_next (locks w)). injection Hs as <-. by apply H.
  - destruct (retrying w); try done. destruct (lock_step _ _ _ _ _) eqn:E; [|done]. injection Hs as <-.
    apply set_out_inv. by eapply plain_step_inv.
  - destruct (retrying w), ok; try done; injection Hs as <-; by apply (server_thread_inv (S.ERetried _)).
Qed.

Lemma coherence_step e w' : careful_step w e = Some w' -> inv w' (write m e).
Proof.
  unfold careful_step. destruct (careful w e) eqn:Hg; [|done]. intros Hs.
  pose proof (extent_step_inv e w' Hg Hs) as Hx. pose proof (outcall_inv e w' Hs) as Hu.
  destruct e; try done; cbn [write].
  - by eapply plain_step_inv.
  - by eapply loop_inv.
  - by eapply plain_step_inv.
  - by eapply acquire_at_inv.
  - by eapply acquire_back_inv.
  - by eapply plain_step_inv.
  - by eapply pick_inv.
  - by eapply dorelease_inv.
  - by eapply release_at_inv.
  - by eapply release_back_inv.
Qed.

End Steps.

Lemma coherence_run es w m w' :
  inv w m -> exec careful_step w es = Some w' -> inv w' (foldl write m es).
Proof.
  revert w m. induction es as [|e es IH]; intros w m Hi; cbn [exec foldl]; [by intros [= <-]|].
  destruct (careful_step w e) as [w1|] eqn:E; [|done]. apply IH. by apply (coherence_step w).
Qed.

(** Only [release] takes a lock from a thread. *)
Lemma client_keeps_holders l e l' x :
  L.step l e = Some l' -> (forall t lid, e <> L.ERelease t lid) -> x ∈ L.holders l -> x ∈ L.holders l'.
Proof.
  intros H Hne Hx. client_cases e H; repeat case_match; simplify_eq/=; try done.
  all: try (exfalso; by apply (Hne t l0)).
  all: try (unfold L.continue; case_match; cbn; try apply elem_of_cons; auto).
Qed.

Lemma lock_step_holders c e cs r w w' d x :
  lock_step c e cs r w = Some w' -> (forall t lid, e <> L.ERelease t lid) ->
  x ∈ L.holders (lc (node_of w d)) -> x ∈ L.holders (lc (node_of w' d)).
Proof.
  unfold lock_step. destruct (L.step _ _) as [l|] eqn:E; [|done]. intros [= <-] Hne. rewrite node_of_set.
  case_decide; [subst d|done]. cbn [lc]. by apply (client_keeps_holders _ e).
Qed.

Lemma step_holders w e w' c x :
  step w e = Some w' -> (forall d t lid, e <> Release d t lid) ->
  x ∈ L.holders (lc (node_of w c)) -> x ∈ L.holders (lc (node_of w' c)).
Proof.
  intros H Hne. destruct e; cbn [step] in H; unfold extent_step in H; try (by exfalso; eapply Hne);
    repeat case_match; simplify_eq; try done;
    try (by eapply lock_step_holders); try (rewrite ?node_of_store, ?node_of_locks, node_of_set; by case_decide; subst).
  all: change (node_of (set_out _ _ ?w) c) with (node_of w c); by eapply lock_step_holders.
Qed.

Lemma holders_unique w m lid c t c' t' :
  inv w m -> (lid, t) ∈ L.holders (lc (node_of w c)) -> (lid, t') ∈ L.holders (lc (node_of w c')) ->
  c = c' /\ t = t'.
Proof.
  intros Hi H H'. destruct (holder_alone w m Hi c t lid H) as (_ & Ho & _).
  destruct (holder_alone w m Hi c' t' lid H') as (_ & Ho' & _).
  assert (c = c') as <- by congruence. split; [done|].
  by apply (L.mi_one_hold _ (no_mutex _ _ _ (proj1 Hi c)) t t' lid).
Qed.

(** ** What the composition promises *)

(** C6: in every careful run of clients, lock server and extent server, at
    most one thread of all clients together holds a lock. *)
Theorem one_holder_in_the_system es w lid c t c' t' :
  exec careful_step world_new es = Some w ->
  (lid, t) ∈ L.holders (lc (node_of w c)) -> (lid, t') ∈ L.holders (lc (node_of w c')) ->
  c = c' /\ t = t'.
Proof.
  intros He. pose proof (coherence_run es _ _ w coherence_new He) as Hi. by apply holders_unique with (written es).
Qed.

(** C3: the caches are coherent: in every careful run, a thread that holds
    the lock of an extent reads what was put last, by whatever client and
    through whatever caches it went, or [NOENT] when the extent was never put
    or was removed since. *)
Theorem reads_see_the_last_write es w c tid now eid :
  exec careful_step world_new es = Some w ->
  (eid, tid) ∈ L.holders (lc (node_of w c)) -> (~ eid ∈ X.removed_extents (ec (node_of w c))) ->
  exists ret buf x srv,
    X.get tid X.Done X.Done now eid [] (ec (node_of w c)) (store w) = Some ((ret, buf), x, srv) /\
    match written es !! eid with
    | Some b => ret = extent_protocol.OK /\ buf = b
    | None => ret = extent_protocol.NOENT
    end.
Proof.
  intros He H Hr. pose proof (coherence_run es _ _ w coherence_new He) as Hi.
  destruct (holder_alone w _ Hi c tid eid H) as (_ & _ & _ & Hv). fold (written es) in Hv.
  destruct (X.get_done tid now eid (ec (node_of w c)) (store w)) as (ret & buf & x & srv & E & _ & Hm & _);
    [apply (proj1 Hi c)|apply (proj2 Hi)|done|].
  exists ret, buf, x, srv. split; [done|]. by rewrite Hv in Hm.
Qed.

(** ** Concrete runs *)

(** A thread of [c] gets a lock that is free. *)
Definition takes (c : bytes) (tid lid : Z) : list event :=
  [Enter c tid lid; Loop c tid; AcquireAt c tid; AcquireBack c tid true].

(** The lock goes from [d], whose threads have released it, to a thread of
    [c] that asks for it; [f] is the fate of what [d] flushes. *)
Definition handover (d c : bytes) (tid lid : Z) (f : X.fate) : list event :=
  takes c tid lid ++
  [Revoker; RevokeAt; RevokeBack true; Pick d; DoRelease d 9 f f; ReleaseAt d;
   ReleaseBack d true; Retryer; RetryAt; RetryBack true; Revoker; Pick d; Await c tid; Loop c tid;
   AcquireAt c tid; AcquireBack c tid true].

(** A puts extent 7 and B gets the lock after it. *)
Definition demo (f : X.fate) : list event :=
  takes S.cA 1 7 ++ [Put S.cA 1 100 7 (str "a"); Release S.cA 1 7] ++ handover S.cA S.cB 2 7 f.

Lemma demo_runs : exists w, exec careful_step world_new (demo X.Done) = Some w /\
  L.holders (lc (node_of w S.cB)) = [(7, 2)] /\ X.removed_extents (ec (node_of w S.cB)) = [].
Proof. vm_compute. by eexists. Qed.

Lemma one_holder_in_the_system_witness :
  exists w, exec careful_step world_new (demo X.Done) = Some w /\
    forall c t, (7, t) ∈ L.holders (lc (node_of w c)) -> c = S.cB /\ t = 2.
Proof.
  destruct demo_runs as (w & E & Hh & _). exists w. split; [exact E|]. intros c t H.
  apply (one_holder_in_the_system (demo X.Done) w 7 c t S.cB 2 E H). rewrite Hh.
  apply list_elem_of_singleton. reflexivity.
Defined.

Lemma reads_see_the_last_write_witness :
  exists w x srv, exec careful_step world_new (demo X.Done) = Some w /\
    X.get 2 X.Done X.Done 101 7 [] (ec (node_of w S.cB)) (store w) =
      Some ((extent_protocol.OK, str "a"), x, srv).
Proof.
  destruct demo_runs as (w & E & Hh & Hr).
  destruct (reads_see_the_last_write (demo X.Done) w S.cB 2 101 7 E) as (ret & buf & x & srv & Hg & Hm).
  - rewrite Hh. apply list_elem_of_singleton. reflexivity.
  - rewrite Hr. apply not_elem_of_nil.
  - exists w, x, srv. split; [exact E|]. vm_compute in Hm. destruct Hm as [-> ->]. exact Hg.
Defined.

(** What a [get] of extent 7 by thread [tid] of [c] returns after a run. *)
Definition reads_after (es : list event) (c : bytes) (tid : Z) : option (Z * bytes) :=
  match exec step world_new es with
  | Some w =>
      match X.get tid X.Done X.Done 200 7 [] (ec (node_of w c)) (store w) with
      | Some (r, _, _) => Some r
      | None => None
      end
  | None => None
  end.

(** [dorelease] has no result, so that the lock goes back although the call that
    writes the extent back has failed: the next holder does not see what was
    put, and the lock's old owner still has it in its cache. *)
Theorem failed_flush_loses_update :
  reads_after (demo X.Done) S.cB 2 = Some (extent_protocol.OK, str "a") /\
  reads_after (demo X.Lost) S.cB 2 = Some (extent_protocol.NOENT, []) /\
  match exec step world_new (demo X.Lost) with
  | Some w => X.view (ec (node_of w S.cA)) (store w) 7 = Some (str "a")
  | None => False
  end.
Proof. vm_compute. auto. Qed.

(** A puts and removes extent 7 before the server has heard of it.  The flush
    makes the server remove it, which answers [NOENT], and the mark in
    [removed_extents] stays.  B then creates the extent.  A gets the lock again
    and gives it back without having touched the extent, which flushes the old
    mark: B's extent is gone. *)
Theorem old_removal_deletes_new_extent :
  let es := takes S.cA 1 7 ++ [Put S.cA 1 100 7 (str "a"); Remove S.cA 1 7; Release S.cA 1 7] ++
            handover S.cA S.cB 2 7 X.Done ++ [Put S.cB 2 101 7 (str "b")] in
  reads_after es S.cB 2 = Some (extent_protocol.OK, str "b") /\
  reads_after (es ++ [Release S.cB 2 7] ++ handover S.cB S.cA 1 7 X.Done ++ [Release S.cA 1 7] ++
                 handover S.cA S.cB 2 7 X.Done) S.cB 2 = Some (extent_protocol.NOENT, []).
Proof. vm_compute. auto. Qed.

(** A [get] by a client that does not have the lock, which is what
    [generate_unique_inum] makes for each number it tries. *)
Definition unlocked_get (c : bytes) (eid : Z) (w : world) : world :=
  let n := node_of w c in
  match X.get 3 X.Done X.Done 150 eid [] (ec n) (store w) with
  | Some (_, x, srv) => set_store srv (set_node c (Node (lc n) x (calls n) (rel n)) w)
  | None => w
  end.

(** The extent that such a [get] finds stays in the cache.  Here C has the lock,
    B reads without it, C puts "c" and the lock goes to B: B still reads "a",
    and when B gives the lock back its flush undoes what C put. *)
Theorem unlocked_read_goes_stale :
  let es := takes S.cA 1 7 ++ [Put S.cA 1 100 7 (str "a"); Release S.cA 1 7] ++
            handover S.cA S.cC 4 7 X.Done in
  let es' := [Put S.cC 4 160 7 (str "c"); Release S.cC 4 7] ++ handover S.cC S.cB 2 7 X.Done in
  let es'' := [Release S.cB 2 7] ++ handover S.cB S.cA 1 7 X.Done in
  let reads w c tid :=
    match X.get tid X.Done X.Done 200 7 [] (ec (node_of w c)) (store w) with
    | Some (r, _, _) => Some r
    | None => None
    end in
  match exec step world_new es with
  | Some w =>
      match exec step (unlocked_get S.cB 7 w) es' with
      | Some w' =>
          reads w' S.cB 2 = Some (extent_protocol.OK, str "a") /\
          match exec step w' es'' with
          | Some w'' => reads w'' S.cA 1 = Some (extent_protocol.OK, str "a")
          | None => False
          end
      | None => False
      end
  | None => False
  end /\ written (es ++ es' ++ es'') !! 7 = Some (str "c").
Proof. vm_compute. auto. Qed.

End coherence.
