(* ===== verification/Handover.v ===== *)
(** * How a lock goes from one client to another

    When nothing else is going on, a thread that calls [acquire] gets the lock,
    wherever it is: cached at its own client, free at the server, or cached at
    another client, which is told to give it back, flushes the extent and
    releases it.  [grab] is the schedule of that, a list of events of
    [Coherence]; the theorem of this file says that each of its steps can be
    taken and that the system is at rest again afterwards, so the protocol does
    not get stuck between [Retry], [Revoke] and [Release]. *)

From stdpp Require Import gmap list strings.
From Stdlib Require Import ZArith Lia Ascii.
From S2P Require Import Prelude Text Marshall Rpc Protocols LockServerCache LockClientCache Extent Coherence.

Local Open Scope Z_scope.

Module handover.
Import coherence.

(** ** At rest *)

Record quiet_node (n : node) : Prop := {
  qn_calls : calls n = ∅;
  qn_rel : rel n = Idle;
  qn_pcs : L.pcs (lc n) = ∅;
  qn_queue : L.revoke_queue (L.cl (lc n)) = [];
  qn_releaser : L.releaser_at (L.cl (lc n)) = L.At 0;
  qn_locks : forall lid, let li := L.lock_of (L.cl (lc n)) lid in
    L.waiting_threads li = [] /\ L.to_be_revoked li = false /\
    (L.lstate li = L.NONE \/ L.lstate li = L.FREE \/
     L.lstate li = L.LOCKED /\ exists t, (lid, t) ∈ L.holders (lc n))
}.

(** No call is under way, nobody waits for a lock, and every lock that the
    server has granted is cached at its owner. *)
Record calm (w : world) : Prop := {
  ca_out : revoking w = NoCall /\ retrying w = NoCall;
  ca_lists : S.revokes (locks w) = [] /\ S.free_locks (locks w) = [] /\
    S.revoker_at (locks w) = S.At 0 /\ S.retryer_at (locks w) = S.At 0;
  ca_locks : forall lid, S.waiting_clients (S.lock_of (locks w) lid) = [] /\
    S.retryer_sent_to (S.lock_of (locks w) lid) = [];
  ca_nodes : forall c, quiet_node (node_of w c);
  ca_owner : forall lid d, S.owner (locks w) lid = Some d -> has (lc (node_of w d)) lid
}.

(** What happens until thread [tid] of [c] has the lock. *)
Definition grab (c : bytes) (tid lid : Z) (w : world) : list event :=
  match L.st_of (L.cl (lc (node_of w c))) lid with
  | L.FREE => [Enter c tid lid; Loop c tid]
  | _ => match S.owner (locks w) lid with
         | None => takes c tid lid
         | Some d => handover d c tid lid X.Done
         end
  end.

(** ** Worlds in normal form

    During a schedule only the entries of one lock change, at the server and at
    one or two clients. *)

Definition lworld (m : gmap Z L.lock_info) (lid : Z) (li : L.lock_info) (q : list Z) (a : L.walker)
    (ps : gmap Z L.pc) (hs : list (Z * Z)) : L.world :=
  L.World (L.Client (<[lid := li]> m) q a) ps hs.

Definition sstate (m : gmap Z S.lock_info) (lid : Z) (li : S.lock_info) (rv : list (Z * bytes))
    (fr : list Z) (a b : S.walker) : S.state := S.State (<[lid := li]> m) rv fr a b.

Section Normal.
Context (m : gmap Z L.lock_info) (sm : gmap Z S.lock_info) (lid tid : Z).

Lemma lock_of_normal li q a : L.lock_of (L.Client (<[lid := li]> m) q a) lid = li.
Proof. unfold L.lock_of. apply map_get_insert_eq. Qed.

Lemma set_lock_normal li li' q a :
  L.set_lock lid li' (L.Client (<[lid := li]> m) q a) = L.Client (<[lid := li']> m) q a.
Proof. unfold L.set_lock. cbn. by rewrite insert_insert_eq. Qed.

Lemma server_lock_of_normal li rv fr a b : S.lock_of (sstate sm lid li rv fr a b) lid = li.
Proof. unfold S.lock_of. apply map_get_insert_eq. Qed.

Lemma server_set_lock_normal li li' rv fr a b :
  S.set_lock lid li' (sstate sm lid li rv fr a b) = sstate sm lid li' rv fr a b.
Proof. unfold S.set_lock, sstate. cbn. by rewrite insert_insert_eq. Qed.

(** *** The client that asks *)

Ltac client_run :=
  unfold lworld; cbn [L.step L.pcs]; rewrite ?lookup_insert_eq;
  unfold L.acquire_loop, L.acquire_reply, L.await_retry, L.release, L.revoke, L.retry,
    L.releaser_next, L.releaser_done;
  cbn [L.cl L.releaser_at L.revoke_queue lookup list_lookup]; rewrite ?lock_of_normal;
  cbn [L.to_be_revoked L.waiting_threads L.lstate head negb L.retry_received].

Lemma run_enter li q a hs ps :
  ps !! tid = None -> map_get L.lock_info_new m lid = li -> L.waiting_threads li = [] ->
  L.step (L.World (L.Client m q a) ps hs) (L.EEnter tid lid) =
  Some (lworld m lid (L.set_threads [tid] li) q a (<[tid := L.Looping lid]> ps) hs).
Proof.
  intros Hp Hli Hw. cbn [L.step L.pcs]. rewrite Hp. unfold L.acquire_enter, L.lock_of, L.set_lock, lworld.
  cbn. by rewrite Hli, Hw.
Qed.

Lemma run_loop_free sq rr q a hs ps :
  L.step (lworld m lid (L.LockInfo L.FREE sq [tid] false rr) q a (<[tid := L.Looping lid]> ps) hs) (L.ELoop tid) =
  Some (lworld m lid (L.LockInfo L.LOCKED sq [] false rr) q a (delete tid ps) ((lid, tid) :: hs)).
Proof.
  client_run. rewrite bool_decide_true by done. cbn [negb L.continue]. rewrite set_lock_normal.
  cbn. by rewrite delete_insert_eq.
Qed.

Lemma run_loop_none sq rr q a hs ps :
  L.step (lworld m lid (L.LockInfo L.NONE sq [tid] false rr) q a (<[tid := L.Looping lid]> ps) hs) (L.ELoop tid) =
  Some (lworld m lid (L.LockInfo L.ACQUIRING (s32 (sq + 1)) [tid] false false) q a
          (<[tid := L.InCall lid]> ps) hs).
Proof.
  client_run. rewrite bool_decide_true by done. cbn [negb L.continue]. rewrite set_lock_normal.
  cbn. by rewrite insert_insert_eq.
Qed.

Lemma call_none sq rr q a hs ps :
  loop_call tid (lworld m lid (L.LockInfo L.NONE sq [tid] false rr) q a (<[tid := L.Looping lid]> ps) hs) =
  Some (lid, sq).
Proof.
  unfold loop_call. client_run. rewrite bool_decide_true by done. done.
Qed.

Lemma call_free sq rr q a hs ps :
  loop_call tid (lworld m lid (L.LockInfo L.FREE sq [tid] false rr) q a (<[tid := L.Looping lid]> ps) hs) = None.
Proof. unfold loop_call. client_run. rewrite bool_decide_true by done. done. Qed.

Lemma run_reply_ok sq rr q a hs ps :
  L.step (lworld m lid (L.LockInfo L.ACQUIRING sq [tid] false rr) q a (<[tid := L.InCall lid]> ps) hs)
    (L.EReply tid lock_protocol.OK) =
  Some (lworld m lid (L.LockInfo L.LOCKED sq [] false rr) q a (delete tid ps) ((lid, tid) :: hs)).
Proof.
  client_run. cbn [Z.eqb lock_protocol.OK L.continue]. rewrite set_lock_normal. cbn. by rewrite delete_insert_eq.
Qed.

Lemma run_reply_retry sq rr q a hs ps :
  L.step (lworld m lid (L.LockInfo L.ACQUIRING sq [tid] false rr) q a (<[tid := L.InCall lid]> ps) hs)
    (L.EReply tid lock_protocol.RETRY) =
  Some (lworld m lid (L.LockInfo L.NONE sq [tid] false rr) q a (<[tid := L.Awaiting lid]> ps) hs).
Proof.
  client_run. cbn [Z.eqb Pos.eqb lock_protocol.OK lock_protocol.RETRY L.continue]. rewrite set_lock_normal.
  cbn. by rewrite insert_insert_eq.
Qed.

Lemma run_retry st sq ws rv rr q a hs ps :
  L.step (lworld m lid (L.LockInfo st sq ws rv rr) q a ps hs) (L.ERetry lid) =
  Some (lworld m lid (L.LockInfo st sq ws rv true) q a ps hs).
Proof.
  client_run. assert (map_has (<[lid := L.LockInfo st sq ws rv rr]> m) lid = true) as E.
  { apply map_has_true. eexists. apply lookup_insert_eq. }
  cbn [L.lock_cache]. rewrite E. cbn [snd]. by rewrite set_lock_normal.
Qed.

Lemma run_await st sq ws rv q a hs ps :
  L.step (lworld m lid (L.LockInfo st sq ws rv true) q a (<[tid := L.Awaiting lid]> ps) hs) (L.EAwait tid) =
  Some (lworld m lid (L.LockInfo st sq ws rv true) q a (<[tid := L.Looping lid]> ps) hs).
Proof. client_run. cbn. by rewrite insert_insert_eq. Qed.

(** *** The client that has the lock *)

Lemma run_revoke sq ws rr hs ps :
  L.step (lworld m lid (L.LockInfo L.FREE sq ws false rr) [] (L.At 0) ps hs) (L.ERevoke lid) =
  Some (lworld m lid (L.LockInfo L.FREE sq ws true rr) [lid] (L.At 0) ps hs).
Proof. client_run. cbn [snd]. rewrite set_lock_normal. done. Qed.

Lemma run_pick sq ws rr hs ps :
  L.releaser_next (L.cl (lworld m lid (L.LockInfo L.FREE sq ws true rr) [lid] (L.At 0) ps hs)) =
  (Some (lid, sq),
   L.cl (lworld m lid (L.LockInfo L.RELEASING (s32 (sq + 1)) ws true rr) [lid] (L.Calling 0 lid) ps hs)).
Proof. client_run. rewrite set_lock_normal. done. Qed.

Lemma run_picked sq ws rr hs ps :
  L.step (lworld m lid (L.LockInfo L.RELEASING sq ws true rr) [lid] (L.Calling 0 lid) ps hs)
    (L.EPicked lock_protocol.OK) =
  Some (lworld m lid (L.LockInfo L.NONE sq ws false rr) [] (L.At 0) ps hs).
Proof. client_run. cbn [Z.eqb lock_protocol.OK]. rewrite set_lock_normal. done. Qed.

Lemma run_pick_nothing li hs ps :
  L.releaser_next (L.cl (lworld m lid li [] (L.At 0) ps hs)) = (None, L.cl (lworld m lid li [] (L.At 0) ps hs)).
Proof. done. Qed.

End Normal.

(** ** Turns of the server *)

Section Server.
Context (sm : gmap Z S.lock_info) (lid : Z).

Ltac server_run :=
  unfold S.acquire, S.release, S.revoker_next, S.revoker_done, S.retryer_next, S.retryer_done;
  cbn [sstate S.revoker_at S.retryer_at S.revokes S.free_locks lookup list_lookup];
  rewrite ?server_lock_of_normal; cbn.

Lemma serve_free c q seq rt b : seq = [] \/ seq = c ->
  S.acquire c q lid (sstate sm lid (S.LockInfo rt b S.FREE [] seq) [] [] (S.At 0) (S.At 0)) =
  (lock_protocol.OK, sstate sm lid (S.LockInfo c q S.ACQUIRED [] []) [] [] (S.At 0) (S.At 0)).
Proof.
  intros H. unfold S.acquire. rewrite server_lock_of_normal, server_set_lock_normal. cbn [S.waiting_clients].
  assert (S.grantable c (S.LockInfo rt b S.FREE [] seq) = true) as ->; [|done].
  unfold S.grantable. cbn [S.lstate S.retryer_sent_to S.waiting_clients]. rewrite bool_decide_true by done.
  destruct H as [->| ->]; [|rewrite (bool_decide_true (c = c)) by done; by rewrite orb_true_r].
  by rewrite !bool_decide_true by done.
Qed.

Lemma serve_busy c d q b :
  S.acquire c q lid (sstate sm lid (S.LockInfo d b S.ACQUIRED [] []) [] [] (S.At 0) (S.At 0)) =
  (lock_protocol.RETRY,
   sstate sm lid (S.LockInfo d b S.ACQUIRED [c] []) [(lid, d)] [] (S.At 0) (S.At 0)).
Proof.
  unfold S.acquire. rewrite server_lock_of_normal. unfold S.grantable. cbn [S.lstate].
  rewrite bool_decide_false by done. cbn [andb]. by rewrite server_set_lock_normal.
Qed.

Lemma serve_release c d q b :
  S.release d q lid (sstate sm lid (S.LockInfo d b S.ACQUIRED [c] []) [] [] (S.At 0) (S.At 0)) =
  (lock_protocol.OK, sstate sm lid (S.LockInfo [] b S.FREE [c] []) [] [lid] (S.At 0) (S.At 0)).
Proof.
  unfold S.release. rewrite server_lock_of_normal. cbn [S.clt_id].
  rewrite (bool_decide_true (d = d)) by done. cbn [negb andb]. by rewrite server_set_lock_normal.
Qed.

Lemma serve_retry c b :
  S.retryer_next (sstate sm lid (S.LockInfo [] b S.FREE [c] []) [] [lid] (S.At 0) (S.At 0)) =
  (Some (lid, c),
   sstate sm lid (S.LockInfo [] b S.FREE [] c) [] [lid] (S.At 0) (S.Calling 0 lid c)).
Proof. server_run. by rewrite server_set_lock_normal. Qed.

Lemma serve_retried c b :
  S.retryer_done rlock_protocol.OK
    (sstate sm lid (S.LockInfo [] b S.FREE [] c) [] [lid] (S.At 0) (S.Calling 0 lid c)) =
  sstate sm lid (S.LockInfo [] b S.FREE [] c) [] [] (S.At 0) (S.At 0).
Proof. server_run. done. Qed.

End Server.

(** ** The steps of one client of the system *)

Section Client.
Context (N : gmap bytes node) (c : bytes) (tid lid : Z).

Definition at_node (n : node) (s : S.state) (st : extent_server.state) (rv rt : outcall) : world :=
  World (<[c := n]> N) s st rv rt.

Lemma node_of_at n s st rv rt : node_of (at_node n s st rv rt) c = n.
Proof. unfold node_of. apply map_get_insert_eq. Qed.

Lemma set_node_at n n' s st rv rt : set_node c n' (at_node n s st rv rt) = at_node n' s st rv rt.
Proof. unfold set_node, at_node. cbn. by rewrite insert_insert_eq. Qed.

Lemma set_locks_at n s s' st rv rt : set_locks s' (at_node n s st rv rt) = at_node n s' st rv rt.
Proof. done. Qed.

Lemma set_store_at n s st st' rv rt : set_store st' (at_node n s st rv rt) = at_node n s st' rv rt.
Proof. done. Qed.

Lemma set_out_at n s st rv rt rv' rt' : set_out rv' rt' (at_node n s st rv rt) = at_node n s st rv' rt'.
Proof. done. Qed.

Lemma lock_step_at n s st rv rt e l cs r :
  L.step (lc n) e = Some l ->
  lock_step c e cs r (at_node n s st rv rt) = Some (at_node (Node l (ec n) cs r) s st rv rt).
Proof. intros H. unfold lock_step. rewrite node_of_at, H. by rewrite set_node_at. Qed.

(** [e] takes [w] to [w'], and the run goes on. *)
Lemma exec_step w e w' es : careful w e = true -> step w e = Some w' ->
  exec careful_step w (e :: es) = exec careful_step w' es.
Proof. intros Hc Hs. cbn [exec]. unfold careful_step at 1. by rewrite Hc, Hs. Qed.

Ltac client_step H := etransitivity; [apply exec_step; [done|cbn [step]; rewrite ?node_of_at;
  cbn [calls rel lc ec]; apply lock_step_at; apply H]|]; cbn [ec].

(** The server executes the request of a thread, and the thread hears of it. *)
Lemma asked l0 l x s s' st rv rt sq ret :
  S.acquire c sq lid s = (ret, s') -> L.step l0 (L.EReply tid ret) = Some l ->
  exec careful_step (at_node (Node l0 x (<[tid := Asked lid sq]> ∅) Idle) s st rv rt)
    [AcquireAt c tid; AcquireBack c tid true] = Some (at_node (Node l x ∅ Idle) s' st rv rt).
Proof.
  intros Ha Hl. etransitivity; [apply exec_step; [done|]|].
  { cbn [step]. rewrite node_of_at. cbn [calls lc ec rel locks at_node]. rewrite lookup_insert_eq, Ha.
    rewrite set_node_at, set_locks_at, insert_insert_eq. reflexivity. }
  etransitivity; [apply exec_step; [done|]|].
  { cbn [step]. rewrite node_of_at. cbn [calls rel]. rewrite lookup_insert_eq. apply lock_step_at, Hl. }
  cbn [ec exec]. by rewrite delete_insert_eq.
Qed.

(** A thread asks the server for a lock and is answered. *)
Lemma asks mc hs x s s' st rv rt sq rr ret l :
  map_get L.lock_info_new mc lid = L.LockInfo L.NONE sq [] false rr ->
  S.acquire c sq lid s = (ret, s') ->
  L.step (lworld mc lid (L.LockInfo L.ACQUIRING (s32 (sq + 1)) [tid] false false) []
            (L.At 0) (<[tid := L.InCall lid]> ∅) hs) (L.EReply tid ret) = Some l ->
  exec careful_step (at_node (Node (L.World (L.Client mc [] (L.At 0)) ∅ hs) x ∅ Idle) s st rv rt)
    (takes c tid lid) = Some (at_node (Node l x ∅ Idle) s' st rv rt).
Proof.
  intros Hli Ha Hl. unfold takes. client_step (run_enter mc lid tid _ [] (L.At 0) hs ∅ (lookup_empty _) Hli); [done|].
  change (L.set_threads [tid] (L.LockInfo L.NONE sq [] false rr)) with (L.LockInfo L.NONE sq [tid] false rr).
  client_step run_loop_none. rewrite call_none. by apply asked with ret.
Qed.

Ltac at_world := cbn [step]; rewrite ?node_of_at; cbn [calls rel lc ec locks store revoking retrying at_node].

Section Turns.
Context (n : node) (s : S.state) (st : extent_server.state).

Definition sent (o : option (Z * bytes)) : outcall :=
  match o with Some (l, clt) => Sent l clt | None => NoCall end.

Lemma step_revoker rt o s' : S.revoker_next s = (o, s') ->
  step (at_node n s st NoCall rt) Revoker = Some (at_node n s' st (sent o) rt).
Proof. intros H. at_world. by rewrite H. Qed.

Lemma step_revoke_at rt l : L.step (lc n) (L.ERevoke lid) = Some l ->
  step (at_node n s st (Sent lid c) rt) RevokeAt =
  Some (at_node (Node l (ec n) (calls n) (rel n)) s st (Returned rlock_protocol.OK) rt).
Proof.
  intros H. at_world. rewrite (lock_step_at n s st (Sent lid c) rt _ l) by done. by rewrite node_of_at.
Qed.

Lemma step_revoke_back ret rt :
  step (at_node n s st (Returned ret) rt) (RevokeBack true) =
  Some (at_node n (S.revoker_done ret s) st NoCall rt).
Proof. done. Qed.

Lemma step_retryer rv o s' : S.retryer_next s = (o, s') ->
  step (at_node n s st rv NoCall) Retryer = Some (at_node n s' st rv (sent o)).
Proof. intros H. at_world. by rewrite H. Qed.

Lemma step_retry_at rv l : map_has (L.lock_cache (L.cl (lc n))) lid = true ->
  L.step (lc n) (L.ERetry lid) = Some l ->
  step (at_node n s st rv (Sent lid c)) RetryAt =
  Some (at_node (Node l (ec n) (calls n) (rel n)) s st rv (Returned rlock_protocol.OK)).
Proof.
  intros Hm H. at_world. rewrite (lock_step_at n s st rv (Sent lid c) _ l) by done.
  rewrite !node_of_at. unfold L.retry. by rewrite Hm.
Qed.

Lemma step_retry_back ret rv :
  step (at_node n s st rv (Returned ret)) (RetryBack true) =
  Some (at_node n (S.retryer_done ret s) st rv NoCall).
Proof. done. Qed.

Lemma step_pick rv rt o k : rel n = Idle -> L.releaser_next (L.cl (lc n)) = (o, k) ->
  step (at_node n s st rv rt) (Pick c) =
  Some (at_node (Node (L.World k (L.pcs (lc n)) (L.holders (lc n))) (ec n) (calls n)
    (match o with Some (l, q) => Picked l q | None => Idle end)) s st rv rt).
Proof. intros Hr H. at_world. rewrite Hr, H. apply lock_step_at. cbn [L.step]. by rewrite H. Qed.

Lemma step_dorelease rv rt q x st' : rel n = Picked lid q ->
  X.flush 9 X.Done X.Done lid (ec n) st = Some ((), x, st') ->
  step (at_node n s st rv rt) (DoRelease c 9 X.Done X.Done) =
  Some (at_node (Node (lc n) x (calls n) (Flushed lid q)) s st' rv rt).
Proof. intros Hr Hf. at_world. rewrite Hr. unfold dorelease. rewrite Hf. by rewrite set_node_at. Qed.

Lemma step_release_at rv rt q ret s' : rel n = Flushed lid q -> S.release c q lid s = (ret, s') ->
  step (at_node n s st rv rt) (ReleaseAt c) =
  Some (at_node (Node (lc n) (ec n) (calls n) (Released ret)) s' st rv rt).
Proof. intros Hr Hf. at_world. rewrite Hr, Hf. by rewrite set_node_at. Qed.

Lemma step_release_back rv rt ret l : rel n = Released ret -> L.step (lc n) (L.EPicked ret) = Some l ->
  step (at_node n s st rv rt) (ReleaseBack c true) =
  Some (at_node (Node l (ec n) (calls n) Idle) s st rv rt).
Proof. intros Hr Hf. at_world. rewrite Hr. by apply lock_step_at. Qed.

End Turns.

(** A client that caches the lock is told to give it back, and does. *)
Lemma gives_back mc sq rr hs x x' sm a b st st' :
  X.flush 9 X.Done X.Done lid x st = Some ((), x', st') ->
  exec careful_step
    (at_node (Node (lworld mc lid (L.LockInfo L.FREE sq [] false rr) [] (L.At 0) ∅ hs) x ∅ Idle)
       (sstate sm lid (S.LockInfo c b S.ACQUIRED [a] []) [(lid, c)] [] (S.At 0) (S.At 0)) st NoCall NoCall)
    [Revoker; RevokeAt; RevokeBack true; Pick c; DoRelease c 9 X.Done X.Done; ReleaseAt c; ReleaseBack c true] =
  Some (at_node (Node (lworld mc lid (L.LockInfo L.NONE (s32 (sq + 1)) [] false rr) [] (L.At 0) ∅ hs) x' ∅ Idle)
       (sstate sm lid (S.LockInfo [] b S.FREE [a] []) [] [lid] (S.At 0) (S.At 0)) st' NoCall NoCall).
Proof.
  intros Hf. etransitivity; [apply exec_step; [done|by eapply step_revoker]|].
  etransitivity; [apply exec_step; [done|apply step_revoke_at, run_revoke]|].
  etransitivity; [apply exec_step; [done|apply step_revoke_back]|].
  etransitivity; [apply exec_step; [|by apply step_pick, run_pick]|].
  { cbn [careful]. rewrite node_of_at. unfold L.leaves_calls_alone, L.st_of.
    cbn [lc lworld L.cl L.releaser_at L.revoke_queue lookup list_lookup]. rewrite lock_of_normal. done. }
  etransitivity; [apply exec_step; [done|by eapply step_dorelease]|].
  etransitivity; [apply exec_step; [|eapply step_release_at; [done|apply serve_release]]|].
  { cbn [careful]. rewrite node_of_at. cbn [rel locks at_node]. unfold S.owner. 
    change (S.revoker_done _ _) with (sstate sm lid (S.LockInfo c b S.ACQUIRED [a] []) [] [] (S.At 0) (S.At 0)).
    rewrite server_lock_of_normal. cbn. by rewrite bool_decide_true. }
  etransitivity; [apply exec_step; [done|eapply step_release_back; [done|apply run_picked]]|]. done.
Qed.

(** The server tells the client that waits to ask again. *)
Lemma is_told mc sq hs x sm b st ps :
  exec careful_step
    (at_node (Node (lworld mc lid (L.LockInfo L.NONE sq [tid] false false) [] (L.At 0) ps hs) x ∅ Idle)
       (sstate sm lid (S.LockInfo [] b S.FREE [c] []) [] [lid] (S.At 0) (S.At 0)) st NoCall NoCall)
    [Retryer; RetryAt; RetryBack true] =
  Some (at_node (Node (lworld mc lid (L.LockInfo L.NONE sq [tid] false true) [] (L.At 0) ps hs) x ∅ Idle)
       (sstate sm lid (S.LockInfo [] b S.FREE [] c) [] [] (S.At 0) (S.At 0)) st NoCall NoCall).
Proof.
  etransitivity; [apply exec_step; [done|eapply step_retryer, serve_retry]|].
  etransitivity; [apply exec_step; [done|apply step_retry_at; [|apply run_retry]]|].
  { apply map_has_true. eexists. apply lookup_insert_eq. }
  etransitivity; [apply exec_step; [done|apply step_retry_back]|]. by rewrite serve_retried.
Qed.

(** The threads of the server and of the releaser find nothing to do. *)
Lemma goes_round mc li hs x sm sli st :
  let w := at_node (Node (lworld mc lid li [] (L.At 0) ∅ hs) x ∅ Idle)
       (sstate sm lid sli [] [] (S.At 0) (S.At 0)) st NoCall NoCall in
  exec careful_step w [Revoker; Pick c] = Some w.
Proof.
  cbn zeta. etransitivity; [apply exec_step; [done|by eapply step_revoker]|].
  etransitivity; [apply exec_step; [|by apply step_pick, run_pick_nothing]|done].
  cbn [careful]. by rewrite node_of_at.
Qed.

(** The thread asks again. *)
Lemma asks_again mc sq hs x s s' st rv rt ret l :
  S.acquire c sq lid s = (ret, s') ->
  L.step (lworld mc lid (L.LockInfo L.ACQUIRING (s32 (sq + 1)) [tid] false false) []
            (L.At 0) (<[tid := L.InCall lid]> ∅) hs) (L.EReply tid ret) = Some l ->
  exec careful_step
    (at_node (Node (lworld mc lid (L.LockInfo L.NONE sq [tid] false true) [] (L.At 0)
                      (<[tid := L.Awaiting lid]> ∅) hs) x ∅ Idle) s st rv rt)
    [Await c tid; Loop c tid; AcquireAt c tid; AcquireBack c tid true] =
  Some (at_node (Node l x ∅ Idle) s' st rv rt).
Proof.
  intros Ha Hl. client_step run_await. client_step run_loop_none. rewrite call_none. by apply asked with ret.
Qed.

(** A thread gets a lock that its client has. *)
Lemma from_cache mc sq rr hs x s st rv rt :
  map_get L.lock_info_new mc lid = L.LockInfo L.FREE sq [] false rr ->
  exec careful_step (at_node (Node (L.World (L.Client mc [] (L.At 0)) ∅ hs) x ∅ Idle) s st rv rt)
    [Enter c tid lid; Loop c tid] =
  Some (at_node (Node (lworld mc lid (L.LockInfo L.LOCKED sq [] false rr) [] (L.At 0) ∅
                         ((lid, tid) :: hs)) x ∅ Idle) s st rv rt).
Proof.
  intros Hli. client_step (run_enter mc lid tid _ [] (L.At 0) hs ∅ (lookup_empty _) Hli); [done|].
  change (L.set_threads [tid] (L.LockInfo L.FREE sq [] false rr)) with (L.LockInfo L.FREE sq [tid] false rr).
  client_step run_loop_free. rewrite call_free. cbn [exec]. by rewrite delete_empty.
Qed.

End Client.

(** ** The whole way *)

Lemma at_node_swap N c d nc nd s st rv rt : c <> d ->
  at_node (<[d := nd]> N) c nc s st rv rt = at_node (<[c := nc]> N) d nd s st rv rt.
Proof. intros H. unfold at_node. by rewrite insert_insert_ne. Qed.

Lemma passes_on N c d tid lid mc md sc sd rc rd hc hd xc xd xd' sm b st st' :
  c <> d ->
  map_get L.lock_info_new mc lid = L.LockInfo L.NONE sc [] false rc ->
  X.flush 9 X.Done X.Done lid xd st = Some ((), xd', st') ->
  exec careful_step
    (at_node (<[d := Node (lworld md lid (L.LockInfo L.FREE sd [] false rd) [] (L.At 0) ∅ hd) xd ∅ Idle]> N) c
       (Node (L.World (L.Client mc [] (L.At 0)) ∅ hc) xc ∅ Idle)
       (sstate sm lid (S.LockInfo d b S.ACQUIRED [] []) [] [] (S.At 0) (S.At 0)) st NoCall NoCall)
    (handover d c tid lid X.Done) =
  Some (at_node (<[d := Node (lworld md lid (L.LockInfo L.NONE (s32 (sd + 1)) [] false rd) [] (L.At 0) ∅ hd)
                          xd' ∅ Idle]> N) c
       (Node (lworld mc lid (L.LockInfo L.LOCKED (s32 (s32 (sc + 1) + 1)) [] false false) [] (L.At 0) ∅
                ((lid, tid) :: hc)) xc ∅ Idle)
       (sstate sm lid (S.LockInfo c (s32 (sc + 1)) S.ACQUIRED [] []) [] [] (S.At 0) (S.At 0)) st' NoCall NoCall).
Proof.
  intros Hne Hc Hf. unfold handover. rewrite exec_app.
  erewrite asks; [|exact Hc|apply serve_busy|apply run_reply_retry]. rewrite at_node_swap by done.
  change (Revoker :: ?l) with (take 7 (Revoker :: l) ++ drop 7 (Revoker :: l)).
  rewrite exec_app. cbn [take]. erewrite gives_back by exact Hf. cbn [drop]. rewrite <- at_node_swap by done.
  change (Retryer :: ?l) with (take 3 (Retryer :: l) ++ drop 3 (Retryer :: l)).
  rewrite exec_app. cbn [take]. rewrite is_told. cbn [drop]. rewrite at_node_swap by done.
  change (Revoker :: ?l) with (take 2 (Revoker :: l) ++ drop 2 (Revoker :: l)).
  rewrite exec_app. cbn [take]. rewrite goes_round. cbn [drop]. rewrite <- at_node_swap by done.
  erewrite asks_again; [|apply serve_free; by right|apply run_reply_ok]. by rewrite delete_empty.
Qed.

(** ** Back at rest *)

Lemma quiet_form n : quiet_node n ->
  n = Node (L.World (L.Client (L.lock_cache (L.cl (lc n))) [] (L.At 0)) ∅ (L.holders (lc n))) (ec n) ∅ Idle.
Proof. destruct n as [[[m q a] ps hs] x cs r]. intros [H1 H2 H3 H4 H5 _]. cbn in *. by subst. Qed.

(** A lock as a quiet node has it. *)
Definition settled (lid : Z) (li : L.lock_info) (hs : list (Z * Z)) : Prop :=
  L.waiting_threads li = [] /\ L.to_be_revoked li = false /\
  (L.lstate li = L.NONE \/ L.lstate li = L.FREE \/ L.lstate li = L.LOCKED /\ exists t, (lid, t) ∈ hs).

Lemma quiet_insert n lid li hs x :
  quiet_node n -> settled lid li hs ->
  (forall l t, l <> lid -> (l, t) ∈ L.holders (lc n) -> (l, t) ∈ hs) ->
  quiet_node (Node (lworld (L.lock_cache (L.cl (lc n))) lid li [] (L.At 0) ∅ hs) x ∅ Idle).
Proof.
  intros Hq Hli Hh. split; try done. intros l. cbn [lc lworld L.cl L.holders]. unfold L.lock_of.
  cbn [L.lock_cache]. destruct (decide (lid = l)) as [<-|Hne]; [by rewrite map_get_insert_eq|].
  rewrite map_get_insert_ne by done. destruct (qn_locks n Hq l) as (? & ? & Hs).
  split; [done|]. split; [done|]. destruct Hs as [?|[?|[? [t ?]]]]; [by left|by right; left|].
  right. right. split; [done|]. exists t. by apply Hh.
Qed.

(** A quiet node's entry of a lock that no thread holds. *)
Lemma unheld_form n lid :
  quiet_node n -> (forall t, ~ (lid, t) ∈ L.holders (lc n)) ->
  exists ls sq rr, map_get L.lock_info_new (L.lock_cache (L.cl (lc n))) lid = L.LockInfo ls sq [] false rr /\
    (ls = L.NONE \/ ls = L.FREE).
Proof.
  intros Hq Hh. destruct (qn_locks n Hq lid) as (H1 & H2 & H3). unfold L.lock_of in *.
  destruct (map_get _ _ lid) as [ls sq ws br rr]. cbn in *. subst. exists ls, sq, rr. split; [done|].
  destruct H3 as [?|[?|[_ [t Ht]]]]; [by left|by right|by apply Hh in Ht].
Qed.

Lemma owner_has_entry s lid d : S.owner s lid = Some d ->
  exists li, S.locks s !! lid = Some li /\ S.clt_id li = d /\ S.lstate li = S.ACQUIRED.
Proof.
  unfold S.owner, S.lock_of, map_get. destruct (S.locks s !! lid) as [li|]; cbn; [|done].
  intros H. exists li. destruct (S.lstate li); naive_solver.
Qed.

Lemma has_entry n lid : has (lc n) lid -> is_Some (L.lock_cache (L.cl (lc n)) !! lid).
Proof.
  unfold has, L.st_of, L.lock_of, map_get. destruct (_ !! lid); [by eexists|]. by intros [].
Qed.

Lemma has_node w c lid : has (lc (node_of w c)) lid -> nodes w !! c = Some (node_of w c).
Proof. unfold node_of, map_get. destruct (nodes w !! c); [done|]. by intros []. Qed.

(** [w'] is [w] with the lock granted to a thread of [c]. *)
Record granted (c : bytes) (tid lid : Z) (w w' : world) : Prop := {
  gr_calm : calm w';
  gr_holder : L.holders (lc (node_of w' c)) = (lid, tid) :: L.holders (lc (node_of w c));
  gr_cache : ec (node_of w' c) = ec (node_of w c);
  gr_others : forall d, d <> c -> L.holders (lc (node_of w' d)) = L.holders (lc (node_of w d));
  gr_store : (forall d, d <> c -> ec (node_of w' d) = ec (node_of w d)) /\ store w' = store w \/
    exists d, d <> c /\ (forall e, e <> d -> ec (node_of w' e) = ec (node_of w e)) /\
      X.flush 9 X.Done X.Done lid (ec (node_of w d)) (store w) = Some ((), ec (node_of w' d), store w')
}.

Lemma calm_grant w w' c lid q :
  calm w -> revoking w' = NoCall -> retrying w' = NoCall ->
  locks w' = sstate (S.locks (locks w)) lid (S.LockInfo c q S.ACQUIRED [] []) [] [] (S.At 0) (S.At 0) ->
  (forall e, quiet_node (node_of w' e)) ->
  (forall e l, l <> lid -> L.lock_of (L.cl (lc (node_of w' e))) l = L.lock_of (L.cl (lc (node_of w e))) l) ->
  has (lc (node_of w' c)) lid -> calm w'.
Proof.
  intros Hca H1 H2 Hs Hq Hl Hh.
  assert (forall l, l <> lid -> S.lock_of (locks w') l = S.lock_of (locks w) l) as Hne.
  { intros l Hl'. rewrite Hs. unfold S.lock_of. cbn. by rewrite map_get_insert_ne. }
  split; [done|by rewrite Hs|intros l|done|intros l d]; (destruct (decide (l = lid)) as [->|Hd];
    [rewrite Hs|rewrite ?Hne by done]).
  - by rewrite server_lock_of_normal.
  - apply (ca_locks w Hca).
  - unfold S.owner. rewrite server_lock_of_normal. cbn. by intros [= <-].
  - unfold S.owner. rewrite Hne by done. intros Ho. apply (ca_owner w Hca) in Ho.
    unfold has, L.st_of in *. by rewrite Hl.
Qed.

Lemma starts_at w c tid lid es :
  exec careful_step w (Enter c tid lid :: es) =
  exec careful_step (at_node (nodes w) c (node_of w c) (locks w) (store w) (revoking w) (retrying w))
    (Enter c tid lid :: es).
Proof.
  cbn [exec]. unfold careful_step at 1 3. cbn [careful step]. rewrite !node_of_at. unfold lock_step.
  rewrite !node_of_at. destruct (L.step _ _); [|done]. by rewrite set_node_at.
Qed.

Lemma node_of_other N c n s st rv rt w e : N = nodes w -> e <> c ->
  node_of (at_node N c n s st rv rt) e = node_of w e.
Proof. intros -> Hne. unfold node_of, at_node. cbn. by rewrite map_get_insert_ne. Qed.

Lemma lock_of_other m lid li q a l : l <> lid ->
  L.lock_of (L.Client (<[lid := li]> m) q a) l = map_get L.lock_info_new m l.
Proof. intros Hne. unfold L.lock_of. cbn. by rewrite map_get_insert_ne. Qed.

Section Grab.
Context (w : world) (m : gmap Z bytes) (c : bytes) (tid lid : Z).
Context (Hca : calm w) (Hi : inv w m).
Context (Hun : forall d t, ~ (lid, t) ∈ L.holders (lc (node_of w d))).

(** The server has the locks in its lists, and nothing to do. *)
Lemma calm_server : locks w = S.State (S.locks (locks w)) [] [] (S.At 0) (S.At 0).
Proof. destruct (ca_lists w Hca) as (H1 & H2 & H3 & H4). destruct (locks w). cbn in *. by subst. Qed.

Lemma calm_entry b : S.owner (locks w) lid = Some b ->
  exists q, S.locks (locks w) !! lid = Some (S.LockInfo b q S.ACQUIRED [] []).
Proof.
  intros Ho. destruct (owner_has_entry _ _ _ Ho) as (li & E & <- & Hl). destruct (ca_locks w Hca lid) as [H1 H2].
  unfold S.lock_of, map_get in H1, H2. rewrite E in H1, H2. cbn in H1, H2. exists (S.seq_num li).
  rewrite E. f_equal. destruct li. cbn in *. by subst.
Qed.

Lemma server_form b : S.owner (locks w) lid = Some b ->
  exists q, locks w = sstate (S.locks (locks w)) lid (S.LockInfo b q S.ACQUIRED [] []) [] [] (S.At 0) (S.At 0).
Proof.
  intros [q E]%calm_entry. exists q. rewrite calm_server at 1. unfold sstate. by rewrite insert_id.
Qed.

(** The entry of the lock at a node, with its cache of extents. *)
Definition entry (e : bytes) (li : L.lock_info) (hs : list (Z * Z)) (x : X.client) : node :=
  Node (lworld (L.lock_cache (L.cl (lc (node_of w e)))) lid li [] (L.At 0) ∅ hs) x ∅ Idle.

Lemma entry_quiet e li hs x :
  settled lid li hs -> (forall l t, l <> lid -> (l, t) ∈ L.holders (lc (node_of w e)) -> (l, t) ∈ hs) ->
  quiet_node (entry e li hs x).
Proof. apply quiet_insert, (ca_nodes w Hca). Qed.

Lemma entry_lock_of e li hs x l : l <> lid ->
  L.lock_of (L.cl (lc (entry e li hs x))) l = L.lock_of (L.cl (lc (node_of w e))) l.
Proof. intros Hne. unfold entry, lworld. cbn [lc L.cl]. by rewrite lock_of_other. Qed.

(** Only the entry of the lock changed, at [c] and where the lock was before. *)
Lemma granted_intro w' q sq rr :
  let hs e := L.holders (lc (node_of w e)) in
  revoking w' = NoCall -> retrying w' = NoCall ->
  locks w' = sstate (S.locks (locks w)) lid (S.LockInfo c q S.ACQUIRED [] []) [] [] (S.At 0) (S.At 0) ->
  node_of w' c = entry c (L.LockInfo L.LOCKED sq [] false rr) ((lid, tid) :: hs c) (ec (node_of w c)) ->
  (forall e, e <> c -> node_of w' e = node_of w e \/
     exists sq rr x, node_of w' e = entry e (L.LockInfo L.NONE sq [] false rr) (hs e) x) ->
  ((forall e, e <> c -> ec (node_of w' e) = ec (node_of w e)) /\ store w' = store w \/
   exists d, d <> c /\ (forall e, e <> d -> ec (node_of w' e) = ec (node_of w e)) /\
      X.flush 9 X.Done X.Done lid (ec (node_of w d)) (store w) = Some ((), ec (node_of w' d), store w')) ->
  granted c tid lid w w'.
Proof.
  cbn zeta. intros H1 H2 Hs Hc Ho Hst.
  assert (quiet_node (node_of w' c)) as Hqc.
  { rewrite Hc. apply entry_quiet; [|by intros; right]. split_and!; [done..|]. right. right. split; [done|].
    exists tid. by left. }
  split; [|by rewrite Hc|by rewrite Hc| |done].
  - apply (calm_grant w w' c lid q); try done.
    + intros e. destruct (decide (e = c)) as [->|Hne]; [done|].
      destruct (Ho e Hne) as [->|(? & ? & ? & ->)]; [apply (ca_nodes w Hca)|].
      apply entry_quiet; [|done]. split_and!; [done..|by left].
    + intros e l Hl. destruct (decide (e = c)) as [->|Hne]; [rewrite Hc; by apply entry_lock_of|].
      destruct (Ho e Hne) as [->|(? & ? & ? & ->)]; [done|by apply entry_lock_of].
    + rewrite Hc. right. unfold L.st_of, entry, lworld. cbn [lc L.cl]. by rewrite lock_of_normal.
  - intros d Hne. by destruct (Ho d Hne) as [->|(? & ? & ? & ->)].
Qed.

(** The lock is in the client's own cache. *)
Lemma grab_cached sq rr :
  map_get L.lock_info_new (L.lock_cache (L.cl (lc (node_of w c)))) lid = L.LockInfo L.FREE sq [] false rr ->
  exists w', exec careful_step w [Enter c tid lid; Loop c tid] = Some w' /\ granted c tid lid w w'.
Proof.
  intros Hli. rewrite starts_at. destruct (ca_out w Hca) as [-> ->].
  rewrite (quiet_form _ (ca_nodes w Hca c)). erewrite from_cache by exact Hli.
  eexists. split; [reflexivity|].
  destruct (server_form c) as [q Hs].
  { apply (no_has _ _ _ (proj1 Hi c)). left. unfold L.st_of, L.lock_of. by rewrite Hli. }
  eapply (granted_intro _ q sq rr); [done..|by rewrite node_of_at| |].
  - intros e Hne. left. by apply node_of_other.
  - left. split; [|done]. intros e Hne. by erewrite node_of_other.
Qed.

(** The lock is free at the server. *)
Lemma grab_free sq rr :
  map_get L.lock_info_new (L.lock_cache (L.cl (lc (node_of w c)))) lid = L.LockInfo L.NONE sq [] false rr ->
  S.owner (locks w) lid = None ->
  exists w', exec careful_step w (takes c tid lid) = Some w' /\ granted c tid lid w w'.
Proof.
  intros Hli Ho. unfold takes. rewrite starts_at. fold (takes c tid lid). destruct (ca_out w Hca) as [-> ->].
  rewrite (quiet_form _ (ca_nodes w Hca c)). destruct (ca_locks w Hca lid) as [W1 W2].
  erewrite asks; [|exact Hli| |apply run_reply_ok].
  2: { unfold S.owner, S.acquire in *. destruct (S.lock_of (locks w) lid) as [k b ls ws rs]. cbn in *. subst.
    destruct ls; [|done]. unfold S.grantable. cbn. reflexivity. }
  eexists. split; [reflexivity|]. rewrite delete_empty.
  eapply (granted_intro _ sq _ false); [done..| |by rewrite node_of_at| |].
  - cbn [locks at_node]. by rewrite calm_server at 1.
  - intros e Hne. left. by apply node_of_other.
  - left. split; [|done]. intros e Hne. by erewrite node_of_other.
Qed.

(** Another client has the lock. *)
Lemma grab_from d sq rr :
  map_get L.lock_info_new (L.lock_cache (L.cl (lc (node_of w c)))) lid = L.LockInfo L.NONE sq [] false rr ->
  S.owner (locks w) lid = Some d ->
  exists w', exec careful_step w (handover d c tid lid X.Done) = Some w' /\ granted c tid lid w w'.
Proof.
  intros Hli Ho. destruct (server_form d Ho) as [q Hs].
  pose proof (ca_owner w Hca lid d Ho) as Hd. pose proof (has_node w d lid Hd) as Hn.
  destruct (has_entry (node_of w d) lid Hd) as [ld El].
  destruct (unheld_form (node_of w d) lid (ca_nodes w Hca d) (Hun d)) as (ls & sd & rd & Eld & Hls).
  assert (ls = L.FREE) as ->.
  { unfold has, L.st_of, L.lock_of in Hd. rewrite Eld in Hd. cbn in Hd. destruct Hd, Hls; congruence. }
  assert (c <> d) as Hne by (intros ->; rewrite Hli in Eld; congruence).
  unfold map_get in Eld. rewrite El in Eld. cbn in Eld. subst ld.
  destruct (X.flush_runs 9 lid (ec (node_of w d)) (store w)) as (x & st & Hf); [apply (no_good _ _ _ (proj1 Hi d))|].
  unfold handover, takes. rewrite <- app_comm_cons, starts_at, app_comm_cons. fold (takes c tid lid).
  fold (handover d c tid lid X.Done). destruct (ca_out w Hca) as [-> ->].
  replace (nodes w) with (<[d := entry d (L.LockInfo L.FREE sd [] false rd) (L.holders (lc (node_of w d)))
    (ec (node_of w d))]> (nodes w)).
  2: { apply insert_id. rewrite Hn. f_equal. rewrite (quiet_form _ (ca_nodes w Hca d)) at 1. unfold entry, lworld.
    by rewrite insert_id. }
  rewrite (quiet_form _ (ca_nodes w Hca c)), Hs. unfold entry.
  erewrite passes_on by done. eexists. split; [reflexivity|].
  eapply (granted_intro _ (s32 (sq + 1)) _ false); [done..|by rewrite node_of_at| |].
  - intros e He. destruct (decide (e = d)) as [->|Hed]; [right|left].
    + do 3 eexists. rewrite at_node_swap by done. by rewrite node_of_at.
    + unfold node_of, at_node. cbn [nodes]. by rewrite !map_get_insert_ne.
  - right. exists d. split; [done|]. split.
    + intros e Hed. destruct (decide (e = c)) as [->|Hec]; [by rewrite node_of_at|].
      unfold node_of at 1, at_node. cbn [nodes]. by rewrite !map_get_insert_ne.
    + rewrite at_node_swap, node_of_at by done. done.
Qed.

(** Whoever has the lock, the thread gets it. *)
Lemma grab_done :
  exists w', exec careful_step w (grab c tid lid w) = Some w' /\ granted c tid lid w w' /\ inv w' m.
Proof.
  enough (exists w', exec careful_step w (grab c tid lid w) = Some w' /\ granted c tid lid w w') as (w' & He & Hg).
  { exists w'. split; [done|]. split; [done|]. pose proof (coherence_run _ _ _ _ Hi He) as Hi'.
    unfold grab in Hi'. by repeat case_match. }
  destruct (unheld_form (node_of w c) lid (ca_nodes w Hca c) (Hun c)) as (ls & sq & rr & E & Hls).
  unfold grab, L.st_of, L.lock_of. rewrite E. cbn [L.lstate]. destruct Hls as [->| ->]; [|by eapply grab_cached].
  destruct (S.owner (locks w) lid) as [d|] eqn:Ho; [by eapply grab_from|by eapply grab_free].
Qed.

End Grab.

(** ** Other steps that keep the system at rest *)

Lemma calm_extent w c x srv :
  let n := node_of w c in
  calm w -> calm (set_store srv (set_node c (Node (lc n) x (calls n) (rel n)) w)).
Proof.
  cbn zeta. intros [H1 H2 H3 H4 H5]. split; try done.
  - intros d. rewrite node_of_store, node_of_set. case_decide; [subst d|done].
    destruct (H4 c) as [A1 A2 A3 A4 A5 A6]. by split.
  - intros lid d Ho. rewrite node_of_store, node_of_set. case_decide; [subst d|]; by apply H5.
Qed.

(** A thread gives the lock back to its client. *)
Record released (c : bytes) (tid lid : Z) (w w' : world) : Prop := {
  re_calm : calm w';
  re_holder : L.holders (lc (node_of w' c)) = list_remove_all (lid, tid) (L.holders (lc (node_of w c)));
  re_others : forall d, d <> c -> node_of w' d = node_of w d;
  re_cache : ec (node_of w' c) = ec (node_of w c);
  re_store : store w' = store w
}.

Lemma release_done w m c tid lid :
  calm w -> inv w m -> (lid, tid) ∈ L.holders (lc (node_of w c)) ->
  exists w', careful_step w (Release c tid lid) = Some w' /\ released c tid lid w w' /\ inv w' m.
Proof.
  intros Hca Hi Hh. set (n := node_of w c).
  destruct (qn_locks _ (ca_nodes w Hca c) lid) as (W1 & W2 & _). fold n in W1, W2.
  assert (step w (Release c tid lid) = Some (set_node c (Node (L.World (L.release tid lid (L.cl (lc n))).2
    (L.pcs (lc n)) (list_remove_all (lid, tid) (L.holders (lc n)))) (ec n) (calls n) (rel n)) w)) as Hs.
  { cbn [step]. unfold lock_step. cbn [L.step]. fold n.
    assert (std_mem (lid, tid) (L.holders (lc n)) = true) as -> by (by apply std_mem_spec). done. }
  eexists. split; [exact Hs|]. split; [|exact (coherence_step w m Hi (Release c tid lid) _ Hs)].
  set (w' := set_node _ _ _).
  assert (forall d l, d <> c \/ l <> lid ->
    L.lock_of (L.cl (lc (node_of w' d))) l = L.lock_of (L.cl (lc (node_of w d))) l) as Hl.
  { intros d l Hd. unfold w'. rewrite node_of_set. case_decide; [subst d|done]. cbn [lc L.cl L.release snd].
    rewrite L.client_lock_of_set. by rewrite decide_False by naive_solver. }
  assert (L.lock_of (L.cl (lc (node_of w' c))) lid =
    L.set_threads [] (L.set_state L.FREE (L.lock_of (L.cl (lc n)) lid))) as Hc.
  { unfold w'. rewrite node_of_set, decide_True by done. cbn [lc L.cl L.release snd].
    rewrite L.client_lock_of_set, decide_True by done. by rewrite W1. }
  assert (forall d, d <> c -> node_of w' d = node_of w d) as Hd.
  { intros d Hne. unfold w'. by rewrite node_of_set, decide_False. }
  assert (node_of w' c = Node (L.World (L.release tid lid (L.cl (lc n))).2 (L.pcs (lc n))
    (list_remove_all (lid, tid) (L.holders (lc n)))) (ec n) (calls n) (rel n)) as Hn.
  { unfold w'. by rewrite node_of_set, decide_True. }
  destruct Hca as [H1 H2 H3 H4 H5]. split; [|by rewrite Hn|done|by rewrite Hn|done].
  split; try done.
  - intros d. destruct (decide (d = c)) as [->|Hne]; [|by rewrite Hd].
    destruct (H4 c) as [A1 A2 A3 A4 A5 A6]. split; try (by rewrite Hn).
    intros l. destruct (decide (l = lid)) as [->|Hne]; [rewrite Hc; split_and!; [done..|by right; left]|].
    rewrite Hl by auto. destruct (A6 l) as (? & ? & Hst). split; [done|]. split; [done|].
    destruct Hst as [?|[?|[? [t ?]]]]; [by left|by right; left|right; right]. split; [done|]. exists t.
    rewrite Hn. cbn [lc L.holders]. apply list_remove_all_spec. split; [done|congruence].
  - intros l d Ho. destruct (decide (d = c /\ l = lid)) as [[-> ->]|Hne].
    + left. unfold L.st_of. by rewrite Hc.
    + unfold has, L.st_of. rewrite Hl by (destruct (decide (d = c)); naive_solver). by apply H5.
Qed.

Lemma calm_new : calm world_new.
Proof. split; try done. intros c. split; try done. intros lid. split; [done|]. split; [done|by left]. Qed.

(** ** What the protocol promises *)

(** C7: in a careful run that has come to rest, a thread that calls
    [acquire] for a lock that no thread holds gets it, wherever the lock is; each
    step on the way can be taken, the client that caches the lock is made to
    write the extent back and release it, nobody else loses or gains a lock, and
    the system is at rest again. *)
Theorem acquire_gets_the_lock es w c tid lid :
  exec careful_step world_new es = Some w -> calm w ->
  (forall d t, ~ (lid, t) ∈ L.holders (lc (node_of w d))) ->
  exists w', exec careful_step w (grab c tid lid w) = Some w' /\ calm w' /\
    L.holders (lc (node_of w' c)) = (lid, tid) :: L.holders (lc (node_of w c)) /\
    (forall d, d <> c -> L.holders (lc (node_of w' d)) = L.holders (lc (node_of w d))) /\
    S.owner (locks w') lid = Some c /\
    X.view (ec (node_of w' c)) (store w') lid = written es !! lid.
Proof.
  intros He Hca Hun. pose proof (coherence_run es _ _ w coherence_new He) as Hi.
  destruct (grab_done w _ c tid lid Hca Hi Hun) as (w' & Hg & [G1 G2 G3 G4 G5] & Hi').
  exists w'. destruct (holder_alone w' _ Hi' c tid lid) as (_ & Ho & _ & Hv); [rewrite G2; by left|].
  by split_and!.
Qed.

(** A has put an extent and released its lock, which stays in its cache. *)
Definition resting : list event :=
  takes S.cA 1 7 ++ [Put S.cA 1 100 7 (str "a"); Release S.cA 1 7].

Lemma resting_calm : exists w, exec careful_step world_new resting = Some w /\ calm w /\
  (forall d, L.holders (lc (node_of w d)) = []).
Proof.
  destruct (grab_done world_new ∅ S.cA 1 7 calm_new coherence_new) as (w1 & E1 & [G1 G2 G3 G4 G5] & I1);
    [intros d t; apply not_elem_of_nil|].
  change (grab S.cA 1 7 world_new) with (takes S.cA 1 7) in E1.
  assert ((7, 1) ∈ L.holders (lc (node_of w1 S.cA))) as Hh by (rewrite G2; by left).
  assert (exists w2, careful_step w1 (Put S.cA 1 100 7 (str "a")) = Some w2 /\ calm w2 /\
    forall d, lc (node_of w2 d) = lc (node_of w1 d)) as (w2 & E2 & C2 & H2).
  { unfold careful_step. cbn [careful step]. unfold extent_step.
    assert (std_mem (7, 1) (L.holders (lc (node_of w1 S.cA))) = true) as -> by (by apply std_mem_spec).
    destruct (X.updates_done 1 100 7 (str "a") (ec (node_of w1 S.cA)) (store w1)) as [(x & -> & _) _].
    { apply (no_good _ _ _ (proj1 I1 S.cA)). }
    eexists. split; [done|]. split; [by apply calm_extent|].
    intros d. rewrite node_of_store, node_of_set. by case_decide; [subst|]. }
  pose proof (coherence_step w1 _ I1 _ _ E2) as I2.
  destruct (release_done w2 _ S.cA 1 7 C2 I2) as (w3 & E3 & [R1 R2 R3 R4 R5] & I3); [by rewrite H2|].
  exists w3. split.
  { unfold resting. rewrite exec_app, E1. cbn [exec]. by rewrite E2, E3. }
  split; [done|]. intros d. destruct (decide (d = S.cA)) as [->|Hne]; [by rewrite R2, H2, G2|].
  rewrite R3, H2, G4 by done. done.
Qed.

Lemma acquire_gets_the_lock_witness :
  exists w w', exec careful_step world_new resting = Some w /\
    exec careful_step w (grab S.cB 2 7 w) = Some w' /\
    L.holders (lc (node_of w' S.cB)) = [(7, 2)] /\ X.view (ec (node_of w' S.cB)) (store w') 7 = Some (str "a").
Proof.
  destruct resting_calm as (w & E & Hca & Hh).
  destruct (acquire_gets_the_lock resting w S.cB 2 7 E Hca) as (w' & E' & _ & H1 & _ & _ & H2).
  - intros d t. rewrite Hh. apply not_elem_of_nil.
  - exists w, w'. rewrite H1, H2, Hh. vm_compute (written resting !! 7). auto.
Defined.

End handover.
