(* ===== verification/LockTester.v ===== *)
(** * The tester of the lock server

    [lock_tester.cc]: threads of several caching lock clients that acquire and
    release locks, and a monitor that counts who was granted what and exits when
    a lock is out twice.  Its threads run against the clients and the server of
    [Coherence].  The lock clients are made without a [lock_release_user]. *)

From stdpp Require Import gmap list strings.
From Stdlib Require Import ZArith Lia Ascii.
From S2P Require Import Prelude Text Marshall Rpc Protocols LockServerCache LockClientCache Extent Coherence Handover.

Local Open Scope Z_scope.

Module lock_tester.
Module C := coherence.
Module L := lock_client_cache.

Definition nt : nat := 10.
Definition a : Z := 1.
Definition b : Z := 2.

(** ** The monitor *)

(** [ct]; an entry that was not touched is 0 *)
Abbreviation counts := (gmap Z Z).

(** the index [lid & 0xff] *)
Definition low (lid : Z) : Z := Z.land lid 0xff.

(** [None] is the call of [exit(1)] *)
Definition check_grant (lid : Z) (ct : counts) : option counts :=
  let x := low lid in
  if negb (map_get 0 ct x =? 0) then None else Some (<[x := s32 (map_get 0 ct x + 1)]> ct).

Definition check_release (lid : Z) (ct : counts) : option counts :=
  let x := low lid in
  if negb (map_get 0 ct x =? 1) then None else Some (<[x := s32 (map_get 0 ct x - 1)]> ct).

(** ** The tests, as what their threads call *)

Inductive action :=
| Acquire (c : bytes) (lid : Z)       (** [lc[i]->acquire(lid)] *)
| Release (c : bytes) (lid : Z)
| CheckGrant (lid : Z)
| CheckRelease (lid : Z).

Section Tests.
Context (lc : nat -> bytes).          (** the clients, by their addresses *)

Definition test1 : list action :=
  let c := lc 0 in
  [Acquire c a; CheckGrant a; Release c a; CheckRelease a;
   Acquire c a; CheckGrant a; Release c a; CheckRelease a;
   Acquire c a; CheckGrant a; Acquire c b; CheckGrant b;
   Release c b; CheckRelease b; Release c a; CheckRelease a].

Definition round (c : bytes) : list action :=
  [Acquire c a; CheckGrant a; CheckRelease a; Release c a].

Definition rounds (cs : list bytes) : list action := concat (round <$> cs).

Definition test2 (i : nat) : list action := rounds [lc i].
Definition test3 (i : nat) : list action := rounds (replicate 10 (lc i)).
Definition test4 (i : nat) : list action := rounds (replicate 10 (lc 0)).
Definition test5 (i : nat) : list action := rounds (replicate 10 (if (i <? 5)%nat then lc 0 else lc 1)).

(** threads 0 to [n - 1], each with its number *)
Definition spawn (n : nat) (test : nat -> list action) : gmap Z (list action) :=
  list_to_map ((fun i => (Z.of_nat i, test i)) <$> seq 0 n).

(** [main]: what is run, one after the other, each joined before the next; [arg]
    is the second argument, [None] the exit for a number out of range *)
Definition main (arg : option Z) : option (list (gmap Z (list action))) :=
  let test := default 0 arg in
  let chosen k ths := if (test =? 0) || (test =? k) then [ths] else [] in
  if match arg with Some t => (t <? 1) || (5 <? t) | None => false end then None
  else Some (chosen 1 {[ Z.of_nat nt := test1 ]} ++ chosen 2 (spawn nt test2) ++
             chosen 3 (spawn nt test3) ++ chosen 4 (spawn 2 test4) ++ chosen 5 (spawn nt test5)).
End Tests.

(** ** Running them *)

Record state := State {
  world : C.world;
  ct : counts;
  threads : gmap Z (list action);      (** what each thread has still to do *)
  later : list (gmap Z (list action))
}.

Inductive event :=
| Go (t : Z)                           (** a thread calls, or comes back from [acquire] *)
| Sys (e : C.event)                    (** clients, network and server *)
| Join.                                (** the threads are done *)

Inductive outcome := Going (s : state) | Exited | Crashed | Blocked.

Definition goes (w : option C.world) (s : state) (ths : gmap Z (list action)) : outcome :=
  match w with
  | Some w => Going (State w (ct s) ths (later s))
  | None => Blocked
  end.

Definition checked (o : option counts) (s : state) (ths : gmap Z (list action)) : outcome :=
  match o with
  | Some k => Going (State (world s) k ths (later s))
  | None => Exited
  end.

(** What the system does by itself: not the calls of the threads, and nothing
    with extents. *)
Definition background (e : C.event) : bool :=
  match e with
  | C.Enter _ _ _ | C.Release _ _ _ | C.DoRelease _ _ _ _
  | C.Get _ _ _ _ _ _ | C.Getattr _ _ _ _ _ _ | C.Put _ _ _ _ _ | C.Remove _ _ _ => false
  | _ => true
  end.

Definition step (s : state) (e : event) : outcome :=
  match e with
  | Go t =>
      match threads s !! t with
      | Some (Acquire c lid :: rest) =>
          if std_mem (lid, t) (L.holders (C.lc (C.node_of (world s) c)))
          then Going (State (world s) (ct s) (<[t := rest]> (threads s)) (later s))
          else goes (C.careful_step (world s) (C.Enter c t lid)) s (threads s)
      | Some (Release c lid :: rest) =>
          goes (C.careful_step (world s) (C.Release c t lid)) s (<[t := rest]> (threads s))
      | Some (CheckGrant lid :: rest) => checked (check_grant lid (ct s)) s (<[t := rest]> (threads s))
      | Some (CheckRelease lid :: rest) => checked (check_release lid (ct s)) s (<[t := rest]> (threads s))
      | Some [] | None => Blocked
      end
  | Sys (C.DoRelease c _ _ _) =>               (** [lu->dorelease(lid)], [lu] is null *)
      match C.rel (C.node_of (world s) c) with
      | C.Picked _ _ => Crashed
      | _ => Blocked
      end
  | Sys e => if background e then goes (C.careful_step (world s) e) s (threads s) else Blocked
  | Join =>
      if bool_decide (map_Forall (fun _ x => x = []) (threads s)) then
        match later s with
        | ths :: rest => Going (State (world s) (ct s) ths rest)
        | [] => Blocked
        end
      else Blocked
  end.

Fixpoint run (s : state) (es : list event) : outcome :=
  match es with
  | [] => Going s
  | e :: es' => match step s e with Going s' => run s' es' | o => o end
  end.

Definition start (phases : list (gmap Z (list action))) : state := State C.world_new ∅ ∅ phases.

(** ** The monitor does not fail *)

Definition all_zero (k : counts) : Prop := forall x, map_get 0 k x = 0.
Definition only_a (k : counts) : Prop := forall x, map_get 0 k x = if decide (x = low a) then 1 else 0.

(** Where a thread of tests 2 to 5 is, and whether the monitor counts it. *)
Inductive at_round (w : C.world) (t : Z) : list action -> bool -> Prop :=
| outside cs : at_round w t (rounds cs) false
| has_it c cs : (a, t) ∈ L.holders (C.lc (C.node_of w c)) ->
    at_round w t (CheckGrant a :: CheckRelease a :: Release c a :: rounds cs) false
| counted c cs : (a, t) ∈ L.holders (C.lc (C.node_of w c)) ->
    at_round w t (CheckRelease a :: Release c a :: rounds cs) true
| releases c cs : (a, t) ∈ L.holders (C.lc (C.node_of w c)) ->
    at_round w t (Release c a :: rounds cs) false.

Definition uncounted (w : C.world) (ths : gmap Z (list action)) : Prop :=
  forall t s, ths !! t = Some s -> at_round w t s false.

(** Threads that all go through such rounds. *)
Definition many (s : state) : Prop :=
  all_zero (ct s) /\ uncounted (world s) (threads s) \/
  only_a (ct s) /\ exists t x, threads s !! t = Some x /\ at_round (world s) t x true /\
    uncounted (world s) (delete t (threads s)).

(** The counts after the checks of a script. *)
Fixpoint monitor (x : list action) (k : counts) : option counts :=
  match x with
  | [] => Some k
  | CheckGrant lid :: x' => k' ← check_grant lid k; monitor x' k'
  | CheckRelease lid :: x' => k' ← check_release lid k; monitor x' k'
  | _ :: x' => monitor x' k
  end.

(** One thread, whose checks are in order. *)
Definition single (s : state) : Prop :=
  exists t x k, threads s = {[ t := x ]} /\ monitor x (ct s) = Some k /\ all_zero k.

Definition phase_ok (ths : gmap Z (list action)) : Prop :=
  (exists t x, ths = {[ t := x ]} /\ forall k, all_zero k -> exists k', monitor x k = Some k' /\ all_zero k') \/
  forall t x, ths !! t = Some x -> exists cs, x = rounds cs.

Record tester_inv (s : state) : Prop := {
  ti_world : exists m, C.inv (world s) m;
  ti_phase : single s \/ many s;
  ti_later : Forall phase_ok (later s)
}.

Lemma count_grant k lid : map_get 0 k (low lid) = 0 ->
  exists k', check_grant lid k = Some k' /\
    forall x, map_get 0 k' x = if decide (x = low lid) then 1 else map_get 0 k x.
Proof.
  intros Hk. unfold check_grant. rewrite Hk. cbn [Z.eqb negb]. eexists. split; [done|]. intros x.
  case_decide as E; [subst; by rewrite map_get_insert_eq|by rewrite map_get_insert_ne].
Qed.

Lemma count_release k lid : map_get 0 k (low lid) = 1 ->
  exists k', check_release lid k = Some k' /\
    forall x, map_get 0 k' x = if decide (x = low lid) then 0 else map_get 0 k x.
Proof.
  intros Hk. unfold check_release. rewrite Hk. cbn [Z.eqb Pos.eqb negb]. eexists. split; [done|]. intros x.
  case_decide as E; [subst; by rewrite map_get_insert_eq|by rewrite map_get_insert_ne].
Qed.

Lemma rounds_head cs x rest : rounds cs = x :: rest ->
  exists c cs', x = Acquire c a /\
    rest = CheckGrant a :: CheckRelease a :: Release c a :: rounds cs'.
Proof. destruct cs as [|c cs]; [done|]. intros [= <- <-]. by exists c, cs. Qed.

(** Threads keep what they have when others move. *)
Lemma at_round_mono w w' t x g :
  (forall c, (a, t) ∈ L.holders (C.lc (C.node_of w c)) -> (a, t) ∈ L.holders (C.lc (C.node_of w' c))) ->
  at_round w t x g -> at_round w' t x g.
Proof. intros H []; constructor; auto. Qed.

Lemma many_mono s w' :
  (forall c t, (a, t) ∈ L.holders (C.lc (C.node_of (world s) c)) -> (a, t) ∈ L.holders (C.lc (C.node_of w' c))) ->
  many s -> many (State w' (ct s) (threads s) (later s)).
Proof.
  intros H [[Hz Hu]|(Ho & t & x & Ht & Hc & Hu)]; [left|right].
  - split; [done|]. intros t x Ht. eapply at_round_mono; [|by apply Hu]. auto.
  - split; [done|]. exists t, x. split; [done|]. split; [eapply at_round_mono; [|done]; auto|].
    intros t' x' Ht'. eapply at_round_mono; [|by apply Hu]. auto.
Qed.

Lemma uncounted_insert w ths t x :
  uncounted w (delete t ths) -> at_round w t x false -> uncounted w (<[t := x]> ths).
Proof.
  intros Hu Hx t' x' [[<- <-]|[Hne Ht]]%lookup_insert_Some; [done|]. apply Hu.
  by rewrite lookup_delete_ne.
Qed.

Lemma uncounted_delete w ths t : uncounted w ths -> uncounted w (delete t ths).
Proof. intros Hu t' x' [_ Ht]%lookup_delete_Some. by apply Hu. Qed.

(** A release takes the lock from the thread that calls it only. *)
Lemma release_holders w w' c t lid d t' :
  C.careful_step w (C.Release c t lid) = Some w' -> t' <> t ->
  (a, t') ∈ L.holders (C.lc (C.node_of w d)) -> (a, t') ∈ L.holders (C.lc (C.node_of w' d)).
Proof.
  unfold C.careful_step. cbn [C.careful C.step]. unfold C.lock_step. cbn [L.step]. intros H Hne Hin.
  destruct (std_mem _ _); [|done]. injection H as <-. rewrite C.node_of_set. case_decide; [subst d|done].
  cbn [C.lc L.holders]. apply list_remove_all_spec. split; [done|congruence].
Qed.

Lemma careful_holders w e w' c x :
  C.careful_step w e = Some w' -> (forall d t lid, e <> C.Release d t lid) ->
  x ∈ L.holders (C.lc (C.node_of w c)) -> x ∈ L.holders (C.lc (C.node_of w' c)).
Proof. unfold C.careful_step. destruct (C.careful w e); [|done]. apply C.step_holders. Qed.

(** What a step must lead to. *)
Definition fine (o : outcome) : Prop :=
  match o with Going s => tester_inv s | Exited => False | _ => True end.

Section Step.
Context (s : state) (Hi : tester_inv s).

(** Steps that are not a check. *)
Lemma world_fine e ths :
  (forall w', C.careful_step (world s) e = Some w' -> single (State w' (ct s) ths (later s)) \/ many (State w' (ct s) ths (later s))) ->
  fine (goes (C.careful_step (world s) e) s ths).
Proof.
  intros Hp. destruct (C.careful_step (world s) e) as [w'|] eqn:E; [|done]. cbn.
  destruct (ti_world s Hi) as [m Hm]. split; [|by apply Hp|apply Hi].
  eexists. by apply (C.coherence_step (world s) m Hm e).
Qed.

Lemma background_fine e : (forall d t lid, e <> C.Release d t lid) ->
  fine (goes (C.careful_step (world s) e) s (threads s)).
Proof.
  intros Hne. apply world_fine. intros w' E. destruct (ti_phase s Hi) as [Hs|Hm]; [by left|right].
  apply many_mono; [|done]. intros c t. by eapply careful_holders.
Qed.

Lemma going_fine k ths :
  single (State (world s) k ths (later s)) \/ many (State (world s) k ths (later s)) ->
  tester_inv (State (world s) k ths (later s)).
Proof. intros Hp. destruct Hi. by split. Qed.

(** The only thread goes on. *)
Lemma single_fine t x k :
  threads s = {[ t := x ]} -> monitor x (ct s) = Some k -> all_zero k -> fine (step s (Go t)).
Proof.
  intros Hth Hm Hz. cbn [step]. rewrite Hth, lookup_singleton_eq.
  assert (forall w y k', monitor y k' = Some k -> single (State w k' {[ t := y ]} (later s))) as Hnext.
  { intros w y k' Hy. by exists t, y, k. }
  destruct x as [|[c lid|c lid|lid|lid] rest]; [done|..]; cbn [monitor] in Hm;
    rewrite insert_singleton_eq.
  - case_match; [apply going_fine; left; by apply Hnext|]. rewrite <- Hth. by apply background_fine.
  - apply world_fine. intros w' _. left. by apply Hnext.
  - destruct (check_grant lid (ct s)) as [k'|]; [|done]. apply going_fine. left. by apply Hnext.
  - destruct (check_release lid (ct s)) as [k'|]; [|done]. apply going_fine. left. by apply Hnext.
Qed.

(** Nobody is counted. *)
Lemma none_fine t : all_zero (ct s) -> uncounted (world s) (threads s) -> fine (step s (Go t)).
Proof.
  intros Hz Hu. cbn [step]. destruct (threads s !! t) as [x|] eqn:Et; [|done].
  pose proof (uncounted_delete _ _ t Hu) as Hd. pose proof (Hu t x Et) as Hx.
  inversion Hx as [cs E|c cs Hh E|c cs Hh E|c cs Hh E]; subst x.
  - destruct (rounds cs) as [|y rest] eqn:Er; [done|].
    destruct (rounds_head _ _ _ Er) as (c & cs' & -> & ->).
    destruct (std_mem _ _) eqn:Em; [|by apply background_fine]. apply std_mem_spec in Em.
    apply going_fine. right. left. split; [done|]. apply uncounted_insert; [done|by constructor].
  - destruct (count_grant (ct s) a (Hz _)) as (k' & -> & Hk). apply going_fine. right. right. split.
    + intros x. rewrite Hk. by rewrite Hz.
    + eexists t, _. split; [apply lookup_insert_eq|]. split; [by constructor|].
      cbn [threads world]. by rewrite delete_insert_eq.
  - apply world_fine. intros w' E. right. left. split; [done|]. apply uncounted_insert; [|constructor].
    intros t' x' Ht'. eapply at_round_mono; [|by apply Hd]. intros d. eapply release_holders; [exact E|].
    intros ->. by rewrite lookup_delete_eq in Ht'.
Qed.

(** One thread is counted, and has the lock. *)
Lemma one_fine t t0 x0 :
  only_a (ct s) -> threads s !! t0 = Some x0 -> at_round (world s) t0 x0 true ->
  uncounted (world s) (delete t0 (threads s)) -> fine (step s (Go t)).
Proof.
  intros Ho Ht0 Hx0 Hu. cbn [step]. inversion Hx0 as [| |c cs Hh E|]; subst x0.
  destruct (decide (t = t0)) as [->|Hne].
  - rewrite Ht0. assert (map_get 0 (ct s) (low a) = 1) as H1 by (rewrite Ho; by rewrite decide_True).
    destruct (count_release (ct s) a H1) as (k' & -> & Hk). apply going_fine. right. left. split.
    + intros x. rewrite Hk. case_decide; [done|]. rewrite Ho. by rewrite decide_False.
    + apply uncounted_insert; [done|by constructor].
  - destruct (threads s !! t) as [x|] eqn:Et; [|done].
    assert (delete t0 (threads s) !! t = Some x) as Hdt by (by rewrite lookup_delete_ne).
    pose proof (Hu t x Hdt) as Hx. destruct (ti_world s Hi) as [m Hm].
    assert (forall d, ~ (a, t) ∈ L.holders (C.lc (C.node_of (world s) d))) as Hno.
    { intros d Hd. by destruct (C.holders_unique _ m a d t c t0 Hm Hd Hh). }
    inversion Hx as [cs' E|d cs' Hd E|d cs' Hd E|d cs' Hd E]; subst x; try by apply Hno in Hd.
    destruct (rounds cs') as [|y rest] eqn:Er; [done|].
    destruct (rounds_head _ _ _ Er) as (d & cs2 & -> & ->).
    destruct (std_mem _ _) eqn:Em; [|by apply background_fine]. apply std_mem_spec in Em. by apply Hno in Em.
Qed.

Lemma join_fine : fine (step s Join).
Proof.
  cbn [step]. case_bool_decide as Hall; [|done]. destruct (later s) as [|ths rest] eqn:El; [done|]. cbn.
  destruct Hi as [Hw Hp Hl]. rewrite El in Hl. apply Forall_cons in Hl as [Hok Hl].
  assert (all_zero (ct s)) as Hz.
  { destruct Hp as [(t & x & k & Ht & Hm & Hz)|[[Hz _]|(_ & t & x & Ht & Hc & _)]]; [|done|].
    - rewrite Ht in Hall. apply map_Forall_singleton in Hall. subst x. by injection Hm as <-.
    - apply Hall in Ht. cbn in Ht. subst x. by inversion Hc. }
  split; [done| |done]. destruct Hok as [(t & x & -> & Hx)|Hr]; [left|right; left].
  - destruct (Hx _ Hz) as (k & Hk & Hkz). by exists t, x, k.
  - split; [done|]. intros t x Ht. destruct (Hr t x Ht) as [cs ->]. constructor.
Qed.

Lemma step_fine e : fine (step s e).
Proof.
  destruct e as [t|e|]; [|destruct e; try done; first [by apply background_fine|cbn [step]; by case_match]|apply join_fine].
  destruct (ti_phase s Hi) as [(t0 & x & k & Ht & Hm & Hz)|[[Hz Hu]|(Ho & t0 & x0 & H1 & H2 & H3)]].
  - destruct (decide (t = t0)) as [->|Hne]; [by eapply single_fine|]. cbn [step].
    rewrite Ht, lookup_singleton_ne; done.
  - by apply none_fine.
  - by eapply one_fine.
Qed.
End Step.

Lemma run_fine s es : tester_inv s -> fine (run s es).
Proof.
  revert s. induction es as [|e es IH]; intros s Hi; [done|]. cbn [run].
  pose proof (step_fine s Hi e) as Hs. destruct (step s e); [by apply IH|done..].
Qed.

Lemma spawn_ok n test : (forall i, exists cs, test i = rounds cs) -> phase_ok (spawn n test).
Proof.
  intros Ht. right. intros t x Hx. unfold spawn in Hx. apply elem_of_list_to_map_2 in Hx.
  apply list_elem_of_fmap in Hx as (i & [= -> ->] & _). apply Ht.
Qed.

Lemma test1_ok lc k : all_zero k -> exists k', monitor (test1 lc) k = Some k' /\ all_zero k'.
Proof.
  intros Hz. assert (forall lid k, all_zero k -> exists k1 k2, check_grant lid k = Some k1 /\
    check_release lid k1 = Some k2 /\ all_zero k2) as Hpair.
  { intros lid k0 Hk0. destruct (count_grant k0 lid (Hk0 _)) as (k1 & E1 & H1).
    destruct (count_release k1 lid) as (k2 & E2 & H2); [rewrite H1; by rewrite decide_True|].
    exists k1, k2. split; [done|]. split; [done|]. intros x. rewrite H2, H1, Hk0. by repeat case_decide. }
  unfold test1. cbn [monitor].
  destruct (Hpair a k Hz) as (k1 & k2 & E1 & E2 & Hz2). rewrite E1. cbn. rewrite E2. cbn.
  destruct (Hpair a k2 Hz2) as (k3 & k4 & E3 & E4 & Hz4). rewrite E3. cbn. rewrite E4. cbn.
  destruct (count_grant k4 a (Hz4 _)) as (k5 & E5 & H5). rewrite E5. cbn.
  destruct (count_grant k5 b) as (k6 & E6 & H6); [rewrite H5; by rewrite decide_False|]. rewrite E6. cbn.
  destruct (count_release k6 b) as (k7 & E7 & H7); [rewrite H6; by rewrite decide_True|]. rewrite E7. cbn.
  destruct (count_release k7 a) as (k8 & E8 & H8); [rewrite H7, decide_False, H6, decide_False, H5 by done; done|].
  rewrite E8. cbn. exists k8. split; [done|]. intros x. rewrite H8, H7, H6, H5, Hz4. by repeat case_decide.
Qed.

(** C33: whatever tests are asked for and however the threads, the messages
    and the server are scheduled in a careful run, the monitor of the tester does
    not find a lock granted twice or released without having been granted. *)
Theorem monitor_never_exits lc arg phases es :
  main lc arg = Some phases -> run (start phases) es <> Exited.
Proof.
  intros Hm. enough (fine (run (start phases) es)) as Hf by (by intros E; rewrite E in Hf).
  apply run_fine. split; cbn [start world ct threads later].
  - exists ∅. apply C.coherence_new.
  - right. left. split; [done|]. intros t x Ht. cbn in Ht. by rewrite lookup_empty in Ht.
  - unfold main in Hm. case_match; [done|]. injection Hm as <-.
    assert (forall b ths, phase_ok ths -> Forall phase_ok (if b : bool then [ths] else [])) as Hif.
    { intros [] ths Hths; [by apply Forall_singleton|constructor]. }
    repeat apply Forall_app_2; apply Hif; try (apply spawn_ok; intros i; by eexists).
    left. eexists _, _. split; [done|]. apply test1_ok.
Qed.

(** ** Concrete runs *)

Definition demo_lc (i : nat) : bytes := match i with O => lock_server_cache.cA | _ => lock_server_cache.cB end.

(** A thread gets a lock nobody has, and a lock that its client has. *)
Definition first (c : bytes) (t : Z) : list event :=
  [Go t; Sys (C.Loop c t); Sys (C.AcquireAt c t); Sys (C.AcquireBack c t true); Go t].
Definition again (c : bytes) (t : Z) : list event := [Go t; Sys (C.Loop c t); Go t].
Definition checks (t : Z) : list event := [Go t; Go t; Go t].

(** The first test, up to the end. *)
Definition demo_test1 : list event :=
  let c := lock_server_cache.cA in
  [Join] ++ first c 10 ++ checks 10 ++ again c 10 ++ checks 10 ++ again c 10 ++ [Go 10] ++
  first c 10 ++ checks 10 ++ [Go 10; Go 10].

Lemma monitor_never_exits_witness :
  main demo_lc (Some 1) = Some [{[ 10 := test1 demo_lc ]}] /\
  run (start [{[ 10 := test1 demo_lc ]}]) demo_test1 <> Exited /\
  match run (start [{[ 10 := test1 demo_lc ]}]) demo_test1 with
  | Going s => threads s !! 10 = Some []
  | _ => False
  end.
Proof.
  split; [reflexivity|]. split; [apply (monitor_never_exits demo_lc (Some 1)); reflexivity|].
  vm_compute. reflexivity.
Defined.

(** In the second test, client A has released the lock to its cache and B asks
    for it: A is told to give it back, and its releaser calls [dorelease] of a
    [lock_release_user] that is not there. *)
Theorem second_client_crashes_the_first :
  let cA := lock_server_cache.cA in let cB := lock_server_cache.cB in
  run (start [spawn 2 (test2 demo_lc)])
    ([Join] ++ first cA 0 ++ checks 0 ++
     [Go 1; Sys (C.Loop cB 1); Sys (C.AcquireAt cB 1); Sys (C.AcquireBack cB 1 true);
      Sys C.Revoker; Sys C.RevokeAt; Sys (C.RevokeBack true); Sys (C.Pick cA);
      Sys (C.DoRelease cA 9 C.X.Done C.X.Done)]) = Crashed.
Proof. vm_compute. reflexivity. Qed.

End lock_tester.
