(* ===== verification/YfsClient.v ===== *)
(** * The file system client

    [yfs_client] of [yfs_client.cc]: files and directories over an extent
    store and a lock service.  A directory is an extent whose text has a line
    "inum name" per entry.  The store is an interface, [Store] with its laws,
    which the caching extent client implements; an operation holds the locks
    of the extents it works on, so it runs on the store as one step, and the
    lock calls it makes are recorded. *)

From stdpp Require Import gmap list strings.
From Stdlib Require Import ZArith Lia Ascii.
From S2P Require Import Prelude Text Marshall Rpc Protocols Extent.

Local Open Scope Z_scope.

(** ** The interface of the extent store and the lock service *)

Class Store (S : Type) := {
  st_get : Z -> S -> Z * bytes * S;             (** status, contents *)
  st_getattr : Z -> S -> Z * attr * S;
  st_put : Z -> bytes -> S -> Z * S;
  st_remove : Z -> S -> Z * S;
  st_acquire : Z -> S -> S;
  st_release : Z -> S -> S;
  st_held : S -> list Z;                        (** the locks that are held *)
  st_view : S -> Z -> option bytes;             (** contents of each extent *)
  st_clean : S -> Z -> Prop;                    (** no removal is pending *)
  st_peekable : S -> Z -> Prop;                 (** may be read without its lock *)
  st_removable : S -> Z -> Prop;                (** may be removed, with its lock *)
  st_ok : S -> Prop
}.

(** Nothing of what is seen changes, and no removal is left pending. *)
Definition st_same {S} `{Store S} (s s' : S) : Prop :=
  st_ok s' /\ (forall k, st_view s' k = st_view s k) /\
  forall k, (st_clean s k -> st_clean s' k) /\ (st_peekable s k -> st_peekable s' k) /\
            (st_removable s k -> st_removable s' k).

(** What a call finds of an extent. *)
Definition st_found {A} (v : option bytes) (good : bytes -> A -> Prop) (ret : Z) (a : A) : Prop :=
  match v with
  | Some b => ret = extent_protocol.OK /\ good b a
  | None => ret = extent_protocol.NOENT
  end.

(** A call about one extent leaves the others as they are. *)
Definition st_others {S} `{Store S} (eid : Z) (s s' : S) : Prop :=
  st_held s' = st_held s /\
  forall k, k <> eid -> (st_clean s k -> st_clean s' k) /\ (st_peekable s k -> st_peekable s' k) /\
                        (st_removable s k -> st_removable s' k).

(** The laws: calls about an extent are made with its lock held, apart from a
    [get] where that is harmless. *)
Class StoreLaws (S : Type) `{Store S} := {
  law_get s eid : st_ok s -> eid ∈ st_held s -> st_clean s eid ->
    exists ret buf s', st_get eid s = (ret, buf, s') /\ st_same s s' /\ st_held s' = st_held s /\
      st_found (st_view s eid) eq ret buf;
  law_peek s eid : st_ok s -> st_peekable s eid ->
    exists ret buf s', st_get eid s = (ret, buf, s') /\ st_same s s' /\ st_held s' = st_held s /\
      st_found (st_view s eid) eq ret buf;
  law_getattr s eid : st_ok s -> eid ∈ st_held s -> st_clean s eid ->
    exists ret a s', st_getattr eid s = (ret, a, s') /\ st_same s s' /\ st_held s' = st_held s /\
      st_found (st_view s eid) (fun b a => asize a = u32 (Z.of_nat (length b))) ret a;
  law_put s eid buf : st_ok s -> eid ∈ st_held s ->
    exists s', st_put eid buf s = (extent_protocol.OK, s') /\ st_ok s' /\ st_others eid s s' /\
      (forall k, st_view s' k = if decide (k = eid) then Some buf else st_view s k) /\ st_clean s' eid;
  law_remove s eid : st_ok s -> eid ∈ st_held s -> st_removable s eid ->
    exists ret s', st_remove eid s = (ret, s') /\ st_ok s' /\ st_others eid s s' /\
      (ret = extent_protocol.OK \/ ret = extent_protocol.NOENT) /\
      (forall k, st_view s' k =
         if decide (k = eid /\ ret = extent_protocol.OK) then None else st_view s k);
  law_acquire s lid : st_ok s -> (~ lid ∈ st_held s) ->
    st_same s (st_acquire lid s) /\ st_held (st_acquire lid s) = lid :: st_held s;
  law_release s lid h : st_ok s -> st_held s = lid :: h ->
    st_same s (st_release lid s) /\ st_held (st_release lid s) = h
}.

(** ** The caching client implements it *)

(** One client, which has all the locks it asks for. *)
Record cached_store := CachedStore {
  cs_client : extent_client.client;
  cs_server : extent_server.state;
  cs_now : Z;
  cs_held : list Z
}.

(** Run an operation of the client for its only thread; the queue of threads
    is never left waiting, so the result is always there. *)
Definition cs_run {R} (d : R) (s : cached_store)
    (o : option (R * extent_client.client * extent_server.state)) : R * cached_store :=
  match o with
  | Some (r, c, srv) => (r, CachedStore c srv (cs_now s) (cs_held s))
  | None => (d, s)
  end.

#[export] Instance cached_Store : Store cached_store := {
  st_get eid s :=
    cs_run (0, []) s (extent_client.get 1 extent_client.Done extent_client.Done (cs_now s) eid []
                        (cs_client s) (cs_server s));
  st_getattr eid s :=
    cs_run (0, Attr 0 0 0 0) s
      (extent_client.getattr 1 extent_client.Done extent_client.Done (cs_now s) eid (Attr 0 0 0 0)
         (cs_client s) (cs_server s));
  st_put eid buf s :=
    cs_run 0 s (extent_client.put 1 (cs_now s) eid buf (cs_client s) (cs_server s));
  st_remove eid s :=
    cs_run 0 s (extent_client.remove 1 eid (cs_client s) (cs_server s));
  st_acquire lid s := CachedStore (cs_client s) (cs_server s) (cs_now s) (lid :: cs_held s);
  st_release lid s := CachedStore (cs_client s) (cs_server s) (cs_now s) (list_remove_all lid (cs_held s));
  st_held s := cs_held s;
  st_view s eid := extent_client.view (cs_client s) (cs_server s) eid;
  st_clean s eid := ~ eid ∈ extent_client.removed_extents (cs_client s);
  st_peekable s eid := ~ eid ∈ extent_client.removed_extents (cs_client s);
  st_removable s eid := True;
  st_ok s := extent_client.good (cs_client s) /\ extent_server.paired (cs_server s) /\
             extent_client.all_sized (cs_client s) (cs_server s) /\ NoDup (cs_held s)
}.

Ltac open_store :=
  cbv [st_get st_getattr st_put st_remove st_acquire st_release st_held st_view st_clean st_peekable
       st_removable st_ok st_same st_others st_found cached_Store cs_client cs_server cs_now cs_held] in *.

Lemma list_remove_head {A} `{EqDecision A} (x : A) l : NoDup (x :: l) -> list_remove_all x (x :: l) = l.
Proof.
  intros [Hx _]%NoDup_cons. unfold list_remove_all. rewrite filter_cons_False by naive_solver.
  induction l as [|y l IH]; [done|]. rewrite filter_cons_True by set_solver. f_equal. apply IH. set_solver.
Qed.

(** The caching client keeps its promises to the file system. *)
#[export] Instance cached_StoreLaws : StoreLaws cached_store.
Proof.
  assert (forall (s : cached_store) eid, st_ok s -> st_clean s eid ->
    exists ret buf s', st_get eid s = (ret, buf, s') /\ st_same s s' /\ st_held s' = st_held s /\
      st_found (st_view s eid) eq ret buf) as Hget.
  { intros [c srv now h] eid (Hg & Hp & Ha & Hh) Hr. open_store.
    destruct (extent_client.get_done 1 now eid c srv Hg Hp Hr) as (ret & buf & c' & srv' & E & Hg' & Hv & _ & Hs).
    rewrite E. cbn [cs_run]. destruct (extent_client.get_frame _ _ _ _ _ _ _ _ _ E) as (F1 & F2 & F3).
    do 3 eexists. split; [done|]. split_and!; auto; [intros k; split_and!; auto|].
    destruct (extent_client.view c srv eid); naive_solver. }
  split.
  - intros s eid Hok _ Hr. by apply Hget.
  - intros s eid Hok Hr. by apply Hget.
  - intros [c srv now h] eid (Hg & Hp & Ha & Hh) _ Hr. open_store.
    destruct (extent_client.getattr_done 1 now eid (Attr 0 0 0 0) c srv Hg Hp Ha Hr)
      as (ret & a & c' & srv' & E & Hg' & Hp' & Ha' & F3 & Hv & Hs).
    rewrite E. cbn [cs_run]. do 3 eexists. split; [done|]. split_and!; auto. intros k. split_and!; auto.
  - intros [c srv now h] eid buf (Hg & Hp & Ha & Hh) _. open_store.
    destruct (extent_client.updates_done 1 now eid buf c srv Hg) as [(c' & E & Hg' & Hv) _].
    rewrite E. cbn [cs_run]. destruct (extent_client.put_frame _ _ _ _ _ _ _ _ _ E) as (F1 & F2).
    assert (forall k, k <> eid -> k ∈ erase_first eid (extent_client.removed_extents c) ->
      k ∈ extent_client.removed_extents c) as Hsub by (intros k _; apply erase_first_subseteq).
    eexists. split; [done|]. cbn [cs_client cs_held]. rewrite F2. split_and!; auto.
    { intros k Hne. split_and!; auto. }
    by apply (proj2 (erase_first_NoDup eid _ (proj2 (proj2 (extent_client.co_nodup c (proj1 Hg)))))).
  - intros [c srv now h] eid (Hg & Hp & Ha & Hh) _ _. open_store.
    destruct (extent_client.updates_done 1 now eid [] c srv Hg) as [_ (ret & c' & E & Hg' & _ & Hr & Hv)].
    rewrite E. cbn [cs_run]. destruct (extent_client.remove_frame _ _ _ _ _ _ _ E) as (F1 & F2).
    do 2 eexists. split; [done|]. split_and!; auto. intros k Hne. split_and!; auto.
  - intros [c srv now h] lid (Hg & Hp & Ha & Hh) Hn. open_store. split_and!; auto. by constructor.
  - intros [c srv now h] lid h' (Hg & Hp & Ha & Hh) E. open_store. subst h.
    rewrite list_remove_head by done. apply NoDup_cons in Hh as [_ Hh]. split_and!; auto.
Qed.

(** ** Operations *)

(** The calls an operation makes, in their order; [release] of a lock whose
    number was never set is [LRelease None]. *)
Inductive fs_call :=
| LAcquire (lid : Z)
| LRelease (lid : option Z)
| LAccess (eid : Z).             (** a call of the extent client *)

(** the calls of the lock client *)
Fixpoint locks_only (tr : list fs_call) : list fs_call :=
  match tr with
  | [] => []
  | LAccess _ :: tr' => locks_only tr'
  | c :: tr' => c :: locks_only tr'
  end.

Lemma locks_only_app tr tr' : locks_only (tr ++ tr') = locks_only tr ++ locks_only tr'.
Proof. induction tr as [|[] tr IH]; cbn; by rewrite ?IH. Qed.

Lemma locks_only_access eids : locks_only (LAccess <$> eids) = [].
Proof. by induction eids. Qed.

Section Yfs.
Context {S : Type} `{Store S}.

Record fs := Fs { store : S; trace : list fs_call }.

Definition lock_calls (s : fs) : list fs_call := locks_only (trace s).

(** The operations, as functions that thread the store and the lock calls. *)
Definition M (A : Type) : Type := fs -> A * fs.
Definition ret {A} (a : A) : M A := fun s => (a, s).
Definition bind {A B} (m : M A) (k : A -> M B) : M B := fun s => let '(a, s) := m s in k a s.

Definition acquire (lid : Z) : M unit :=
  fun s => ((), Fs (st_acquire lid (store s)) (trace s ++ [LAcquire lid])).
Definition release (lid : Z) : M unit :=
  fun s => ((), Fs (st_release lid (store s)) (trace s ++ [LRelease (Some lid)])).
(** the release of a lock whose number was not set, and happens to be [junk] *)
Definition release_unset (junk : Z) : M unit :=
  fun s => ((), Fs (st_release junk (store s)) (trace s ++ [LRelease None])).

Definition ec_get (eid : Z) : M (Z * bytes) :=
  fun s => let '(r, b, st) := st_get eid (store s) in ((r, b), Fs st (trace s ++ [LAccess eid])).
Definition ec_getattr (eid : Z) : M (Z * attr) :=
  fun s => let '(r, a, st) := st_getattr eid (store s) in ((r, a), Fs st (trace s ++ [LAccess eid])).
Definition ec_put (eid : Z) (buf : bytes) : M Z :=
  fun s => let '(r, st) := st_put eid buf (store s) in (r, Fs st (trace s ++ [LAccess eid])).
Definition ec_remove (eid : Z) : M Z :=
  fun s => let '(r, st) := st_remove eid (store s) in (r, Fs st (trace s ++ [LAccess eid])).
End Yfs.
Arguments fs : clear implicits.

Notation "x <- m ;; k" := (bind m (fun x => k))
  (at level 60, m at level 59, right associativity) : yfs_scope.
Notation "m ;;; k" := (bind m (fun _ => k)) (at level 60, right associativity) : yfs_scope.

Module yfs_client.
Local Open Scope yfs_scope.

Definition OK : Z := 0.
Definition RPCERR : Z := 1.
Definition NOENT : Z := 2.
Definition IOERR : Z := 3.
Definition FBIG : Z := 4.

Record fileinfo := FileInfo { fi_size : Z; fi_atime : Z; fi_mtime : Z; fi_ctime : Z }.
Record dirinfo := DirInfo { di_atime : Z; di_mtime : Z; di_ctime : Z }.
Record dirent := Dirent { d_name : bytes; d_inum : Z }.

(** [n2i]: [None] is the indeterminate value of a number that was not read *)
Definition n2i (n : bytes) : option Z :=
  match get_unsigned 64 n with
  | Got v _ => Some v
  | Failed stored _ => stored
  end.

Definition filename (inum : Z) : bytes := dec inum.

Definition isfile (inum : Z) : bool := negb (Z.land inum 0x80000000 =? 0).
Definition isdir (inum : Z) : bool := negb (isfile inum).

(** ** The text of a directory *)

(** [while (ist >> file_inum >> file_name)] with a number for [file_inum];
    every round consumes a character, so the length is enough fuel *)
Fixpoint lookup_loop (fuel : nat) (name : bytes) (s : bytes) : Z :=
  match fuel with
  | O => 0
  | S f =>
      match get_unsigned 64 s with
      | Got file_inum r =>
          match get_word r with
          | Some (file_name, r) =>
              if decide (file_name = name) then file_inum else lookup_loop f name r
          | None => 0
          end
      | Failed _ _ => 0
      end
  end.

(** [while (ist >> file_inum >> file_name)] with a word for [file_inum] *)
Fixpoint words_loop (fuel : nat) (s : bytes) : list (bytes * bytes) :=
  match fuel with
  | O => []
  | S f =>
      match get_word s with
      | Some (file_inum, r) =>
          match get_word r with
          | Some (file_name, r) => (file_inum, file_name) :: words_loop f r
          | None => []
          end
      | None => []
      end
  end.

Definition words (s : bytes) : list (bytes * bytes) := words_loop (S (length s)) s.

(** [ost << inum << " " << name << "\n"] *)
Definition entry_line (inum name : bytes) : bytes := inum ++ [space] ++ name ++ [newline].

(** the loop of [unlink]: what is written back, and the last matching number *)
Definition keep_entries (name : bytes) (es : list (bytes * bytes)) : bytes :=
  concat ((fun e => entry_line e.1 e.2) <$> filter (fun e => e.2 <> name) es).

Fixpoint last_match (name : bytes) (found : option bytes) (es : list (bytes * bytes)) : option bytes :=
  match es with
  | [] => found
  | e :: es' => last_match name (if decide (e.2 = name) then Some e.1 else found) es'
  end.

Section Ops.
Context {S : Type} `{Store S}.

Definition getfile (inum : Z) : @M S (Z * option fileinfo) :=
  acquire inum ;;;
  ra <- ec_getattr inum ;;
  release inum ;;;
  ret (if ra.1 =? extent_protocol.OK
       then (OK, Some (FileInfo (asize ra.2) (atime ra.2) (mtime ra.2) (ctime ra.2)))
       else (IOERR, None)).

Definition getdir (inum : Z) : @M S (Z * option dirinfo) :=
  acquire inum ;;;
  ra <- ec_getattr inum ;;
  release inum ;;;
  ret (if ra.1 =? extent_protocol.OK
       then (OK, Some (DirInfo (atime ra.2) (mtime ra.2) (ctime ra.2)))
       else (IOERR, None)).

Definition ilookup (di : Z) (name : bytes) : @M S Z :=
  acquire di ;;;
  if negb (isdir di) then release di ;;; ret 0
  else
    rb <- ec_get di ;;
    release di ;;;
    ret (if rb.1 =? extent_protocol.OK
         then lookup_loop (Datatypes.S (length rb.2)) name rb.2 else 0).

(** [generate_unique_inum]; [rs] is what the random generator delivers *)
Fixpoint generate_unique_inum (is_file : bool) (rs : list Z) : @M S (option Z) :=
  match rs with
  | [] => ret None
  | r :: rs' =>
      let rand_id := if is_file then Z.lor 0x80000000 r else r in
      rb <- ec_get rand_id ;;
      if rb.1 =? extent_protocol.OK then generate_unique_inum is_file rs'
      else ret (Some rand_id)
  end.

(** [add_entry_to_filesystem]; the result has [entry_inum] once it is set *)
Definition add_entry_to_filesystem (rs : list Z) (parent : Z) (name : bytes) (is_file : bool)
  : @M S (option (Z * option Z)) :=
  acquire parent ;;;
  rb <- ec_get parent ;;
  if negb (rb.1 =? extent_protocol.OK) then release parent ;;; ret (Some (rb.1, None))
  else
    i <- generate_unique_inum is_file rs ;;
    match i with
    | None => ret None
    | Some entry_inum =>
        acquire entry_inum ;;;
        r <- ec_put parent (rb.2 ++ entry_line (dec entry_inum) name) ;;
        r <- (if r =? extent_protocol.OK then ec_put entry_inum [] else ret r) ;;
        release entry_inum ;;;
        release parent ;;;
        ret (Some (r, Some entry_inum))
    end.

Definition createfile rs parent name := add_entry_to_filesystem rs parent name true.
Definition makedir rs parent name := add_entry_to_filesystem rs parent name false.

Definition readdir (dir : Z) : @M S (Z * list dirent) :=
  acquire dir ;;;
  rb <- ec_get dir ;;
  release dir ;;;
  ret (if rb.1 =? extent_protocol.OK
       then (rb.1, (fun e => Dirent e.2 (default 0 (n2i e.1))) <$> words rb.2)
       else (rb.1, [])).

(** [buf.resize(n, '\0')] *)
Definition str_resize (n : Z) (b : bytes) : bytes :=
  take (Z.to_nat n) b ++ replicate (Z.to_nat n - length b) Ascii.zero.

Definition setsize (inum size : Z) : @M S Z :=
  acquire inum ;;;
  rb <- ec_get inum ;;
  r <- (if rb.1 =? extent_protocol.OK then ec_put inum (str_resize size rb.2) else ret rb.1) ;;
  release inum ;;;
  ret r.

(** [memcpy(&file_buf[off], buf, size)] *)
Definition str_overwrite (off : Z) (data b : bytes) : bytes :=
  take (Z.to_nat off) b ++ data ++ drop (Z.to_nat off + length data) b.

(** [write]; the result has [bytes_written] when it is set *)
Definition write (inum : Z) (data : bytes) (off : Z) : @M S (Z * option Z) :=
  let size := Z.of_nat (length data) in
  acquire inum ;;;
  rb <- ec_get inum ;;
  rw <- (if rb.1 =? extent_protocol.OK then
           let b := if Z.of_nat (length rb.2) <? u64 (off + size)
                    then str_resize (u64 (off + size)) rb.2 else rb.2 in
           r <- ec_put inum (str_overwrite off data b) ;;
           ret (r, if r =? extent_protocol.OK then Some size else None)
         else ret (rb.1, None)) ;;
  release inum ;;;
  ret rw.

(** what [read] keeps of the contents *)
Definition read_range (size off : Z) (b : bytes) : bytes :=
  let len := Z.of_nat (length b) in
  if len <=? u64 off then []
  else let size := if len <? u64 (off + size) then len - off else size in
       take (Z.to_nat size) (drop (Z.to_nat off) b).

Definition read (inum size off : Z) : @M S (Z * bytes) :=
  acquire inum ;;;
  rb <- ec_get inum ;;
  release inum ;;;
  ret (if rb.1 =? extent_protocol.OK then (rb.1, read_range size off rb.2) else rb).

(** [unlink]; [junk] is what an indeterminate [inum_to_remove] holds *)
Definition unlink (junk parent : Z) (name : bytes) : @M S Z :=
  acquire parent ;;;
  rb <- ec_get parent ;;
  if negb (rb.1 =? extent_protocol.OK) then
    release_unset junk ;;; release parent ;;; ret rb.1
  else
    let es := words rb.2 in
    let found := last_match name None es in
    let inum_to_remove := default junk (n2i (default [] found)) in
    acquire inum_to_remove ;;;
    r <- ec_put parent (keep_entries name es) ;;
    r <- (if r =? extent_protocol.OK then ec_remove inum_to_remove else ret r) ;;
    release inum_to_remove ;;;
    release parent ;;;
    ret r.

(** the constructor: the root directory is created when it is missing *)
Definition yfs_client_init : @M S unit :=
  acquire 1 ;;;
  rb <- ec_get 1 ;;
  (if rb.1 =? extent_protocol.NOENT then ec_put 1 [] else ret 0) ;;;
  release 1.

End Ops.

(** ** Directories as lists of entries *)

(** A directory's entries: inode number and name. *)
Abbreviation entry := (Z * bytes)%type.

Definition dir_text (es : list entry) : bytes :=
  concat ((fun e => entry_line (dec e.1) e.2) <$> es).

Definition entry_ok (e : entry) : Prop := is_u64 e.1 /\ is_word e.2.

(** The first entry of that name; 0 when there is none. *)
Fixpoint find_entry (name : bytes) (es : list entry) : Z :=
  match es with
  | [] => 0
  | e :: es' => if decide (e.2 = name) then e.1 else find_entry name es'
  end.

Lemma entry_line_app inum name s :
  entry_line inum name ++ s = inum ++ space :: name ++ newline :: s.
Proof. unfold entry_line. by rewrite <- !app_assoc. Qed.

Lemma get_unsigned_space w c s : is_space c = true -> get_unsigned w (c :: s) = get_unsigned w s.
Proof. intros Hc. unfold get_unsigned. cbn [skip_ws]. by rewrite Hc. Qed.

Lemma get_entry_name name s :
  is_word name -> get_word (space :: name ++ newline :: s) = Some (name, newline :: s).
Proof. intros Hw. rewrite get_word_space by done. by apply get_word_app. Qed.

Lemma lookup_loop_space f name c s :
  is_space c = true -> lookup_loop f name (c :: s) = lookup_loop f name s.
Proof. intros Hc. destruct f; [done|]. cbn [lookup_loop]. by rewrite get_unsigned_space. Qed.

Lemma words_loop_space f c s : is_space c = true -> words_loop f (c :: s) = words_loop f s.
Proof. intros Hc. destruct f; [done|]. cbn [words_loop]. by rewrite get_word_space. Qed.

Lemma lookup_loop_text f name es :
  Forall entry_ok es -> (length es < f)%nat -> lookup_loop f name (dir_text es) = find_entry name es.
Proof.
  revert f. induction es as [|[i n] es IH]; intros [|f] Hes Hf; cbn [length] in Hf; try lia; [done|].
  apply Forall_cons in Hes as [[Hi Hn] Hes]. cbn in Hi, Hn.
  unfold dir_text. cbn [fmap list_fmap concat fst snd lookup_loop find_entry].
  rewrite entry_line_app, get_unsigned_dec by (try done; by apply span_digits_space).
  rewrite get_entry_name by done. case_decide; [done|].
  rewrite lookup_loop_space by done. apply IH; [done|lia].
Qed.

Lemma words_loop_text f es :
  Forall entry_ok es -> (length es < f)%nat ->
  words_loop f (dir_text es) = (fun e => (dec e.1, e.2)) <$> es.
Proof.
  revert f. induction es as [|[i n] es IH]; intros [|f] Hes Hf; cbn [length] in Hf; try lia; [done|].
  apply Forall_cons in Hes as [[Hi Hn] Hes]. cbn in Hi, Hn.
  unfold dir_text. cbn [fmap list_fmap concat fst snd words_loop].
  rewrite entry_line_app, get_word_app by (try done; apply dec_is_word; unfold is_u64 in Hi; lia).
  rewrite get_entry_name by done. rewrite words_loop_space by done. f_equal. apply IH; [done|lia].
Qed.

Lemma dir_text_length es : (length es <= length (dir_text es))%nat.
Proof.
  induction es as [|[i n] es IH]; [done|]. unfold dir_text in *. cbn [fmap list_fmap concat length].
  rewrite length_app. unfold entry_line at 1. rewrite !length_app. cbn [length]. lia.
Qed.

(** Reading a directory back gives its entries, in order. *)
Lemma words_text es : Forall entry_ok es -> words (dir_text es) = (fun e => (dec e.1, e.2)) <$> es.
Proof. intros H. apply words_loop_text; [done|]. pose proof (dir_text_length es). lia. Qed.

Lemma lookup_text name es :
  Forall entry_ok es ->
  lookup_loop (Datatypes.S (length (dir_text es))) name (dir_text es) = find_entry name es.
Proof. intros H. apply lookup_loop_text; [done|]. pose proof (dir_text_length es). lia. Qed.

Lemma n2i_dec i : is_u64 i -> n2i (dec i) = Some i.
Proof.
  intros Hi. unfold n2i. pose proof (get_unsigned_dec 64 i [] Hi eq_refl) as H.
  rewrite app_nil_r in H. by rewrite H.
Qed.

Lemma dir_text_app es es' : dir_text (es ++ es') = dir_text es ++ dir_text es'.
Proof. unfold dir_text. by rewrite fmap_app, concat_app. Qed.

Lemma find_entry_app name es es' :
  (~ name ∈ es.*2) -> find_entry name (es ++ es') = find_entry name es'.
Proof.
  induction es as [|e es IH]; intros H; [done|]. cbn in *.
  case_decide; [set_solver|]. apply IH. set_solver.
Qed.

Lemma keep_entries_text name es :
  keep_entries name ((fun e => (dec e.1, e.2)) <$> es) = dir_text (filter (fun e => e.2 <> name) es).
Proof.
  unfold keep_entries, dir_text. induction es as [|e es IH]; [done|]. cbn [fmap list_fmap].
  rewrite !filter_cons. cbn [fst snd]. case_decide; [|exact IH].
  rewrite !fmap_cons. cbn [concat]. by rewrite <- IH.
Qed.

(** [unlink] removes the extent of the last entry of that name. *)
Lemma last_match_text name found es :
  last_match name found ((fun e => (dec e.1, e.2)) <$> es) =
  match last (filter (fun e => e.2 = name) es) with Some e => Some (dec e.1) | None => found end.
Proof.
  revert found. induction es as [|e es IH]; intros found; [done|]. cbn [fmap list_fmap last_match fst snd].
  rewrite IH, filter_cons. case_decide; [|done]. destruct (filter _ es) as [|e' es']; [done|].
  change (last (e :: e' :: es')) with (last (e' :: es')).
  destruct (last (e' :: es')) eqn:El; [done|]. by apply last_None in El.
Qed.

(** ** Inode numbers *)

(** the candidate [generate_unique_inum] forms from a random number *)
Definition candidate (is_file : bool) (r : Z) : Z := if is_file then Z.lor 0x80000000 r else r.

Lemma low_bits_land r : 0 <= r < 2 ^ 31 -> Z.land r 0x80000000 = 0.
Proof.
  intros Hr. change 0x80000000 with (2 ^ 31). apply Z.bits_inj'. intros n Hn.
  rewrite Z.land_spec, Z.pow2_bits_eqb, Z.bits_0 by lia.
  destruct (Z.eqb_spec 31 n) as [<-|]; [|by rewrite andb_false_r].
  rewrite andb_true_r. apply (Z.testbit_unique r 31 false r 0); [done|unfold Z.b2z; lia].
Qed.

Lemma candidate_spec is_file r :
  1 <= r <= 0x7FFFFFFF -> isfile (candidate is_file r) = is_file /\ is_u64 (candidate is_file r).
Proof.
  intros Hr. pose proof (low_bits_land r ltac:(lia)) as Hl. unfold isfile, candidate, is_u64.
  destruct is_file.
  - rewrite Z.land_lor_distr_l, Hl, Z.lor_0_r. split; [done|].
    pose proof (Z.add_lor_land 0x80000000 r) as H. rewrite (Z.land_comm _ r), Hl in H. lia.
  - rewrite Hl. split; [done|lia].
Qed.

(** ** What the operations do, over any store that keeps the laws *)

Section Correct.
Context {St : Type} `{HL : StoreLaws St}.

(** The file system is in order and these locks are held. *)
Definition at_locks (s : fs St) (h : list Z) : Prop := st_ok (store s) /\ st_held (store s) = h.

(** Between operations no lock is held. *)
Definition fs_ok (s : fs St) : Prop := at_locks s [].

(** Extent [k] as the file system sees it, with no removal pending on it. *)
Definition holds (s : fs St) (k : Z) (b : bytes) : Prop :=
  st_view (store s) k = Some b /\ st_clean (store s) k.

Definition dir_of (s : fs St) (d : Z) (es : list entry) : Prop :=
  holds s d (dir_text es) /\ Forall entry_ok es.

(** Nothing of what is seen changed. *)
Definition fs_same (s s' : fs St) : Prop := st_same (store s) (store s').

Lemma fs_same_at s s' h : fs_same s s' -> st_held (store s') = h -> at_locks s' h.
Proof. by intros []. Qed.

Lemma fs_same_view s s' k : fs_same s s' -> st_view (store s') k = st_view (store s) k.
Proof. by intros (_ & -> & _). Qed.

Lemma fs_same_clean s s' k : fs_same s s' -> st_clean (store s) k -> st_clean (store s') k.
Proof. by intros (_ & _ & Hc) ?%Hc. Qed.

Lemma fs_same_peekable s s' k : fs_same s s' -> st_peekable (store s) k -> st_peekable (store s') k.
Proof. by intros (_ & _ & Hc) ?%Hc. Qed.

Lemma fs_same_removable s s' k : fs_same s s' -> st_removable (store s) k -> st_removable (store s') k.
Proof. by intros (_ & _ & Hc) ?%Hc. Qed.

Lemma fs_same_holds s s' k b : fs_same s s' -> holds s k b -> holds s' k b.
Proof. intros Hs [Hv Hc]. split; [by rewrite (fs_same_view _ _ _ Hs)|by eapply fs_same_clean]. Qed.

Lemma fs_same_trans s1 s2 s3 : fs_same s1 s2 -> fs_same s2 s3 -> fs_same s1 s3.
Proof.
  intros (? & Hv & Hc) (? & Hv' & Hc'). split_and!; [done|intros k; by rewrite Hv', Hv|].
  intros k. specialize (Hc k). specialize (Hc' k). tauto.
Qed.

Lemma fs_same_dir s s' d es : fs_same s s' -> dir_of s d es -> dir_of s' d es.
Proof. intros Hs [Hd He]. split; [by eapply fs_same_holds|done]. Qed.

(** *** The calls of an operation, one after the other *)

Lemma run_acquire s lid h :
  at_locks s h -> (~ lid ∈ h) ->
  exists s', acquire lid s = ((), s') /\ at_locks s' (lid :: h) /\ fs_same s s' /\
    trace s' = trace s ++ [LAcquire lid].
Proof.
  intros [Hok Hh] Hn. destruct (law_acquire (store s) lid Hok) as [Hs Hh']; [by rewrite Hh|].
  eexists. split; [done|]. split; [split; [apply Hs|cbn; by rewrite Hh', Hh]|]. by split.
Qed.

Lemma run_release s lid h :
  at_locks s (lid :: h) ->
  exists s', release lid s = ((), s') /\ at_locks s' h /\ fs_same s s' /\
    trace s' = trace s ++ [LRelease (Some lid)].
Proof.
  intros [Hok Hh]. destruct (law_release (store s) lid h Hok Hh) as [Hs Hh'].
  eexists. split; [done|]. split; [by split; [apply Hs|]|]. by split.
Qed.

Lemma run_get s k h :
  at_locks s h -> k ∈ h -> st_clean (store s) k ->
  exists r b s', ec_get k s = ((r, b), s') /\ at_locks s' h /\ fs_same s s' /\
    trace s' = trace s ++ [LAccess k] /\ st_found (st_view (store s) k) eq r b.
Proof.
  intros [Hok Hh] Hk Hc. destruct (law_get (store s) k Hok) as (r & b & st & E & Hs & Hh' & Hm); [by rewrite Hh|done|].
  exists r, b, (Fs st (trace s ++ [LAccess k])). unfold ec_get. rewrite E.
  split; [done|]. split; [split; [apply Hs|cbn; congruence]|]. by split.
Qed.

Lemma run_get_held s k h b :
  at_locks s h -> k ∈ h -> holds s k b ->
  exists s', ec_get k s = ((extent_protocol.OK, b), s') /\ at_locks s' h /\ fs_same s s' /\
    trace s' = trace s ++ [LAccess k].
Proof.
  intros Ha Hk [Hv Hc]. destruct (run_get s k h Ha Hk Hc) as (r & b' & s' & E & Ha' & Hs & Ht & Hm).
  rewrite Hv in Hm. destruct Hm as [-> <-]. by exists s'.
Qed.

Lemma run_getattr s k h :
  at_locks s h -> k ∈ h -> st_clean (store s) k ->
  exists r a s', ec_getattr k s = ((r, a), s') /\ at_locks s' h /\ fs_same s s' /\
    trace s' = trace s ++ [LAccess k] /\
    st_found (st_view (store s) k) (fun b a => asize a = u32 (Z.of_nat (length b))) r a.
Proof.
  intros [Hok Hh] Hk Hc. destruct (law_getattr (store s) k Hok) as (r & a & st & E & Hs & Hh' & Hm); [by rewrite Hh|done|].
  exists r, a, (Fs st (trace s ++ [LAccess k])). unfold ec_getattr. rewrite E.
  split; [done|]. split; [split; [apply Hs|cbn; congruence]|]. by split.
Qed.

(** Extent [k] now reads as [v], and the others are as they were. *)
Definition updated (k : Z) (v : option bytes) (s s' : fs St) : Prop :=
  (forall j, st_view (store s') j = if decide (j = k) then v else st_view (store s) j) /\
  forall j, j <> k -> (st_clean (store s) j -> st_clean (store s') j) /\
    (st_peekable (store s) j -> st_peekable (store s') j) /\
    (st_removable (store s) j -> st_removable (store s') j).

Lemma run_put s k b h :
  at_locks s h -> k ∈ h ->
  exists s', ec_put k b s = (extent_protocol.OK, s') /\ at_locks s' h /\ updated k (Some b) s s' /\
    holds s' k b /\ trace s' = trace s ++ [LAccess k].
Proof.
  intros [Hok Hh] Hk. destruct (law_put (store s) k b Hok) as (st & E & Ho & [Hh' Hc] & Hv & Hck); [by rewrite Hh|].
  exists (Fs st (trace s ++ [LAccess k])). unfold ec_put. rewrite E.
  split; [done|]. split; [split; [done|cbn; congruence]|]. split; [by split|]. split; [|done].
  split; [|done]. cbn. by rewrite Hv, decide_True.
Qed.

Lemma run_remove s k h :
  at_locks s h -> k ∈ h -> st_removable (store s) k ->
  exists r s', ec_remove k s = (r, s') /\ at_locks s' h /\
    (r = extent_protocol.OK \/ r = extent_protocol.NOENT) /\
    updated k (if decide (r = extent_protocol.OK) then None else st_view (store s) k) s s' /\
    trace s' = trace s ++ [LAccess k].
Proof.
  intros [Hok Hh] Hk Hr.
  destruct (law_remove (store s) k Hok) as (r & st & E & Ho & [Hh' Hc] & Hr' & Hv); [by rewrite Hh|done|].
  exists r, (Fs st (trace s ++ [LAccess k])). unfold ec_remove. rewrite E.
  split; [done|]. split; [split; [done|cbn; congruence]|]. split; [done|]. split; [|done]. split; [|done].
  intros j. cbn. rewrite Hv. repeat case_decide; naive_solver.
Qed.

Lemma updated_holds k v s s' j b : updated k v s s' -> j <> k -> holds s j b -> holds s' j b.
Proof. intros [Hv Hc] Hne [? ?]. split; [rewrite Hv; by rewrite decide_False|by apply Hc]. Qed.

Lemma updated_other k v s s' j : updated k v s s' -> j <> k -> st_view (store s') j = st_view (store s) j.
Proof. intros [Hv _] Hne. rewrite Hv. by rewrite decide_False. Qed.

(** Run the first call of the goal with one of the lemmas above. *)
Ltac run_with E := unfold bind at 1; rewrite E; cbn [fst snd].

(** the lock calls at the end of a trace that was built up call by call *)
Ltac locks_done :=
  unfold lock_calls;
  repeat match goal with H : trace ?s' = _ |- context [trace ?s'] => rewrite H end;
  rewrite ?locks_only_app, ?locks_only_access;
  cbn [locks_only]; rewrite ?app_nil_r, <- ?app_assoc; done.

(** What a lookup does. *)
Lemma ilookup_done s d es name :
  fs_ok s -> dir_of s d es -> isdir d = true ->
  exists s', ilookup d name s = (find_entry name es, s') /\ fs_ok s' /\ fs_same s s'.
Proof.
  intros Hok [Hd Hes] Hdir. unfold ilookup.
  destruct (run_acquire s d [] Hok) as (s1 & E1 & A1 & S1 & T1); [set_solver|]. run_with E1.
  rewrite Hdir. cbn [negb].
  destruct (run_get_held s1 d _ _ A1 ltac:(set_solver) (fs_same_holds _ _ _ _ S1 Hd)) as (s2 & E2 & A2 & S2 & T2).
  run_with E2. destruct (run_release s2 d [] A2) as (s3 & E3 & A3 & S3 & T3). run_with E3.
  exists s3. cbn [Z.eqb extent_protocol.OK]. rewrite lookup_text by done.
  split; [done|]. split; [done|]. eauto using fs_same_trans.
Qed.

Lemma ilookup_result s d es name :
  fs_ok s -> dir_of s d es -> isdir d = true -> (ilookup d name s).1 = find_entry name es.
Proof. intros Hok Hd Hdir. destruct (ilookup_done s d es name Hok Hd Hdir) as (s' & -> & _). done. Qed.

(** What listing a directory does. *)
Lemma readdir_done s d es :
  fs_ok s -> dir_of s d es ->
  exists s', readdir d s = ((OK, (fun e => Dirent e.2 e.1) <$> es), s') /\ fs_ok s' /\ fs_same s s' /\
    lock_calls s' = lock_calls s ++ [LAcquire d; LRelease (Some d)].
Proof.
  intros Hok [Hd Hes]. unfold readdir.
  destruct (run_acquire s d [] Hok) as (s1 & E1 & A1 & S1 & T1); [set_solver|]. run_with E1.
  destruct (run_get_held s1 d _ _ A1 ltac:(set_solver) (fs_same_holds _ _ _ _ S1 Hd)) as (s2 & E2 & A2 & S2 & T2).
  run_with E2. destruct (run_release s2 d [] A2) as (s3 & E3 & A3 & S3 & T3). run_with E3.
  exists s3. cbn [Z.eqb extent_protocol.OK]. split; [|split; [done|split; [eauto using fs_same_trans|locks_done]]].
  unfold ret. rewrite words_text by done. rewrite <- list_fmap_compose. do 2 f_equal.
  apply list_fmap_ext. intros i e He. unfold compose. cbn [fst snd]. f_equal.
  rewrite n2i_dec; [done|]. by apply (Forall_lookup_1 _ _ _ _ Hes He).
Qed.

(** C25: [readdir] of a directory lists exactly its entries, in order, with
    their names and inode numbers, and [ilookup] finds the first entry of a name,
    or 0; both take and release the directory's lock, and change nothing. *)
Theorem readdir_lists_entries s d es :
  fs_ok s -> dir_of s d es ->
  (exists s', readdir d s = ((OK, (fun e => Dirent e.2 e.1) <$> es), s') /\ fs_ok s' /\ fs_same s s' /\
     lock_calls s' = lock_calls s ++ [LAcquire d; LRelease (Some d)]) /\
  (isdir d = true -> forall name,
     exists s', ilookup d name s = (find_entry name es, s') /\ fs_ok s' /\ fs_same s s').
Proof.
  intros Hok Hd. split; [by apply readdir_done|]. intros Hdir name. by apply ilookup_done.
Qed.

Lemma run_generate is_file rs s h :
  at_locks s h -> Forall (fun r => st_peekable (store s) (candidate is_file r)) rs ->
  Exists (fun r => st_view (store s) (candidate is_file r) = None) rs ->
  exists r s' tried, generate_unique_inum is_file rs s = (Some (candidate is_file r), s') /\
    at_locks s' h /\ fs_same s s' /\ trace s' = trace s ++ (LAccess <$> tried) /\
    r ∈ rs /\ st_view (store s) (candidate is_file r) = None.
Proof.
  revert s. induction rs as [|r rs IH]; intros s [Hok Hh] Hc He; [by inversion He|].
  apply Forall_cons in Hc as [Hr Hc]. cbn [generate_unique_inum]. fold (candidate is_file r).
  destruct (law_peek (store s) _ Hok Hr) as (q & buf & st & E & Hs & Hh' & Hm).
  unfold bind, ec_get. rewrite E. cbn [fst snd]. set (s1 := Fs st (trace s ++ [LAccess (candidate is_file r)])).
  assert (fs_same s s1) as Hs1 by done. assert (at_locks s1 h) as A1 by (split; [apply Hs|cbn; congruence]).
  destruct (st_view (store s) (candidate is_file r)) eqn:Ev; cbn [st_found] in Hm.
  - destruct Hm as [-> _]. cbn [Z.eqb extent_protocol.OK].
    apply Exists_cons in He as [He|He]; [congruence|].
    destruct (IH s1 A1) as (r' & s' & tried & Eg & A' & Hs' & Ht & Hin & Hn).
    + eapply Forall_impl; [exact Hc|]. intros r'. by apply fs_same_peekable.
    + eapply Exists_impl; [exact He|]. intros r'. by rewrite (fs_same_view _ _ _ Hs1).
    + exists r', s', (candidate is_file r :: tried). rewrite Ht. unfold s1. cbn [trace]. rewrite <- app_assoc.
      split; [done|]. split; [done|]. split; [eauto using fs_same_trans|]. split; [done|].
      split; [set_solver|]. by rewrite <- (fs_same_view _ _ _ Hs1).
  - subst q. cbn [Z.eqb extent_protocol.OK extent_protocol.NOENT ret].
    exists r, s1, [candidate is_file r]. split_and!; try done. set_solver.
Qed.

(** What creating an entry does. *)
Lemma create_done s parent es name is_file rs :
  fs_ok s -> dir_of s parent es -> is_word name ->
  Forall (fun r => 1 <= r <= 0x7FFFFFFF /\ st_peekable (store s) (candidate is_file r)) rs ->
  Exists (fun r => st_view (store s) (candidate is_file r) = None) rs ->
  exists i s', add_entry_to_filesystem rs parent name is_file s = (Some (OK, Some i), s') /\
    fs_ok s' /\ isfile i = is_file /\ st_view (store s) i = None /\
    dir_of s' parent (es ++ [(i, name)]) /\ holds s' i [] /\
    (forall k, k <> parent -> k <> i -> st_view (store s') k = st_view (store s) k) /\
    lock_calls s' = lock_calls s ++ [LAcquire parent; LAcquire i; LRelease (Some i); LRelease (Some parent)].
Proof.
  intros Hok [Hp Hes] Hn Hr He. unfold add_entry_to_filesystem.
  destruct (run_acquire s parent [] Hok) as (s1 & E1 & A1 & S1 & T1); [set_solver|]. run_with E1.
  destruct (run_get_held s1 parent _ _ A1 ltac:(set_solver) (fs_same_holds _ _ _ _ S1 Hp)) as (s2 & E2 & A2 & S2 & T2).
  run_with E2. cbn [Z.eqb negb extent_protocol.OK]. pose proof (fs_same_trans _ _ _ S1 S2) as S12.
  destruct (run_generate is_file rs s2 _ A2) as (r & s3 & tried & E3 & A3 & S3 & T3 & Hin & Hnone).
  { eapply Forall_impl; [exact Hr|]. intros r' [_ ?]. by eapply fs_same_peekable. }
  { eapply Exists_impl; [exact He|]. intros r'. by rewrite (fs_same_view _ _ _ S12). }
  rewrite (fs_same_view _ _ _ S12) in Hnone. pose proof (fs_same_trans _ _ _ S12 S3) as S13.
  run_with E3. destruct (candidate_spec is_file r) as [Hf Hu].
  { by apply (Forall_forall _ rs) with (x := r) in Hr as [? _]. }
  set (i := candidate is_file r) in *.
  assert (parent <> i) as Hpi by (intros ->; destruct Hp; congruence).
  destruct (run_acquire s3 i _ A3) as (s4 & E4 & A4 & S4 & T4); [set_solver|]. run_with E4.
  destruct (run_put s4 parent (dir_text es ++ entry_line (dec i) name) _ A4 ltac:(set_solver))
    as (s5 & E5 & A5 & U5 & Hp5 & T5). run_with E5. cbn [Z.eqb extent_protocol.OK].
  destruct (run_put s5 i [] _ A5 ltac:(set_solver)) as (s6 & E6 & A6 & U6 & Hi6 & T6). run_with E6.
  destruct (run_release s6 i _ A6) as (s7 & E7 & A7 & S7 & T7). run_with E7.
  destruct (run_release s7 parent _ A7) as (s8 & E8 & A8 & S8 & T8). run_with E8.
  pose proof (fs_same_trans _ _ _ S7 S8) as S68.
  exists i, s8. split; [done|]. split; [done|]. split; [done|]. split; [done|]. split.
  { eapply fs_same_dir; [exact S68|]. split.
    - eapply updated_holds; [exact U6|done|]. rewrite dir_text_app. unfold dir_text at 2. cbn. by rewrite app_nil_r.
    - apply Forall_app. split; [done|]. repeat constructor; apply Hu || apply Hn. }
  split. { by eapply fs_same_holds. }
  split; [|locks_done]. intros k ? ?.
  rewrite (fs_same_view _ _ _ S68), (updated_other _ _ _ _ _ U6), (updated_other _ _ _ _ _ U5) by done.
  by rewrite (fs_same_view _ _ _ S4), (fs_same_view _ _ _ S13).
Qed.

(** C12: [createfile] and [makedir] in a directory, with a name that is one
    word and a random number whose extent is free among those drawn, all of which may be
    read without their locks: they return
    [OK] and an inode number that was unused and has the file bit exactly for a
    file; the directory gets that one entry at its end, the new extent is empty,
    nothing else changes; both locks are taken, parent first, and released; and
    [ilookup] of the name finds the number if the name is new. *)
Theorem create_adds_entry s parent es name is_file rs :
  fs_ok s -> dir_of s parent es -> is_word name ->
  Forall (fun r => 1 <= r <= 0x7FFFFFFF /\ st_peekable (store s) (candidate is_file r)) rs ->
  Exists (fun r => st_view (store s) (candidate is_file r) = None) rs ->
  exists i s', add_entry_to_filesystem rs parent name is_file s = (Some (OK, Some i), s') /\
    fs_ok s' /\ isfile i = is_file /\ st_view (store s) i = None /\
    dir_of s' parent (es ++ [(i, name)]) /\ holds s' i [] /\
    (forall k, k <> parent -> k <> i -> st_view (store s') k = st_view (store s) k) /\
    lock_calls s' = lock_calls s ++ [LAcquire parent; LAcquire i; LRelease (Some i); LRelease (Some parent)] /\
    (isdir parent = true -> (~ name ∈ es.*2) -> (ilookup parent name s').1 = i).
Proof.
  intros Hok Hp Hn Hr He.
  destruct (create_done s parent es name is_file rs Hok Hp Hn Hr He) as (i & s' & E & Hok' & Hf & Hv & Hd & Hi & Ho & Hl).
  exists i, s'. split_and!; try done. intros Hdir Hni.
  rewrite (ilookup_result _ parent (es ++ [(i, name)])) by done.
  rewrite find_entry_app by done. cbn. by rewrite decide_True.
Qed.

Lemma find_entry_filter name es : find_entry name (filter (fun e => e.2 <> name) es) = 0.
Proof.
  induction es as [|e es IH]; [done|]. rewrite filter_cons. case_decide; [|done].
  cbn. by rewrite decide_False.
Qed.


(** ** Files *)

Lemma read_range_slice size off b :
  0 <= off < 2 ^ 64 -> 0 <= size ->
  read_range size off b = take (Z.to_nat size) (drop (Z.to_nat off) b).
Proof.
  intros Ho Hs. unfold read_range. rewrite (u64_small off) by done.
  destruct (_ <=? off) eqn:E; to_prop; [by rewrite drop_ge, take_nil by lia|].
  destruct (_ <? u64 _) eqn:E2; [|done]. to_prop. unfold u64 in E2.
  pose proof (Z.mod_le (off + size) (2 ^ 64) ltac:(lia) ltac:(lia)).
  rewrite !take_ge; [done|rewrite length_drop; lia..].
Qed.

Lemma str_resize_length n b : 0 <= n -> length (str_resize n b) = Z.to_nat n.
Proof. intros Hn. unfold str_resize. rewrite length_app, length_take, length_replicate. lia. Qed.

Lemma str_resize_lookup n b j :
  str_resize n b !! j =
  if decide (Z.of_nat j < n) then Some (default Ascii.zero (b !! j)) else None.
Proof.
  unfold str_resize. destruct (decide (j < length b)%nat) as [Hj|Hj].
  - case_decide as Hn.
    + rewrite lookup_app_l by (rewrite length_take; lia). rewrite lookup_take_lt by lia.
      by destruct (lookup_lt_is_Some_2 b j Hj) as [x ->].
    + apply lookup_ge_None. rewrite length_app, length_take, length_replicate. lia.
  - rewrite (lookup_ge_None_2 b j) by lia. case_decide as Hn; cbn.
    + rewrite lookup_app_r by (rewrite length_take; lia). apply lookup_replicate.
      rewrite length_take. split; [done|lia].
    + apply lookup_ge_None. rewrite length_app, length_take, length_replicate. lia.
Qed.

Lemma str_overwrite_lookup off data b j :
  0 <= off -> (Z.to_nat off + length data <= length b)%nat ->
  str_overwrite off data b !! j =
  if decide (off <= Z.of_nat j < off + Z.of_nat (length data))
  then data !! (j - Z.to_nat off)%nat else b !! j.
Proof.
  intros Ho Hlen. unfold str_overwrite.
  destruct (decide (j < Z.to_nat off)%nat) as [Hj|Hj].
  - rewrite decide_False by lia. rewrite lookup_app_l by (rewrite length_take; lia).
    by rewrite lookup_take_lt by lia.
  - rewrite lookup_app_r, length_take by (rewrite length_take; lia).
    rewrite Nat.min_l by lia. case_decide as Hr.
    + rewrite lookup_app_l by lia. done.
    + rewrite lookup_app_r by lia. rewrite lookup_drop. f_equal. lia.
Qed.

(** What [write] leaves in the file: the new bytes in their range, the old
    ones elsewhere, zeros in a gap past the old end. *)
Definition written (off : Z) (data b : bytes) (j : nat) : option ascii :=
  if decide (off <= Z.of_nat j < off + Z.of_nat (length data)) then data !! (j - Z.to_nat off)%nat
  else if decide (Z.of_nat j < off + Z.of_nat (length data)) then Some (default Ascii.zero (b !! j))
  else b !! j.

(** the contents [write] puts *)
Definition write_contents (off : Z) (data b : bytes) : bytes :=
  let n := u64 (off + Z.of_nat (length data)) in
  str_overwrite off data (if Z.of_nat (length b) <? n then str_resize n b else b).

Lemma write_contents_lookup off data b j :
  0 <= off -> off + Z.of_nat (length data) < 2 ^ 64 ->
  write_contents off data b !! j = written off data b j.
Proof.
  intros Ho Hlt. unfold write_contents, written.
  rewrite u64_small by (unfold is_u64; lia). set (n := off + _) in *.
  destruct (_ <? n) eqn:E; to_prop; rewrite str_overwrite_lookup;
    rewrite ?str_resize_length; try lia; fold n; case_decide; try done.
  - by rewrite str_resize_lookup; case_decide; [|rewrite lookup_ge_None_2 by lia].
  - case_decide; [|done]. destruct (lookup_lt_is_Some_2 b j ltac:(lia)) as [x ->]. done.
Qed.

Lemma write_contents_slice off data b :
  0 <= off -> off + Z.of_nat (length data) < 2 ^ 64 ->
  take (length data) (drop (Z.to_nat off) (write_contents off data b)) = data.
Proof.
  intros Ho Hlt. apply list_eq. intros j. destruct (decide (j < length data)%nat) as [Hj|Hj].
  - rewrite lookup_take_lt, lookup_drop, write_contents_lookup by lia. unfold written.
    rewrite decide_True by lia. f_equal. lia.
  - rewrite lookup_take_ge, lookup_ge_None_2 by lia. done.
Qed.

Lemma read_done s inum b size off :
  fs_ok s -> holds s inum b -> 0 <= off < 2 ^ 64 -> 0 <= size ->
  exists s', read inum size off s = ((OK, take (Z.to_nat size) (drop (Z.to_nat off) b)), s') /\
    fs_ok s' /\ fs_same s s'.
Proof.
  intros Hok Hb Ho Hs. unfold read.
  destruct (run_acquire s inum [] Hok) as (s1 & E1 & A1 & S1 & T1); [set_solver|]. run_with E1.
  destruct (run_get_held s1 inum _ _ A1 ltac:(set_solver) (fs_same_holds _ _ _ _ S1 Hb)) as (s2 & E2 & A2 & S2 & T2).
  run_with E2. destruct (run_release s2 inum [] A2) as (s3 & E3 & A3 & S3 & T3). run_with E3.
  exists s3. cbn [Z.eqb extent_protocol.OK]. rewrite read_range_slice by done.
  split; [done|]. split; [done|]. eauto using fs_same_trans.
Qed.

Lemma read_result s inum b size off :
  fs_ok s -> holds s inum b -> 0 <= off < 2 ^ 64 -> 0 <= size ->
  (read inum size off s).1 = (OK, take (Z.to_nat size) (drop (Z.to_nat off) b)).
Proof. intros Hok Hb Ho Hs. by destruct (read_done s inum b size off Hok Hb Ho Hs) as (s' & -> & _). Qed.

(** What the attribute calls do. *)
Lemma getfile_done s k :
  fs_ok s -> st_clean (store s) k ->
  exists r a s', getfile k s =
      (if r =? extent_protocol.OK then (OK, Some (FileInfo (asize a) (atime a) (mtime a) (ctime a)))
       else (IOERR, None), s') /\ fs_ok s' /\ fs_same s s' /\
    st_found (st_view (store s) k) (fun b a => asize a = u32 (Z.of_nat (length b))) r a.
Proof.
  intros Hok Hc. unfold getfile.
  destruct (run_acquire s k [] Hok) as (s1 & E1 & A1 & S1 & T1); [set_solver|]. run_with E1.
  destruct (run_getattr s1 k _ A1 ltac:(set_solver) (fs_same_clean _ _ _ S1 Hc)) as (r & a & s2 & E2 & A2 & S2 & T2 & Hf).
  run_with E2. destruct (run_release s2 k [] A2) as (s3 & E3 & A3 & S3 & T3). run_with E3.
  rewrite (fs_same_view _ _ _ S1) in Hf. exists r, a, s3. split_and!; eauto using fs_same_trans.
Qed.

Lemma getdir_done s k b :
  fs_ok s -> holds s k b ->
  exists i s', getdir k s = ((OK, i), s') /\ fs_ok s' /\ fs_same s s'.
Proof.
  intros Hok [Hv Hc]. unfold getdir.
  destruct (run_acquire s k [] Hok) as (s1 & E1 & A1 & S1 & T1); [set_solver|]. run_with E1.
  destruct (run_getattr s1 k _ A1 ltac:(set_solver) (fs_same_clean _ _ _ S1 Hc)) as (r & a & s2 & E2 & A2 & S2 & T2 & Hf).
  run_with E2. destruct (run_release s2 k [] A2) as (s3 & E3 & A3 & S3 & T3). run_with E3.
  rewrite (fs_same_view _ _ _ S1), Hv in Hf. destruct Hf as [-> _]. eexists _, s3.
  split_and!; eauto using fs_same_trans.
Qed.

(** What a write does. *)
Lemma write_done s inum b data off :
  fs_ok s -> holds s inum b ->
  exists s', write inum data off s = ((OK, Some (Z.of_nat (length data))), s') /\ fs_ok s' /\
    holds s' inum (write_contents off data b) /\
    (forall k, k <> inum -> st_view (store s') k = st_view (store s) k) /\
    (forall k c, k <> inum -> holds s k c -> holds s' k c) /\
    lock_calls s' = lock_calls s ++ [LAcquire inum; LRelease (Some inum)].
Proof.
  intros Hok Hb. unfold write.
  destruct (run_acquire s inum [] Hok) as (s1 & E1 & A1 & S1 & T1); [set_solver|]. run_with E1.
  destruct (run_get_held s1 inum _ _ A1 ltac:(set_solver) (fs_same_holds _ _ _ _ S1 Hb)) as (s2 & E2 & A2 & S2 & T2).
  run_with E2. cbn [Z.eqb extent_protocol.OK]. unfold bind at 1.
  fold (write_contents off data b). set (b' := write_contents off data b).
  destruct (run_put s2 inum b' _ A2 ltac:(set_solver)) as (s3 & E3 & A3 & U3 & Hp3 & T3). run_with E3.
  cbn [Z.eqb extent_protocol.OK ret].
  destruct (run_release s3 inum [] A3) as (s' & E4 & A4 & S4 & T4). run_with E4. exists s'.
  split; [done|]. split; [done|]. split; [by eapply fs_same_holds|]. split; [|split; [|locks_done]].
  - intros k Hk. rewrite (fs_same_view _ _ _ S4), (updated_other _ _ _ _ _ U3) by done.
    by rewrite (fs_same_view _ _ _ S2), (fs_same_view _ _ _ S1).
  - intros k c Hk Hc. eapply fs_same_holds, (updated_holds _ _ _ _ _ _ U3); [exact S4|done|].
    by eapply fs_same_holds, fs_same_holds.
Qed.

(** C13: [write] of a file at an offset that does not overflow returns
    [OK] and the number of bytes; the file then holds the new bytes in their
    range, the old ones elsewhere and zeros in a gap; no other extent changes, and
    the lock is taken and released.  A [read] of any range gives exactly the bytes
    of that range, so reading the written range gives back what was written. *)
Theorem write_then_read s inum b data off :
  fs_ok s -> holds s inum b -> 0 <= off < 2 ^ 63 -> off + Z.of_nat (length data) < 2 ^ 64 ->
  exists b' s', write inum data off s = ((OK, Some (Z.of_nat (length data))), s') /\ fs_ok s' /\
    holds s' inum b' /\ (forall j, b' !! j = written off data b j) /\
    (forall k, k <> inum -> st_view (store s') k = st_view (store s) k) /\
    lock_calls s' = lock_calls s ++ [LAcquire inum; LRelease (Some inum)] /\
    (read inum (Z.of_nat (length data)) off s').1 = (OK, data) /\
    (forall size o, 0 <= o < 2 ^ 63 -> 0 <= size < 2 ^ 64 ->
       (read inum size o s').1 = (OK, take (Z.to_nat size) (drop (Z.to_nat o) b'))).
Proof.
  intros Hok Hb Ho Hlt. destruct (write_done s inum b data off Hok Hb) as (s' & E & Hok' & Hb' & Hv & _ & Hl).
  set (b' := write_contents off data b) in *. exists b', s'.
  assert (forall size o, 0 <= o < 2 ^ 63 -> 0 <= size < 2 ^ 64 ->
    (read inum size o s').1 = (OK, take (Z.to_nat size) (drop (Z.to_nat o) b'))) as Hread.
  { intros size o ? ?. apply read_result; [done|done|lia..]. }
  split; [done|]. split; [done|]. split; [done|].
  split. { intros j. apply write_contents_lookup; lia. }
  split; [done|]. split; [done|].
  split; [|done]. rewrite Hread by lia. rewrite Nat2Z.id. unfold b'. by rewrite write_contents_slice by lia.
Qed.

(** [setsize] of a file makes it that long, cutting it off or filling
    it with zeros, and [getfile] then reports that size, as a 32-bit number;
    [getfile] of an inode that is not there is [IOERR]. *)
Theorem setsize_then_getfile s inum b size missing :
  fs_ok s -> holds s inum b -> 0 <= size ->
  st_view (store s) missing = None -> st_clean (store s) missing ->
  (exists b' s' fi, setsize inum size s = (OK, s') /\ fs_ok s' /\ holds s' inum b' /\
     Z.of_nat (length b') = size /\
     (forall j, (j < Z.to_nat size)%nat -> b' !! j = Some (default Ascii.zero (b !! j))) /\
     (forall k, k <> inum -> st_view (store s') k = st_view (store s) k) /\
     lock_calls s' = lock_calls s ++ [LAcquire inum; LRelease (Some inum)] /\
     (getfile inum s').1 = (OK, Some fi) /\ fi_size fi = u32 size) /\
  (getfile missing s).1 = (IOERR, None).
Proof.
  intros Hok Hb Hsz Hm Hcm.
  split.
  - unfold setsize.
    destruct (run_acquire s inum [] Hok) as (s1 & E1 & A1 & S1 & T1); [set_solver|]. run_with E1.
    destruct (run_get_held s1 inum _ _ A1 ltac:(set_solver) (fs_same_holds _ _ _ _ S1 Hb)) as (s2 & E2 & A2 & S2 & T2).
    run_with E2. cbn [Z.eqb extent_protocol.OK]. set (b' := str_resize size b).
    destruct (run_put s2 inum b' _ A2 ltac:(set_solver)) as (s3 & E3 & A3 & U3 & Hp3 & T3). run_with E3.
    destruct (run_release s3 inum [] A3) as (s' & E4 & A4 & S4 & T4). run_with E4.
    assert (holds s' inum b') as Hb' by (by eapply fs_same_holds).
    assert (Z.of_nat (length b') = size) as Hl. { unfold b'. rewrite str_resize_length; lia. }
    destruct (getfile_done s' inum A4 (proj2 Hb')) as (r & a & s5 & Eg & _ & _ & Hf). destruct Hb' as [Hv' Hc']. rewrite Hv' in Hf.
    destruct Hf as [-> Hf]. exists b', s', (FileInfo (asize a) (atime a) (mtime a) (ctime a)).
    split; [done|]. split; [done|]. split; [done|]. split; [done|].
    split. { intros j Hj. unfold b'. rewrite str_resize_lookup, decide_True by lia. done. }
    split.
    { intros k Hk. rewrite (fs_same_view _ _ _ S4), (updated_other _ _ _ _ _ U3) by done.
      by rewrite (fs_same_view _ _ _ S2), (fs_same_view _ _ _ S1). }
    split; [locks_done|]. split; [by rewrite Eg|]. cbn [fi_size]. by rewrite Hf, Hl.
  - destruct (getfile_done s missing Hok Hcm) as (r & a & s5 & -> & _ & _ & Hf). rewrite Hm in Hf. by rewrite Hf.
Qed.

(** The constructor makes the root directory if there is none, and otherwise
    leaves everything alone. *)
Lemma init_root s :
  fs_ok s -> st_clean (store s) 1 ->
  exists s', yfs_client_init s = ((), s') /\ fs_ok s' /\ holds s' 1 (default [] (st_view (store s) 1)) /\
    forall k, k <> 1 -> st_view (store s') k = st_view (store s) k /\
      (st_peekable (store s) k -> st_peekable (store s') k).
Proof.
  intros Hok Hc. unfold yfs_client_init.
  destruct (run_acquire s 1 [] Hok) as (s1 & E1 & A1 & S1 & T1); [set_solver|]. run_with E1.
  destruct (run_get s1 1 _ A1 ltac:(set_solver) (fs_same_clean _ _ _ S1 Hc)) as (r & b & s2 & E2 & A2 & S2 & T2 & Hf).
  run_with E2. pose proof (fs_same_trans _ _ _ S1 S2) as S12. rewrite (fs_same_view _ _ _ S1) in Hf.
  destruct (st_view (store s) 1) as [b0|] eqn:E0; cbn [st_found] in Hf.
  - destruct Hf as [-> <-]. cbn [Z.eqb extent_protocol.OK extent_protocol.NOENT]. unfold bind, ret.
    destruct (run_release s2 1 [] A2) as (s3 & E3 & A3 & S3 & T3). rewrite E3. exists s3.
    pose proof (fs_same_trans _ _ _ S12 S3) as S13. split; [done|]. split; [done|].
    split; [by eapply fs_same_holds; [|split]|]. intros k _. split; [apply (fs_same_view _ _ _ S13)|by apply fs_same_peekable].
  - subst r. cbn [Z.eqb extent_protocol.NOENT Pos.eqb].
    destruct (run_put s2 1 [] _ A2 ltac:(set_solver)) as (s3 & E3 & A3 & U3 & Hp3 & T3). run_with E3.
    destruct (run_release s3 1 [] A3) as (s4 & E4 & A4 & S4 & T4). rewrite E4. exists s4.
    split; [done|]. split; [done|]. split; [by eapply fs_same_holds|]. intros k Hk. split.
    + rewrite (fs_same_view _ _ _ S4), (updated_other _ _ _ _ _ U3) by done. by rewrite (fs_same_view _ _ _ S12).
    + intros Hp. apply (fs_same_peekable _ _ _ S4), (proj2 U3 k Hk). by apply (fs_same_peekable _ _ _ S12).
Qed.

End Correct.

(** ** Locks *)

Inductive fs_op :=
| OpGetfile (inum : Z) | OpGetdir (inum : Z) | OpLookup (di : Z) (name : bytes)
| OpCreate (rs : list Z) (parent : Z) (name : bytes) (is_file : bool)
| OpReaddir (dir : Z) | OpSetsize (inum size : Z)
| OpWrite (inum : Z) (data : bytes) (off : Z) | OpRead (inum size off : Z)
| OpUnlink (junk parent : Z) (name : bytes) | OpInit.

(** Locks are released in the reverse order they were acquired in, and none is
    left. *)
Fixpoint nested (held : list Z) (tr : list fs_call) : bool :=
  match tr, held with
  | [], [] => true
  | LAcquire l :: tr', _ => nested (l :: held) tr'
  | LRelease (Some l) :: tr', h :: held' => (h =? l) && nested held' tr'
  | _, _ => false
  end.

Section Locks.
Context {St : Type} `{Store St}.

(** [true] when the operation came to its end *)
Definition fs_run (o : fs_op) (s : fs St) : bool * fs St :=
  match o with
  | OpGetfile inum => (true, (getfile inum s).2)
  | OpGetdir inum => (true, (getdir inum s).2)
  | OpLookup di name => (true, (ilookup di name s).2)
  | OpCreate rs parent name is_file =>
      let '(r, s) := add_entry_to_filesystem rs parent name is_file s in
      (bool_decide (is_Some r), s)
  | OpReaddir dir => (true, (readdir dir s).2)
  | OpSetsize inum size => (true, (setsize inum size s).2)
  | OpWrite inum data off => (true, (write inum data off s).2)
  | OpRead inum size off => (true, (read inum size off s).2)
  | OpUnlink junk parent name => (true, (unlink junk parent name s).2)
  | OpInit => (true, (yfs_client_init s).2)
  end.

(** The calls of an operation, and its lock calls. *)
Definition calls_made (o : fs_op) (s : fs St) : list fs_call :=
  drop (length (trace s)) (trace (fs_run o s).2).

Definition locks_used (o : fs_op) (s : fs St) : list fs_call := locks_only (calls_made o s).

Lemma generate_calls is_file rs s :
  exists tried, trace (generate_unique_inum is_file rs s).2 = trace s ++ (LAccess <$> tried) /\
    tried ⊆ candidate is_file <$> rs.
Proof.
  revert s. induction rs as [|r rs IH]; intros s; [exists []; cbn; by rewrite app_nil_r|].
  cbn [generate_unique_inum]. fold (candidate is_file r).
  unfold bind, ec_get. destruct (st_get _ (store s)) as [[r0 b] st]. cbn [fst snd].
  destruct (r0 =? _); cbn [ret].
  - destruct (IH (Fs st (trace s ++ [LAccess (candidate is_file r)]))) as (tried & -> & Hs).
    exists (candidate is_file r :: tried). cbn [trace]. rewrite <- app_assoc. split; [done|].
    cbn. set_solver.
  - exists [candidate is_file r]. split; [done|]. cbn. set_solver.
Qed.

Ltac open_op :=
  unfold bind, acquire, release, release_unset, ret, ec_get, ec_getattr, ec_put, ec_remove;
  cbn [store trace fst snd];
  repeat match goal with
  | |- context [match ?x with _ => _ end] =>
      lazymatch x with context [match _ with _ => _ end] => fail | _ => destruct x end;
      cbn [negb store trace fst snd]
  end.

Ltac close_op :=
  rewrite <- ?app_assoc, ?drop_app_length; rewrite ?locks_only_app, ?locks_only_access;
  cbn [locks_only nested app]; rewrite ?Z.eqb_refl; done.

(** Whatever the store answers, every operation that comes to its end
    releases each lock it took, in the reverse order, on every path, except
    [unlink] when the directory cannot be read: then it releases a lock whose
    number it never set. *)
Theorem locks_are_released o s :
  match o with
  | OpUnlink junk parent name =>
      if (st_get parent (st_acquire parent (store s))).1.1 =? extent_protocol.OK
      then nested [] (locks_used o s) = true
      else locks_used o s = [LAcquire parent; LRelease None; LRelease (Some parent)]
  | _ => (fs_run o s).1 = false \/ nested [] (locks_used o s) = true
  end.
Proof.
  unfold locks_used, calls_made. destruct o; cbn [fs_run fst snd];
    [right|right|right| |right|right|right|right| |right].
  - unfold getfile. open_op; close_op.
  - unfold getdir. open_op; close_op.
  - unfold ilookup. open_op; close_op.
  - unfold add_entry_to_filesystem, bind, acquire, ec_get. cbn [store trace].
    destruct (st_get parent (st_acquire parent (store s))) as [[r b] st]. cbn [fst snd].
    destruct (r =? _); cbn [negb].
    2: { right. open_op; close_op. }
    pose proof (generate_calls is_file rs (Fs st ((trace s ++ [LAcquire parent]) ++ [LAccess parent]))) as (tried & Hg & _).
    destruct (generate_unique_inum is_file rs _) as [[i|] [st' l']]; cbn in Hg; subst l'; [|by left].
    right. open_op; close_op.
  - unfold readdir. open_op; close_op.
  - unfold setsize. open_op; close_op.
  - unfold write. open_op; close_op.
  - unfold read. open_op; close_op.
  - unfold unlink, bind, acquire, ec_get. cbn [store trace].
    destruct (st_get parent (st_acquire parent (store s))) as [[r b] st]. cbn [fst snd].
    destruct (r =? _); cbn [negb]; open_op; close_op.
  - unfold yfs_client_init. open_op; close_op.
Qed.

(** Every extent that is accessed is locked; [held] are the locks held before. *)
Fixpoint covered (held : list Z) (tr : list fs_call) : bool :=
  match tr with
  | [] => true
  | LAcquire l :: tr' => covered (l :: held) tr'
  | LRelease (Some l) :: tr' => covered (list_remove_all l held) tr'
  | LRelease None :: tr' => covered held tr'
  | LAccess e :: tr' => std_mem e held && covered held tr'
  end.

Ltac close_covered :=
  rewrite <- ?app_assoc, ?drop_app_length; cbn [app covered];
  rewrite ?andb_true_iff, ?std_mem_spec; repeat split; set_solver.

(** C37: what the extent client asks of its callers: whatever the store
    answers, every operation holds the lock of each extent it accesses, on every
    path; only the creation of an entry also looks, without a lock, at the
    extents of the numbers it draws. *)
Theorem extents_are_locked o s :
  match o with
  | OpCreate rs parent name is_file =>
      exists tried rest,
        calls_made o s = [LAcquire parent; LAccess parent] ++ (LAccess <$> tried) ++ rest /\
        tried ⊆ candidate is_file <$> rs /\ covered [parent] rest = true
  | _ => covered [] (calls_made o s) = true
  end.
Proof.
  unfold calls_made. destruct o; cbn [fs_run fst snd].
  - unfold getfile. open_op; close_covered.
  - unfold getdir. open_op; close_covered.
  - unfold ilookup. open_op; close_covered.
  - unfold add_entry_to_filesystem, bind, acquire, ec_get. cbn [store trace].
    destruct (st_get parent (st_acquire parent (store s))) as [[r b] st]. cbn [fst snd]. destruct (r =? _); cbn [negb].
    2: { exists [], [LRelease (Some parent)]. split; [|by split; [set_solver|]]. open_op.
         by rewrite <- ?app_assoc, ?drop_app_length. }
    pose proof (generate_calls is_file rs (Fs st ((trace s ++ [LAcquire parent]) ++ [LAccess parent]))) as (tried & Hg & Ht).
    destruct (generate_unique_inum is_file rs _) as [[i|] [st' l']]; cbn in Hg; subst l'.
    2: { exists tried, []. cbn. by rewrite <- !app_assoc, drop_app_length, app_nil_r. }
    exists tried. open_op; rewrite <- ?app_assoc, ?drop_app_length;
      (eexists; split; [reflexivity|]; split; [done|]; close_covered).
  - unfold readdir. open_op; close_covered.
  - unfold setsize. open_op; close_covered.
  - unfold write. open_op; close_covered.
  - unfold read. open_op; close_covered.
  - unfold unlink. open_op; close_covered.
  - unfold yfs_client_init. open_op; close_covered.
Qed.

End Locks.

(** ** Concrete runs *)

Definition demo_entries : list entry := [(2147483653, str "a"); (7, str "sub"); (2147483654, str "b")].

Definition demo_attr (b : bytes) : attr := Attr 1 1 1 (u32 (Z.of_nat (length b))).

(** A server that holds a root directory and its files, and a fresh client. *)
Definition demo_server : extent_server.state :=
  foldr (fun e srv => (extent_server.put e.1 e.2 (demo_attr e.2) srv).2) extent_server.new
    [(1, dir_text demo_entries); (2147483653, str "hello"); (7, []); (2147483654, [])].

Definition demo_fs : fs cached_store := Fs (CachedStore extent_client.new demo_server 9 []) [].

Lemma demo_server_ok : extent_server.paired demo_server /\ extent_server.sized demo_server.
Proof.
  unfold demo_server. generalize [(1, dir_text demo_entries); (2147483653, str "hello"); (7, []); (2147483654, [])].
  intros l. induction l as [|e l [IH1 IH2]]; cbn [foldr].
  - split; [apply extent_server.new_paired|apply extent_server.new_sized].
  - split; [by apply extent_server.put_paired|by apply extent_server.put_sized].
Qed.

Lemma demo_fs_ok : fs_ok demo_fs.
Proof.
  destruct demo_server_ok as [H1 H2]. split; [|done]. split; [apply extent_client.new_good|].
  split; [done|]. split; [|constructor]. split; [apply extent_server.new_sized|done].
Qed.

Lemma demo_clean k : st_clean (store demo_fs) k.
Proof. apply not_elem_of_nil. Qed.

Lemma demo_dir : dir_of demo_fs 1 demo_entries.
Proof.
  split; [split; [vm_compute; reflexivity|apply demo_clean]|].
  repeat constructor; done.
Qed.

Lemma readdir_lists_entries_witness :
  (exists s', readdir 1 demo_fs =
     ((OK, [Dirent (str "a") 2147483653; Dirent (str "sub") 7; Dirent (str "b") 2147483654]), s')) /\
  (ilookup 1 (str "sub") demo_fs).1 = 7 /\ (ilookup 1 (str "none") demo_fs).1 = 0.
Proof.
  destruct (readdir_lists_entries demo_fs 1 demo_entries demo_fs_ok demo_dir) as [(s' & H & _) Hl].
  split; [exists s'; exact H|].
  destruct (Hl eq_refl (str "sub")) as (s1 & -> & _), (Hl eq_refl (str "none")) as (s2 & -> & _).
  split; reflexivity.
Defined.

Lemma create_adds_entry_witness :
  exists s', createfile [5; 9] 1 (str "new") demo_fs = (Some (OK, Some 2147483657), s') /\
    dir_of s' 1 (demo_entries ++ [(2147483657, str "new")]).
Proof.
  destruct (create_adds_entry demo_fs 1 demo_entries (str "new") true [5; 9] demo_fs_ok demo_dir)
    as (i & s' & H & _ & _ & _ & Hd & _).
  - vm_compute. split; [done|]. repeat constructor.
  - repeat constructor; try lia; apply demo_clean.
  - right. left. vm_compute. reflexivity.
  - assert (i = 2147483657) as ->.
    { assert ((createfile [5; 9] 1 (str "new") demo_fs).1 = Some (OK, Some 2147483657)) as E
        by (vm_compute; reflexivity).
      unfold createfile in E. rewrite H in E. by injection E. }
    exists s'. split; [exact H|exact Hd].
Defined.


Lemma write_then_read_witness :
  exists s', write 2147483653 (str "YY") 6 demo_fs = ((OK, Some 2), s') /\
    (read 2147483653 2 6 s').1 = (OK, str "YY").
Proof.
  destruct (write_then_read demo_fs 2147483653 (str "hello") (str "YY") 6 demo_fs_ok)
    as (b' & s' & H & _ & _ & _ & _ & _ & Hr & _).
  - split; [vm_compute; reflexivity|apply demo_clean].
  - lia.
  - cbn. lia.
  - exists s'. split; [exact H|exact Hr].
Defined.

Lemma setsize_then_getfile_witness :
  exists s' fi, setsize 2147483653 2 demo_fs = (OK, s') /\
    (getfile 2147483653 s').1 = (OK, Some fi) /\ fi_size fi = 2.
Proof.
  destruct (setsize_then_getfile demo_fs 2147483653 (str "hello") 2 99 demo_fs_ok)
    as [(b' & s' & fi & H & _ & _ & _ & _ & _ & _ & Hg & Hf) _].
  - split; [vm_compute; reflexivity|apply demo_clean].
  - lia.
  - vm_compute. reflexivity.
  - apply demo_clean.
  - exists s', fi. split; [exact H|]. split; [exact Hg|exact Hf].
Defined.

(** [unlink] of a name that is not in the directory goes on:
    the [NOENT] it notes is overwritten, and it takes the lock of, and removes,
    the extent whose number the unset variable happens to hold; here the file of
    another entry, which stays listed. *)
Theorem unlink_missing_name_goes_on :
  let s1 := (getfile 2147483653 demo_fs).2 in
  let '(r, s2) := unlink 2147483653 1 (str "none") s1 in
  r = OK /\ st_view (store s1) 2147483653 = Some (str "hello") /\
  st_view (store s2) 2147483653 = None /\ (ilookup 1 (str "a") s2).1 = 2147483653.
Proof. vm_compute. auto. Qed.

(** A name with a space is accepted and damages the directory: the
    entries behind it are read as other pairs of words, so they cannot be found,
    and the listing has names that are inode numbers. *)
Theorem name_with_space_damages_directory :
  let s1 := (createfile [20] 1 (str "x y") demo_fs).2 in
  let s2 := (createfile [21] 1 (str "z") s1).2 in
  (createfile [21] 1 (str "z") s1).1 = Some (OK, Some 2147483669) /\
  (ilookup 1 (str "z") s2).1 = 0 /\
  (readdir 1 s2).1 = (OK, [Dirent (str "a") 2147483653; Dirent (str "sub") 7;
     Dirent (str "b") 2147483654; Dirent (str "x") 2147483668; Dirent (str "2147483669") 0]).
Proof. vm_compute. auto. Qed.

(** The error that an unlink of a file outside the cache returns, after its
    entry is gone. *)
Lemma unlink_uncached_reports_noent :
  let '(r, s) := unlink 0 1 (str "a") demo_fs in
  r = extent_protocol.NOENT /\ (ilookup 1 (str "a") s).1 = 0 /\
  st_view (store s) 2147483653 = Some (str "hello").
Proof. vm_compute. auto. Qed.

End yfs_client.
