(* ===== verification/System.v ===== *)
(** * The file system over the whole system

    [yfs_client] runs on a client of [Coherence]: its store is the extent cache
    of that client over the extent server, and its locks come from the caching
    lock client and the lock server, with all the steps of [Handover] that it
    takes for the lock to arrive.  The instance of [StoreLaws] says that this is
    a store as [YfsClient] needs it, so the theorems about files and directories
    hold of it; and since the state is that of all clients, an operation on one
    client can be followed by one on another. *)

From stdpp Require Import gmap list strings.
From Stdlib Require Import ZArith Lia Ascii.
From S2P Require Import Prelude Text Marshall Rpc Protocols LockServerCache LockClientCache Extent Coherence Handover YfsClient.

Local Open Scope Z_scope.

Module system.
Module C := coherence.
Module H := handover.
Module L := lock_client_cache.
Module X := extent_client.

(** The clients and servers, and the thread that runs. *)
Record sys := Sys {
  world : C.world;
  client : bytes;
  thread : Z;
  now : Z
}.

Definition cache (s : sys) : X.client := C.ec (C.node_of (world s) (client s)).

Definition set_world (w : C.world) (s : sys) : sys := Sys w (client s) (thread s) (now s).

(** What an operation of the extent client leaves. *)
Definition set_cache (x : X.client) (srv : extent_server.state) (s : sys) : sys :=
  let n := C.node_of (world s) (client s) in
  set_world (C.set_store srv (C.set_node (client s) (C.Node (C.lc n) x (C.calls n) (C.rel n)) (world s))) s.

Definition run {R} (d : R) (s : sys) (o : option (R * X.client * extent_server.state)) : R * sys :=
  match o with
  | Some (r, x, srv) => (r, set_cache x srv s)
  | None => (d, s)
  end.

Definition after (s : sys) (o : option C.world) : sys :=
  match o with Some w => set_world w s | None => s end.

(** The contents of an extent: what its lock's owner sees, or the server. *)
Definition contents (w : C.world) (eid : Z) : option bytes :=
  match C.S.owner (C.locks w) eid with
  | Some d => X.view (C.ec (C.node_of w d)) (C.store w) eid
  | None => extent_server.extents (C.store w) !! eid
  end.

Definition unmarked (w : C.world) (eid : Z) : Prop :=
  forall d, ~ eid ∈ X.removed_extents (C.ec (C.node_of w d)).

(** The threads that hold locks: only the one that runs. *)
Record held_by (c : bytes) (tid : Z) (w : C.world) : Prop := {
  hb_others : forall d, d <> c -> L.holders (C.lc (C.node_of w d)) = [];
  hb_nodup : NoDup (L.holders (C.lc (C.node_of w c)));
  hb_thread : forall l t, (l, t) ∈ L.holders (C.lc (C.node_of w c)) -> t = tid
}.

Record sys_ok (s : sys) : Prop := {
  sk_calm : H.calm (world s);
  sk_inv : exists m, C.inv (world s) m;
  sk_sized : forall d, X.all_sized (C.ec (C.node_of (world s) d)) (C.store (world s));
  sk_held : held_by (client s) (thread s) (world s)
}.

#[export] Instance sys_Store : Store sys := {
  st_get eid s := run (0, []) s (X.get (thread s) X.Done X.Done (now s) eid [] (cache s) (C.store (world s)));
  st_getattr eid s :=
    run (0, Attr 0 0 0 0) s
      (X.getattr (thread s) X.Done X.Done (now s) eid (Attr 0 0 0 0) (cache s) (C.store (world s)));
  st_put eid buf s := run 0 s (X.put (thread s) (now s) eid buf (cache s) (C.store (world s)));
  st_remove eid s := run 0 s (X.remove (thread s) eid (cache s) (C.store (world s)));
  st_acquire lid s :=
    after s (exec C.careful_step (world s) (H.grab (client s) (thread s) lid (world s)));
  st_release lid s := after s (C.careful_step (world s) (C.Release (client s) (thread s) lid));
  st_held s := (L.holders (C.lc (C.node_of (world s) (client s)))).*1;
  st_view s eid := contents (world s) eid;
  st_clean s eid := unmarked (world s) eid;
  st_peekable s eid := contents (world s) eid = None /\ unmarked (world s) eid;
  st_removable s eid :=
    is_Some (extent_server.extents (X.base (cache s)) !! eid) ->
    is_Some (extent_server.extents (C.store (world s)) !! eid);
  st_ok s := sys_ok s
}.

(** ** What the invariant says of the contents *)

Lemma contents_inv w m eid : C.inv w m -> contents w eid = m !! eid.
Proof.
  intros [H1 H2]. unfold contents. destruct (C.S.owner (C.locks w) eid) as [d|] eqn:Ho.
  - apply (C.so_view w m H2). intros e Hne [E _]%(C.no_cached _ _ _ (H1 e)). congruence.
  - assert (forall e, ~ X.cached (C.ec (C.node_of w e)) eid) as Hn.
    { intros e [E _]%(C.no_cached _ _ _ (H1 e)). congruence. }
    rewrite <- (C.so_view w m H2 [] eid) by auto. by rewrite X.view_uncached.
Qed.

Lemma held_by_thread s eid : sys_ok s -> eid ∈ st_held s ->
  (eid, thread s) ∈ L.holders (C.lc (C.node_of (world s) (client s))).
Proof.
  intros Hs Hin. apply list_elem_of_fmap in Hin as ([l t] & -> & Ht). cbn in *.
  by rewrite <- (hb_thread _ _ _ (sk_held s Hs) l t Ht).
Qed.

(** What the thread's client sees of an extent whose lock it holds. *)
Lemma held_view s m eid : C.inv (world s) m -> sys_ok s -> eid ∈ st_held s ->
  X.view (cache s) (C.store (world s)) eid = m !! eid.
Proof.
  intros Hi Hs Hin. by destruct (C.holder_alone _ _ Hi _ _ _ (held_by_thread s eid Hs Hin)) as (_ & _ & _ & ?).
Qed.

Lemma cache_set x srv s d :
  C.ec (C.node_of (world (set_cache x srv s)) d) =
  if decide (client s = d) then x else C.ec (C.node_of (world s) d).
Proof. unfold set_cache, set_world. cbn [world]. rewrite C.node_of_store, C.node_of_set. by case_decide. Qed.

Lemma lc_set x srv s d :
  C.lc (C.node_of (world (set_cache x srv s)) d) = C.lc (C.node_of (world s) d).
Proof.
  unfold set_cache, set_world. cbn [world]. rewrite C.node_of_store, C.node_of_set. by case_decide; subst.
Qed.

(** An operation of the extent client that keeps the invariant. *)
Lemma set_cache_ok x srv s m' :
  sys_ok s -> C.inv (world (set_cache x srv s)) m' -> X.all_sized x srv ->
  sys_ok (set_cache x srv s) /\ st_held (set_cache x srv s) = st_held s.
Proof.
  intros [H1 H2 H3 H4] Hi [Hx Hsrv]. split; [split|].
  - by apply H.calm_extent.
  - by exists m'.
  - intros d. rewrite cache_set. case_decide; [done|]. split; [apply H3|done].
  - destruct H4 as [A1 A2 A3]. split; intros *; rewrite ?lc_set; [apply A1|apply A2|apply A3].
  - cbn [st_held sys_Store]. by rewrite lc_set.
Qed.

(** ** Reading *)

(** What a read does to the cache of its client. *)
Record reads (eid : Z) (s : sys) (x : X.client) (srv : extent_server.state) : Prop := {
  rd_good : X.good x;
  rd_paired : extent_server.paired srv;
  rd_store : extent_server.extents srv = extent_server.extents (C.store (world s));
  rd_others : X.keeps_others eid (cache s) x;
  rd_mark : ~ eid ∈ X.removed_extents x;
  rd_view : X.view x srv eid = X.view (cache s) (C.store (world s)) eid;
  rd_sized : X.all_sized x srv
}.

Lemma reads_marks eid s x srv k :
  reads eid s x srv -> k ∈ X.removed_extents x -> k ∈ X.removed_extents (cache s).
Proof.
  intros Hr Hk. destruct (decide (k = eid)) as [->|Hne]; [by apply (rd_mark _ _ _ _ Hr) in Hk|].
  by apply (rd_others _ _ _ _ Hr k Hne).
Qed.

Lemma reads_known eid s x srv k :
  reads eid s x srv -> (~ eid ∈ X.removed_extents (cache s)) ->
  (is_Some (extent_server.extents (X.base (cache s)) !! k) ->
   is_Some (extent_server.extents (C.store (world s)) !! k)) ->
  is_Some (extent_server.extents (X.base x) !! k) -> is_Some (extent_server.extents srv !! k).
Proof.
  intros Hr Hm Hk Hx. rewrite (rd_store _ _ _ _ Hr). destruct (decide (k = eid)) as [->|Hne].
  2: { apply Hk. by rewrite <- (proj1 (rd_others _ _ _ _ Hr k Hne)). }
  pose proof (rd_view _ _ _ _ Hr) as Hv. unfold X.view in Hv. destruct Hx as [b Hb]. rewrite Hb in Hv.
  destruct (extent_server.extents (X.base (cache s)) !! eid); [apply Hk; by eexists|].
  unfold std_mem in Hv. rewrite bool_decide_false in Hv by done. by rewrite <- Hv.
Qed.

Lemma reads_same eid s x srv m :
  sys_ok s -> C.inv (world s) m -> reads eid s x srv -> (~ eid ∈ X.removed_extents (cache s)) ->
  C.inv (world (set_cache x srv s)) m ->
  st_same s (set_cache x srv s) /\ st_held (set_cache x srv s) = st_held s.
Proof.
  intros Hs Hi Hr Hm Hi'. destruct (set_cache_ok x srv s m Hs Hi' (rd_sized _ _ _ _ Hr)) as [Hok Hh].
  assert (forall k, st_view (set_cache x srv s) k = st_view s k) as Hv.
  { intros k. cbn [st_view sys_Store]. by rewrite (contents_inv _ m), (contents_inv _ m). }
  assert (forall k, st_clean s k -> st_clean (set_cache x srv s) k) as Hc.
  { intros k Hk d. rewrite cache_set. case_decide; [|apply Hk]. intros Hin. eapply (Hk (client s)).
    by eapply reads_marks. }
  split; [|done]. split; [done|]. split; [done|]. intros k. split; [apply Hc|]. split.
  - intros [H1 H2]. split; [by rewrite <- H1; apply Hv|by apply Hc].
  - cbn [st_removable sys_Store]. unfold cache at 2. rewrite cache_set, decide_True by done.
    intros Hk. by apply (reads_known eid s x srv).
Qed.

(** The steps of the run that reads and writes are. *)
Lemma held_step {R} s eid (op : X.client -> extent_server.state -> option (R * X.client * extent_server.state)) r x srv :
  sys_ok s -> eid ∈ st_held s -> op (cache s) (C.store (world s)) = Some (r, x, srv) ->
  C.extent_step (client s) (thread s) eid op (world s) = Some (world (set_cache x srv s)).
Proof.
  intros Hs Hin Hop. unfold C.extent_step. unfold cache in Hop.
  assert (std_mem (eid, thread s) (L.holders (C.lc (C.node_of (world s) (client s)))) = true) as ->.
  { apply std_mem_spec. by apply held_by_thread. }
  by rewrite Hop.
Qed.

Lemma unmarked_careful s eid :
  unmarked (world s) eid -> negb (std_mem eid (X.removed_extents (C.ec (C.node_of (world s) (client s))))) = true.
Proof. intros Hu. apply negb_true_iff, bool_decide_eq_false. apply Hu. Qed.

Section Laws.
Context (s : sys) (m : gmap Z bytes) (eid : Z) (Hs : sys_ok s) (Hi : C.inv (world s) m).

Lemma cache_good : X.good (cache s).
Proof. apply (C.no_good _ _ _ (proj1 Hi (client s))). Qed.

Lemma store_paired : extent_server.paired (C.store (world s)).
Proof. apply (C.so_paired _ _ (proj2 Hi)). Qed.

Lemma cache_sized : X.all_sized (cache s) (C.store (world s)).
Proof. apply (sk_sized s Hs). Qed.

Lemma get_reads r x srv :
  (~ eid ∈ X.removed_extents (cache s)) ->
  X.get (thread s) X.Done X.Done (now s) eid [] (cache s) (C.store (world s)) = Some (r, x, srv) ->
  reads eid s x srv.
Proof.
  intros Hm E. destruct (X.get_any _ _ _ _ _ _ _ _ _ _ _ cache_good store_paired Hm E) as (F1 & F2 & F3 & F4 & F5 & F6 & _).
  destruct (X.get_frame _ _ _ _ _ _ _ _ _ E) as (_ & F7 & _). split; try done. apply F7, cache_sized.
Qed.

Lemma getattr_reads r x srv :
  (~ eid ∈ X.removed_extents (cache s)) ->
  X.getattr (thread s) X.Done X.Done (now s) eid (Attr 0 0 0 0) (cache s) (C.store (world s)) = Some (r, x, srv) ->
  reads eid s x srv.
Proof.
  intros Hm E. destruct (X.getattr_any _ _ _ _ _ _ _ _ _ _ _ cache_good store_paired Hm E) as (F1 & F2 & F3 & F4 & F5 & F6).
  destruct (X.getattr_done (thread s) (now s) eid (Attr 0 0 0 0) (cache s) (C.store (world s)) cache_good store_paired cache_sized Hm)
    as (? & ? & ? & ? & E' & _ & _ & Ha & _). rewrite E in E'. injection E' as _ <- <-. by split.
Qed.

Lemma sys_get : eid ∈ st_held s -> unmarked (world s) eid ->
  exists ret buf s', st_get eid s = (ret, buf, s') /\ st_same s s' /\ st_held s' = st_held s /\
    st_found (st_view s eid) eq ret buf.
Proof.
  intros Hh Hu.
  destruct (X.get_done (thread s) (now s) eid (cache s) (C.store (world s)) cache_good store_paired (Hu (client s)))
    as (ret & buf & x & srv & E & _ & Hm & _).
  pose proof (get_reads _ _ _ (Hu (client s)) E) as Hr. cbn [st_get sys_Store]. rewrite E. cbn [run].
  do 3 eexists. split; [done|].
  destruct (reads_same eid s x srv m Hs Hi Hr (Hu (client s))) as [H1 H2].
  { apply (C.coherence_step _ m Hi (C.Get (client s) (thread s) X.Done X.Done (now s) eid)).
    unfold C.careful_step. cbn [C.careful]. rewrite unmarked_careful by done. cbn [C.step]. by eapply held_step. }
  split; [done|]. split; [done|]. cbn [st_view sys_Store]. rewrite (contents_inv _ m) by done.
  rewrite <- (held_view s m eid) by done. unfold st_found. destruct (X.view _ _ _); naive_solver.
Qed.

Lemma sys_getattr : eid ∈ st_held s -> unmarked (world s) eid ->
  exists ret a s', st_getattr eid s = (ret, a, s') /\ st_same s s' /\ st_held s' = st_held s /\
    st_found (st_view s eid) (fun b a => asize a = u32 (Z.of_nat (length b))) ret a.
Proof.
  intros Hh Hu.
  destruct (X.getattr_done (thread s) (now s) eid (Attr 0 0 0 0) (cache s) (C.store (world s)) cache_good store_paired cache_sized (Hu (client s)))
    as (ret & a & x & srv & E & _ & _ & _ & _ & Hm & _).
  pose proof (getattr_reads _ _ _ (Hu (client s)) E) as Hr. cbn [st_getattr sys_Store]. rewrite E. cbn [run].
  do 3 eexists. split; [done|].
  destruct (reads_same eid s x srv m Hs Hi Hr (Hu (client s))) as [H1 H2].
  { apply (C.coherence_step _ m Hi (C.Getattr (client s) (thread s) X.Done X.Done (now s) eid)).
    unfold C.careful_step. cbn [C.careful]. rewrite unmarked_careful by done. cbn [C.step]. by eapply held_step. }
  split; [done|]. split; [done|]. cbn [st_view sys_Store]. rewrite (contents_inv _ m) by done.
  rewrite <- (held_view s m eid) by done. exact Hm.
Qed.

(** A read without the lock, of an extent that does not exist. *)
Lemma sys_peek : contents (world s) eid = None -> unmarked (world s) eid ->
  exists ret buf s', st_get eid s = (ret, buf, s') /\ st_same s s' /\ st_held s' = st_held s /\
    st_found (st_view s eid) eq ret buf.
Proof.
  intros Hn Hu. pose proof (Hu (client s)) as Hm. fold (cache s) in Hm.
  assert (X.view (cache s) (C.store (world s)) eid = None) as Hv.
  { assert (m !! eid = None) as Hmn by (by rewrite <- (contents_inv _ m eid Hi)).
    assert (extent_server.extents (C.store (world s)) !! eid = None) as He.
    { unfold contents in Hn. destruct (C.S.owner _ eid) as [d|]; [|done]. unfold X.view in Hn.
      destruct (_ !! eid); [done|]. unfold std_mem in Hn. by rewrite bool_decide_false in Hn by apply Hu. }
    destruct (decide (X.cached (cache s) eid)) as [Hc|Hc]; [|by rewrite X.view_uncached].
    rewrite <- Hmn. apply (C.so_view _ m (proj2 Hi)). intros d Hne Hd. apply Hne.
    by apply (C.cached_by_one _ m Hi d (client s) eid). }
  destruct (X.get_done (thread s) (now s) eid (cache s) (C.store (world s)) cache_good store_paired Hm)
    as (ret & buf & x & srv & E & _ & Hret & _).
  pose proof (get_reads _ _ _ Hm E) as Hr. cbn [st_get sys_Store]. rewrite E. cbn [run].
  do 3 eexists. split; [done|]. destruct Hr as [R1 R2 R3 R4 R5 R6 R7].
  assert (~ X.cached x eid) as Hnx.
  { intros [[b Hb]|Hb]; [|done]. rewrite Hv in R6. unfold X.view in R6. by rewrite Hb in R6. }
  destruct (reads_same eid s x srv m) as [H1 H2]; [done..|by split|done| |].
  { eapply (C.extent_change _ m Hi (client s) x _ srv eid m); try done.
    - intros k _. by rewrite R3.
    - intros Hd. rewrite R6. by apply (C.so_view _ m (proj2 Hi)).
    - intros k Hk [->|Hc]; [done|]. by apply (C.no_cached _ _ _ (proj1 Hi (client s))). }
  split; [done|]. split; [done|]. cbn [st_view sys_Store]. rewrite Hn. cbn [st_found]. by rewrite Hv in Hret.
Qed.

(** ** Writing *)

(** A change of the cache that is about one extent. *)
Lemma others_kept x m' :
  X.keeps_others eid (cache s) x -> X.all_sized x (C.store (world s)) ->
  C.inv (world (set_cache x (C.store (world s)) s)) m' -> (forall k, k <> eid -> m' !! k = m !! k) ->
  sys_ok (set_cache x (C.store (world s)) s) /\ st_others eid s (set_cache x (C.store (world s)) s).
Proof.
  intros Hk Hsz Hi' Hm. destruct (set_cache_ok x (C.store (world s)) s m' Hs Hi' Hsz) as [Hok Hh].
  split; [done|]. split; [done|]. intros k Hne. destruct (Hk k Hne) as [Hb Hr].
  assert (st_clean s k -> st_clean (set_cache x (C.store (world s)) s) k) as Hc.
  { intros Hu d. rewrite cache_set. case_decide; [rewrite Hr|]; apply Hu. }
  split; [done|]. split.
  - intros [H1 H2]. split; [|by apply Hc]. rewrite (contents_inv _ m'), Hm by done.
    by rewrite <- (contents_inv _ m k Hi).
  - cbn [st_removable sys_Store]. unfold cache at 2. rewrite cache_set, decide_True by done. by rewrite Hb.
Qed.

Lemma sys_put buf : eid ∈ st_held s ->
  exists s', st_put eid buf s = (extent_protocol.OK, s') /\ st_ok s' /\ st_others eid s s' /\
    (forall k, st_view s' k = if decide (k = eid) then Some buf else st_view s k) /\ st_clean s' eid.
Proof.
  intros Hh. destruct (X.updates_done (thread s) (now s) eid buf (cache s) (C.store (world s)) cache_good)
    as [(x & E & _) _].
  destruct (X.put_any _ _ _ _ _ _ _ _ _ cache_good E) as (F1 & _ & F3 & F4 & F5).
  destruct (X.put_frame _ _ _ _ _ _ _ _ _ E) as (F6 & _).
  assert (C.inv (world (set_cache x (C.store (world s)) s)) (<[eid := buf]> m)) as Hi'.
  { apply (C.coherence_step _ m Hi (C.Put (client s) (thread s) (now s) eid buf)). by eapply held_step. }
  destruct (others_kept x _ F3 (F6 cache_sized) Hi') as [H1 H2].
  { intros k Hne. by rewrite lookup_insert_ne. }
  eexists. cbn [st_put sys_Store]. rewrite E. split; [done|]. split; [done|]. split; [done|]. split.
  - intros k. cbn [st_view sys_Store]. rewrite (contents_inv _ _ k Hi'), (contents_inv _ _ k Hi).
    case_decide; [subst; by rewrite lookup_insert_eq|by rewrite lookup_insert_ne].
  - intros d. rewrite cache_set. case_decide; [done|]. intros Hd.
    destruct (C.holder_alone _ _ Hi _ _ _ (held_by_thread s eid Hs Hh)) as (_ & _ & Ha & _).
    apply (Ha d); [done|]. by right.
Qed.

(** [remove] of an extent that is not in the cache finds nothing. *)
Lemma remove_uncached r x srv :
  extent_server.extents (X.base (cache s)) !! eid = None ->
  X.remove (thread s) eid (cache s) (C.store (world s)) = Some (r, x, srv) ->
  r = extent_protocol.NOENT /\ srv = C.store (world s) /\ exists w, x = X.set_waiting w (cache s).
Proof.
  intros Hn (c2 & w & w' & H & ->)%X.queued_inv. unfold X.remove_body, extent_server.remove in H. cbn in H.
  rewrite Hn in H. cbn in H. injection H as <- <- <-. split; [done|]. split; [done|]. by exists w'.
Qed.

Lemma sys_remove : eid ∈ st_held s -> st_removable s eid ->
  exists ret s', st_remove eid s = (ret, s') /\ st_ok s' /\ st_others eid s s' /\
    (ret = extent_protocol.OK \/ ret = extent_protocol.NOENT) /\
    (forall k, st_view s' k = if decide (k = eid /\ ret = extent_protocol.OK) then None else st_view s k).
Proof.
  intros Hh Hrm. destruct (X.updates_done (thread s) (now s) eid [] (cache s) (C.store (world s)) cache_good)
    as [_ (ret & x & E & Hg & Hret & Hor & Hv)].
  destruct (X.remove_frame _ _ _ _ _ _ _ E) as (F6 & _).
  cbn [st_remove sys_Store]. rewrite E. do 2 eexists. split; [done|].
  destruct (extent_server.extents (X.base (cache s)) !! eid) as [b|] eqn:Eb.
  - assert (ret = extent_protocol.OK) as -> by (apply Hret; by eexists).
    assert (C.inv (world (set_cache x (C.store (world s)) s)) (delete eid m)) as Hi'.
    { apply (C.coherence_step _ m Hi (C.Remove (client s) (thread s) eid)).
      unfold C.careful_step. cbn [C.careful]. fold (cache s). rewrite !(proj2 (map_has_true _ _)); cbn [andb].
      - by eapply held_step.
      - apply Hrm. by rewrite Eb.
      - by eexists. }
    destruct (X.remove_any _ _ _ _ _ _ _ cache_good ltac:(by rewrite Eb) E) as (_ & _ & F3 & _ & _).
    destruct (others_kept x _ F3 (F6 cache_sized) Hi') as [H1 H2].
    { intros k Hne. by rewrite lookup_delete_ne. }
    split; [done|]. split; [done|]. split; [done|]. intros k. cbn [st_view sys_Store].
    rewrite (contents_inv _ _ k Hi'), (contents_inv _ _ k Hi).
    destruct (decide (k = eid)) as [->|Hne]; [rewrite decide_True by done; apply lookup_delete_eq|].
    rewrite decide_False by naive_solver. by rewrite lookup_delete_ne.
  - destruct (remove_uncached _ _ _ Eb E) as (-> & _ & w & ->).
    assert (C.inv (world (set_cache (X.set_waiting w (cache s)) (C.store (world s)) s)) m) as Hi'.
    { apply (C.holder_change _ m Hi (client s) (thread s) eid); try done.
      - by apply held_by_thread.
      - apply store_paired.
      - by apply (C.so_removed _ _ (proj2 Hi)).
      - rewrite X.view_waiting. by apply held_view. }
    destruct (others_kept (X.set_waiting w (cache s)) m) as [H1 H2]; [done|apply cache_sized|done|done|].
    split; [done|]. split; [done|]. split; [by right|]. intros k. cbn [st_view sys_Store].
    rewrite decide_False by naive_solver. by rewrite (contents_inv _ _ k Hi'), (contents_inv _ _ k Hi).
Qed.

(** ** Locks *)

(** Another world in which the caches and the store say the same. *)
Lemma world_same w' :
  sys_ok (set_world w' s) -> C.inv w' m -> C.ec (C.node_of w' (client s)) = cache s ->
  (forall d k, k ∈ X.removed_extents (C.ec (C.node_of w' d)) ->
     k ∈ X.removed_extents (C.ec (C.node_of (world s) d))) ->
  (forall k, is_Some (extent_server.extents (X.base (cache s)) !! k) ->
     is_Some (extent_server.extents (C.store (world s)) !! k) ->
     is_Some (extent_server.extents (C.store w') !! k)) ->
  st_same s (set_world w' s).
Proof.
  intros Hok Hi' Hc Hr Hk.
  assert (forall k, contents w' k = contents (world s) k) as Hv.
  { intros k. by rewrite (contents_inv _ m), (contents_inv _ m). }
  assert (forall k, unmarked (world s) k -> unmarked w' k) as Hu.
  { intros k Hu d Hin. by eapply Hu, Hr. }
  split; [done|]. split; [apply Hv|]. intros k. split; [apply Hu|]. split.
  - intros [H1 H2]. split; [by rewrite <- H1; apply Hv|by apply Hu].
  - cbn [st_removable sys_Store]. unfold cache at 2. cbn [set_world world client]. rewrite Hc. auto.
Qed.

(** What the lock's way does to the caches. *)
Lemma grant_marks w' d k : H.granted (client s) (thread s) eid (world s) w' ->
  k ∈ X.removed_extents (C.ec (C.node_of w' d)) -> k ∈ X.removed_extents (C.ec (C.node_of (world s) d)).
Proof.
  intros [_ _ G3 _ G5]. destruct (decide (d = client s)) as [->|Hne]; [by rewrite G3|].
  destruct G5 as [[G5 _]|(e & Hec & G5 & Hf)]; [by rewrite G5|].
  destruct (decide (d = e)) as [->|Hde]; [|by rewrite G5].
  destruct (X.flush_frame _ _ _ _ _ _ _ (C.no_good _ _ _ (proj1 Hi e)) Hf) as [_ Hsub]. apply Hsub.
Qed.

Lemma grant_sized w' d : H.granted (client s) (thread s) eid (world s) w' ->
  X.all_sized (C.ec (C.node_of w' d)) (C.store w').
Proof.
  intros [_ _ G3 _ G5]. pose proof (sk_sized s Hs) as Hsz. destruct G5 as [[G5 ->]|(e & Hec & G5 & Hf)].
  - destruct (decide (d = client s)) as [->|Hne]; [rewrite G3|rewrite G5 by done]; apply Hsz.
  - destruct (X.flush_frame _ _ _ _ _ _ _ (C.no_good _ _ _ (proj1 Hi e)) Hf) as [[Hx Hst] _]; [apply Hsz|].
    destruct (decide (d = e)) as [->|Hde]; [by split|]. rewrite G5 by done. split; [apply Hsz|done].
Qed.

Lemma grant_known w' k : H.granted (client s) (thread s) eid (world s) w' ->
  is_Some (extent_server.extents (X.base (cache s)) !! k) ->
  is_Some (extent_server.extents (C.store (world s)) !! k) -> is_Some (extent_server.extents (C.store w') !! k).
Proof.
  intros [_ _ _ _ G5] Hc Hk. destruct G5 as [[_ ->]|(e & Hec & _ & Hf)]; [done|].
  destruct (X.flush_any _ _ _ _ _ _ _ (C.no_good _ _ _ (proj1 Hi e)) store_paired
    (C.so_removed _ _ (proj2 Hi) e eid) Hf) as (_ & _ & _ & _ & F5 & F6).
  destruct (decide (k = eid)) as [->|Hne]; [|by rewrite F6]. rewrite F5.
  rewrite X.view_uncached; [done|]. intros Hce. apply Hec.
  apply (C.cached_by_one _ m Hi e (client s) eid Hce). by left.
Qed.

Lemma sys_acquire : (~ eid ∈ st_held s) ->
  st_same s (st_acquire eid s) /\ st_held (st_acquire eid s) = eid :: st_held s.
Proof.
  intros Hn. destruct (sk_held s Hs) as [B1 B2 B3].
  assert (forall t, ~ (eid, t) ∈ L.holders (C.lc (C.node_of (world s) (client s)))) as Hnh.
  { intros t Ht. apply Hn, list_elem_of_fmap. by exists (eid, t). }
  destruct (H.grab_done (world s) m (client s) (thread s) eid (sk_calm s Hs) Hi) as (w' & E & G & Hi').
  { intros d t. destruct (decide (d = client s)) as [->|Hne]; [apply Hnh|]. rewrite B1 by done.
    apply not_elem_of_nil. }
  cbn [st_acquire sys_Store]. rewrite E. cbn [after]. pose proof G as [G1 G2 G3 G4 G5].
  split; [|cbn [st_held sys_Store set_world world client]; by rewrite G2].
  apply world_same; [|done|done|intros d k; by apply grant_marks|intros k; by apply grant_known].
  split; cbn [set_world world client thread]; [done|by exists m|intros d; by apply grant_sized|]. split.
  - intros d Hne. by rewrite G4, B1.
  - rewrite G2. by apply NoDup_cons.
  - intros l t. rewrite G2. intros [[= -> ->]|Hin]%elem_of_cons; [done|]. by eapply B3.
Qed.

Lemma sys_release h : st_held s = eid :: h ->
  st_same s (st_release eid s) /\ st_held (st_release eid s) = h.
Proof.
  intros Hh. destruct (sk_held s Hs) as [B1 B2 B3].
  destruct (L.holders (C.lc (C.node_of (world s) (client s)))) as [|[l t] hs] eqn:Eh.
  { cbn [st_held sys_Store] in Hh. by rewrite Eh in Hh. }
  assert (t = thread s) as -> by (apply (B3 l); by left).
  cbn [st_held sys_Store] in Hh. rewrite Eh in Hh. cbn in Hh. injection Hh as -> <-.
  destruct (H.release_done (world s) m (client s) (thread s) eid (sk_calm s Hs) Hi) as (w' & E & [R1 R2 R3 R4 R5] & Hi').
  { rewrite Eh. by left. }
  rewrite Eh, (list_remove_head _ _ B2) in R2. apply NoDup_cons in B2 as [_ B2].
  cbn [st_release sys_Store]. rewrite E. cbn [after].
  assert (forall d, C.ec (C.node_of w' d) = C.ec (C.node_of (world s) d)) as Hec.
  { intros d. destruct (decide (d = client s)) as [->|Hne]; [done|by rewrite R3]. }
  split; [|cbn [st_held sys_Store set_world world client]; by rewrite R2].
  apply world_same; [|done|done|intros d k; by rewrite Hec|by rewrite R5].
  split; cbn [set_world world client thread]; [done|by exists m|intros d; rewrite Hec, R5; apply (sk_sized s Hs)|].
  split; [intros d Hne; rewrite R3 by done; by apply B1|by rewrite R2|].
  intros l t. rewrite R2. intros Hin. eapply B3. by right.
Qed.

End Laws.

(** The system keeps its promises to the file system. *)
#[export] Instance sys_StoreLaws : StoreLaws sys.
Proof.
  split.
  - intros s eid Hs. destruct (sk_inv s Hs) as [m Hi]. by apply (sys_get s m).
  - intros s eid Hs [Hn Hu]. destruct (sk_inv s Hs) as [m Hi]. by apply (sys_peek s m).
  - intros s eid Hs. destruct (sk_inv s Hs) as [m Hi]. by apply (sys_getattr s m).
  - intros s eid buf Hs. destruct (sk_inv s Hs) as [m Hi]. by apply (sys_put s m).
  - intros s eid Hs. destruct (sk_inv s Hs) as [m Hi]. by apply (sys_remove s m).
  - intros s lid Hs. destruct (sk_inv s Hs) as [m Hi]. by apply (sys_acquire s m).
  - intros s lid h Hs. destruct (sk_inv s Hs) as [m Hi]. by apply (sys_release s m).
Qed.

(** ** From one client to another *)

(** Another thread goes on, of the same or of another client. *)
Definition on (c : bytes) (tid n : Z) (s : fs sys) : fs sys :=
  Fs (Sys (world (store s)) c tid n) (trace s).

Lemma on_ok c tid n s : yfs_client.fs_ok s -> yfs_client.fs_ok (on c tid n s).
Proof.
  intros [[H1 H2 H3 [B1 B2 B3]] Hh].
  assert (forall d, L.holders (C.lc (C.node_of (world (store s)) d)) = []) as Hn.
  { intros d. destruct (decide (d = client (store s))) as [->|Hne]; [|by apply B1].
    cbn [st_held sys_Store] in Hh. by apply fmap_nil_inv in Hh. }
  split; [split; try done|cbn; by rewrite Hn]. cbn. split; [done| |]; rewrite Hn; [constructor|].
  intros l t Ht. by apply not_elem_of_nil in Ht.
Qed.

Lemma on_dir c tid n s d es : yfs_client.dir_of s d es -> yfs_client.dir_of (on c tid n s) d es.
Proof. done. Qed.

Lemma on_holds c tid n s k b : yfs_client.holds s k b -> yfs_client.holds (on c tid n s) k b.
Proof. done. Qed.


(** ** From the start *)

(** No client has done anything; A mounts first. *)
Definition fs_new : fs sys := Fs (Sys C.world_new lock_server_cache.cA 1 100) [].

Lemma fs_new_ok : yfs_client.fs_ok fs_new.
Proof.
  split; [split|done]; cbn.
  - apply H.calm_new.
  - exists ∅. apply C.coherence_new.
  - intros d. split; apply extent_server.new_sized.
  - split; [done|constructor|]. by intros l t ?%not_elem_of_nil.
Qed.

Lemma fs_new_peekable k : st_peekable (store fs_new) k.
Proof.
  split; [|intros d; apply not_elem_of_nil]. unfold contents. cbn. apply lookup_empty.
Qed.

(** The root directory is there, and empty. *)
Lemma fs_mounted : exists s, yfs_client.yfs_client_init fs_new = ((), s) /\ yfs_client.fs_ok s /\
  yfs_client.dir_of s 1 [] /\ forall k, k <> 1 -> st_peekable (store s) k.
Proof.
  destruct (yfs_client.init_root fs_new fs_new_ok) as (s & E & Hok & Hh & Hk).
  { apply fs_new_peekable. }
  exists s. split; [done|]. split; [done|]. split.
  - split; [|constructor]. change (st_view (store fs_new) 1) with (@None bytes) in Hh. done.
  - intros k Hne. apply Hk; [done|]. apply fs_new_peekable.
Qed.


End system.
