(* ===== verification/Fuse.v ===== *)
(** * The FUSE front end

    The callbacks of [fuse.cc]: each takes a request of the kernel, calls
    operations of [yfs_client], and answers with calls of the FUSE library.
    The answers a callback gives are recorded; the size and the layout of a
    directory entry, which the library decides, are parameters. *)

From stdpp Require Import gmap list strings.
From Stdlib Require Import ZArith Lia Ascii.
From S2P Require Import Prelude Text Marshall Rpc Protocols Extent YfsClient.

Local Open Scope Z_scope.

Module fuse.
Import YfsClient.yfs_client.
Local Open Scope yfs_scope.

Definition ENOENT : Z := 2.
Definition ENOTDIR : Z := 20.
Definition ENOSYS : Z := 38.
Definition FUSE_SET_ATTR_SIZE : Z := 8.

(** [struct stat], the fields that are set *)
Record stat := Stat {
  st_ino : Z; st_mode : Z; st_nlink : Z;
  st_atime : Z; st_mtime : Z; st_ctime : Z; st_size : Z
}.

(** [S_IFREG | 0666] and [S_IFDIR | 0777] *)
Definition mode_file : Z := 0x81b6.
Definition mode_dir : Z := 0x41ff.

Record fuse_entry_param := Entry { e_ino : Z; e_attr : stat }.

(** Answers; [ReplyBuf] has the bytes the pointer has and the size given *)
Inductive reply :=
| ReplyErr (e : Z)
| ReplyAttr (st : stat)
| ReplyBuf (buf : bytes) (size : Z)
| ReplyWrite (n : Z)
| ReplyCreate (e : fuse_entry_param)
| ReplyEntry (e : fuse_entry_param)
| ReplyOpen
| ReplyStatfs (namemax bsize : Z).

Section Callbacks.
Context {St : Type} `{Store St}.

(** [getattr]: status, and [st] when it is filled in *)
Definition getattr (inum : Z) : @M St (Z * option stat) :=
  if isfile inum then
    r <- getfile inum ;;
    ret (match r with
         | (0, Some i) => (OK, Some (Stat inum mode_file 1 (fi_atime i) (fi_mtime i) (fi_ctime i) (fi_size i)))
         | (ret, _) => (ret, None)
         end)
  else
    r <- getdir inum ;;
    ret (match r with
         | (0, Some i) => (OK, Some (Stat inum mode_dir 2 (di_atime i) (di_mtime i) (di_ctime i) 0))
         | (ret, _) => (ret, None)
         end).

Definition fuseserver_getattr (ino : Z) : @M St (list reply) :=
  r <- getattr ino ;;
  ret (match r with (_, Some st) => [ReplyAttr st] | (_, None) => [ReplyErr ENOENT] end).

Definition fuseserver_setattr (ino size to_set : Z) : @M St (list reply) :=
  if negb (Z.land FUSE_SET_ATTR_SIZE to_set =? 0) then
    r <- setsize ino size ;;
    if negb (r =? OK) then ret [ReplyErr ENOENT]
    else r <- getattr ino ;;
         ret (match r with (_, Some st) => [ReplyAttr st] | (_, None) => [ReplyErr ENOENT] end)
  else ret [ReplyErr ENOSYS].

Definition fuseserver_read (ino size off : Z) : @M St (list reply) :=
  r <- read ino size off ;;
  ret (if negb (r.1 =? OK) then [ReplyErr ENOENT] else [ReplyBuf r.2 size]).

Definition fuseserver_write (ino : Z) (buf : bytes) (off : Z) : @M St (list reply) :=
  r <- write ino buf off ;;
  ret (if negb (r.1 =? OK) then [ReplyErr ENOENT] else [ReplyWrite (default 0 r.2)]).

(** [fuseserver_createhelper]: status, and [e] when it is complete; [None]
    when no inode number was found *)
Definition fuseserver_createhelper (rs : list Z) (parent : Z) (name : bytes)
  : @M St (option (Z * option fuse_entry_param)) :=
  if negb (isdir parent) then ret (Some (IOERR, None))
  else
    d <- getdir parent ;;
    if negb (d.1 =? OK) then ret (Some (NOENT, None))
    else
      inum <- ilookup parent name ;;
      if inum =? 0 then
        c <- createfile rs parent name ;;
        match c with
        | Some (0, Some new_inum) =>
            r <- getattr new_inum ;;
            ret (match r with
                 | (_, Some st) => Some (OK, Some (Entry new_inum st))
                 | (r, None) => Some (r, None)
                 end)
        | Some (r, _) => ret (Some (r, None))
        | None => ret None
        end
      else
        r <- getattr inum ;;
        ret (match r with
             | (_, Some st) => Some (OK, Some (Entry inum st))
             | (r, None) => Some (r, None)
             end).

Definition fuseserver_create (rs : list Z) (parent : Z) (name : bytes) : @M St (option (list reply)) :=
  r <- fuseserver_createhelper rs parent name ;;
  ret (match r with
       | Some (_, Some e) => Some [ReplyCreate e]
       | Some (_, None) => Some [ReplyErr ENOENT]
       | None => None
       end).

Definition fuseserver_mknod (rs : list Z) (parent : Z) (name : bytes) : @M St (option (list reply)) :=
  r <- fuseserver_createhelper rs parent name ;;
  ret (match r with
       | Some (_, Some e) => Some [ReplyEntry e]
       | Some (_, None) => Some [ReplyErr ENOENT]
       | None => None
       end).

Definition fuseserver_lookup (parent : Z) (name : bytes) : @M St (list reply) :=
  inum <- ilookup parent name ;;
  if negb (inum =? 0) then
    r <- getattr inum ;;
    ret (match r with (_, Some st) => [ReplyEntry (Entry inum st)] | (_, None) => [ReplyErr ENOENT] end)
  else ret [ReplyErr ENOENT].

Definition fuseserver_open (ino : Z) : @M St (list reply) :=
  r <- getfile ino ;;
  ret (if r.1 =? OK then [ReplyOpen] else [ReplyErr ENOENT]).

(** [fuseserver_mkdir]; [junk] is what [new_inum] holds when it was not set *)
Definition fuseserver_mkdir (junk : Z) (rs : list Z) (parent : Z) (name : bytes)
  : @M St (option (list reply)) :=
  if negb (isdir parent) then ret (Some [ReplyErr ENOENT])
  else
    d <- getdir parent ;;
    if negb (d.1 =? OK) then ret (Some [ReplyErr ENOENT])
    else
      inum <- ilookup parent name ;;
      if inum =? 0 then
        c <- makedir rs parent name ;;
        match c with
        | None => ret None
        | Some (r, i) =>
            let new_inum := default junk i in
            a <- getattr new_inum ;;
            ret (Some ((if negb (r =? OK) then [ReplyErr ENOENT] else []) ++
                       match a with
                       | (_, Some st) => [ReplyEntry (Entry new_inum st)]
                       | (_, None) => [ReplyErr ENOENT]
                       end))
        end
      else ret (Some []).

Definition fuseserver_unlink (junk parent : Z) (name : bytes) : @M St (list reply) :=
  inum <- ilookup parent name ;;
  if negb (inum =? 0) then
    r <- unlink junk parent name ;;
    ret (if r =? OK then [ReplyErr 0] else [ReplyErr ENOENT])
  else ret [ReplyErr ENOENT].

Definition fuseserver_statfs : @M St (list reply) := ret [ReplyStatfs 255 512].

(** ** Directories *)

(** [e.name.c_str()]: up to the first zero byte *)
Fixpoint c_str (s : bytes) : bytes :=
  match s with
  | [] => []
  | c :: s' => if zchar c =? 0 then [] else c :: c_str s'
  end.

(** [fuse_dirent_size], and the entry [fuse_add_dirent] writes for a name, an
    inode number and the offset of the next entry *)
Context (dirent_size : nat -> nat) (add_dirent : bytes -> Z -> Z -> bytes).

Definition dirbuf_add (b : bytes) (name : bytes) (ino : Z) : bytes :=
  b ++ add_dirent name ino (Z.of_nat (length b + dirent_size (length name))).

Definition reply_buf_limited (buf : bytes) (off maxsize : Z) : reply :=
  let bufsize := Z.of_nat (length buf) in
  if u64 off <? bufsize
  then let n := Z.min (bufsize - off) maxsize in ReplyBuf (take (Z.to_nat n) (drop (Z.to_nat off) buf)) n
  else ReplyBuf [] 0.

Definition fuseserver_readdir (ino size off : Z) : @M St (list reply) :=
  if negb (isdir ino) then ret [ReplyErr ENOTDIR]
  else
    r <- readdir ino ;;
    ret [reply_buf_limited (foldl (fun b e => dirbuf_add b (c_str (d_name e)) (d_inum e)) [] r.2) off size].
End Callbacks.

(** ** Every request is answered *)

Inductive request :=
| RGetattr (ino : Z) | RSetattr (ino size to_set : Z) | RRead (ino size off : Z)
| RWrite (ino : Z) (buf : bytes) (off : Z) | RCreate (rs : list Z) (parent : Z) (name : bytes)
| RMknod (rs : list Z) (parent : Z) (name : bytes) | RLookup (parent : Z) (name : bytes)
| ROpen (ino : Z) | RMkdir (junk : Z) (rs : list Z) (parent : Z) (name : bytes)
| RUnlink (junk parent : Z) (name : bytes) | RStatfs | RReaddir (ino size off : Z).

Section Requests.
Context {St : Type} `{Store St}.
Context (dirent_size : nat -> nat) (add_dirent : bytes -> Z -> Z -> bytes).

(** [None] when the callback is still looking for an inode number *)
Definition answer (q : request) (s : fs St) : option (list reply) :=
  match q with
  | RGetattr ino => Some (fuseserver_getattr ino s).1
  | RSetattr ino size to_set => Some (fuseserver_setattr ino size to_set s).1
  | RRead ino size off => Some (fuseserver_read ino size off s).1
  | RWrite ino buf off => Some (fuseserver_write ino buf off s).1
  | RCreate rs parent name => (fuseserver_create rs parent name s).1
  | RMknod rs parent name => (fuseserver_mknod rs parent name s).1
  | RLookup parent name => Some (fuseserver_lookup parent name s).1
  | ROpen ino => Some (fuseserver_open ino s).1
  | RMkdir junk rs parent name => (fuseserver_mkdir junk rs parent name s).1
  | RUnlink junk parent name => Some (fuseserver_unlink junk parent name s).1
  | RStatfs => Some (fuseserver_statfs s).1
  | RReaddir ino size off => Some (fuseserver_readdir dirent_size add_dirent ino size off s).1
  end.

(** What [mkdir] finds when it looks for the name. *)
Definition mkdir_found (parent : Z) (name : bytes) (s : fs St) : Z :=
  (ilookup parent name (getdir parent s).2).1.

Ltac split_run :=
  repeat match goal with
  | |- context [match ?x with _ => _ end] =>
      lazymatch x with context [match _ with _ => _ end] => fail | _ => destruct x eqn:? end;
      cbn [fst snd negb]
  end.

(** Whatever the store answers, each callback that comes to its end
    answers its request exactly once, except [mkdir]: it gives no answer when the
    name exists, and when the new directory cannot be made it answers with an
    error and then a second time. *)
Theorem one_reply_per_request q s rs :
  answer q s = Some rs ->
  match q with
  | RMkdir junk ns parent name =>
      (length rs = 0)%nat \/ (length rs = 1)%nat \/
      ((length rs = 2)%nat /\ head rs = Some (ReplyErr ENOENT))
  | _ => (length rs = 1)%nat
  end /\
  match q with
  | RMkdir junk ns parent name =>
      isdir parent = true -> (getdir parent s).1.1 = OK -> mkdir_found parent name s <> 0 -> rs = []
  | _ => True
  end.
Proof.
  destruct q; cbn [answer]; (split; [|try done]); revert H0.
  all: try (intros [= <-]; unfold fuseserver_getattr, fuseserver_setattr, fuseserver_read,
    fuseserver_write, fuseserver_lookup, fuseserver_open, fuseserver_unlink, fuseserver_statfs,
    fuseserver_readdir, bind, ret; split_run; done).
  - unfold fuseserver_create, bind, ret. split_run; by intros [= <-].
  - unfold fuseserver_mknod, bind, ret. split_run; by intros [= <-].
  - unfold fuseserver_mkdir, bind, ret. split_run; intros [= <-]; cbn; auto.
  - intros Hr Hd Ho Hf. revert Hr. unfold fuseserver_mkdir, mkdir_found, bind, ret in *. rewrite Hd. cbn [negb].
    destruct (getdir parent s) as [d s1]. cbn [fst snd] in *. rewrite Ho. cbn [Z.eqb OK negb].
    destruct (ilookup parent name s1) as [i s2]. cbn [fst] in Hf.
    destruct (i =? 0) eqn:E; to_prop; [done|]. by intros [= <-].
Qed.
End Requests.

(** ** What the answers say *)

Section Answers.
Context {St : Type} `{HL : StoreLaws St}.

Ltac run_op := unfold bind, ret; cbn [fst snd].

Lemma run_getattr_file s i b :
  fs_ok s -> holds s i b -> isfile i = true ->
  exists st s', getattr i s = ((OK, Some st), s') /\ fs_ok s' /\ fs_same s s' /\
    st_ino st = i /\ st_mode st = mode_file /\ st_size st = u32 (Z.of_nat (length b)).
Proof.
  intros Hok [Hv Hc] Hf. destruct (getfile_done s i Hok Hc) as (r & a & s' & E & Hok' & Hs & Ha).
  rewrite Hv in Ha. destruct Ha as [-> Ha]. cbn [Z.eqb extent_protocol.OK] in E. unfold getattr. rewrite Hf.
  unfold bind. rewrite E. cbn [fst snd Z.eqb OK]. do 2 eexists. split; [done|]. by split.
Qed.

(** [read] answers with exactly the bytes of the range that the file
    has, but always announces as many as were asked for: past the end of the file
    the library is told to send bytes that lie behind the buffer. *)
Theorem read_reply_overruns s ino b size off :
  fs_ok s -> holds s ino b -> 0 <= off < 2 ^ 63 -> 0 <= size < 2 ^ 64 ->
  exists data, (fuseserver_read ino size off s).1 = [ReplyBuf data size] /\
    data = take (Z.to_nat size) (drop (Z.to_nat off) b) /\
    (Z.of_nat (length b) < off + size -> Z.of_nat (length data) < size \/ size = 0).
Proof.
  intros Hok Hb Ho Hs. pose proof (read_result s ino b size off Hok Hb ltac:(lia) ltac:(lia)) as Hr.
  unfold fuseserver_read. run_op. destruct (read ino size off s) as [r s']. cbn [fst] in Hr. subst r.
  cbn [fst snd Z.eqb OK negb]. eexists. split; [done|]. split; [done|].
  rewrite length_take, length_drop. lia.
Qed.

End Answers.

(** ** Reading a directory in pieces *)

Section Pieces.
Context {St : Type} `{HL : StoreLaws St}.
Context (dirent_size : nat -> nat) (add_dirent : bytes -> Z -> Z -> bytes).
(** documented by the library: an entry has the size it announces *)
Context (dirent_law : forall name ino off, length (add_dirent name ino off) = dirent_size (length name)).

(** The kernel reads until it gets nothing more. *)
Fixpoint collect (fuel : nat) (buf : bytes) (off maxsize : Z) : bytes :=
  match fuel with
  | O => []
  | S f => match reply_buf_limited buf off maxsize with
           | ReplyBuf d n => if n =? 0 then [] else d ++ collect f buf (off + n) maxsize
           | _ => []
           end
  end.

Lemma collect_all fuel buf off maxsize :
  0 <= off < 2 ^ 63 -> Z.of_nat (length buf) < 2 ^ 63 -> 0 < maxsize ->
  (length buf < fuel + Z.to_nat off)%nat -> collect fuel buf off maxsize = drop (Z.to_nat off) buf.
Proof.
  revert off. induction fuel as [|fuel IH]; intros off Ho Hl Hm Hf; cbn [collect].
  - by rewrite drop_ge by lia.
  - unfold reply_buf_limited. rewrite u64_small by (unfold is_u64; lia).
    destruct (off <? Z.of_nat (length buf)) eqn:E; to_prop; [|by rewrite drop_ge by lia].
    set (n := Z.min (Z.of_nat (length buf) - off) maxsize).
    assert ((n =? 0) = false) as -> by (apply Z.eqb_neq; lia).
    rewrite IH by lia. replace (Z.to_nat (off + n)) with (Z.to_nat off + Z.to_nat n)%nat by lia.
    rewrite <- drop_drop. apply take_drop.
Qed.

(** The buffer for a list of entries. *)
Definition dir_buffer (es : list entry) : bytes :=
  foldl (fun b e => dirbuf_add dirent_size add_dirent b (c_str e.2) e.1) [] es.

Lemma dir_buffer_dirents es :
  foldl (fun b e => dirbuf_add dirent_size add_dirent b (c_str (d_name e)) (d_inum e)) []
    ((fun e => Dirent e.2 e.1) <$> es) = dir_buffer es.
Proof.
  unfold dir_buffer. generalize (@nil ascii). induction es as [|e es IH]; intros b; [done|]. apply IH.
Qed.

(** Reading a directory in pieces of any size, as the kernel does,
    gives the entries of the directory one after the other, each complete, with
    its name and inode number and the offset at which the next one starts; a piece
    never has more bytes than were asked for. *)
Theorem readdir_pieces s d es maxsize :
  fs_ok s -> dir_of s d es -> isdir d = true -> 0 < maxsize ->
  Z.of_nat (length (dir_buffer es)) < 2 ^ 63 ->
  (forall off, (fuseserver_readdir dirent_size add_dirent d maxsize off s).1 =
     [reply_buf_limited (dir_buffer es) off maxsize]) /\
  collect (S (length (dir_buffer es))) (dir_buffer es) 0 maxsize = dir_buffer es /\
  (forall off, 0 <= off < 2 ^ 63 -> exists p n, reply_buf_limited (dir_buffer es) off maxsize = ReplyBuf p n /\
     Z.of_nat (length p) = n /\ n <= maxsize) /\
  (forall es1 e es2, es = es1 ++ e :: es2 -> exists rest,
     dir_buffer es = dir_buffer es1 ++ add_dirent (c_str e.2) e.1 (Z.of_nat (length (dir_buffer (es1 ++ [e])))) ++ rest).
Proof.
  intros Hok Hd Hdir Hm Hl. split_and!.
  - intros off. destruct (readdir_done s d es Hok Hd) as (s' & E & _).
    unfold fuseserver_readdir. rewrite Hdir. cbn [negb]. unfold bind, ret. rewrite E. cbn [fst snd].
    by rewrite dir_buffer_dirents.
  - rewrite collect_all by lia. done.
  - intros off Ho. unfold reply_buf_limited. rewrite u64_small by (unfold is_u64; lia).
    case_match; to_prop; do 2 eexists; (split; [done|]); [|cbn; lia].
    rewrite length_take, length_drop. lia.
  - intros es1 e es2 ->. clear Hd Hl.
    assert (dir_buffer (es1 ++ [e]) = dir_buffer es1 ++
      add_dirent (c_str e.2) e.1 (Z.of_nat (length (dir_buffer (es1 ++ [e]))))) as He.
    { unfold dir_buffer. rewrite foldl_app. cbn [foldl]. fold (dir_buffer es1). unfold dirbuf_add.
      rewrite length_app, dirent_law. done. }
    assert (forall es b, exists rest, foldl (fun b e => dirbuf_add dirent_size add_dirent b (c_str e.2) e.1) b es = b ++ rest) as Hpre.
    { clear. intros es. induction es as [|e es IH]; intros b; [exists []; by rewrite app_nil_r|].
      cbn [foldl]. destruct (IH (dirbuf_add dirent_size add_dirent b (c_str e.2) e.1)) as [rest ->].
      unfold dirbuf_add. eexists. by rewrite <- app_assoc. }
    destruct (Hpre es2 (dir_buffer (es1 ++ [e]))) as [rest Hr]. exists rest.
    rewrite app_assoc, <- He, <- Hr. unfold dir_buffer. by rewrite !foldl_app.
Qed.
End Pieces.

(** ** Concrete runs *)

(** An entry as a line of its parts. *)
Definition demo_dirent (name : bytes) (ino off : Z) : bytes :=
  name ++ replicate (length name + 8) Ascii.zero.
Definition demo_size (n : nat) : nat := (n + (n + 8))%nat.

Lemma demo_dirent_law name ino off : length (demo_dirent name ino off) = demo_size (length name).
Proof. unfold demo_dirent, demo_size. by rewrite length_app, length_replicate. Qed.

Lemma one_reply_per_request_witness :
  exists rs, answer demo_size demo_dirent (RLookup 1 (str "a")) demo_fs = Some rs /\ length rs = 1%nat.
Proof.
  eexists. split; [reflexivity|].
  exact (proj1 (one_reply_per_request demo_size demo_dirent (RLookup 1 (str "a")) demo_fs _ eq_refl)).
Defined.

Lemma read_reply_overruns_witness :
  exists data, (fuseserver_read 2147483653 4096 2 demo_fs).1 = [ReplyBuf data 4096] /\ data = str "llo".
Proof.
  destruct (read_reply_overruns demo_fs 2147483653 (str "hello") 4096 2 demo_fs_ok) as (d & H & Hd & _).
  - split; [vm_compute; reflexivity|apply demo_clean].
  - lia.
  - lia.
  - exists d. split; [exact H|]. rewrite Hd. vm_compute. reflexivity.
Defined.


Lemma readdir_pieces_witness :
  collect (S (length (dir_buffer demo_size demo_dirent demo_entries)))
    (dir_buffer demo_size demo_dirent demo_entries) 0 7 = dir_buffer demo_size demo_dirent demo_entries.
Proof.
  apply (readdir_pieces demo_size demo_dirent demo_dirent_law demo_fs 1 demo_entries 7 demo_fs_ok demo_dir);
    [reflexivity|lia|vm_compute; reflexivity].
Defined.

(** [mkdir] of a name that exists is never answered. *)
Lemma mkdir_existing_unanswered :
  answer demo_size demo_dirent (RMkdir 0 [8] 1 (str "sub")) demo_fs = Some [].
Proof. vm_compute. reflexivity. Qed.

End fuse.
