(* ===== verification/Posix.v ===== *)
(** * Programs that make system calls

    The test programs of the repository run on a mounted file system.  Their
    functions are programs, trees of system calls; two processes run with their
    calls in any order, and what a process may rely on while the other one runs
    is a relation between worlds.  The kernel is not part of the repository: its
    calls are a parameter, and what the programs rely on are the laws of the
    class [KernelLaws]. *)

From stdpp Require Import gmap list strings.
From Stdlib Require Import ZArith Lia Ascii.
From S2P Require Import Prelude Text Marshall.

Local Open Scope Z_scope.

(** ** Calls *)

Record posix (W : Type) := Posix {
  mkdir : bytes -> W -> Z * W;
  access : bytes -> W -> Z * W;
  creat : bytes -> W -> Z * W;
  open : bytes -> bool -> W -> Z * W;          (** [true]: [O_WRONLY|O_APPEND] *)
  write : Z -> bytes -> W -> Z * W;
  read : Z -> Z -> W -> Z * bytes * W;
  close : Z -> W -> Z * W;
  unlink : bytes -> W -> Z * W;
  listdir : bytes -> W -> option (list bytes) * W   (** [opendir], [readdir], [closedir] *)
}.
Arguments mkdir {W}. Arguments access {W}. Arguments creat {W}. Arguments open {W}.
Arguments write {W}. Arguments read {W}. Arguments close {W}. Arguments unlink {W}.
Arguments listdir {W}.

Inductive proc := parent | child.
#[global] Instance proc_eq_dec : EqDecision proc.
Proof. solve_decision. Defined.

Definition other (i : proc) : proc := match i with parent => child | child => parent end.

Lemma other_ne i : other i <> i.
Proof. by destruct i. Qed.

(** The calls of each process, and [fork] by the parent. *)
Record kernel (W : Type) := Kernel { calls : proc -> posix W; fork : W -> Z * W }.
Arguments calls {W}. Arguments fork {W}.

(** ** Programs *)

(** How a process ends: it returns, it calls [exit(1)], or it writes past an
    array. *)
Inductive res (A : Type) := Ok (a : A) | Exit | Overrun.
Arguments Ok {A}. Arguments Exit {A}. Arguments Overrun {A}.

(** A call changes the world, and the rest of the program depends on the world in
    which it was made. *)
Inductive prog (W A : Type) :=
| End (r : res A)
| Sys (f : W -> W) (k : W -> prog W A).
Arguments End {W A}. Arguments Sys {W A}.

#[global] Instance prog_ret {W} : MRet (prog W) := fun A a => End (Ok a).
#[global] Instance prog_bind {W} : MBind (prog W) := fun A B k =>
  fix go (p : prog W A) : prog W B :=
    match p with
    | End (Ok a) => k a
    | End Exit => End Exit
    | End Overrun => End Overrun
    | Sys f c => Sys f (fun w => go (c w))
    end.

Definition sys {W A} (f : W -> A * W) : prog W A := Sys (fun w => (f w).2) (fun w => mret (f w).1).

(** [if (!b) exit(1)] *)
Definition demand {W} (b : bool) : prog W unit := if b then mret () else End Exit.

(** [for (i = 0; i < n; i++)] *)
Definition each {W A} (l : list A) (f : A -> prog W unit) : prog W unit :=
  foldr (fun x k => f x ;; k) (mret ()) l.

Fixpoint run {W A} (p : prog W A) (w : W) : res A * W :=
  match p with
  | End r => (r, w)
  | Sys f k => run (k w) (f w)
  end.

Lemma run_bind {W A B} (p : prog W A) (k : A -> prog W B) w a w' :
  run p w = (Ok a, w') -> run (p ≫= k) w = run (k a) w'.
Proof.
  revert w. induction p as [r|f c IH]; intros w E; [by simplify_eq/=|]. by apply (IH w (f w)).
Qed.

(** Two processes: the schedule says which one makes the next call ([true]: the
    first); after it, the second one ends and then the first. *)
Fixpoint interleave {W A B} (sched : list bool) (p : prog W A) (q : prog W B) (w : W) :
    res A * res B * W :=
  match sched with
  | [] => let '(b, w) := run q w in let '(a, w) := run p w in (a, b, w)
  | true :: s => match p with Sys f k => interleave s (k w) q (f w) | End _ => interleave s p q w end
  | false :: s => match q with Sys f k => interleave s p (k w) (f w) | End _ => interleave s p q w end
  end.

(** The program that starts the processes. *)
Definition T (W A : Type) : Type := W -> res A * W.
#[global] Instance T_ret {W} : MRet (T W) := fun A a w => (Ok a, w).
#[global] Instance T_bind {W} : MBind (T W) := fun A B k m w =>
  match m w with
  | (Ok a, w) => k a w
  | (Exit, w) => (Exit, w)
  | (Overrun, w) => (Overrun, w)
  end.

Definition alone {W A} (p : prog W A) : T W A := run p.

(** ** Rely and guarantee *)

Section Safe.
Context {W : Type}.

(** A program that ends well, whatever the others do within [R] between its
    calls, and whose calls are all within [G]. *)
Fixpoint safe {A} (R G : W -> W -> Prop) (p : prog W A) (Q : A -> W -> Prop) (w : W) : Prop :=
  match p with
  | End (Ok a) => Q a w
  | End _ => False
  | Sys f k => forall w', R w w' -> G w' (f w') /\ safe R G (k w') Q (f w')
  end.

Definition stable {A} (R : W -> W -> Prop) (Q : A -> W -> Prop) : Prop :=
  forall a w w', Q a w -> R w w' -> Q a w'.

Lemma safe_bind {A B} R G (p : prog W A) (k : A -> prog W B) Q w :
  safe R G p (fun a => safe R G (k a) Q) w -> safe R G (p ≫= k) Q w.
Proof.
  revert w. induction p as [[a| |]|f c IH]; intros w H; [done|done|done|].
  intros w' HR. destruct (H w' HR) as [HG Hs]. split; [done|]. by apply IH.
Qed.

Lemma safe_demand {A} R G b (k : prog W A) Q w : b = true -> safe R G k Q w -> safe R G (demand b;; k) Q w.
Proof. by intros ->. Qed.

Lemma safe_mono {A} R G (p : prog W A) (Q Q' : A -> W -> Prop) w :
  (forall a w, Q a w -> Q' a w) -> safe R G p Q w -> safe R G p Q' w.
Proof.
  intros HQ. revert w. induction p as [[a| |]|f c IH]; intros w H; [by apply HQ|done|done|].
  intros w' HR. destruct (H w' HR) as [HG Hs]. split; [done|]. by apply IH.
Qed.

(** A loop, with what is true after each of its rounds. *)
Lemma safe_each {A X} R G (t : A -> prog W unit) (I : X -> W -> Prop) (g : X -> A -> X) l x w :
  (forall l1 a l2, l = l1 ++ a :: l2 -> forall w, I (foldl g x l1) w ->
     safe R G (t a) (fun _ => I (g (foldl g x l1) a)) w) ->
  I x w -> safe R G (each l t) (fun _ => I (foldl g x l)) w.
Proof.
  revert x w. induction l as [|a l IH]; intros x w Hl Hx; [done|].
  apply safe_bind. eapply safe_mono; [|by apply (Hl [] a l)]. intros u w1 H1.
  apply IH; [|done]. intros l1 b l2 ->. by apply (Hl (a :: l1) b l2).
Qed.

(** One call, from a state that the others leave true. *)
Lemma safe_sys {A} R G (f : W -> A * W) (I : W -> Prop) (Q : A -> W -> Prop) w :
  (forall w w', I w -> R w w' -> I w') ->
  (forall w, I w -> G w (f w).2 /\ Q (f w).1 (f w).2) -> I w -> safe R G (sys f) Q w.
Proof. intros Hst Hf HI w' HR. apply Hf. by apply (Hst w). Qed.

Lemma safe_later {A} R G `{!PreOrder R} (p : prog W A) Q w w' :
  stable R Q -> safe R G p Q w -> R w w' -> safe R G p Q w'.
Proof.
  intros HQ H HR. destruct p as [[a| |]|f c]; [by apply (HQ _ w)|done|done|].
  intros w2 HR2. apply H. by etrans.
Qed.

(** A safe program that runs alone returns, with all it does within [G]. *)
Lemma safe_run {A} R G `{!PreOrder R, !PreOrder G} (p : prog W A) Q w :
  safe R G p Q w -> exists a w', run p w = (Ok a, w') /\ Q a w' /\ G w w'.
Proof.
  revert w. induction p as [[a| |]|f c IH]; intros w H; [by exists a, w|done|done|].
  destruct (H w) as [HG Hs]; [done|]. destruct (IH w (f w) Hs) as (a & w' & E & HQ & HR).
  exists a, w'. split; [done|]. split; [done|]. by etrans.
Qed.

(** Two programs, each of which keeps to what the other relies on, return in
    every order of their calls. *)
Lemma safe_interleave {A B} R1 R2 `{!PreOrder R1, !PreOrder R2} sched
    (p : prog W A) (q : prog W B) Q Q' w :
  stable R1 Q -> stable R2 Q' -> safe R1 R2 p Q w -> safe R2 R1 q Q' w ->
  exists a b w', interleave sched p q w = (Ok a, Ok b, w') /\ Q a w' /\ Q' b w'.
Proof.
  intros SQ SQ'. revert p q w. induction sched as [|[] s IH]; intros p q w Hp Hq; cbn [interleave].
  - destruct (safe_run R2 R1 q Q' w Hq) as (b & w1 & -> & Hb & H1).
    destruct (safe_run R1 R2 p Q w1) as (a & w2 & -> & Ha & H2); [by apply (safe_later R1 R2 _ _ w)|].
    exists a, b, w2. split; [done|]. split; [done|]. by apply (SQ' _ w1).
  - destruct p as [[a| |]|f c]; [by apply IH|done|done|].
    destruct (Hp w) as [HG Hs]; [done|]. apply IH; [done|]. by apply (safe_later R2 R1 _ _ w).
  - destruct q as [[a| |]|f c]; [by apply IH|done|done|].
    destruct (Hq w) as [HG Hs]; [done|]. apply IH; [|done]. by apply (safe_later R1 R2 _ _ w).
Qed.
End Safe.

(** ** What the kernel promises *)

Definition slash : ascii := "/"%char.

(** The name of a file in a directory. *)
Definition plain (f : bytes) : bool := negb (std_mem slash f).

(** [e->d_name[0] != '.'] *)
Definition visible (x : bytes) : Prop := head x <> Some "."%char.
#[global] Instance visible_dec x : Decision (visible x) := _.

(** An open file: its directory and name, and the position of the next byte,
    [None] when each write goes to the end of the file. *)
Definition hand : Type := Z * bytes * option nat.

Definition put (o : option nat) (b buf : bytes) : bytes :=
  match o with
  | None => b ++ buf
  | Some n => take n b ++ buf ++ drop (n + length buf) b
  end.

(** [spot] is the entry that a path names, [place] the directory that it names
    now, [files] the contents of the files of a directory, [handles] the
    descriptors of a process. *)
Class KernelLaws {W : Type} (K : kernel W) := {
  spot : bytes -> Z * bytes;
  place : W -> bytes -> option Z;
  can_make : W -> bytes -> Prop;
  files : W -> Z -> gmap bytes bytes;
  handles : W -> proc -> gmap Z hand;
  (** what process [i] leaves to the other one *)
  frame (i : proc) (w w' : W) : Prop :=
    (forall d, place w' d = place w d) /\ handles w' (other i) = handles w (other i);
  only (p : Z) (m : gmap bytes bytes) (w w' : W) : Prop :=
    files w' p = m /\ forall p', p' <> p -> files w' p' = files w p';
  same_files (w w' : W) : Prop := forall p, files w' p = files w p;
  law_spot w d d' : spot d = spot d' -> place w d = place w d';
  law_mkdir i w d : can_make w d ->
    exists w' p, mkdir (calls K i) d w = (0, w') /\ place w' d = Some p /\ only p ∅ w w' /\
      (forall j, handles w' j = handles w j) /\
      (forall d', place w d' <> Some p) /\
      forall d', spot d' <> spot d ->
        place w' d' = place w d' /\ (can_make w d' -> can_make w' d');
  law_access i w d p : place w d = Some p ->
    exists w', access (calls K i) d w = (0, w') /\ frame i w w' /\ same_files w w' /\
      handles w' i = handles w i;
  law_creat i w d f p : place w d = Some p -> plain f = true ->
    exists fd w', creat (calls K i) (d ++ slash :: f) w = (fd, w') /\ 0 <= fd /\ frame i w w' /\
      only p (<[f := []]> (files w p)) w w' /\
      handles w i !! fd = None /\ handles w' i = <[fd := (p, f, Some 0%nat)]> (handles w i);
  law_open i w d f p (app : bool) : place w d = Some p -> plain f = true ->
    exists fd w', open (calls K i) (d ++ slash :: f) app w = (fd, w') /\ frame i w w' /\
      same_files w w' /\
      match files w p !! f with
      | Some _ => 0 <= fd /\ handles w i !! fd = None /\
          handles w' i = <[fd := (p, f, if app then None else Some 0%nat)]> (handles w i)
      | None => fd < 0 /\ handles w' i = handles w i
      end;
  law_write i w fd buf p f o b :
    handles w i !! fd = Some (p, f, o) -> files w p !! f = Some b ->
    (forall n, o = Some n -> (n <= length b)%nat) ->
    exists w', write (calls K i) fd buf w = (Z.of_nat (length buf), w') /\ frame i w w' /\
      only p (<[f := put o b buf]> (files w p)) w w' /\
      handles w' i = <[fd := (p, f, (fun n => n + length buf)%nat <$> o)]> (handles w i);
  law_read i w fd size p f b :
    handles w i !! fd = Some (p, f, Some 0%nat) -> files w p !! f = Some b ->
    Z.of_nat (length b) <= size ->
    exists w', read (calls K i) fd size w = (Z.of_nat (length b), b, w') /\ frame i w w' /\
      same_files w w' /\ handles w' i = <[fd := (p, f, Some (length b))]> (handles w i);
  law_close i w fd : is_Some (handles w i !! fd) ->
    exists w', close (calls K i) fd w = (0, w') /\ frame i w w' /\ same_files w w' /\
      handles w' i = delete fd (handles w i);
  law_unlink i w d f p b : place w d = Some p -> plain f = true -> files w p !! f = Some b ->
    exists w', unlink (calls K i) (d ++ slash :: f) w = (0, w') /\ frame i w w' /\
      only p (delete f (files w p)) w w' /\ handles w' i = handles w i;
  law_list i w d p : place w d = Some p ->
    exists l w', listdir (calls K i) d w = (Some l, w') /\ frame i w w' /\ same_files w w' /\
      handles w' i = handles w i /\
      filter visible l ≡ₚ filter visible (map_to_list (files w p)).*1;
  law_fork w :
    exists pid w', fork K w = (pid, w') /\ 0 < pid /\ frame child w w' /\ same_files w w' /\
      handles w' child = handles w parent
}.
