(* ===== verification/LabTest.v ===== *)
(** * The tests of two mounted file systems

    [test-lab-4-b.c] creates, reads, appends to and removes files in one directory
    that it sees through two mounts, first by itself and then with a child that
    does the same; [test-lab-4-c.c] does so with a directory for each of the two
    processes.  The programs are those of [Posix]; they are shown to pass on
    every kernel that keeps the laws there, in every order of the calls of the
    two processes. *)

From stdpp Require Import gmap list strings sorting.
From Stdlib Require Import ZArith Lia Ascii.
From S2P Require Import Prelude Text Marshall Posix.

Local Open Scope Z_scope.

Module test_lab_4_b.

(** [char big[20001]], which ends with 0 *)
Definition big : bytes := replicate (Z.to_nat 20000) "x"%char.

Section Test.
Context {W : Type} (P : posix W).

(** [sprintf(n, "%s/%s", d, f)] into [char n[512]] *)
Definition sprintf_path (d f : bytes) : prog W bytes :=
  let n := d ++ slash :: f in
  if (length n <? 512)%nat then mret n else End Overrun.

(** ["%s-%d"] *)
Definition numbered (prefix : bytes) (i : nat) : bytes := prefix ++ str "-" ++ dec (Z.of_nat i).

(** the bytes of an [int], the lowest first *)
Definition int_bytes (i : nat) : bytes := rev (enc_u32 (Z.of_nat i)).

(** what a C string function sees of a buffer *)
Fixpoint c_string (b : bytes) : bytes :=
  match b with
  | [] => []
  | c :: b' => if zchar c =? 0 then [] else c :: c_string b'
  end.

(** [strncmp(a, b, k) == 0] *)
Definition strncmp_eq (x y : bytes) (k : nat) : bool :=
  bool_decide (take k (c_string x) = take k (c_string y)).

Definition len (b : bytes) : Z := Z.of_nat (length b).

Definition put_file (n inp : bytes) : prog W unit :=
  fd ← sys (creat P n);
  demand (0 <=? fd);;
  c ← sys (write P fd inp);
  demand (c =? len inp);;
  r ← sys (close P fd);
  demand (r =? 0).

Definition create1 (d f inp : bytes) : prog W unit :=
  n ← sprintf_path d f; put_file n inp.

(** [check1], with [char buf[21000]] *)
Definition check1 (d f inp : bytes) : prog W unit :=
  n ← sprintf_path d f;
  fd ← sys (open P n false);
  demand (0 <=? fd);;
  r ← sys (fun w => let '(cc, buf, w) := read P fd (21000 - 1) w in ((cc, buf), w));
  demand (r.1 =? len inp);;
  sys (close P fd);;
  demand (strncmp_eq r.2 inp (length n)).

Definition unlink1 (d f : bytes) : prog W unit :=
  n ← sprintf_path d f;
  r ← sys (unlink P n);
  demand (r =? 0).

Definition checknot (d f : bytes) : prog W unit :=
  n ← sprintf_path d f;
  fd ← sys (open P n false);
  demand (fd <? 0).

Definition append1 (d f inp : bytes) : prog W unit :=
  n ← sprintf_path d f;
  fd ← sys (open P n true);
  demand (0 <=? fd);;
  c ← sys (write P fd inp);
  demand (c =? len inp);;
  r ← sys (close P fd);
  demand (r =? 0).

Definition createn (d prefix : bytes) (nf : nat) : prog W unit :=
  each (seq 0 nf) (fun i =>
    n ← sprintf_path d (numbered prefix i); put_file n (int_bytes i)).

(** [read] into [j], which is [i] when its bytes are *)
Definition checkn (d prefix : bytes) (nf : nat) : prog W unit :=
  each (seq 0 nf) (fun i =>
    n ← sprintf_path d (numbered prefix i);
    fd ← sys (open P n false);
    demand (0 <=? fd);;
    r ← sys (fun w => let '(cc, buf, w) := read P fd 4 w in ((cc, buf), w));
    demand (r.1 =? 4);;
    demand (bool_decide (r.2 = int_bytes i));;
    sys (close P fd);;
    mret ()).

Definition unlinkn (d prefix : bytes) (nf : nat) : prog W unit :=
  each (seq 0 nf) (fun i =>
    n ← sprintf_path d (numbered prefix i);
    r ← sys (unlink P n);
    demand (r =? 0)).

(** [strcmp(a, b) <= 0] *)
Fixpoint strcmp_le (x y : bytes) : bool :=
  match x, y with
  | [], _ => true
  | _ :: _, [] => false
  | c :: x', c' :: y' => (zchar c <? zchar c') || ((zchar c =? zchar c') && strcmp_le x' y')
  end.

Definition compar (x y : bytes) : Prop := strcmp_le x y = true.
#[global] Instance compar_dec : RelDecision compar := fun x y => decide (strcmp_le x y = true).

(** the loop over neighbours *)
Fixpoint duplicate (l : list bytes) : bool :=
  match l with
  | x :: ((y :: _) as l') => bool_decide (x = y) || duplicate l'
  | _ => false
  end.

(** [dircheck] after the directory is read; [names] has 1000 entries *)
Definition dircheck_names (l : option (list bytes)) (nf : nat) : prog W unit :=
  match l with
  | None => End Exit
  | Some l =>
      let names := filter visible l in
      if (1000 <? length names)%nat then End Overrun
      else demand (nf =? length names)%nat;; demand (negb (duplicate (merge_sort compar names)))
  end.

Definition dircheck (d : bytes) (nf : nat) : prog W unit :=
  l ← sys (listdir P d); dircheck_names l nf.

(** the tests of [main] before the first that forks *)
Definition tests (d1 d2 big : bytes) : prog W unit :=
  create1 d1 (str "f1") (str "aaa");;
  check1 d2 (str "f1") (str "aaa");;
  check1 d1 (str "f1") (str "aaa");;
  unlink1 d2 (str "f1");;
  create1 d1 (str "fx1") (str "fxx");;
  unlink1 d1 (str "fx1");;
  checknot d1 (str "f1");;
  checknot d2 (str "f1");;
  create1 d1 (str "f2") (str "222");;
  unlink1 d2 (str "f2");;
  checknot d1 (str "f2");;
  checknot d2 (str "f2");;
  create1 d1 (str "f3") (str "333");;
  check1 d2 (str "f3") (str "333");;
  check1 d1 (str "f3") (str "333");;
  unlink1 d1 (str "f3");;
  create1 d2 (str "fx2") (str "22");;
  unlink1 d2 (str "fx2");;
  checknot d2 (str "f3");;
  checknot d1 (str "f3");;
  create1 d2 (str "f1") (str "aaa");;
  append1 d1 (str "f1") (str "bbb");;
  append1 d2 (str "f1") (str "ccc");;
  check1 d1 (str "f1") (str "aaabbbccc");;
  check1 d2 (str "f1") (str "aaabbbccc");;
  dircheck d1 1;;
  dircheck d2 1;;
  unlink1 d1 (str "f1");;
  dircheck d1 0;;
  dircheck d2 0;;
  create1 d2 (str "f2") (str "aaa");;
  create1 d1 (str "f3") (str "aaa");;
  dircheck d1 2;;
  dircheck d2 2;;
  unlink1 d2 (str "f2");;
  dircheck d2 1;;
  dircheck d1 1;;
  unlink1 d2 (str "f3");;
  dircheck d1 0;;
  dircheck d2 0;;
  createn d1 (str "aa") 10;;
  createn d2 (str "bb") 10;;
  dircheck d2 20;;
  checkn d2 (str "bb") 10;;
  checkn d2 (str "aa") 10;;
  checkn d1 (str "aa") 10;;
  checkn d1 (str "bb") 10;;
  unlinkn d1 (str "aa") 10;;
  unlinkn d2 (str "bb") 10;;
  create1 d1 (str "bf") big;;
  check1 d1 (str "bf") big;;
  check1 d2 (str "bf") big;;
  unlink1 d1 (str "bf").

End Test.

Section Main.
Context {W : Type} (K : kernel W).

(** [waitpid(pid, &status, 0)]: the process, and its status if it has exited *)
Definition waitpid (pid : Z) (r : res unit) : Z * option Z :=
  (pid, match r with Ok _ => Some 0 | Exit => Some 1 | Overrun => None end).

Definition reap (pid : Z) (answer : Z * option Z) : prog W unit :=
  let '(wpid, status) := answer in
  demand (0 <=? wpid);;
  demand (wpid =? pid);;
  demand (bool_decide (status = Some 0)).

(** [fork], the two processes up to [reap], and [reap] *)
Definition fork_reap (sched : list bool) (of_child of_parent : prog W unit) : T W unit := fun w =>
  let '(pid, w) := fork K w in
  if pid <? 0 then (Exit, w)
  else
    let '(rc, rp, w) := interleave sched of_child of_parent w in
    (T_bind _ _ (fun _ => alone (reap pid (waitpid pid rc))) (fun w => (rp, w))) w.

(** the tests that fork, the orders of the calls given *)
Definition concurrent_tests (sched : nat -> list bool) (d1 d2 : bytes) : T W unit :=
  let P := calls K parent in
  let C := calls K child in
  fork_reap (sched 0%nat) (createn C d2 (str "xx") 20) (createn P d1 (str "yy") 20);;
  alone (dircheck P d1 40;;
         checkn P d1 (str "xx") 20;;
         checkn P d2 (str "yy") 20;;
         unlinkn P d1 (str "xx") 20;;
         unlinkn P d1 (str "yy") 20);;
  fork_reap (sched 1%nat) (createn C d2 (str "zz") 20) (createn P d1 (str "zz") 20;; dircheck P d1 20);;
  alone (checkn P d1 (str "zz") 20;;
         checkn P d2 (str "zz") 20;;
         unlinkn P d1 (str "zz") 20);;
  alone (createn P d1 (str "x1") 20;;
         createn P d2 (str "x2") 20);;
  fork_reap (sched 2%nat) (unlinkn C d2 (str "x1") 20;; createn C d1 (str "x3") 20)
                          (createn P d1 (str "x4") 20);;
  alone (unlinkn P d2 (str "x2") 20;;
         unlinkn P d2 (str "x4") 20;;
         unlinkn P d2 (str "x3") 20;;
         dircheck P d1 0);;
  fork_reap (sched 3%nat) (createn C d1 (str "zz") 20) (createn P d1 (str "zz") 20;; dircheck P d1 20);;
  alone (checkn P d1 (str "zz") 20;;
         unlinkn P d1 (str "zz") 20).

Definition main (argv : list bytes) (getpid : Z) (sched : nat -> list bool) : T W unit :=
  let P := calls K parent in
  match argv with
  | [argv1; argv2] =>
      d1 ← alone (sprintf_path argv1 (str "d" ++ dec getpid));
      alone (r ← sys (mkdir P d1); demand (r =? 0));;
      d2 ← alone (sprintf_path argv2 (str "d" ++ dec getpid));
      alone (r ← sys (access P d2); demand (r =? 0));;
      alone (tests P d1 d2 big);;
      concurrent_tests sched d1 d2
  | _ => alone (End Exit)
  end.
End Main.
End test_lab_4_b.

(** The functions are, word for word, those of [test-lab-4-b.c]. *)
Module test_lab_4_c.
Section Main.
Context {W : Type} (K : kernel W).

Definition createn : posix W -> bytes -> bytes -> nat -> prog W unit := test_lab_4_b.createn.
Definition unlinkn : posix W -> bytes -> bytes -> nat -> prog W unit := test_lab_4_b.unlinkn.
Definition dircheck : posix W -> bytes -> nat -> prog W unit := test_lab_4_b.dircheck.

Definition main (argv : list bytes) (getpid : Z) (sched : list bool) : T W unit :=
  let P := calls K parent in
  let C := calls K child in
  match argv with
  | [argv1; argv2] =>
      d1 ← alone (test_lab_4_b.sprintf_path argv1 (str "da" ++ dec getpid));
      alone (r ← sys (mkdir P d1); demand (r =? 0));;
      d2 ← alone (test_lab_4_b.sprintf_path argv2 (str "db" ++ dec getpid));
      alone (r ← sys (mkdir P d2); demand (r =? 0));;
      dd ← alone (test_lab_4_b.sprintf_path argv2 (str "da" ++ dec getpid));
      alone (r ← sys (access P dd); demand (r =? 0));;
      test_lab_4_b.fork_reap K sched
        (createn C d2 (str "xx") 100;; unlinkn C d2 (str "xx") 99)
        (createn P d1 (str "yy") 100;; unlinkn P d1 (str "yy") 99);;
      alone (dircheck P d1 1;; dircheck P d2 1)
  | _ => alone (End Exit)
  end.
End Main.
End test_lab_4_c.
