(* ===== verification/MemKernel.v ===== *)
(** * A kernel with its files in memory

    An instance of the laws of [Posix] that computes, for the runs of the test
    programs on concrete arguments: one file system, mounted at [/a] and at [/b]. *)

From stdpp Require Import gmap list strings fin_sets infinite.
From Stdlib Require Import ZArith Lia Ascii.
From S2P Require Import Prelude Text Marshall Posix.

Local Open Scope Z_scope.

Record mem := Mem {
  m_dirs : gmap bytes Z;
  m_files : gmap Z (gmap bytes bytes);
  m_parent : gmap Z hand;
  m_child : gmap Z hand
}.

Definition mem_handles (w : mem) (i : proc) : gmap Z hand :=
  match i with parent => m_parent w | child => m_child w end.

Definition set_handles (i : proc) (H : gmap Z hand) (w : mem) : mem :=
  match i with
  | parent => Mem (m_dirs w) (m_files w) H (m_child w)
  | child => Mem (m_dirs w) (m_files w) (m_parent w) H
  end.

Definition mem_files (w : mem) (p : Z) : gmap bytes bytes := default ∅ (m_files w !! p).

Definition set_files (p : Z) (m : gmap bytes bytes) (w : mem) : mem :=
  Mem (m_dirs w) (<[p := m]> (m_files w)) (m_parent w) (m_child w).

(** the path below the mount *)
Definition mem_spot (d : bytes) : Z * bytes := (0, drop 2 d).
Definition mem_place (w : mem) (d : bytes) : option Z := m_dirs w !! drop 2 d.

(** the directory and the name *)
Fixpoint split_path (n : bytes) : option (bytes * bytes) :=
  match n with
  | [] => None
  | c :: n' =>
      match split_path n' with
      | Some (d, f) => Some (c :: d, f)
      | None => if bool_decide (c = slash) then Some ([], n') else None
      end
  end.

Definition find (n : bytes) (w : mem) : option (Z * bytes) :=
  '(d, f) ← split_path n; p ← mem_place w d; Some (p, f).

Definition fresh_fd (H : gmap Z hand) : Z :=
  Z.of_nat (fresh (Z.to_nat <$> (map_to_list H).*1)).

Definition mem_calls (i : proc) : posix mem := {|
  mkdir d w :=
    match mem_place w d with
    | Some _ => (-1, w)
    | None =>
        let p := fresh (map_to_list (m_dirs w)).*2 in
        (0, Mem (<[drop 2 d := p]> (m_dirs w)) (<[p := ∅]> (m_files w)) (m_parent w) (m_child w))
    end;
  access d w := (match mem_place w d with Some _ => 0 | None => -1 end, w);
  creat n w :=
    match find n w with
    | Some (p, f) =>
        let fd := fresh_fd (mem_handles w i) in
        (fd, set_handles i (<[fd := (p, f, Some 0%nat)]> (mem_handles w i))
               (set_files p (<[f := []]> (mem_files w p)) w))
    | None => (-1, w)
    end;
  open n app w :=
    match find n w with
    | Some (p, f) =>
        match mem_files w p !! f with
        | Some _ =>
            let fd := fresh_fd (mem_handles w i) in
            (fd, set_handles i (<[fd := (p, f, if app then None else Some 0%nat)]> (mem_handles w i)) w)
        | None => (-1, w)
        end
    | None => (-1, w)
    end;
  write fd buf w :=
    match mem_handles w i !! fd with
    | Some (p, f, o) =>
        match mem_files w p !! f with
        | Some b =>
            (Z.of_nat (length buf),
             set_handles i (<[fd := (p, f, (fun n => n + length buf)%nat <$> o)]> (mem_handles w i))
               (set_files p (<[f := put o b buf]> (mem_files w p)) w))
        | None => (-1, w)
        end
    | None => (-1, w)
    end;
  read fd size w :=
    match mem_handles w i !! fd with
    | Some (p, f, Some n) =>
        match mem_files w p !! f with
        | Some b =>
            let data := take (Z.to_nat size) (drop n b) in
            (Z.of_nat (length data), data,
             set_handles i (<[fd := (p, f, Some (n + length data)%nat)]> (mem_handles w i)) w)
        | None => (-1, [], w)
        end
    | _ => (-1, [], w)
    end;
  close fd w :=
    match mem_handles w i !! fd with
    | Some _ => (0, set_handles i (delete fd (mem_handles w i)) w)
    | None => (-1, w)
    end;
  unlink n w :=
    match find n w with
    | Some (p, f) =>
        match mem_files w p !! f with
        | Some _ => (0, set_files p (delete f (mem_files w p)) w)
        | None => (-1, w)
        end
    | None => (-1, w)
    end;
  listdir d w :=
    match mem_place w d with
    | Some p => (Some (str "." :: str ".." :: (map_to_list (mem_files w p)).*1), w)
    | None => (None, w)
    end
|}.

Definition mem_kernel : kernel mem :=
  {| calls := mem_calls; fork w := (8, set_handles child (m_parent w) w) |}.

Definition mem0 : mem := Mem ∅ ∅ ∅ ∅.

(** ** The laws *)

Lemma split_plain f : plain f = true -> split_path f = None.
Proof.
  intros Hf%negb_true_iff%bool_decide_eq_false. induction f as [|c f IH]; [done|].
  apply not_elem_of_cons in Hf as [Hc Hf]. cbn. rewrite IH by done. by rewrite bool_decide_false.
Qed.

Lemma split_join d f : plain f = true -> split_path (d ++ slash :: f) = Some (d, f).
Proof.
  intros Hf. induction d as [|c d IH]; cbn [app split_path]; [|by rewrite IH].
  rewrite split_plain by done. by rewrite bool_decide_true.
Qed.

Lemma find_join d f p w : mem_place w d = Some p -> plain f = true -> find (d ++ slash :: f) w = Some (p, f).
Proof. intros Hp Hf. unfold find. rewrite split_join by done. cbn. by rewrite Hp. Qed.

Lemma fresh_fd_new H : 0 <= fresh_fd H /\ H !! fresh_fd H = None.
Proof.
  unfold fresh_fd. split; [lia|]. destruct (H !! _) as [h|] eqn:E; [|done]. exfalso.
  apply (infinite_is_fresh (Z.to_nat <$> (map_to_list H).*1)). apply list_elem_of_fmap.
  exists (Z.of_nat (fresh (Z.to_nat <$> (map_to_list H).*1))). split; [by rewrite Nat2Z.id|].
  apply list_elem_of_fmap. eexists (_, h). split; [done|]. by apply elem_of_map_to_list.
Qed.

Lemma get_set_handles i j H w : mem_handles (set_handles i H w) j = if decide (i = j) then H else mem_handles w j.
Proof. by destruct i, j. Qed.

Lemma files_set_files p q m w : mem_files (set_files p m w) q = if decide (p = q) then m else mem_files w q.
Proof.
  unfold mem_files, set_files. cbn. case_decide as E; [subst; by rewrite lookup_insert_eq|by rewrite lookup_insert_ne].
Qed.

Lemma files_set_handles i H w p : mem_files (set_handles i H w) p = mem_files w p.
Proof. by destruct i. Qed.

Lemma place_set_handles i H w d : mem_place (set_handles i H w) d = mem_place w d.
Proof. by destruct i. Qed.

Lemma handles_set_files p m w i : mem_handles (set_files p m w) i = mem_handles w i.
Proof. by destruct i. Qed.

(** What is left of a law once the call is computed. *)
Ltac frames :=
  repeat match goal with
  | |- _ /\ _ => split
  | |- forall _, _ => intros ?
  end;
  repeat first
    [ rewrite files_set_handles | rewrite files_set_files | rewrite get_set_handles
    | rewrite handles_set_files | rewrite place_set_handles | rewrite decide_True by done
    | rewrite decide_False by (apply not_eq_sym, other_ne) | rewrite decide_False by done ]; try done.

Lemma mem_mkdir i w d : mem_place w d = None ->
  exists w' p, mkdir (mem_calls i) d w = (0, w') /\ mem_place w' d = Some p /\
    (mem_files w' p = ∅ /\ forall p', p' <> p -> mem_files w' p' = mem_files w p') /\
    (forall j, mem_handles w' j = mem_handles w j) /\ (forall d', mem_place w d' <> Some p) /\
    forall d', mem_spot d' <> mem_spot d ->
      mem_place w' d' = mem_place w d' /\ (mem_place w d' = None -> mem_place w' d' = None).
Proof.
  intros Hd. cbn [mem_calls mkdir]. rewrite Hd. set (p := fresh _). do 2 eexists. split; [done|].
  split; [unfold mem_place; cbn; by rewrite lookup_insert_eq|]. split; [|split; [by intros []|split]].
  - split; [unfold mem_files; cbn; by rewrite lookup_insert_eq|]. intros p' Hp. unfold mem_files. cbn.
    by rewrite lookup_insert_ne.
  - intros d' E. apply (infinite_is_fresh (map_to_list (m_dirs w)).*2). fold p. apply list_elem_of_fmap.
    exists (drop 2 d', p). split; [done|]. by apply elem_of_map_to_list.
  - intros d' Hs. assert (drop 2 d <> drop 2 d') by (intros E; apply Hs; unfold mem_spot; by rewrite E).
    unfold mem_place. cbn. by rewrite lookup_insert_ne.
Qed.

#[global] Program Instance mem_laws : KernelLaws mem_kernel := {|
  spot := mem_spot;
  place := mem_place;
  can_make w d := mem_place w d = None;
  files := mem_files;
  handles := mem_handles
|}.
Next Obligation. intros w d d' [= E]. unfold mem_place. by rewrite E. Qed.
Next Obligation. exact mem_mkdir. Qed.
Next Obligation. intros i w d p Hp. exists w. cbn. by rewrite Hp. Qed.
Next Obligation.
  intros i w d f p Hp Hf. cbn [calls mem_kernel mem_calls creat]. rewrite (find_join d f p w Hp Hf).
  destruct (fresh_fd_new (mem_handles w i)). do 2 eexists. split; [done|]. split; [done|]. frames.
Qed.
Next Obligation.
  intros i w d f p app Hp Hf. cbn [calls mem_kernel mem_calls open]. rewrite (find_join d f p w Hp Hf).
  destruct (fresh_fd_new (mem_handles w i)). destruct (mem_files w p !! f); do 2 eexists; (split; [done|]); frames.
Qed.
Next Obligation.
  intros i w fd buf p f o b Hfd Hb Hn. cbn [calls mem_kernel mem_calls write]. rewrite Hfd, Hb.
  eexists. split; [done|]. frames.
Qed.
Next Obligation.
  intros i w fd size p f b Hfd Hb Hs. cbn [calls mem_kernel mem_calls read]. rewrite Hfd, Hb.
  rewrite drop_0, take_ge by lia. eexists. split; [done|]. frames.
Qed.
Next Obligation.
  intros i w fd [h Hfd]. cbn [calls mem_kernel mem_calls close]. rewrite Hfd. eexists. split; [done|]. frames.
Qed.
Next Obligation.
  intros i w d f p b Hp Hf Hb. cbn [calls mem_kernel mem_calls unlink]. rewrite (find_join d f p w Hp Hf), Hb.
  eexists. split; [done|]. frames.
Qed.
Next Obligation.
  intros i w d p Hp. cbn [calls mem_kernel mem_calls listdir]. rewrite Hp. do 2 eexists. split; [done|]. by frames.
Qed.
Next Obligation. intros w. cbn [fork mem_kernel]. do 2 eexists. split; [done|]. by frames. Qed.
