(* ===== verification/LabPasses.v ===== *)
(** * The tests pass on every file system that keeps the laws

    What each function of the tests does to the files that belong to its process,
    while another process changes other files; then the tests of
    [test-lab-4-b.c] and [test-lab-4-c.c] as a whole, for every order of the
    calls. *)

From stdpp Require Import gmap list strings sorting.
From Stdlib Require Import ZArith Lia Ascii.
From S2P Require Import Prelude Text Marshall Posix LabTest MemKernel.
Import test_lab_4_b.

Local Open Scope Z_scope.

(** A name that fits into the buffers. *)
Definition short (f : bytes) : bool := plain f && (length f <=? 50)%nat.

Lemma short_plain f : short f = true -> plain f = true.
Proof. by intros [? _]%andb_true_iff. Qed.

Lemma sprintf_short {W A} d f (k : bytes -> prog W A) :
  (length d <= 400)%nat -> short f = true -> (n ← sprintf_path d f; k n) = k (d ++ slash :: f).
Proof.
  intros Hd [_ Hf%Nat.leb_le]%andb_true_iff. unfold sprintf_path.
  assert (((length (d ++ slash :: f)) <? 512)%nat = true) as ->; [|done].
  apply Nat.ltb_lt. rewrite length_app. cbn [length]. lia.
Qed.

Definition shorts (prefix : bytes) (nf : nat) : bool :=
  forallb (fun k => short (numbered prefix k)) (seq 0 nf).

(** The numbered files are there. *)
Definition has_numbered (prefix : bytes) (nf : nat) (m : gmap bytes bytes) : bool :=
  forallb (fun k => bool_decide (m !! numbered prefix k = Some (int_bytes k))) (seq 0 nf).

Definition with_numbered (prefix : bytes) (nf : nat) (m : gmap bytes bytes) : gmap bytes bytes :=
  foldl (fun m k => <[numbered prefix k := int_bytes k]> m) m (seq 0 nf).

Definition without_numbered (prefix : bytes) (nf : nat) (m : gmap bytes bytes) : gmap bytes bytes :=
  foldl (fun m k => delete (numbered prefix k) m) m (seq 0 nf).

Lemma forallb_at {A} (f : A -> bool) l l1 x l2 : forallb f l = true -> l = l1 ++ x :: l2 -> f x = true.
Proof. intros Hl ->. rewrite forallb_app in Hl. by apply andb_true_iff in Hl as [_ [? _]%andb_true_iff]. Qed.

Lemma foldl_same {A B} (m : B) (l : list A) : foldl (fun m _ => m) m l = m.
Proof. by induction l. Qed.

Lemma foldl_delete (name : nat -> bytes) (l : list nat) (k : nat) (m : gmap bytes bytes) :
  name k ∉ map name l -> foldl (fun m k => delete (name k) m) m l !! name k = m !! name k.
Proof.
  revert m. induction l as [|j l IH]; intros m Hk; [done|]. cbn [foldl map] in *.
  apply not_elem_of_cons in Hk as [Hj Hk]. rewrite IH by done. by rewrite lookup_delete_ne.
Qed.

(** ** Entries of a directory *)

Definition entries (m : gmap bytes bytes) : nat := length (filter visible (map_to_list m).*1).

(** The answer of [readdir] to the end. *)
Definition listed (l : option (list bytes)) (m : gmap bytes bytes) : Prop :=
  exists l', l = Some l' /\ filter visible l' ≡ₚ filter visible (map_to_list m).*1.

Lemma duplicate_none l : NoDup l -> duplicate l = false.
Proof.
  induction l as [|x [|y l] IH]; [done|done|]. intros [Hx Hl]%NoDup_cons. cbn [duplicate].
  apply orb_false_iff. split; [|by apply IH]. apply bool_decide_eq_false. intros ->. apply Hx. left.
Qed.

Lemma keys_perm (m m' : gmap bytes bytes) :
  (forall f, is_Some (m !! f) <-> is_Some (m' !! f)) -> (map_to_list m).*1 ≡ₚ (map_to_list m').*1.
Proof.
  intros Hm. apply NoDup_Permutation; [apply NoDup_fst_map_to_list..|]. intros f.
  assert (forall m : gmap bytes bytes, f ∈ (map_to_list m).*1 <-> is_Some (m !! f)) as Hk.
  { intros m0. rewrite list_elem_of_fmap. split.
    - intros ([g b] & -> & Hg%elem_of_map_to_list). by exists b.
    - intros [b Hb]. exists (f, b). split; [done|]. by apply elem_of_map_to_list. }
  by rewrite !Hk.
Qed.

Lemma dircheck_passes {W} (R G : W -> W -> Prop) l m nf (Q : unit -> W -> Prop) w :
  listed l m -> entries m = nf -> (nf <= 1000)%nat -> Q () w -> safe R G (dircheck_names l nf) Q w.
Proof.
  intros (l' & -> & HP) He Hnf HQ. unfold dircheck_names, entries in *. rewrite <- HP in He. rewrite He.
  rewrite (proj2 (Nat.ltb_ge _ _)), Nat.eqb_refl by lia. cbn [demand].
  rewrite duplicate_none; [done|]. rewrite merge_sort_Permutation, HP.
  apply NoDup_filter, NoDup_fst_map_to_list.
Qed.

(** ** What a process relies on *)

Section Rely.
Context {W : Type} {K : kernel W} `{!KernelLaws K}.

(** The directories stay, so do the descriptors of the process and the files that
    belong to it. *)
Definition rely (i : proc) (own : Z -> bytes -> Prop) (w w' : W) : Prop :=
  (forall d, place w' d = place w d) /\ handles w' i = handles w i /\
  forall p f, own p f -> files w' p !! f = files w p !! f.

#[global] Instance rely_preorder i own : PreOrder (rely i own).
Proof.
  split; [done|]. intros w1 w2 w3 (P1 & H1 & F1) (P2 & H2 & F2). split; [intros d; by rewrite P2|].
  split; [by rewrite H2|]. intros p f Hf. by rewrite F2, F1.
Qed.
End Rely.

(** ** One process *)

Section Process.
Context {W : Type} (K : kernel W) `{!KernelLaws K}.
Context (i : proc) (own own' : Z -> bytes -> Prop) (mount : bytes -> Prop) (p : Z).
Context (Hown : forall q f, own q f -> own' q f -> False).
Context (Hlen : forall d, mount d -> (length d <= 400)%nat).
Let P : posix W := calls K i.
Let R : W -> W -> Prop := rely i own.
Let G : W -> W -> Prop := rely (other i) own'.

(** The directory under test, the open files of the process, and what it knows of
    its files. *)
Definition view (H : gmap Z hand) (m : gmap bytes bytes) (w : W) : Prop :=
  (forall d, mount d -> place w d = Some p) /\ handles w i = H /\
  forall f, own p f -> files w p !! f = m !! f.

Lemma view_stable H m w w' : view H m w -> rely i own w w' -> view H m w'.
Proof.
  intros (Hp & HH & Hm) (P1 & H1 & F1). split; [intros d Hd; rewrite P1; by apply Hp|].
  split; [by rewrite H1|]. intros f Hf. rewrite F1 by done. by apply Hm.
Qed.

(** The program takes the files of the process from one state to another. *)
Definition takes (t : prog W unit) (m m' : gmap bytes bytes) : Prop :=
  forall w, view ∅ m w -> safe R G t (fun _ => view ∅ m') w.

Lemma safe_call {A} (f : W -> A * W) H m Q w :
  (forall w, view H m w -> G w (f w).2 /\ Q (f w).1 (f w).2) -> view H m w -> safe R G (sys f) Q w.
Proof. apply (safe_sys R G f (view H m)). apply view_stable. Qed.

Lemma step_changed H H' m m' M w w' :
  view H m w -> frame i w w' -> only p M w w' -> handles w' i = H' ->
  (forall f, own p f -> M !! f = m' !! f) -> (forall f, own' p f -> M !! f = files w p !! f) ->
  G w w' /\ view H' m' w'.
Proof.
  intros (Hp & HH & Hm) [P1 H1] [F1 F2] HH' HM HM'. split.
  - split; [done|]. split; [done|]. intros q f Hf. destruct (decide (q = p)) as [->|Hq]; [|by rewrite F2].
    rewrite F1. by apply HM'.
  - split; [intros d Hd; rewrite P1; by apply Hp|]. split; [done|]. intros f Hf. rewrite F1. by apply HM.
Qed.

Lemma step_insert H H' m f b w w' :
  own p f -> view H m w -> frame i w w' -> only p (<[f := b]> (files w p)) w w' -> handles w' i = H' ->
  G w w' /\ view H' (<[f := b]> m) w'.
Proof.
  intros Hf Hv HF HO HH. apply (step_changed H H' m _ _ w w' Hv HF HO HH).
  - intros g Hg. destruct Hv as (_ & _ & Hm). destruct (decide (f = g)) as [->|]; [by rewrite !lookup_insert_eq|].
    rewrite !lookup_insert_ne by done. by apply Hm.
  - intros g Hg. apply lookup_insert_ne. intros ->. by apply (Hown p g).
Qed.

Lemma step_delete H H' m f w w' :
  own p f -> view H m w -> frame i w w' -> only p (delete f (files w p)) w w' -> handles w' i = H' ->
  G w w' /\ view H' (delete f m) w'.
Proof.
  intros Hf Hv HF HO HH. apply (step_changed H H' m _ _ w w' Hv HF HO HH).
  - intros g Hg. destruct Hv as (_ & _ & Hm). destruct (decide (f = g)) as [->|]; [by rewrite !lookup_delete_eq|].
    rewrite !lookup_delete_ne by done. by apply Hm.
  - intros g Hg. apply lookup_delete_ne. intros ->. by apply (Hown p g).
Qed.

Lemma step_same H H' m w w' :
  view H m w -> frame i w w' -> same_files w w' -> handles w' i = H' -> G w w' /\ view H' m w'.
Proof.
  intros Hv HF HO HH. apply (step_changed H H' m m (files w p) w w' Hv HF); [|done|apply Hv|done].
  split; intros; apply HO.
Qed.

(** *** Calls *)

Lemma creat_call d f H m w :
  mount d -> plain f = true -> own p f -> view H m w ->
  safe R G (sys (creat P (d ++ slash :: f)))
    (fun fd w' => 0 <= fd /\ H !! fd = None /\ view (<[fd := (p, f, Some 0%nat)]> H) (<[f := []]> m) w') w.
Proof.
  intros Hd Hf Ho. apply safe_call. clear w. intros w Hv.
  destruct (law_creat i w d f p) as (fd & w' & E & Hfd & HF & HO & HN & HH); [by apply Hv|done|].
  unfold P. rewrite E. cbn [fst snd]. rewrite (proj1 (proj2 Hv)) in HN, HH.
  by destruct (step_insert H _ m f [] w w' Ho Hv HF HO HH).
Qed.

Lemma write_call fd buf f o b H m w :
  H !! fd = Some (p, f, o) -> m !! f = Some b -> own p f ->
  (forall n, o = Some n -> (n <= length b)%nat) -> view H m w ->
  safe R G (sys (write P fd buf))
    (fun c w' => c = len buf /\
       view (<[fd := (p, f, (fun n => n + length buf)%nat <$> o)]> H) (<[f := put o b buf]> m) w') w.
Proof.
  intros Hfd Hb Ho Hn. apply safe_call. clear w. intros w Hv.
  destruct (law_write i w fd buf p f o b) as (w' & E & HF & HO & HH);
    [by rewrite (proj1 (proj2 Hv))|by rewrite (proj2 (proj2 Hv))|done|].
  unfold P. rewrite E. cbn [fst snd]. rewrite (proj1 (proj2 Hv)) in HH.
  by destruct (step_insert H _ m f (put o b buf) w w' Ho Hv HF HO HH).
Qed.

Lemma close_call fd H m w :
  is_Some (H !! fd) -> view H m w ->
  safe R G (sys (close P fd)) (fun c w' => c = 0 /\ view (delete fd H) m w') w.
Proof.
  intros Hfd. apply safe_call. clear w. intros w Hv.
  destruct (law_close i w fd) as (w' & E & HF & HO & HH); [by rewrite (proj1 (proj2 Hv))|].
  unfold P. rewrite E. cbn [fst snd]. rewrite (proj1 (proj2 Hv)) in HH.
  by destruct (step_same H _ m w w' Hv HF HO HH).
Qed.

Lemma open_call d f (app : bool) H m w :
  mount d -> plain f = true -> own p f -> view H m w ->
  safe R G (sys (open P (d ++ slash :: f) app))
    (fun fd w' =>
       match m !! f with
       | Some _ => 0 <= fd /\ H !! fd = None /\
           view (<[fd := (p, f, if app then None else Some 0%nat)]> H) m w'
       | None => fd < 0 /\ view H m w'
       end) w.
Proof.
  intros Hd Hf Ho. apply safe_call. clear w. intros w Hv.
  destruct (law_open i w d f p app) as (fd & w' & E & HF & HO & Hx); [by apply Hv|done|].
  unfold P. rewrite E. cbn [fst snd]. rewrite (proj2 (proj2 Hv) f Ho), (proj1 (proj2 Hv)) in Hx.
  destruct (m !! f); [destruct Hx as (Hfd & HN & HH)|destruct Hx as [Hfd HH]];
    by destruct (step_same H _ m w w' Hv HF HO HH).
Qed.

Lemma read_call fd size f b H m w :
  H !! fd = Some (p, f, Some 0%nat) -> m !! f = Some b -> own p f -> len b <= size -> view H m w ->
  safe R G (sys (fun w => let '(cc, buf, w) := read P fd size w in ((cc, buf), w)))
    (fun r w' => r = (len b, b) /\ view (<[fd := (p, f, Some (length b))]> H) m w') w.
Proof.
  intros Hfd Hb Ho Hs. apply safe_call. clear w. intros w Hv.
  destruct (law_read i w fd size p f b) as (w' & E & HF & HO & HH);
    [by rewrite (proj1 (proj2 Hv))|by rewrite (proj2 (proj2 Hv))|done|].
  unfold P. rewrite E. cbn [fst snd]. rewrite (proj1 (proj2 Hv)) in HH.
  by destruct (step_same H _ m w w' Hv HF HO HH).
Qed.

Lemma unlink_call d f b H m w :
  mount d -> plain f = true -> own p f -> m !! f = Some b -> view H m w ->
  safe R G (sys (unlink P (d ++ slash :: f))) (fun r w' => r = 0 /\ view H (delete f m) w') w.
Proof.
  intros Hd Hf Ho Hb. apply safe_call. clear w. intros w Hv.
  destruct (law_unlink i w d f p b) as (w' & E & HF & HO & HH);
    [by apply Hv|done|by rewrite (proj2 (proj2 Hv))|].
  unfold P. rewrite E. cbn [fst snd]. rewrite (proj1 (proj2 Hv)) in HH.
  by destruct (step_delete H _ m f w w' Ho Hv HF HO HH).
Qed.

(** *** Functions of the tests *)

Lemma takes_bind t k m1 m2 m3 : takes t m1 m2 -> takes k m2 m3 -> takes (t;; k) m1 m3.
Proof.
  intros Ht Hk w Hw. apply safe_bind. apply (safe_mono _ _ _ (fun _ => view ∅ m2)); [|by apply Ht].
  intros _ w'. apply Hk.
Qed.

Lemma takes_to t m m' m'' : takes t m m' -> m' = m'' -> takes t m m''.
Proof. by intros ? <-. Qed.

Lemma path_runs d f (k : bytes -> prog W unit) m m' :
  mount d -> short f = true -> takes (k (d ++ slash :: f)) m m' -> takes (n ← sprintf_path d f; k n) m m'.
Proof.
  intros Hd%Hlen Hf Hk. by rewrite sprintf_short.
Qed.

(** [write] and [close] *)
Lemma put_close fd inp f o b m w :
  m !! f = Some b -> own p f -> (forall n, o = Some n -> (n <= length b)%nat) -> view {[fd := (p, f, o)]} m w ->
  safe R G (c ← sys (write P fd inp); demand (c =? len inp);; r ← sys (close P fd); demand (r =? 0))
    (fun _ => view ∅ (<[f := put o b inp]> m)) w.
Proof.
  intros Hb Ho Hn Hv. apply safe_bind. eapply safe_mono; [|eapply write_call; [by rewrite lookup_insert_eq|done..]].
  intros c w1 [-> H1]. apply safe_demand; [apply Z.eqb_refl|]. apply safe_bind.
  rewrite insert_insert_eq in H1. eapply safe_mono; [|eapply close_call; [|done]; by rewrite lookup_insert_eq].
  intros r w2 [-> H2]. by rewrite delete_insert_id in H2.
Qed.

Lemma put_file_ok d f inp m :
  mount d -> plain f = true -> own p f -> takes (put_file P (d ++ slash :: f) inp) m (<[f := inp]> m).
Proof.
  intros Hd Hf Ho w Hw. apply safe_bind. eapply safe_mono; [|by eapply creat_call].
  intros fd w1 (Hfd%Z.leb_le & _ & H1). apply safe_demand; [done|].
  pose proof (put_close fd inp f (Some 0%nat) [] (<[f := []]> m) w1) as Hs.
  rewrite insert_insert_eq in Hs. replace (put (Some 0%nat) [] inp) with inp in Hs
    by (cbn; by rewrite drop_nil, app_nil_r).
  apply Hs; [by rewrite lookup_insert_eq|done| |done]. intros n [= <-]. lia.
Qed.

Lemma create1_ok d f inp m :
  mount d -> short f = true -> own p f -> takes (create1 P d f inp) m (<[f := inp]> m).
Proof. intros Hd Hf Ho. apply path_runs; [done..|]. apply put_file_ok; [done|by apply short_plain|done]. Qed.

Lemma append1_ok d f inp m b :
  mount d -> short f = true -> own p f -> m !! f = Some b ->
  takes (append1 P d f inp) m (<[f := b ++ inp]> m).
Proof.
  intros Hd Hf Ho Hb. apply path_runs; [done..|]. intros w Hw. apply safe_bind.
  eapply safe_mono; [|eapply (open_call d f true); [done|by apply short_plain|done..]].
  intros fd w1. rewrite Hb. intros (Hfd%Z.leb_le & _ & H1). apply safe_demand; [done|].
  by apply (put_close fd inp f None b).
Qed.

(** [open] for reading, [read], tests of what was read, and [close] *)
Lemma read_back d f size m b (k : Z * bytes -> Z -> prog W unit) :
  mount d -> plain f = true -> own p f -> m !! f = Some b -> len b <= size ->
  (forall fd w, view {[fd := (p, f, Some (length b))]} m w ->
     safe R G (k (len b, b) fd) (fun _ => view ∅ m) w) ->
  takes (fd ← sys (open P (d ++ slash :: f) false); demand (0 <=? fd);;
         r ← sys (fun w => let '(cc, buf, w) := read P fd size w in ((cc, buf), w)); k r fd) m m.
Proof.
  intros Hd Hf Ho Hb Hs Hk w Hw. apply safe_bind.
  eapply safe_mono; [|by eapply (open_call d f false)]. intros fd w1. rewrite Hb.
  intros (Hfd%Z.leb_le & _ & H1). apply safe_demand; [done|]. apply safe_bind.
  eapply safe_mono; [|eapply read_call; [by rewrite lookup_insert_eq|done..]].
  intros r w2 [-> H2]. rewrite insert_insert_eq in H2. by apply Hk.
Qed.

Lemma close_last fd h m w :
  view {[fd := h]} m w -> safe R G (sys (close P fd)) (fun _ => view ∅ m) w.
Proof.
  intros Hv. eapply safe_mono; [|eapply close_call; [|done]; by rewrite lookup_singleton_eq].
  intros r w2 [_ H2]. by rewrite delete_singleton_eq in H2.
Qed.

Lemma check1_ok d f m b :
  mount d -> short f = true -> own p f -> m !! f = Some b -> len b <= 20999 -> takes (check1 P d f b) m m.
Proof.
  intros Hd Hf Ho Hb Hl. apply path_runs; [done..|]. apply (read_back d f (21000 - 1) m b
    (fun r fd => demand (r.1 =? len b);; sys (close P fd);;
                 demand (strncmp_eq r.2 b (length (d ++ slash :: f))))); [done|by apply short_plain|done..|].
  intros fd w Hw. cbn [fst snd]. apply safe_demand; [apply Z.eqb_refl|]. apply safe_bind.
  eapply safe_mono; [|by eapply close_last]. intros r w1 H1. unfold strncmp_eq. by rewrite bool_decide_true.
Qed.

Lemma checknot_ok d f m :
  mount d -> short f = true -> own p f -> m !! f = None -> takes (checknot P d f) m m.
Proof.
  intros Hd Hf Ho Hb. apply path_runs; [done..|]. intros w Hw. apply safe_bind.
  eapply safe_mono; [|eapply (open_call d f false); [done|by apply short_plain|done..]].
  intros fd w1. rewrite Hb. intros [Hfd%Z.ltb_lt H1]. by rewrite Hfd.
Qed.

Lemma remove_file d f m b :
  mount d -> plain f = true -> own p f -> m !! f = Some b ->
  takes (r ← sys (unlink P (d ++ slash :: f)); demand (r =? 0)) m (delete f m).
Proof.
  intros Hd Hf Ho Hb w Hw. apply safe_bind. eapply safe_mono; [|by eapply unlink_call].
  by intros r w1 [-> H1].
Qed.

Lemma unlink1_ok d f m b :
  mount d -> short f = true -> own p f -> m !! f = Some b -> takes (unlink1 P d f) m (delete f m).
Proof. intros Hd Hf Ho Hb. apply path_runs; [done..|]. apply (remove_file d f m b); [done|by apply short_plain|done..]. Qed.

Lemma takes_each {A} (t : A -> prog W unit) (g : gmap bytes bytes -> A -> gmap bytes bytes) l m :
  (forall l1 x l2, l = l1 ++ x :: l2 -> takes (t x) (foldl g m l1) (g (foldl g m l1) x)) ->
  takes (each l t) m (foldl g m l).
Proof. intros Hl w Hw. by apply (safe_each R G t (view ∅) g). Qed.

Lemma createn_ok d prefix nf m :
  mount d -> shorts prefix nf = true -> (forall k, own p (numbered prefix k)) ->
  takes (createn P d prefix nf) m (with_numbered prefix nf m).
Proof.
  intros Hd Hs Ho. apply takes_each. intros l1 k l2 E.
  pose proof (forallb_at _ _ _ _ _ Hs E : short (numbered prefix k) = true).
  apply path_runs; [done..|]. apply put_file_ok; [done|by apply short_plain|done].
Qed.

Lemma checkn_ok d prefix nf m :
  mount d -> shorts prefix nf = true -> (forall k, own p (numbered prefix k)) ->
  has_numbered prefix nf m = true -> takes (checkn P d prefix nf) m m.
Proof.
  intros Hd Hs Ho Hm. rewrite <- (foldl_same m (seq 0 nf)) at 2. apply takes_each.
  intros l1 k l2 E. rewrite foldl_same.
  pose proof (forallb_at _ _ _ _ _ Hs E : short (numbered prefix k) = true).
  apply (forallb_at _ _ _ _ _) with (2 := E) in Hm. apply bool_decide_eq_true in Hm.
  apply path_runs; [done..|]. apply (read_back d (numbered prefix k) 4 m (int_bytes k)
    (fun r fd => demand (r.1 =? 4);; demand (bool_decide (r.2 = int_bytes k));; sys (close P fd);; mret ()));
    [done|by apply short_plain|done..|].
  intros fd w Hw. apply safe_demand; [done|]. apply safe_demand; [by rewrite bool_decide_true|].
  apply safe_bind. eapply safe_mono; [|by eapply close_last]. done.
Qed.

Lemma unlinkn_ok d prefix nf m :
  mount d -> shorts prefix nf = true -> (forall k, own p (numbered prefix k)) ->
  NoDup (map (numbered prefix) (seq 0 nf)) -> has_numbered prefix nf m = true ->
  takes (unlinkn P d prefix nf) m (without_numbered prefix nf m).
Proof.
  intros Hd Hs Ho Hn Hm. apply takes_each. intros l1 k l2 E.
  pose proof (forallb_at _ _ _ _ _ Hs E : short (numbered prefix k) = true).
  apply (forallb_at _ _ _ _ _) with (2 := E) in Hm. apply bool_decide_eq_true in Hm.
  rewrite E, map_app in Hn. apply NoDup_app in Hn as (_ & Hn & _).
  apply path_runs; [done..|]. apply (remove_file d _ _ (int_bytes k)); [done|by apply short_plain|done|].
  rewrite foldl_delete; [done|]. intros Hi. apply (Hn _ Hi). left.
Qed.

Lemma dircheck_ok d nf m :
  mount d -> (forall f, own p f) -> (nf <= 1000)%nat -> entries m = nf -> takes (dircheck P d nf) m m.
Proof.
  intros Hd Ho Hnf Hl w Hw. apply safe_bind. eapply (safe_mono _ _ _ (fun l w' => listed l m /\ view ∅ m w'));
    [|eapply safe_call; [|done]].
  - intros l w1 [Hls H1]. by apply (dircheck_passes R G l m nf).
  - intros w1 Hv. destruct (law_list i w1 d p) as (l & w2 & E & HF & HO & HH & HP); [by apply Hv|].
    unfold P. rewrite E. cbn [fst snd]. rewrite (proj1 (proj2 Hv)) in HH.
    destruct (step_same _ _ m w1 w2 Hv HF HO HH) as [HG H2]. split; [done|]. split; [|done].
    replace m with (files w1 p); [by exists l|]. apply map_eq. intros f. by apply Hv.
Qed.

End Process.

(** ** Two processes that make the same files *)

Section Shared.
Context {W : Type} (K : kernel W) `{!KernelLaws K}.
Context (i : proc) (mount : bytes -> Prop) (p : Z).
Context (Hlen : forall d, mount d -> (length d <= 400)%nat).
(** the files that both make, in a directory that is empty otherwise *)
Context (goal : gmap bytes bytes).

Definition pending (w : W) (f : bytes) : Prop :=
  exists j fd, handles w j !! fd = Some (p, f, Some 0%nat).

(** A file of [goal] is not made, or complete, or empty while one of the processes
    has still to write it. *)
Definition shared (w : W) : Prop :=
  forall f, match goal !! f with
  | None => files w p !! f = None
  | Some b => files w p !! f = None \/ files w p !! f = Some b \/ (files w p !! f = Some [] /\ pending w f)
  end.

Definition joint (j : proc) (w w' : W) : Prop :=
  (forall d, place w' d = place w d) /\ handles w' j = handles w j /\ (shared w -> shared w') /\
  forall f, is_Some (files w p !! f) -> is_Some (files w' p !! f).

#[global] Instance joint_preorder j : PreOrder (joint j).
Proof.
  split; [done|]. intros w1 w2 w3 (P1 & H1 & S1 & F1) (P2 & H2 & S2 & F2). split; [intros d; by rewrite P2|].
  split; [by rewrite H2|]. split; [by auto|]. intros f Hf. by apply F2, F1.
Qed.

Let P : posix W := calls K i.
Let R : W -> W -> Prop := joint i.
Let G : W -> W -> Prop := joint (other i).

(** [made]: files that exist *)
Definition sview (H : gmap Z hand) (made : list bytes) (w : W) : Prop :=
  (forall d, mount d -> place w d = Some p) /\ handles w i = H /\ shared w /\
  Forall (fun f => is_Some (files w p !! f)) made.

Lemma sview_stable H made w w' : sview H made w -> joint i w w' -> sview H made w'.
Proof.
  intros (Hp & HH & Hs & Hm) (P1 & H1 & S1 & F1). split; [intros d Hd; rewrite P1; by apply Hp|].
  split; [by rewrite H1|]. split; [by apply S1|]. by eapply Forall_impl.
Qed.

Definition joins (t : prog W unit) (made made' : list bytes) : Prop :=
  forall w, sview ∅ made w -> safe R G t (fun _ => sview ∅ made') w.

Lemma safe_scall {A} (f : W -> A * W) H made Q w :
  (forall w, sview H made w -> G w (f w).2 /\ Q (f w).1 (f w).2) -> sview H made w -> safe R G (sys f) Q w.
Proof. apply (safe_sys R G f (sview H made)). apply sview_stable. Qed.

(** A call that keeps the files there, and the state of the shared files. *)
Lemma sstep H H' made made' w w' :
  sview H made w -> frame i w w' -> handles w' i = H' -> shared w' ->
  (forall f, is_Some (files w p !! f) -> is_Some (files w' p !! f)) ->
  Forall (fun f => is_Some (files w' p !! f)) made' -> G w w' /\ sview H' made' w'.
Proof.
  intros (Hp & HH & Hs & Hm) [P1 H1] HH' Hs' Hi Hm'. split; [done|].
  split; [intros d Hd; rewrite P1; by apply Hp|]. done.
Qed.

(** The other files keep their state when [f] is changed by this process. *)
Lemma shared_insert H w w' f b c :
  shared w -> handles w i = H -> (forall fd h, H !! fd = Some h -> h.1.2 = f) ->
  handles w' (other i) = handles w (other i) -> only p (<[f := c]> (files w p)) w w' ->
  goal !! f = Some b -> c = b \/ (c = [] /\ pending w' f) -> shared w'.
Proof.
  intros Hs HH Hf Ho [F1 _] Hb Hc g. destruct (decide (g = f)) as [->|Hg].
  - rewrite Hb, F1, lookup_insert_eq. destruct Hc as [->|[-> Hc]]; auto.
  - specialize (Hs g). rewrite F1, lookup_insert_ne by done. destruct (goal !! g); [|done].
    destruct Hs as [Hs|[Hs|[Hs (j & fd & Hj)]]]; [auto..|]. right; right. split; [done|]. exists j, fd.
    destruct (decide (j = i)) as [->|Hj']; [rewrite HH in Hj; by apply Hf in Hj as <-|].
    replace j with (other i) in * by (by destruct i, j). by rewrite Ho.
Qed.

Lemma shared_kept w w' :
  same_files w w' -> handles w' (other i) = handles w (other i) ->
  (forall fd f, handles w i !! fd = Some (p, f, Some 0%nat) -> handles w' i !! fd = Some (p, f, Some 0%nat)) ->
  shared w -> shared w'.
Proof.
  intros HO HF HH Hs g. specialize (Hs g). rewrite (HO p). destruct (goal !! g); [|done].
  destruct Hs as [Hs|[Hs|[Hs (j & fd & Hj)]]]; [auto..|]. right; right. split; [done|]. exists j, fd.
  destruct (decide (j = i)) as [->|Hj']; [by apply HH|].
  replace j with (other i) in * by (by destruct i, j). by rewrite HF.
Qed.

Lemma is_Some_insert (m : gmap bytes bytes) f b g : is_Some (m !! g) -> is_Some (<[f := b]> m !! g).
Proof. intros Hg. destruct (decide (f = g)) as [->|]; [by rewrite lookup_insert_eq|by rewrite lookup_insert_ne]. Qed.

Lemma creat_shared d f b made w :
  mount d -> plain f = true -> goal !! f = Some b -> sview ∅ made w ->
  safe R G (sys (creat P (d ++ slash :: f)))
    (fun fd w' => 0 <= fd /\ sview {[fd := (p, f, Some 0%nat)]} (f :: made) w') w.
Proof.
  intros Hd Hf Hb. apply safe_scall. clear w. intros w Hv. pose proof Hv as (Hp & HH & Hs & Hm).
  destruct (law_creat i w d f p) as (fd & w' & E & Hfd & HF & HO & HN & HH'); [by apply Hp|done|].
  unfold P. rewrite E. cbn [fst snd]. rewrite HH in HH'.
  assert (forall g, is_Some (files w p !! g) -> is_Some (files w' p !! g)) as Hi
    by (intros g; rewrite (proj1 HO); apply is_Some_insert).
  edestruct (sstep ∅ _ made (f :: made) w w' Hv HF HH') as [HG H1]; [|done| |done].
  - apply (shared_insert ∅ w w' f b []); [done..|by destruct HF|done|done|]. right. split; [done|].
    exists i, fd. by rewrite HH', lookup_insert_eq.
  - constructor; [by rewrite (proj1 HO), lookup_insert_eq|]. by eapply Forall_impl.
Qed.

Lemma put_whole (b c : bytes) : c = b \/ c = [] -> put (Some 0%nat) c b = b.
Proof.
  cbn [put take Nat.add]. rewrite take_0. intros [->| ->]; [rewrite drop_ge by done|rewrite drop_nil];
    by rewrite app_nil_r.
Qed.

Lemma write_shared fd f b made w :
  goal !! f = Some b -> sview {[fd := (p, f, Some 0%nat)]} (f :: made) w ->
  safe R G (sys (write P fd b))
    (fun c w' => c = len b /\ sview {[fd := (p, f, Some (length b))]} (f :: made) w') w.
Proof.
  intros Hb. apply safe_scall. clear w. intros w Hv. pose proof Hv as (Hp & HH & Hs & Hm).
  assert (exists c, files w p !! f = Some c /\ (c = b \/ c = [])) as (c & Hc & Hcb).
  { apply Forall_cons in Hm as [[c Hc] _]. exists c. split; [done|]. specialize (Hs f).
    rewrite Hb, Hc in Hs. destruct Hs as [?|[[=->]|[[=->] _]]]; auto; done. }
  destruct (law_write i w fd b p f (Some 0%nat) c) as (w' & E & HF & HO & HH');
    [by rewrite HH, lookup_singleton_eq|done|intros n [= <-]; lia|].
  unfold P. rewrite E. cbn [fst snd]. rewrite (put_whole b c Hcb) in HO.
  rewrite HH, insert_singleton_eq in HH'. cbn in HH'.
  assert (forall g, is_Some (files w p !! g) -> is_Some (files w' p !! g)) as Hi
    by (intros g; rewrite (proj1 HO); apply is_Some_insert).
  edestruct (sstep _ _ _ (f :: made) w w' Hv HF HH') as [HG H1]; [|done| |done].
  - apply (shared_insert _ w w' f b b Hs HH); [|by destruct HF|done|done|by left].
    intros fd' h [<- <-]%lookup_singleton_Some. done.
  - by eapply Forall_impl.
Qed.

Lemma close_shared fd f n made w :
  n <> 0%nat -> sview {[fd := (p, f, Some n)]} made w ->
  safe R G (sys (close P fd)) (fun c w' => c = 0 /\ sview ∅ made w') w.
Proof.
  intros Hn. apply safe_scall. clear w. intros w Hv. pose proof Hv as (Hp & HH & Hs & Hm).
  destruct (law_close i w fd) as (w' & E & HF & HO & HH'); [by rewrite HH, lookup_singleton_eq|].
  unfold P. rewrite E. cbn [fst snd]. rewrite HH, delete_singleton_eq in HH'.
  edestruct (sstep _ _ _ made w w' Hv HF HH') as [HG H1]; [| | |done].
  - apply (shared_kept w w' HO (proj2 HF)); [|done]. intros fd' g Hg. rewrite HH in Hg.
    apply lookup_singleton_Some in Hg as [_ [=]]. done.
  - intros g. by rewrite (HO p).
  - eapply Forall_impl; [exact Hm|]. intros g. by rewrite (HO p).
Qed.

Lemma put_file_shared d f b made :
  mount d -> plain f = true -> goal !! f = Some b -> b <> [] ->
  joins (put_file P (d ++ slash :: f) b) made (f :: made).
Proof.
  intros Hd Hf Hb Hne w Hw. apply safe_bind. eapply safe_mono; [|by eapply creat_shared].
  intros fd w1 [Hfd%Z.leb_le H1]. apply safe_demand; [done|]. apply safe_bind.
  eapply safe_mono; [|by eapply write_shared]. intros c w2 [-> H2]. apply safe_demand; [apply Z.eqb_refl|].
  apply safe_bind. eapply safe_mono; [|eapply close_shared; [|done]]; [by intros r w3 [-> H3]|].
  by destruct b.
Qed.

(** the names made by [createn], the last one first *)
Definition names_made (prefix : bytes) (nf : nat) (made : list bytes) : list bytes :=
  foldl (fun made k => numbered prefix k :: made) made (seq 0 nf).

Lemma createn_shared d prefix nf made :
  mount d -> shorts prefix nf = true -> has_numbered prefix nf goal = true ->
  joins (createn P d prefix nf) made (names_made prefix nf made).
Proof.
  intros Hd Hs Hg w Hw. apply (safe_each R G _ (sview ∅)); [|done]. clear w Hw. intros l1 k l2 E w Hw.
  pose proof (forallb_at _ _ _ _ _ Hs E : short (numbered prefix k) = true) as Hk.
  apply (forallb_at _ _ _ _ _) with (2 := E) in Hg. apply bool_decide_eq_true in Hg.
  rewrite sprintf_short; [|by apply Hlen|done]. apply put_file_shared; [done|by apply short_plain|done..].
Qed.

Lemma dircheck_shared d nf made :
  mount d -> (forall f, is_Some (goal !! f) -> f ∈ made) -> (nf <= 1000)%nat -> entries goal = nf ->
  joins (dircheck P d nf) made made.
Proof.
  intros Hd Hall Hnf He w Hw. apply safe_bind.
  eapply (safe_mono _ _ _ (fun l w' => listed l goal /\ sview ∅ made w')); [|eapply safe_scall; [|done]].
  - intros l w1 [Hls H1]. by apply (dircheck_passes R G l goal nf).
  - intros w1 Hv. pose proof Hv as (Hp & HH & Hs & Hm).
    destruct (law_list i w1 d p) as (l & w2 & E & HF & HO & HH' & HP); [by apply Hv|].
    unfold P. rewrite E. cbn [fst snd]. rewrite HH in HH'.
    edestruct (sstep _ _ _ made w1 w2 Hv HF HH') as [HG H1].
    + apply (shared_kept w1 w2 HO (proj2 HF)); [|done]. intros fd' g Hg. by rewrite HH', <- HH.
    + intros g. by rewrite (HO p).
    + eapply Forall_impl; [exact Hm|]. intros g. by rewrite (HO p).
    + split; [done|]. split; [|done]. exists l. split; [done|]. rewrite HP.
      rewrite (keys_perm (files w1 p) goal); [done|]. intros f. specialize (Hs f).
      split; [intros [c Hc]; destruct (goal !! f); [done|congruence]|].
      intros Hf%Hall. by apply (proj1 (Forall_forall _ _) Hm).
Qed.

(** When neither process has a file open, the files are complete. *)
Lemma shared_complete made w :
  sview ∅ made w -> handles w (other i) = ∅ -> (forall f, is_Some (goal !! f) -> f ∈ made) ->
  files w p = goal.
Proof.
  intros (Hp & HH & Hs & Hm) Ho Hall. apply map_eq. intros f. specialize (Hs f).
  destruct (goal !! f) as [b|] eqn:Hb; [|done].
  destruct (proj1 (Forall_forall _ _) Hm f) as [c Hc]; [by apply Hall|].
  destruct Hs as [?|[?|[Hs (j & fd & Hj)]]]; [congruence|done|].
  assert (handles w j = ∅) as Hz by (destruct (decide (j = i)) as [->|]; [done|];
    by replace j with (other i) by (by destruct i, j)).
  rewrite Hz in Hj. done.
Qed.

End Shared.

(** ** A process that forks *)

Section Fork.
Context {W : Type} (K : kernel W) `{!KernelLaws K}.

Lemma fork_reap_runs R1 R2 `{!PreOrder R1, !PreOrder R2} sched c q (Q Q' : W -> Prop) w :
  stable R1 (fun _ : unit => Q) -> stable R2 (fun _ : unit => Q') ->
  (forall w1, frame child w w1 -> same_files w w1 -> handles w1 child = handles w parent ->
     safe R1 R2 c (fun _ => Q) w1 /\ safe R2 R1 q (fun _ => Q') w1) ->
  exists w', fork_reap K sched c q w = (Ok (), w') /\ Q w' /\ Q' w'.
Proof.
  intros SQ SQ' Hs. unfold fork_reap.
  destruct (law_fork w) as (pid & w1 & -> & Hpid & HF & F1 & HC).
  rewrite (proj2 (Z.ltb_ge pid 0)) by lia. destruct (Hs w1 HF F1 HC) as [Hc Hq].
  destruct (safe_interleave R1 R2 sched c q _ _ w1 SQ SQ' Hc Hq) as ([] & [] & w2 & -> & H2 & H3).
  unfold T_bind, alone, reap, waitpid. rewrite (proj2 (Z.leb_le 0 pid)), Z.eqb_refl by lia.
  by exists w2.
Qed.

(** A process that runs alone. *)
Lemma alone_runs own own' mount p t m m' w :
  takes K parent own own' mount p t m m' -> view K parent own mount p ∅ m w ->
  exists w', alone t w = (Ok (), w') /\ view K parent own mount p ∅ m' w' /\ rely child own' w w'.
Proof.
  intros Ht Hw. destruct (safe_run (rely parent own) (rely child own') t
    (fun _ => view K parent own mount p ∅ m') w (Ht w Hw)) as ([] & w' & E & Hw' & HG). by exists w'.
Qed.

Lemma call_zero (f : W -> Z * W) w w' :
  f w = (0, w') -> alone (r ← sys f; demand (r =? 0)) w = (Ok (), w').
Proof. intros E. cbn. by rewrite E. Qed.

Lemma path_alone {A} d f (k : bytes -> T W A) w :
  (length (d ++ slash :: f) <= 400)%nat -> (n ← alone (sprintf_path d f); k n) w = k (d ++ slash :: f) w.
Proof.
  intros Hl. unfold mbind, T_bind, alone, sprintf_path. by rewrite (proj2 (Nat.ltb_lt _ _)) by lia.
Qed.

Lemma then_runs {A} (t : T W unit) (k : T W A) w w' : t w = (Ok (), w') -> (t;; k) w = k w'.
Proof. intros E. unfold mbind, T_bind. by rewrite E. Qed.
End Fork.

(** ** [test-lab-4-b.c] *)

Section Mounts.
Context {W : Type} (K : kernel W) `{!KernelLaws K}.
(** The two paths name one directory. *)
Context (d1 d2 : bytes) (p : Z).
Context (Hlen : (length d1 <= 400)%nat /\ (length d2 <= 400)%nat).

Definition mount (d : bytes) : Prop := d = d1 \/ d = d2.

Lemma mount_length d : mount d -> (length d <= 400)%nat.
Proof. destruct Hlen. by intros [->| ->]. Qed.

(** No other process runs, and this one has no file open. *)
Definition calm (m : gmap bytes bytes) (w : W) : Prop :=
  (forall d, mount d -> place w d = Some p) /\ files w p = m /\ handles w parent = ∅.

Definition leads (t : T W unit) (m m' : gmap bytes bytes) : Prop :=
  forall w, calm m w -> exists w', t w = (Ok (), w') /\ calm m' w'.

Lemma leads_bind t k m1 m2 m3 : leads t m1 m2 -> leads k m2 m3 -> leads (t;; k) m1 m3.
Proof.
  intros Ht Hk w Hw. destruct (Ht w Hw) as (w1 & E1 & H1). unfold mbind, T_bind. rewrite E1. by apply Hk.
Qed.

Lemma leads_to t m m' m'' : leads t m m' -> m' = m'' -> leads t m m''.
Proof. by intros ? <-. Qed.

(** All files belong to a process that is alone. *)
Definition solo : prog W unit -> gmap bytes bytes -> gmap bytes bytes -> Prop :=
  takes K parent (fun _ _ => True) (fun _ _ => False) mount p.

Lemma alone_ok t m m' : solo t m m' -> leads (alone t) m m'.
Proof.
  intros Ht w (Hp & Hm & HH). destruct (alone_runs K _ _ _ _ t m m' w Ht) as (w' & E & (Hp' & HH' & Hm') & _).
  - split; [done|]. split; [done|]. intros f _. by rewrite Hm.
  - exists w'. split; [done|]. split; [done|]. split; [|done]. apply map_eq. intros f. by apply Hm'.
Qed.

Lemma fork_reap_ok R1 R2 `{!PreOrder R1, !PreOrder R2} sched c q (Q Q' : W -> Prop) m m' :
  stable R1 (fun _ : unit => Q) -> stable R2 (fun _ : unit => Q') ->
  (forall w, calm m w -> handles w child = ∅ ->
     safe R1 R2 c (fun _ => Q) w /\ safe R2 R1 q (fun _ => Q') w) ->
  (forall w, Q w -> Q' w -> calm m' w) ->
  leads (fork_reap K sched c q) m m'.
Proof.
  intros SQ SQ' Hs Hend w (Hp & Hm & HH).
  destruct (fork_reap_runs K R1 R2 sched c q Q Q' w SQ SQ') as (w' & E & HQ & HQ').
  - intros w1 [P1 H1] F1 HC. apply Hs; [|by rewrite HC].
    split; [intros d Hd; rewrite P1; by apply Hp|]. cbn [other] in H1. by rewrite F1, H1.
  - exists w'. split; [done|]. by apply Hend.
Qed.

(** Two processes with files of their own: the child has those that [mine]
    selects. *)
Definition joined (mine : bytes -> bool) (mc mp : gmap bytes bytes) : gmap bytes bytes :=
  filter (fun x => mine x.1 = true) mc ∪ filter (fun x => mine x.1 = false) mp.

Lemma joined_lookup mine mc mp f :
  joined mine mc mp !! f = if mine f then mc !! f else mp !! f.
Proof.
  unfold joined. rewrite lookup_union, !map_lookup_filter.
  destruct (mine f) eqn:E, (mc !! f) eqn:Ec, (mp !! f) eqn:Ep; cbn [mbind option_bind];
    repeat (case_guard; cbn); try done; cbn in *; congruence.
Qed.

Lemma fork_apart sched c q mine m mc mp :
  let own := fun (_ : Z) f => mine f = true in
  let rest := fun (_ : Z) f => mine f = false in
  takes K child own rest mount p c m mc -> takes K parent rest own mount p q m mp ->
  leads (fork_reap K sched c q) m (joined mine mc mp).
Proof.
  intros own rest Hc Hq. apply (fork_reap_ok (rely child own) (rely parent rest) sched c q
    (view K child own mount p ∅ mc) (view K parent rest mount p ∅ mp)).
  - intros _ w w'. apply view_stable.
  - intros _ w w'. apply view_stable.
  - intros w (Hp & Hm & HH) HC. split; [apply Hc|apply Hq]; (split; [done|]); (split; [done|]); intros f _; by rewrite Hm.
  - intros w (Hp & HC & Hmc) (_ & HH & Hmp). split; [done|]. split; [|done]. apply map_eq. intros f.
    rewrite joined_lookup. destruct (mine f) eqn:E; [by apply Hmc|by apply Hmp].
Qed.

(** Two processes that make the same files. *)
Lemma fork_same sched c q goal made made' :
  joins K child mount p goal c [] made -> joins K parent mount p goal q [] made' ->
  (forall f, is_Some (goal !! f) -> f ∈ made') ->
  leads (fork_reap K sched c q) ∅ goal.
Proof.
  intros Hc Hq Hall. apply (fork_reap_ok (joint K p goal child) (joint K p goal parent) sched c q
    (sview K child mount p goal ∅ made) (sview K parent mount p goal ∅ made')).
  - intros _ w w'. apply sview_stable.
  - intros _ w w'. apply sview_stable.
  - intros w (Hp & Hm & HH) HC.
    assert (shared K p goal w) as Hs by (intros f; rewrite Hm; destruct (goal !! f); [by left|done]).
    split; [by apply Hc|by apply Hq].
  - intros w (Hp & HC & _ & _) Hv. split; [done|]. split; [|apply Hv].
    by apply (shared_complete K parent mount p goal made' w).
Qed.

(** The hypotheses of the lemmas on the functions, for files that are known. *)
Ltac side :=
  lazymatch goal with
  | |- mount _ => first [ by left | by right | done ]
  | |- forall d, mount d -> _ => exact mount_length
  | |- forall q f, _ -> _ -> False => intros ? ? ? ?; first [ done | congruence ]
  | |- forall _, _ => intros ?; first [ exact I | reflexivity ]
  | |- True => exact I
  | |- NoDup _ => apply (bool_decide_eq_true _); vm_compute; reflexivity
  | |- (_ <= _)%nat => lia
  | |- _ <= _ => first [ assumption | by vm_compute ]
  | |- <[_ := _]> _ !! _ = _ => first [ apply lookup_insert_eq | vm_compute; reflexivity ]
  | |- _ => vm_compute; reflexivity
  end.
Ltac run_step :=
  lazymatch goal with
  | |- takes _ _ _ _ _ _ ?t _ _ =>
      lazymatch t with
      | create1 _ _ _ _ => eapply create1_ok
      | append1 _ _ _ _ => eapply append1_ok
      | check1 _ _ _ _ => eapply check1_ok
      | checknot _ _ _ => eapply checknot_ok
      | unlink1 _ _ _ => eapply unlink1_ok
      | dircheck _ _ _ => eapply dircheck_ok
      | createn _ _ _ _ => eapply createn_ok
      | checkn _ _ _ _ => eapply checkn_ok
      | unlinkn _ _ _ _ => eapply unlinkn_ok
      end
  end; side.
Ltac run_steps := repeat (eapply takes_bind; [run_step|]).

Lemma tests_ok (big : bytes) : len big <= 20999 -> solo (tests (calls K parent) d1 d2 big) ∅ ∅.
Proof.
  intros Hbig. unfold solo, tests. run_steps. eapply takes_to; [run_step|].
  rewrite delete_insert_id; [|vm_compute; done]. by vm_compute.
Qed.

Definition begins (s f : bytes) : bool := bool_decide (take (length s) f = s).

(** the files that both processes make *)
Definition zz : gmap bytes bytes := with_numbered (str "zz") 20 ∅.

Lemma zz_made f : is_Some (zz !! f) -> f ∈ names_made (str "zz") 20 [].
Proof.
  intros [b Hb]. refine (map_Forall_lookup_1 (fun f _ => f ∈ names_made (str "zz") 20 []) zz f b _ Hb).
  apply (bool_decide_eq_true _). vm_compute. reflexivity.
Qed.

Lemma same_files_ok sched d d' :
  mount d -> mount d' ->
  leads (fork_reap K sched (createn (calls K child) d (str "zz") 20)
                   (createn (calls K parent) d' (str "zz") 20;; dircheck (calls K parent) d' 20)) ∅ zz.
Proof.
  intros Hd Hd'. eapply fork_same; [|intros w Hw; apply safe_bind|exact zz_made].
  - apply createn_shared; [exact mount_length|done|by vm_compute..].
  - eapply safe_mono; [|apply createn_shared; [exact mount_length|done|by vm_compute|by vm_compute|done]].
    intros u w'. apply dircheck_shared; [done|exact zz_made|lia|by vm_compute].
Qed.

Ltac run_alone := apply alone_ok; unfold solo; run_steps; run_step.

(** after which the directory is empty *)
Ltac run_clean := eapply (leads_to _ _ _ ∅); [run_alone|vm_compute; reflexivity].

Lemma concurrent_tests_ok sched : leads (concurrent_tests K sched d1 d2) ∅ ∅.
Proof.
  unfold concurrent_tests.
  eapply leads_bind; [apply (fork_apart _ _ _ (begins (str "xx"))); run_step|].
  eapply leads_bind; [run_clean|].
  eapply leads_bind; [apply same_files_ok; side|].
  eapply leads_bind; [run_clean|].
  eapply leads_bind; [run_alone|].
  eapply leads_bind; [apply (fork_apart _ _ _ (fun f => begins (str "x1") f || begins (str "x3") f));
                      run_steps; run_step|].
  eapply leads_bind; [run_clean|].
  eapply leads_bind; [apply same_files_ok; side|].
  run_clean.
Qed.

End Mounts.

Definition at_mount (argv1 : bytes) (name : bytes) (getpid : Z) : bytes :=
  argv1 ++ slash :: (name ++ dec getpid).

(** ** [test-lab-4-c.c] *)

Section Apart.
Context {W : Type} (K : kernel W) `{!KernelLaws K}.

Definition in_dir (p q : Z) (_ : bytes) : Prop := q = p.
Definition elsewhere (p q : Z) (_ : bytes) : Prop := q <> p.

(** What is left of the files that a process makes in its directory. *)
Definition last_one (prefix : bytes) : gmap bytes bytes :=
  without_numbered prefix 99 (with_numbered prefix 100 ∅).

Lemma make_remove i own own' d q prefix :
  (forall q f, own q f -> own' q f -> False) -> (forall f, own q f) -> (length d <= 400)%nat ->
  shorts prefix 100 = true -> shorts prefix 99 = true -> NoDup (map (numbered prefix) (seq 0 99)) ->
  has_numbered prefix 99 (with_numbered prefix 100 ∅) = true ->
  takes K i own own' (fun x => x = d) q
    (test_lab_4_c.createn (calls K i) d prefix 100;; test_lab_4_c.unlinkn (calls K i) d prefix 99)
    ∅ (last_one prefix).
Proof.
  intros Ho Hq Hd Hs Hs' Hn Hh. assert (forall x, x = d -> (length x <= 400)%nat) as Hl by by intros x ->.
  eapply takes_bind; [by eapply createn_ok|by eapply unlinkn_ok].
Qed.

Lemma dircheck_one d q m w :
  (length d <= 400)%nat -> place w d = Some q -> handles w parent = ∅ -> files w q = m -> entries m = 1%nat ->
  exists w', alone (test_lab_4_c.dircheck (calls K parent) d 1) w = (Ok (), w') /\
    handles w' parent = ∅ /\ files w' q = m /\ rely child (elsewhere q) w w'.
Proof.
  intros Hd Hp HH Hm He.
  destruct (alone_runs K (in_dir q) (elsewhere q) (fun x => x = d) q
    (dircheck (calls K parent) d 1) m m w) as (w' & E & (_ & HH' & Hm') & HG).
  - apply dircheck_ok; [done|done|lia|done].
  - split; [by intros x ->|]. split; [done|]. intros f _. by rewrite Hm.
  - exists w'. split; [done|]. split; [done|]. split; [|done]. apply map_eq. intros f. by apply Hm'.
Qed.

Context (d1 d2 : bytes) (p1 p2 : Z) (Hne : p1 <> p2).
Context (Hlen : (length d1 <= 400)%nat /\ (length d2 <= 400)%nat).

(** The two processes, each in its own directory. *)
Lemma separate_directories sched w :
  place w d1 = Some p1 -> place w d2 = Some p2 -> files w p1 = ∅ -> files w p2 = ∅ ->
  handles w parent = ∅ ->
  exists w', test_lab_4_b.fork_reap K sched
    (test_lab_4_c.createn (calls K child) d2 (str "xx") 100;; test_lab_4_c.unlinkn (calls K child) d2 (str "xx") 99)
    (test_lab_4_c.createn (calls K parent) d1 (str "yy") 100;; test_lab_4_c.unlinkn (calls K parent) d1 (str "yy") 99)
    w = (Ok (), w') /\
    place w' d1 = Some p1 /\ place w' d2 = Some p2 /\ handles w' parent = ∅ /\
    files w' p1 = last_one (str "yy") /\ files w' p2 = last_one (str "xx").
Proof.
  intros P1 P2 F1 F2 HH.
  destruct (fork_reap_runs K (rely child (in_dir p2)) (rely parent (elsewhere p2)) sched
    (test_lab_4_c.createn (calls K child) d2 (str "xx") 100;; test_lab_4_c.unlinkn (calls K child) d2 (str "xx") 99)
    (test_lab_4_c.createn (calls K parent) d1 (str "yy") 100;; test_lab_4_c.unlinkn (calls K parent) d1 (str "yy") 99)
    (view K child (in_dir p2) (fun x => x = d2) p2 ∅ (last_one (str "xx")))
    (view K parent (elsewhere p2) (fun x => x = d1) p1 ∅ (last_one (str "yy"))) w)
    as (w' & E & (Q1 & _ & Q3) & (Q4 & Q5 & Q6)).
  - intros _ w1 w2. apply view_stable.
  - intros _ w1 w2. apply view_stable.
  - intros w1 [HP HF] HS HC. cbn [other] in HF. split.
    + apply (make_remove child (in_dir p2) (elsewhere p2)); [by intros ? ? ? ?|done|apply Hlen|
        by vm_compute|by vm_compute|apply (bool_decide_eq_true _); by vm_compute|by vm_compute|].
      split; [by intros x ->; rewrite HP|]. split; [by rewrite HC|]. intros f _. by rewrite HS, F2.
    + apply (make_remove parent (elsewhere p2) (in_dir p2)); [by intros ? ? ? ?|done|apply Hlen|
        by vm_compute|by vm_compute|apply (bool_decide_eq_true _); by vm_compute|by vm_compute|].
      split; [by intros x ->; rewrite HP|]. split; [by rewrite HF|]. intros f _. by rewrite HS, F1.
  - exists w'. split; [done|]. split; [by apply Q4|]. split; [by apply Q1|]. split; [done|].
    split; apply map_eq; intros f; [by apply Q6|by apply Q3].
Qed.
End Apart.

Section Main.
Context {W : Type} (K : kernel W) `{!KernelLaws K} (argv1 argv2 : bytes) (getpid : Z).


(** On every kernel that keeps the laws, when the second mount shows the
    directory made in the first, [test-lab-4-c.c] passes, in every order of the
    calls of its two processes, and leaves one file in each directory. *)
Theorem lab_4_c_passes sched w :
  let d1 := at_mount argv1 (str "da") getpid in
  let d2 := at_mount argv2 (str "db") getpid in
  let dd := at_mount argv2 (str "da") getpid in
  spot d1 = spot dd -> spot d1 <> spot d2 ->
  (length d1 <= 400)%nat -> (length d2 <= 400)%nat -> (length dd <= 400)%nat ->
  can_make w d1 -> can_make w d2 -> handles w parent = ∅ ->
  exists w' p1 p2, test_lab_4_c.main K [argv1; argv2] getpid sched w = (Ok (), w') /\
    place w' d1 = Some p1 /\ files w' p1 = last_one (str "yy") /\
    place w' d2 = Some p2 /\ files w' p2 = last_one (str "xx").
Proof.
  intros d1 d2 dd Hs Hns L1 L2 L3 M1 M2 HH. unfold test_lab_4_c.main.
  rewrite path_alone by done. change (argv1 ++ _) with d1.
  destruct (law_mkdir parent w d1 M1) as (w1 & p1 & E1 & P1 & [F1 _] & H1 & _ & O1).
  destruct (O1 d2) as [_ M2']; [done|]. apply M2' in M2. clear M2' O1.
  rewrite (then_runs _ _ w w1) by by apply call_zero. rewrite path_alone by done.
  change (argv2 ++ slash :: str "db" ++ _) with d2.
  destruct (law_mkdir parent w1 d2 M2) as (w2 & p2 & E2 & P2 & [F2 F2'] & H2 & N2 & O2).
  assert (p1 <> p2) as Hne by (intros <-; by apply (N2 d1)).
  rewrite (then_runs _ _ w1 w2) by by apply call_zero. rewrite path_alone by done.
  change (argv2 ++ slash :: str "da" ++ _) with dd.
  destruct (O2 d1) as [P1' _]; [done|]. rewrite P1 in P1'.
  destruct (law_access parent w2 dd p1) as (w3 & E3 & [P3 _] & F3 & H3); [by rewrite <- (law_spot w2 d1 dd)|].
  rewrite (then_runs _ _ w2 w3) by by apply call_zero.
  destruct (separate_directories K d1 d2 p1 p2 Hne (conj L1 L2) sched w3) as (w4 & E4 & P4 & P4' & H4 & F4 & F4');
    [by rewrite P3|by rewrite P3|by rewrite F3, F2'|by rewrite F3|by rewrite H3, H2, H1|].
  rewrite (then_runs _ _ w3 w4) by exact E4.
  destruct (dircheck_one K d1 p1 (last_one (str "yy")) w4) as (w5 & E5 & H5 & F5 & P5 & _ & R5); [done..|by vm_compute|].
  assert (files w5 p2 = last_one (str "xx")) as F5'.
  { rewrite <- F4'. apply map_eq. intros f. by apply R5. }
  destruct (dircheck_one K d2 p2 (last_one (str "xx")) w5) as (w6 & E6 & H6 & F6 & P6 & _ & R6);
    [done|by rewrite P5|done..|by vm_compute|].
  exists w6, p1, p2. split; [|split; [by rewrite P6, P5|]; split; [|by rewrite P6, P5]].
  - unfold alone in E5 |- *. by rewrite (run_bind _ _ _ _ _ E5).
  - rewrite <- F5. apply map_eq. intros f. by apply R6.
Qed.
End Main.


Lemma lab_4_c_passes_witness : exists w' p1 p2,
  test_lab_4_c.main mem_kernel [str "/a"; str "/b"] 7 [true; false; false] mem0 = (Ok (), w') /\
  place w' (at_mount (str "/a") (str "da") 7) = Some p1 /\ files w' p1 = last_one (str "yy") /\
  place w' (at_mount (str "/b") (str "db") 7) = Some p2 /\ files w' p2 = last_one (str "xx").
Proof.
  apply (lab_4_c_passes mem_kernel (str "/a") (str "/b") 7 _ mem0);
    [reflexivity|discriminate|apply Nat.leb_le; vm_compute; reflexivity..|reflexivity|reflexivity|reflexivity].
Defined.

(** [check1] compares as many characters as the path has, so it takes a file that
    differs after them. *)
Theorem check1_reads_a_prefix :
  let setup := create1 (mem_calls parent) (str "/a/d7") (str "f1") (str "aaabbbcccX") in
  let check := check1 (mem_calls parent) (str "/b/d7") (str "f1") (str "aaabbbcccY") in
  let w := (mkdir (mem_calls parent) (str "/a/d7") mem0).2 in
  (run (setup;; check) w).1 = Ok ().
Proof. vm_compute. reflexivity. Qed.
